(** * PolyParser: the layout and save-slot codecs of [src/main.cpp]

    A shallow embedding of the binary codecs of PolyParser.  Every C++
    method that touches a stream becomes a computation in a small state and
    failure monad over the file contents, the cursor and the global counter
    [unusualNumbers]; [exit(1)] and a failed [assert] are fatal outcomes.

    Modelling conventions
    - machine integers are [Z] with the wrap-around written out;
    - the host is little-endian (the code reads scalars with
      [reinterpret_cast], so the on-disk order is the host order);
    - a [float] is carried as its 32-bit IEEE-754 pattern, arithmetic on it
      goes through [SpecFloat] at precision 24 with round-to-nearest-even;
    - [std::string] is [string], a file is a [list byte];
    - where the source does not determine what the program does, the
      outcome is [Undefined] and nothing more is said about the run: an
      [ifstream::read] that runs past the end of the file leaves its
      destination indeterminate and the readers use it untested, a read
      past the end of a bare buffer is out of bounds, and [printf] with a
      conversion and no argument reads an argument that was not passed;
    - [assert] is taken as active (no [NDEBUG]);
    - the program runs in its default mode ([silent] is false).  Of the
      log output the model keeps what decides how a run goes on: the guard
      behind every number routed through [Utils::intc], and the calls
      that pass a decoded string to [printf] as its format.  The other
      calls print a fixed format with matching arguments, or a text built
      from numbers, which holds no [%]. *)

From Stdlib Require Import ZArith List Lia Bool Ascii String SpecFloat.
From Stdlib Require Import Strings.Byte.
From Stdlib Require Import DecimalString.
Import ListNotations.
Local Open Scope Z_scope.

(** ** Machine integers and bytes *)

Definition wrap (bits x : Z) : Z := x mod 2 ^ bits.

Definition signed (bits x : Z) : Z :=
  let u := wrap bits x in
  if u <? 2 ^ (bits - 1) then u else u - 2 ^ bits.

Definition uint8 : Z -> Z := wrap 8.
Definition uint16 : Z -> Z := wrap 16.
Definition int8 : Z -> Z := signed 8.
Definition int16 : Z -> Z := signed 16.
Definition int32 : Z -> Z := signed 32.
Definition int64 : Z -> Z := signed 64.

Definition Z_of_byte (b : byte) : Z := Z.of_N (Byte.to_N b).

Definition byte_of_Z (z : Z) : byte :=
  match Byte.of_N (Z.to_N (z mod 256)) with
  | Some b => b
  | None => x00
  end.

(** The object representation of an [n]-byte scalar, low byte first. *)
Fixpoint le_bytes (n : nat) (x : Z) : list byte :=
  match n with
  | O => []
  | S n' => byte_of_Z x :: le_bytes n' (x / 256)
  end.

Fixpoint le_value (bs : list byte) : Z :=
  match bs with
  | [] => 0
  | b :: rest => Z_of_byte b + 256 * le_value rest
  end.

Definition string_bytes (s : string) : list byte := list_byte_of_string s.
Definition bytes_string (bs : list byte) : string := string_of_list_byte bs.

(** ** IEEE-754 binary32 on bit patterns *)

Module F32.
Definition prec : Z := 24.
Definition emax : Z := 128.

Definition of_bits (b : Z) : spec_float :=
  let sign := Z.testbit b 31 in
  let e := Z.land (Z.shiftr b 23) 255 in
  let m := Z.land b (2 ^ 23 - 1) in
  if e =? 0 then
    match m with
    | Zpos p => S754_finite sign p (-149)
    | _ => S754_zero sign
    end
  else if e =? 255 then
    if m =? 0 then S754_infinity sign else S754_nan
  else
    match m + 2 ^ 23 with
    | Zpos p => S754_finite sign p (e - 150)
    | _ => S754_nan
    end.

Definition sign_bit (s : bool) : Z := if s then 2 ^ 31 else 0.

(** A computed NaN is given the pattern [0x7FC00000]. *)
Definition to_bits (f : spec_float) : Z :=
  match f with
  | S754_zero s => sign_bit s
  | S754_infinity s => sign_bit s + 0x7F800000
  | S754_nan => 0x7FC00000
  | S754_finite s m e =>
      sign_bit s +
      (if Zpos m <? 2 ^ 23 then Zpos m
       else (e + 150) * 2 ^ 23 + (Zpos m - 2 ^ 23))
  end.

Definition add (a b : Z) : Z := to_bits (SFadd prec emax (of_bits a) (of_bits b)).
Definition sub (a b : Z) : Z := to_bits (SFsub prec emax (of_bits a) (of_bits b)).
Definition mul (a b : Z) : Z := to_bits (SFmul prec emax (of_bits a) (of_bits b)).
Definition div (a b : Z) : Z := to_bits (SFdiv prec emax (of_bits a) (of_bits b)).
Definition ltb (a b : Z) : bool := SFltb (of_bits a) (of_bits b).
Definition leb (a b : Z) : bool := SFleb (of_bits a) (of_bits b).

(** [std::abs(float)] clears the sign bit. *)
Definition abs (a : Z) : Z := Z.land a 0x7FFFFFFF.

(** [(float)n] for an integer that binary32 holds exactly or rounds. *)
Definition of_Z (n : Z) : Z := to_bits (binary_normalize prec emax n 0 false).

(** Truncation toward zero, as in a float-to-integer conversion. *)
Definition trunc (a : Z) : Z :=
  match of_bits a with
  | S754_finite s m e =>
      let mag := if 0 <=? e then Zpos m * 2 ^ e else Zpos m / 2 ^ (- e) in
      if s then - mag else mag
  | _ => 0
  end.

(** [(uint8_t)x]; out of range the C++ conversion is undefined and the
    model wraps. *)
Definition to_uint8 (a : Z) : Z := uint8 (trunc a).

Definition zero : Z := 0.                  (* 0.0f *)
Definition quarter : Z := 0x3E800000.      (* 0.25f *)
Definition half : Z := 0x3F000000.         (* 0.5f *)
Definition three_quarters : Z := 0x3F400000. (* 0.75f *)
Definition one : Z := 0x3F800000.          (* 1.0f *)
Definition forty : Z := 0x42200000.        (* 40.0f *)
Definition c255 : Z := 0x437F0000.         (* 255.0f *)
Definition pin_z : Z := 0xBFAC8B44.        (* -1.348f *)
End F32.

(** ** The state and failure monad *)

Record St : Type := mkSt {
  data : list byte;          (* contents of the open file or buffer *)
  pos : nat;                 (* cursor *)
  unusualNumbers : Z         (* the global counter of Utils *)
}.

Inductive Fatal : Type :=
| ExcessiveUnusualNumbers    (* ensureReasonable: exit(1) *)
| BadByteArrayLength         (* readByteArray: exit(1) *)
| AssertionFailed            (* a failed assert *)
| CannotPeekType             (* peekEntryType on TypeName or TypeID *)
| BadTypeName                (* readTypeEntry: not "type, assembly" *)
| UnknownTypeFlag            (* readTypeEntry: neither TypeName nor TypeID *)
| VehicleNotFound            (* findVehicleByGuid: exit(1) *)
| BadAllocation              (* new char[n] with n < 0 *)
| BadConversion.             (* wstring_convert::to_bytes throws *)

(** [Done]: the call returns; [Exit]: the program stops itself;
    [Undefined]: the source leaves open what happens from here on. *)
Inductive Outcome (A : Type) : Type :=
| Done (a : A) (s : St)
| Exit (why : Fatal) (s : St)
| Undefined (s : St).
Arguments Done {A} a s.
Arguments Exit {A} why s.
Arguments Undefined {A} s.

Definition M (A : Type) : Type := St -> Outcome A.

Definition ret {A} (a : A) : M A := fun s => Done a s.

Definition bind {A B} (m : M A) (f : A -> M B) : M B :=
  fun s =>
    match m s with
    | Done a s' => f a s'
    | Exit why s' => Exit why s'
    | Undefined s' => Undefined s'
    end.

Definition exit {A} (why : Fatal) : M A := fun s => Exit why s.

Definition undefined {A} : M A := fun s => Undefined s.

Declare Scope monad_scope.
Delimit Scope monad_scope with monad.
Notation "x <- m ;; k" := (bind m (fun x => k))
  (at level 61, m at next level, right associativity) : monad_scope.
Notation "m ;; k" := (bind m (fun _ => k))
  (at level 61, right associativity) : monad_scope.
Local Open Scope monad_scope.

(** [for (int i = 0; i < count; i++) v.push_back(body());] *)
Fixpoint times {A} (n : nat) (body : M A) : M (list A) :=
  match n with
  | O => ret []
  | S n' => x <- body ;; xs <- times n' body ;; ret (x :: xs)
  end.

Definition for_count {A} (count : Z) (body : M A) : M (list A) :=
  times (Z.to_nat count) body.

(** [for (const T &x : xs) body(x);] *)
Fixpoint forEach {A} (xs : list A) (body : A -> M unit) : M unit :=
  match xs with
  | [] => ret tt
  | x :: rest => body x ;; forEach rest body
  end.

(** *** Stream primitives *)

Definition remaining (s : St) : list byte := skipn (pos s) (data s).

Definition advance (n : nat) (s : St) : St :=
  mkSt (data s) (pos s + n) (unusualNumbers s).

(** [file.read(buf, n)].  Short of [n] bytes the stream fails and the
    destination keeps what it held, which the readers then use without a
    test of the stream. *)
Definition read (n : nat) : M (list byte) :=
  fun s =>
    let r := remaining s in
    if (List.length r <? n)%nat then Undefined s
    else Done (firstn n r) (advance n s).

(** [file.get()], with [EOF = -1] *)
Definition get : M Z :=
  fun s =>
    match remaining s with
    | [] => Done (-1) s
    | b :: _ => Done (Z_of_byte b) (advance 1 s)
    end.

Definition tellg : M nat := fun s => Done (pos s) s.

Definition seekg (p : nat) : M unit :=
  fun s => Done tt (mkSt (data s) p (unusualNumbers s)).

(** [file.seekg(0, std::ios::end)] *)
Definition seekg_end : M unit :=
  fun s => Done tt (mkSt (data s) (List.length (data s)) (unusualNumbers s)).

(** [file.write(buf, n)] on an output stream *)
Definition write (bs : list byte) : M unit :=
  fun s => Done tt (mkSt (data s ++ bs) (pos s + List.length bs) (unusualNumbers s)).

(** ** Macros *)

Definition MAX_VERSION : Z := 26.
Definition MAX_BRIDGE_VERSION : Z := 11.
Definition MAX_SLOT_VERSION : Z := 3.
Definition MAX_PHYSICS_VERSION : Z := 1.

(** ** Data model

    One module per C++ struct, so that the fields keep their names.  Enum
    fields hold the [int] they are cast from. *)

Module Vec3.
Record t : Type := mk { x : Z; y : Z; z : Z }.
Definition zero : t := mk 0 0 0.
End Vec3.

Module Vec2.
Record t : Type := mk { x : Z; y : Z }.
Definition zero : t := mk 0 0.
End Vec2.

Module Quaternion.
Record t : Type := mk { x : Z; y : Z; z : Z; w : Z }.
Definition zero : t := mk 0 0 0 0.
End Quaternion.

Module Color.
Record t : Type := mk { r : Z; g : Z; b : Z; a : Z }.
Definition zero : t := mk 0 0 0 0.
End Color.

Module BridgeJoint.
Record t : Type := mk {
  pos : Vec3.t; is_anchor : bool; is_split : bool; guid : string }.
End BridgeJoint.

Module BridgeEdge.
Record t : Type := mk {
  material_type : Z; node_a_guid : string; node_b_guid : string;
  joint_a_part : Z; joint_b_part : Z; guid : string }.
End BridgeEdge.

Module BridgeSpring.
Record t : Type := mk {
  normalized_value : Z; node_a_guid : string; node_b_guid : string;
  guid : string }.
End BridgeSpring.

Module BridgeSplitJoint.
Record t : Type := mk { guid : string; state : Z }.
End BridgeSplitJoint.

Module Piston.
Record t : Type := mk {
  normalized_value : Z; node_a_guid : string; node_b_guid : string;
  guid : string }.
End Piston.

Module HydraulicPhase.
Record t : Type := mk { time_delay : Z; guid : string }.
End HydraulicPhase.

Module ZAxisVehicle.
Record t : Type := mk {
  pos : Vec2.t; prefab_name : string; guid : string; time_delay : Z;
  speed : Z; rot : Quaternion.t; rotation_degrees : Z }.
End ZAxisVehicle.

Module Vehicle.
Record t : Type := mk {
  display_name : string; pos : Vec2.t; rot : Quaternion.t;
  prefab_name : string; target_speed : Z; mass : Z;
  braking_force_multiplier : Z; strength_method : Z; acceleration : Z;
  max_slope : Z; desired_acceleration : Z; shocks_multiplier : Z;
  rotation_degrees : Z; time_delay : Z; idle_on_downhill : bool;
  flipped : bool; ordered_checkpoints : bool; guid : string;
  checkpoint_guids : list string }.
End Vehicle.

Module VehicleStopTrigger.
Record t : Type := mk {
  pos : Vec2.t; rot : Quaternion.t; height : Z; rotation_degrees : Z;
  flipped : bool; prefab_name : string; stop_vehicle_guid : string }.
End VehicleStopTrigger.

Module ThemeObject.
Record t : Type := mk {
  pos : Vec2.t; prefab_name : string; unknown_value : bool }.
End ThemeObject.

Module EventUnit.
Record t : Type := mk { guid : string }.
End EventUnit.

Module EventStage.
Record t : Type := mk { units : list EventUnit.t }.
End EventStage.

Module EventTimeline.
Record t : Type := mk {
  checkpoint_guid : string; stages : list EventStage.t }.
End EventTimeline.

Module Checkpoint.
Record t : Type := mk {
  pos : Vec2.t; prefab_name : string; vehicle_guid : string;
  vehicle_restart_phase_guid : string; trigger_timeline : bool;
  stop_vehicle : bool; reverse_vehicle_on_restart : bool; guid : string }.
End Checkpoint.

Module Platform.
Record t : Type := mk {
  pos : Vec2.t; width : Z; height : Z; flipped : bool; solid : bool }.
End Platform.

Module HydraulicsControllerPhase.
Record t : Type := mk {
  hydraulics_phase_guid : string; piston_guids : list string;
  bridge_split_joints : list BridgeSplitJoint.t;
  disable_new_additions : bool }.
End HydraulicsControllerPhase.

Module TerrainIsland.
Record t : Type := mk {
  pos : Vec3.t; prefab_name : string; height_added : Z;
  right_edge_water_height : Z; terrain_island_type : Z;
  variant_index : Z; flipped : bool; lock_position : bool }.
End TerrainIsland.

Module Ramp.
Record t : Type := mk {
  pos : Vec2.t; control_points : list Vec2.t; height : Z;
  num_segments : Z; spline_type : Z; flipped_vertical : bool;
  flipped_horizontal : bool; hide_legs : bool; flipped_legs : bool;
  line_points : list Vec2.t }.
End Ramp.

Module VehicleRestartPhase.
Record t : Type := mk { time_delay : Z; guid : string; vehicle_guid : string }.
End VehicleRestartPhase.

Module FlyingObject.
Record t : Type := mk { pos : Vec3.t; scale : Vec3.t; prefab_name : string }.
End FlyingObject.

Module Rock.
Record t : Type := mk {
  pos : Vec3.t; scale : Vec3.t; prefab_name : string; flipped : bool }.
End Rock.

Module WaterBlock.
Record t : Type := mk {
  pos : Vec3.t; width : Z; height : Z; lock_position : bool }.
End WaterBlock.

Module Bridge.
Record t : Type := mk {
  version : Z;
  joints : list BridgeJoint.t;
  edges : list BridgeEdge.t;
  springs : list BridgeSpring.t;
  pistons : list Piston.t;
  anchors : list BridgeJoint.t;
  phases : list HydraulicsControllerPhase.t }.
(** [Bridge bridge{}] *)
Definition empty : t := mk 0 [] [] [] [] [] [].
End Bridge.

Module Budget.
Record t : Type := mk {
  cash : Z; road : Z; wood : Z; steel : Z; hydraulics : Z; rope : Z;
  cable : Z; bungee_rope : Z; spring : Z;
  allow_wood : bool; allow_steel : bool; allow_hydraulics : bool;
  allow_rope : bool; allow_cable : bool; allow_spring : bool;
  allow_reinforced_road : bool }.
End Budget.

Module Settings.
Record t : Type := mk { hydraulics_controller_enabled : bool; unbreakable : bool }.
End Settings.

Module CustomShape.
Record t : Type := mk {
  pos : Vec3.t; rot : Quaternion.t; scale : Vec3.t;
  flipped : bool; dynamic : bool; collides_with_road : bool;
  collides_with_nodes : bool; collides_with_split_nodes : bool;
  rotation_degrees : Z; color : Color.t; mass : Z; bounciness : Z;
  pin_motor_strength : Z; pin_target_velocity : Z;
  points_local_space : list Vec2.t; static_pins : list Vec3.t;
  dynamic_anchor_guids : list string }.
End CustomShape.

Module Workshop.
Record t : Type := mk {
  id : string; leaderboard_id : string; title : string;
  description : string; autoplay : bool; tags : list string }.
(** [Workshop workshop{}] *)
Definition empty : t := mk EmptyString EmptyString EmptyString EmptyString false [].
End Workshop.

Module SupportPillar.
Record t : Type := mk { pos : Vec3.t; scale : Vec3.t; prefab_name : string }.
End SupportPillar.

Module Pillar.
Record t : Type := mk { pos : Vec3.t; height : Z; prefab_name : string }.
End Pillar.

Module Mod.
Record t : Type := mk { name : string; version : string; settings : string }.
End Mod.

(** [data] is the payload that [readByteArray] collected. *)
Module ModSaveData.
Record t : Type := mk { data : list byte; name : string; version : string }.
End ModSaveData.

Module ModData.
Record t : Type := mk { mods : list Mod.t; mod_save_data : list ModSaveData.t }.
Definition empty : t := mk [] [].
End ModData.

Module Layout.
Record t : Type := mk {
  version : Z;
  stubKey : string;
  anchors : list BridgeJoint.t;
  phases : list HydraulicPhase.t;
  bridge : Bridge.t;
  zAxisVehicles : list ZAxisVehicle.t;
  vehicles : list Vehicle.t;
  vehicleStopTriggers : list VehicleStopTrigger.t;
  themeObjects_OBSOLETE : list ThemeObject.t;
  eventTimelines : list EventTimeline.t;
  checkpoints : list Checkpoint.t;
  platforms : list Platform.t;
  terrainStretches : list TerrainIsland.t;
  ramps : list Ramp.t;
  vehicleRestartPhases : list VehicleRestartPhase.t;
  flyingObjects : list FlyingObject.t;
  rocks : list Rock.t;
  waterBlocks : list WaterBlock.t;
  budget : Budget.t;
  settings : Settings.t;
  customShapes : list CustomShape.t;
  workshop : Workshop.t;
  supportPillars : list SupportPillar.t;
  pillars : list Pillar.t;
  isModded : bool;
  modData : ModData.t }.
End Layout.

(** [thumbnail] is [None] for the null pointer. *)
Module SaveSlot.
Record t : Type := mk {
  version : Z; physicsVersion : Z; slotId : Z;
  displayName : string; fileName : string; budget : Z;
  lastWriteTimeTicks : Z; bridge : Bridge.t;
  unlimitedMaterials : bool; unlimitedBudget : bool;
  thumbnail : option (list byte) }.
End SaveSlot.

Inductive EntryType : Type :=
| InvalidType | String_ | Guid | Integer | FloatingPoint | Boolean | Null
| StartOfNode | EndOfNodeType | InternalReference | ExternalReferenceByIndex
| ExternalReferenceByGuid | StartOfArrayType | EndOfArrayType
| PrimitiveArrayType | EndOfStreamType | ExternalReferenceByString.

Module EntryTypeReturn.
Record t : Type := mk { type : EntryType; name : string }.
End EntryTypeReturn.

Module TypeEntryReturn.
Record t : Type := mk { typeName : string; assemblyName : string }.
Definition empty : t := mk EmptyString EmptyString.
End TypeEntryReturn.

(** ** namespace Utils *)

Module Utils.

Inductive Log : Type := Silent | Warning | Error.

Inductive Verdict : Type :=
| Continue (counter : Z) (log : Log)
| Abort.

(** The body of [ensureReasonable] as a function of the counter. *)
Definition verdict (counter value min max warnMin warnMax : Z) : Verdict :=
  if value <? min then
    if 3 <=? counter then Abort else Continue (counter + 1) Error
  else if max <? value then
    if 3 <=? counter then Abort else Continue (counter + 1) Error
  else if value <? warnMin then
    if 3 <=? counter then Abort else Continue counter Warning
  else if warnMax <? value then
    if 3 <=? counter then Abort else Continue counter Warning
  else Continue counter Silent.

Definition ensureReasonable (value min max warnMin warnMax : Z) : M unit :=
  fun s =>
    match verdict (unusualNumbers s) value min max warnMin warnMax with
    | Continue c _ => Done tt (mkSt (data s) (pos s) c)
    | Abort => Exit ExcessiveUnusualNumbers s
    end.

(** [bool silent = false;], which only [main] sets, on the option [-s]. *)
Definition silent : bool := false.

(** [printf(format)] without arguments reads the format up to its first
    NUL.  A [%] followed by a second [%] prints one; any other [%] starts
    a conversion that takes an argument which was not passed. *)
Fixpoint format_defined (format : string) : bool :=
  match format with
  | EmptyString => true
  | String c rest =>
      if Ascii.eqb c "000"%char then true
      else if Ascii.eqb c "%"%char then
        match rest with
        | String c' rest' =>
            if Ascii.eqb c' "%"%char then format_defined rest' else false
        | EmptyString => false
        end
      else format_defined rest
  end.

Definition printf (format : string) : M unit :=
  if format_defined format then ret tt else undefined.

(** The escape character of the colour codes, and the line feed. *)
Definition esc : string := String "027"%char EmptyString.
Definition lf : string := String "010"%char EmptyString.

(** [log_info_d(message)] and [log_warn_d(message)], called with the
    message alone. *)
Definition log_info_d (message : string) : M unit :=
  if silent then ret tt
  else printf ("[Deserializer] [" ++ esc ++ "[1;37mINFO" ++ esc ++ "[0m] "
               ++ message ++ lf).

Definition log_warn_d (message : string) : M unit :=
  if silent then ret tt
  else printf ("[Deserializer] [" ++ esc ++ "[1;33mWARN" ++ esc ++ "[0m] "
               ++ message ++ lf).

(** A text in the colour of the values: [[1;95m] before, [[0m] after. *)
Definition bright (text : string) : string :=
  esc ++ "[1;95m" ++ text ++ esc ++ "[0m".

(** [intc] formats a number after passing it through the guard; only
    the guard is kept: the text is made of digits, commas and a colour
    code. *)
Definition intc_in (value min max warnMin warnMax : Z) : M unit :=
  ensureReasonable value min max warnMin warnMax.

(** [intc(value)] with the default arguments. *)
Definition intc (value : Z) : M unit := intc_in value (-1000) 10000 0 4096.

(** [splitString]: the [find] loop.  [end_] is [None] for [npos].  The
    loop ends for a non-empty delimiter; [fuel] bounds it by the length
    of the string. *)
Fixpoint splitLoop (fuel : nat) (str delimiter : string) (start : nat)
    (end_ : option nat) (result : list string) : list string :=
  match end_ with
  | None => result ++ [substring start (String.length str - start) str]
  | Some e =>
      match fuel with
      | O => result
      | S fuel' =>
          let result' := result ++ [substring start (e - start) str] in
          let start' := (e + String.length delimiter)%nat in
          splitLoop fuel' str delimiter start'
            (index start' delimiter str) result'
      end
  end.

Definition splitString (str delimiter : string) : list string :=
  splitLoop (S (String.length str)) str delimiter 0%nat
    (index 0 delimiter str) [].

End Utils.

(** The private delimiter U+058D, two bytes in UTF-8. *)
Definition modDelimiter : string := bytes_string [xd6; x8d].

(** ** class Deserializer *)

Module Deserializer.

Definition clamp01 (value : Z) : Z :=
  if F32.ltb value F32.zero then F32.zero
  else if F32.ltb F32.one value then F32.one
  else value.

Definition lerp (a b t : Z) : Z := F32.add a (F32.mul (F32.sub b a) t).

Definition fixPistonNormalizedValue (value : Z) : Z :=
  if F32.ltb value F32.quarter then
    lerp F32.one F32.half (clamp01 (F32.div value F32.quarter))
  else if F32.ltb F32.three_quarters value then
    lerp F32.half F32.one
      (clamp01 (F32.div (F32.sub value F32.three_quarters) F32.quarter))
  else
    lerp F32.zero F32.half
      (clamp01 (F32.div (F32.abs (F32.sub value F32.half)) F32.quarter)).

Definition readByte : M byte := bs <- read 1 ;; ret (hd x00 bs).

Definition readBytes (count : Z) : M (list byte) := read (Z.to_nat count).

Definition readInt8 : M Z := bs <- read 1 ;; ret (int8 (le_value bs)).

Definition readBool : M bool := v <- readInt8 ;; ret (negb (v =? 0)).

Definition readInt16 : M Z := bs <- read 2 ;; ret (int16 (le_value bs)).

Definition readUInt16 : M Z := bs <- read 2 ;; ret (uint16 (le_value bs)).

Definition readInt32 : M Z := bs <- read 4 ;; ret (int32 (le_value bs)).

Definition readFloat : M Z := bs <- read 4 ;; ret (le_value bs).

Definition readString : M string :=
  length <- readUInt16 ;;
  bytes <- readBytes length ;;
  ret (bytes_string bytes).

Definition readByteArray : M (list byte) :=
  length <- readInt32 ;;
  if 0 <? length then
    array <- for_count length (readBytes 1) ;;
    ret (List.concat array)
  else exit BadByteArrayLength.

(** [-version] overflows for [INT_MIN]; the model wraps. *)
Definition getVersion : M (Z * bool) :=
  version <- readInt32 ;;
  if version <? 0 then ret (int32 (- version), true)
  else ret (version, false).

Definition getStubKey : M string := readString.

Definition readVec3 : M Vec3.t :=
  x <- readFloat ;; y <- readFloat ;; z <- readFloat ;;
  ret (Vec3.mk x y z).

Definition readVec2 : M Vec2.t :=
  x <- readFloat ;; y <- readFloat ;;
  ret (Vec2.mk x y).

Definition readColor : M Color.t :=
  r <- readByte ;; g <- readByte ;; b <- readByte ;;
  ret (Color.mk (F32.div (F32.of_Z (Z_of_byte r)) F32.c255)
                (F32.div (F32.of_Z (Z_of_byte g)) F32.c255)
                (F32.div (F32.of_Z (Z_of_byte b)) F32.c255)
                F32.one).

Definition readQuaternion : M Quaternion.t :=
  x <- readFloat ;; y <- readFloat ;; z <- readFloat ;; w <- readFloat ;;
  ret (Quaternion.mk x y z w).

Definition deserializeAnchor : M BridgeJoint.t :=
  pos <- readVec3 ;;
  is_anchor <- readBool ;;
  is_split <- readBool ;;
  guid <- readString ;;
  ret (BridgeJoint.mk pos is_anchor is_split guid).

Definition deserializeAnchors : M (list BridgeJoint.t) :=
  count <- readInt32 ;;
  Utils.intc count ;;
  for_count count deserializeAnchor.

Definition deserializePhase : M HydraulicPhase.t :=
  time_delay <- readFloat ;;
  guid <- readString ;;
  ret (HydraulicPhase.mk time_delay guid).

Definition deserializePhases : M (list HydraulicPhase.t) :=
  count <- readInt32 ;;
  Utils.intc count ;;
  for_count count deserializePhase.

Definition deserializeJoint : M BridgeJoint.t :=
  pos <- readVec3 ;;
  is_anchor <- readBool ;;
  is_split <- readBool ;;
  guid <- readString ;;
  ret (BridgeJoint.mk pos is_anchor is_split guid).

Definition deserializeEdge (version : Z) : M BridgeEdge.t :=
  material_type <- readInt32 ;;
  node_a_guid <- readString ;;
  node_b_guid <- readString ;;
  joint_a_part <- readInt32 ;;
  joint_b_part <- readInt32 ;;
  guid <- (if 11 <=? version then readString else ret EmptyString) ;;
  ret (BridgeEdge.mk material_type node_a_guid node_b_guid
         joint_a_part joint_b_part guid).

Definition deserializeSpring : M BridgeSpring.t :=
  normalized_value <- readFloat ;;
  node_a_guid <- readString ;;
  node_b_guid <- readString ;;
  guid <- readString ;;
  ret (BridgeSpring.mk normalized_value node_a_guid node_b_guid guid).

Definition deserializePiston (version : Z) : M Piston.t :=
  normalized_value <- readFloat ;;
  node_a_guid <- readString ;;
  node_b_guid <- readString ;;
  guid <- readString ;;
  ret (Piston.mk
         (if version <? 8 then fixPistonNormalizedValue normalized_value
          else normalized_value)
         node_a_guid node_b_guid guid).

Definition deserializeSplitJoint : M BridgeSplitJoint.t :=
  guid <- readString ;;
  state <- readInt32 ;;
  ret (BridgeSplitJoint.mk guid state).

Definition deserializeHydraulicControllerPhase (version : Z)
    : M HydraulicsControllerPhase.t :=
  hydraulics_phase_guid <- readString ;;
  count <- readInt32 ;;
  piston_guids <- for_count count readString ;;
  bridge_split_joints <-
    (if 2 <? version then
       count <- readInt32 ;;
       for_count count deserializeSplitJoint
     else
       count <- readInt32 ;;
       for_count count readString ;;      (* garbage data *)
       ret []) ;;
  disable_new_additions <- (if 9 <? version then readBool else ret false) ;;
  ret (HydraulicsControllerPhase.mk hydraulics_phase_guid piston_guids
         bridge_split_joints disable_new_additions).

Definition deserializeBridge : M Bridge.t :=
  version <- readInt32 ;;
  Utils.ensureReasonable version 0 100 0 50 ;;
  Utils.intc version ;;
  if version <? 2 then ret (Bridge.mk version [] [] [] [] [] [])
  else
    count <- readInt32 ;;
    Utils.intc count ;;
    joints <- for_count count deserializeJoint ;;
    count <- readInt32 ;;
    Utils.intc count ;;
    edges <- for_count count (deserializeEdge version) ;;
    springs <-
      (if 7 <=? version then
         count <- readInt32 ;;
         Utils.intc count ;;
         for_count count deserializeSpring
       else ret []) ;;
    count <- readInt32 ;;
    Utils.intc count ;;
    pistons <- for_count count (deserializePiston version) ;;
    count <- readInt32 ;;
    Utils.intc count ;;
    phases <- for_count count (deserializeHydraulicControllerPhase version) ;;
    (if version =? 5 then
       count <- readInt32 ;;
       for_count count readString ;;
       ret tt
     else ret tt) ;;
    anchors <-
      (if 6 <=? version then
         count <- readInt32 ;;
         Utils.intc count ;;
         for_count count deserializeAnchor
       else ret []) ;;
    (if (4 <=? version) && (version <? 9) then readBool ;; ret tt
     else ret tt) ;;
    ret (Bridge.mk version joints edges springs pistons anchors phases).

Definition deserializeZAxisVehicle (version : Z) : M ZAxisVehicle.t :=
  pos <- readVec2 ;;
  prefab_name <- readString ;;
  guid <- readString ;;
  time_delay <- readFloat ;;
  speed <- (if 8 <=? version then readFloat else ret F32.zero) ;;
  rot <- (if 26 <=? version then readQuaternion else ret Quaternion.zero) ;;
  rotation_degrees <- (if 26 <=? version then readFloat else ret F32.zero) ;;
  ret (ZAxisVehicle.mk pos prefab_name guid time_delay speed rot
         rotation_degrees).

Definition deserializeZAxisVehicles (version : Z) : M (list ZAxisVehicle.t) :=
  count <- readInt32 ;;
  Utils.intc count ;;
  for_count count (deserializeZAxisVehicle version).

Definition deserializeVehicle : M Vehicle.t :=
  display_name <- readString ;;
  pos <- readVec2 ;;
  rot <- readQuaternion ;;
  prefab_name <- readString ;;
  target_speed <- readFloat ;;
  mass <- readFloat ;;
  braking_force_multiplier <- readFloat ;;
  strength_method <- readInt32 ;;
  acceleration <- readFloat ;;
  max_slope <- readFloat ;;
  desired_acceleration <- readFloat ;;
  shocks_multiplier <- readFloat ;;
  rotation_degrees <- readFloat ;;
  time_delay <- readFloat ;;
  idle_on_downhill <- readBool ;;
  flipped <- readBool ;;
  ordered_checkpoints <- readBool ;;
  guid <- readString ;;
  count <- readInt32 ;;
  checkpoint_guids <- for_count count readString ;;
  ret (Vehicle.mk display_name pos rot prefab_name target_speed mass
         braking_force_multiplier strength_method acceleration max_slope
         desired_acceleration shocks_multiplier rotation_degrees time_delay
         idle_on_downhill flipped ordered_checkpoints guid checkpoint_guids).

Definition deserializeVehicles : M (list Vehicle.t) :=
  count <- readInt32 ;;
  Utils.intc count ;;
  for_count count deserializeVehicle.

Definition deserializeVehicleStopTrigger : M VehicleStopTrigger.t :=
  pos <- readVec2 ;;
  rot <- readQuaternion ;;
  height <- readFloat ;;
  rotation_degrees <- readFloat ;;
  flipped <- readBool ;;
  prefab_name <- readString ;;
  stop_vehicle_guid <- readString ;;
  ret (VehicleStopTrigger.mk pos rot height rotation_degrees flipped
         prefab_name stop_vehicle_guid).

Definition deserializeVehicleStopTriggers : M (list VehicleStopTrigger.t) :=
  count <- readInt32 ;;
  Utils.intc count ;;
  for_count count deserializeVehicleStopTrigger.

Definition deserializeThemeObject_OBSOLETE : M ThemeObject.t :=
  pos <- readVec2 ;;
  prefab_name <- readString ;;
  unknown_value <- readBool ;;
  ret (ThemeObject.mk pos prefab_name unknown_value).

Definition deserializeThemeObjects_OBSOLETE : M (list ThemeObject.t) :=
  count <- readInt32 ;;
  Utils.intc count ;;
  for_count count deserializeThemeObject_OBSOLETE.

Definition nonEmptyOr (text current : string) : string :=
  if (String.length text =? 0)%nat then current else text.

Definition deserializeEventUnit (version : Z) : M EventUnit.t :=
  if 7 <=? version then
    guid <- readString ;;
    ret (EventUnit.mk guid)
  else
    text1 <- readString ;;
    text2 <- readString ;;
    text3 <- readString ;;
    ret (EventUnit.mk
           (nonEmptyOr text3 (nonEmptyOr text2 (nonEmptyOr text1 EmptyString)))).

Definition deserializeEventStage (version : Z) : M EventStage.t :=
  count <- readInt32 ;;
  units <- for_count count (deserializeEventUnit version) ;;
  ret (EventStage.mk units).

Definition deserializeEventTimeline (version : Z) : M EventTimeline.t :=
  checkpoint_guid <- readString ;;
  count <- readInt32 ;;
  stages <- for_count count (deserializeEventStage version) ;;
  ret (EventTimeline.mk checkpoint_guid stages).

Definition deserializeEventTimelines (version : Z) : M (list EventTimeline.t) :=
  count <- readInt32 ;;
  Utils.intc count ;;
  for_count count (deserializeEventTimeline version).

Definition deserializeCheckpoint : M Checkpoint.t :=
  pos <- readVec2 ;;
  prefab_name <- readString ;;
  vehicle_guid <- readString ;;
  vehicle_restart_phase_guid <- readString ;;
  trigger_timeline <- readBool ;;
  stop_vehicle <- readBool ;;
  reverse_vehicle_on_restart <- readBool ;;
  guid <- readString ;;
  ret (Checkpoint.mk pos prefab_name vehicle_guid vehicle_restart_phase_guid
         trigger_timeline stop_vehicle reverse_vehicle_on_restart guid).

Definition deserializeCheckpoints : M (list Checkpoint.t) :=
  count <- readInt32 ;;
  Utils.intc count ;;
  for_count count deserializeCheckpoint.

Definition deserializePlatform (version : Z) : M Platform.t :=
  pos <- readVec2 ;;
  width <- readFloat ;;
  height <- readFloat ;;
  flipped <- readBool ;;
  if 22 <=? version then
    solid <- readBool ;;
    ret (Platform.mk pos width height flipped solid)
  else
    readInt32 ;;
    ret (Platform.mk pos width height flipped false).

Definition deserializePlatforms (version : Z) : M (list Platform.t) :=
  count <- readInt32 ;;
  Utils.intc count ;;
  for_count count (deserializePlatform version).

Definition deserializeTerrainStretch (version : Z) : M TerrainIsland.t :=
  pos <- readVec3 ;;
  prefab_name <- readString ;;
  height_added <- readFloat ;;
  right_edge_water_height <- readFloat ;;
  terrain_island_type <- readInt32 ;;
  variant_index <- readInt32 ;;
  flipped <- readBool ;;
  lock_position <- (if 6 <=? version then readBool else ret false) ;;
  ret (TerrainIsland.mk pos prefab_name height_added right_edge_water_height
         terrain_island_type variant_index flipped lock_position).

Definition deserializeTerrainIslands (version : Z) : M (list TerrainIsland.t) :=
  count <- readInt32 ;;
  Utils.intc count ;;
  for_count count (deserializeTerrainStretch version).

Definition deserializeRamp (version : Z) : M Ramp.t :=
  pos <- readVec2 ;;
  count <- readInt32 ;;
  control_points <- for_count count readVec2 ;;
  height <- readFloat ;;
  num_segments <- readInt32 ;;
  spline_type <- readInt32 ;;
  flipped_vertical <- readBool ;;
  flipped_horizontal <- readBool ;;
  hide_legs <- (if 23 <=? version then readBool else ret false) ;;
  flipped_legs <-
    (if 25 <=? version then readBool
     else if 22 <=? version then readBool ;; ret false
     else readInt32 ;; ret false) ;;
  line_points <-
    (if 13 <=? version then
       count <- readInt32 ;;
       for_count count readVec2
     else ret []) ;;
  ret (Ramp.mk pos control_points (F32.abs height) num_segments spline_type
         flipped_vertical flipped_horizontal hide_legs flipped_legs
         line_points).

Definition deserializeRamps (version : Z) : M (list Ramp.t) :=
  count <- readInt32 ;;
  Utils.intc count ;;
  for_count count (deserializeRamp version).

Definition deserializeVehicleRestartPhase : M VehicleRestartPhase.t :=
  time_delay <- readFloat ;;
  guid <- readString ;;
  vehicle_guid <- readString ;;
  ret (VehicleRestartPhase.mk time_delay guid vehicle_guid).

Definition deserializeVehicleRestartPhases : M (list VehicleRestartPhase.t) :=
  count <- readInt32 ;;
  Utils.intc count ;;
  for_count count deserializeVehicleRestartPhase.

Definition deserializeFlyingObject : M FlyingObject.t :=
  pos <- readVec3 ;;
  scale <- readVec3 ;;
  prefab_name <- readString ;;
  ret (FlyingObject.mk pos scale prefab_name).

Definition deserializeFlyingObjects : M (list FlyingObject.t) :=
  count <- readInt32 ;;
  Utils.intc count ;;
  for_count count deserializeFlyingObject.

Definition deserializeRock : M Rock.t :=
  pos <- readVec3 ;;
  scale <- readVec3 ;;
  prefab_name <- readString ;;
  flipped <- readBool ;;
  ret (Rock.mk pos scale prefab_name flipped).

Definition deserializeRocks : M (list Rock.t) :=
  count <- readInt32 ;;
  Utils.intc count ;;
  for_count count deserializeRock.

Definition deserializeWaterBlock (version : Z) : M WaterBlock.t :=
  pos <- readVec3 ;;
  width <- readFloat ;;
  height <- readFloat ;;
  lock_position <- (if 12 <=? version then readBool else ret false) ;;
  ret (WaterBlock.mk pos width height lock_position).

Definition deserializeWaterBlocks (version : Z) : M (list WaterBlock.t) :=
  count <- readInt32 ;;
  Utils.intc count ;;
  for_count count (deserializeWaterBlock version).

Definition deserializeBudget : M Budget.t :=
  cash <- readInt32 ;;
  Utils.intc_in cash 0 100000000 0 100000000 ;;
  road <- readInt32 ;;
  wood <- readInt32 ;;
  steel <- readInt32 ;;
  hydraulics <- readInt32 ;;
  rope <- readInt32 ;;
  cable <- readInt32 ;;
  spring <- readInt32 ;;
  bungee_rope <- readInt32 ;;
  allow_wood <- readBool ;;
  allow_steel <- readBool ;;
  allow_hydraulics <- readBool ;;
  allow_rope <- readBool ;;
  allow_cable <- readBool ;;
  allow_spring <- readBool ;;
  allow_reinforced_road <- readBool ;;
  ret (Budget.mk cash road wood steel hydraulics rope cable bungee_rope
         spring allow_wood allow_steel allow_hydraulics allow_rope
         allow_cable allow_spring allow_reinforced_road).

Definition deserializeSettings : M Settings.t :=
  hydraulics_controller_enabled <- readBool ;;
  unbreakable <- readBool ;;
  ret (Settings.mk hydraulics_controller_enabled unbreakable).

Definition readStaticPin : M Vec3.t :=
  pos <- readVec3 ;;
  ret (Vec3.mk (Vec3.x pos) (Vec3.y pos) F32.pin_z).

Definition deserializeCustomShape (version : Z) : M CustomShape.t :=
  pos <- readVec3 ;;
  rot <- readQuaternion ;;
  scale <- readVec3 ;;
  flipped <- readBool ;;
  dynamic <- readBool ;;
  collides_with_road <- readBool ;;
  collides_with_nodes <- readBool ;;
  collides_with_split_nodes <- (if 25 <=? version then readBool else ret false) ;;
  rotation_degrees <- readFloat ;;
  color <- (if 10 <=? version then readColor
            else readInt32 ;; ret Color.zero) ;;
  mass <- (if 11 <=? version then readFloat
           else readFloat ;; ret F32.forty) ;;
  bounciness <- (if 14 <=? version then readFloat else ret F32.half) ;;
  pin_motor_strength <- (if 24 <=? version then readFloat else ret F32.zero) ;;
  pin_target_velocity <- (if 24 <=? version then readFloat else ret F32.zero) ;;
  count <- readInt32 ;;
  points_local_space <- for_count count readVec2 ;;
  count <- readInt32 ;;
  static_pins <- for_count count readStaticPin ;;
  count <- readInt32 ;;
  dynamic_anchor_guids <- for_count count readString ;;
  ret (CustomShape.mk pos rot scale flipped dynamic collides_with_road
         collides_with_nodes collides_with_split_nodes rotation_degrees
         color mass bounciness pin_motor_strength pin_target_velocity
         points_local_space static_pins dynamic_anchor_guids).

Definition deserializeCustomShapes (version : Z) : M (list CustomShape.t) :=
  count <- readInt32 ;;
  Utils.intc count ;;
  for_count count (deserializeCustomShape version).

Definition deserializeWorkshop (version : Z) : M Workshop.t :=
  id <- readString ;;
  Utils.log_info_d ("Workshop ID: " ++ Utils.bright id) ;;
  leaderboard_id <-
    (if 16 <=? version then
       leaderboard_id <- readString ;;
       Utils.log_info_d
         ("Workshop leaderboard ID: " ++ Utils.bright leaderboard_id) ;;
       ret leaderboard_id
     else ret EmptyString) ;;
  title <- readString ;;
  Utils.log_info_d ("Workshop title: " ++ Utils.bright title) ;;
  description <- readString ;;
  Utils.log_info_d
    ("Workshop description: " ++ Utils.bright (Utils.lf ++ description)) ;;
  autoplay <- readBool ;;
  count <- readInt32 ;;
  Utils.intc count ;;
  tags <- for_count count readString ;;
  ret (Workshop.mk id leaderboard_id title description autoplay tags).

Definition deserializeSupportPillar : M SupportPillar.t :=
  pos <- readVec3 ;;
  scale <- readVec3 ;;
  prefab_name <- readString ;;
  ret (SupportPillar.mk pos scale prefab_name).

Definition deserializeSupportPillars : M (list SupportPillar.t) :=
  count <- readInt32 ;;
  Utils.intc count ;;
  for_count count deserializeSupportPillar.

Definition deserializePillar : M Pillar.t :=
  pos <- readVec3 ;;
  height <- readFloat ;;
  prefab_name <- readString ;;
  ret (Pillar.mk pos height prefab_name).

Definition deserializePillars : M (list Pillar.t) :=
  count <- readInt32 ;;
  Utils.intc count ;;
  for_count count deserializePillar.

(** The three parts of a mod string; a missing part is empty. *)
Definition modOfString (str : string) : Mod.t :=
  let partsOfMod := Utils.splitString str modDelimiter in
  Mod.mk (nth 0 partsOfMod EmptyString) (nth 1 partsOfMod EmptyString)
         (nth 2 partsOfMod EmptyString).

(** One turn of the mod loop. *)
Definition deserializeMod : M Mod.t :=
  str <- readString ;;
  let m := modOfString str in
  Utils.log_info_d ("Name: " ++ Utils.bright (Mod.name m)) ;;
  Utils.log_info_d ("Version: " ++ Utils.bright (Mod.version m)) ;;
  Utils.log_info_d ("Settings: " ++ Utils.bright (Mod.settings m) ++ Utils.lf) ;;
  ret m.

(** One turn of the save-data loop; [None] is the [continue]. *)
Definition deserializeModSaveData : M (option ModSaveData.t) :=
  modIdentifier <- readString ;;
  let partsOfMod := Utils.splitString modIdentifier modDelimiter in
  let name := nth 0 partsOfMod EmptyString in
  let version := nth 1 partsOfMod EmptyString in
  if (String.length name =? 0)%nat then
    Utils.log_warn_d ("Invalid mod identifier: " ++ Utils.bright modIdentifier) ;;
    ret None
  else
    Utils.log_info_d ("Name: " ++ Utils.bright name) ;;
    Utils.log_info_d ("Version: " ++ Utils.bright version) ;;
    customModSaveData <- readByteArray ;;
    ret (Some (ModSaveData.mk customModSaveData name version)).

Fixpoint somes {A} (xs : list (option A)) : list A :=
  match xs with
  | [] => []
  | Some x :: rest => x :: somes rest
  | None :: rest => somes rest
  end.

Definition deserializePTFModData : M ModData.t :=
  count <- readInt16 ;;
  Utils.intc count ;;
  mods <- for_count count deserializeMod ;;
  pos <- tellg ;;
  seekg_end ;;
  end_ <- tellg ;;
  if (pos =? end_)%nat then ret (ModData.mk mods [])
  else
    seekg pos ;;
    extraSaveDataCount <- readInt32 ;;
    if extraSaveDataCount =? 0 then ret (ModData.mk mods [])
    else
      Utils.intc extraSaveDataCount ;;
      saves <- for_count extraSaveDataCount deserializeModSaveData ;;
      ret (ModData.mk mods (somes saves)).

(** The garbage block of layouts below version 5. *)
Definition discardGarbage : M unit :=
  count <- readInt32 ;;
  for_count count
    (readString ;;
     count2 <- readInt32 ;;
     for_count count2 readString) ;;
  ret tt.

Definition deserializeLayout : M Layout.t :=
  vm <- getVersion ;;
  let version := fst vm in
  let isModded := snd vm in
  Utils.ensureReasonable version 0 100 0 50 ;;
  Utils.intc version ;;
  stubKey <- getStubKey ;;
  anchors <- (if 19 <=? version then deserializeAnchors else ret []) ;;
  phases <- (if 5 <=? version then deserializePhases else ret []) ;;
  bridge <-
    (if 4 <? version then deserializeBridge
     else
       count <- readInt32 ;;
       Utils.intc count ;;
       joints <- for_count count deserializeJoint ;;
       count <- readInt32 ;;
       Utils.intc count ;;
       edges <- for_count count (deserializeEdge 0) ;;
       count <- readInt32 ;;
       Utils.intc count ;;
       pistons <- for_count count (deserializePiston 0) ;;
       ret (Bridge.mk 0 joints edges [] pistons [] [])) ;;
  zAxisVehicles <-
    (if 7 <=? version then deserializeZAxisVehicles version else ret []) ;;
  vehicles <- deserializeVehicles ;;
  vehicleStopTriggers <- deserializeVehicleStopTriggers ;;
  themeObjects_OBSOLETE <-
    (if version <? 20 then deserializeThemeObjects_OBSOLETE else ret []) ;;
  eventTimelines <- deserializeEventTimelines version ;;
  checkpoints <- deserializeCheckpoints ;;
  terrainStretches <- deserializeTerrainIslands version ;;
  platforms <- deserializePlatforms version ;;
  ramps <- deserializeRamps version ;;
  phases <- (if version <? 5 then deserializePhases else ret phases) ;;
  vehicleRestartPhases <- deserializeVehicleRestartPhases ;;
  flyingObjects <- deserializeFlyingObjects ;;
  rocks <- deserializeRocks ;;
  waterBlocks <- deserializeWaterBlocks version ;;
  (if version <? 5 then discardGarbage else ret tt) ;;
  budget <- deserializeBudget ;;
  settings <- deserializeSettings ;;
  customShapes <-
    (if 9 <=? version then deserializeCustomShapes version else ret []) ;;
  workshop <-
    (if 15 <=? version then deserializeWorkshop version
     else ret Workshop.empty) ;;
  supportPillars <-
    (if 17 <=? version then deserializeSupportPillars else ret []) ;;
  pillars <- (if 18 <=? version then deserializePillars else ret []) ;;
  modData <-
    (if negb isModded then ret ModData.empty else deserializePTFModData) ;;
  ret (Layout.mk version stubKey anchors phases bridge zAxisVehicles
         vehicles vehicleStopTriggers themeObjects_OBSOLETE eventTimelines
         checkpoints platforms terrainStretches ramps vehicleRestartPhases
         flyingObjects rocks waterBlocks budget settings customShapes
         workshop supportPillars pillars isModded modData).

End Deserializer.

(** ** class Serializer

    The output file is the [data] of the state; [write] appends to it. *)

Module Serializer.

(** [(int)v.size()] *)
Definition size {A} (xs : list A) : Z := int32 (Z.of_nat (List.length xs)).

Definition writeInt32 (value : Z) : M unit := write (le_bytes 4 value).

Definition writeUInt16 (value : Z) : M unit := write (le_bytes 2 value).

Definition writeString (value : string) : M unit :=
  writeUInt16 (uint16 (int16 (Z.of_nat (String.length value)))) ;;
  write (string_bytes value).

Definition writeFloat (value : Z) : M unit := write (le_bytes 4 value).

Definition writeBool (value : bool) : M unit :=
  write [if value then x01 else x00].

Definition writeByte (value : Z) : M unit := write (le_bytes 1 value).

Definition writeVector3 (value : Vec3.t) : M unit :=
  writeFloat (Vec3.x value) ;;
  writeFloat (Vec3.y value) ;;
  writeFloat (Vec3.z value).

Definition writeVector2 (value : Vec2.t) : M unit :=
  writeFloat (Vec2.x value) ;;
  writeFloat (Vec2.y value).

Definition writeColor (value : Color.t) : M unit :=
  writeByte (F32.to_uint8 (F32.mul (Color.r value) F32.c255)) ;;
  writeByte (F32.to_uint8 (F32.mul (Color.g value) F32.c255)) ;;
  writeByte (F32.to_uint8 (F32.mul (Color.b value) F32.c255)).

Definition writeQuaternion (value : Quaternion.t) : M unit :=
  writeFloat (Quaternion.x value) ;;
  writeFloat (Quaternion.y value) ;;
  writeFloat (Quaternion.z value) ;;
  writeFloat (Quaternion.w value).

Section WithLayout.
Variable layout : Layout.t.

Definition findVehicleByGuid (guid : string) : M Vehicle.t :=
  match find (fun vehicle => String.eqb (Vehicle.guid vehicle) guid)
             (Layout.vehicles layout) with
  | Some vehicle => ret vehicle
  | None => exit VehicleNotFound
  end.

Definition serializeAnchorsBinary : M unit :=
  writeInt32 (size (Layout.anchors layout)) ;;
  forEach (Layout.anchors layout) (fun anchor =>
    writeVector3 (BridgeJoint.pos anchor) ;;
    writeBool (BridgeJoint.is_anchor anchor) ;;
    writeBool (BridgeJoint.is_split anchor) ;;
    writeString (BridgeJoint.guid anchor)) ;;
  Utils.intc (size (Layout.anchors layout)).

Definition serializeHydraulicsPhasesBinary : M unit :=
  writeInt32 (size (Layout.phases layout)) ;;
  forEach (Layout.phases layout) (fun phase =>
    writeFloat (HydraulicPhase.time_delay phase) ;;
    writeString (HydraulicPhase.guid phase)) ;;
  Utils.intc (size (Layout.phases layout)).

Definition serializePreBridgeBinary : M unit :=
  writeInt32 MAX_VERSION ;;
  Utils.intc MAX_VERSION ;;
  writeString (Layout.stubKey layout) ;;
  serializeAnchorsBinary ;;
  serializeHydraulicsPhasesBinary.

Definition serializeBridgeBinary : M unit :=
  let bridge := Layout.bridge layout in
  writeInt32 MAX_BRIDGE_VERSION ;;
  Utils.intc MAX_BRIDGE_VERSION ;;
  writeInt32 (size (Bridge.joints bridge)) ;;
  forEach (Bridge.joints bridge) (fun joint =>
    writeVector3 (BridgeJoint.pos joint) ;;
    writeBool (BridgeJoint.is_anchor joint) ;;
    writeBool (BridgeJoint.is_split joint) ;;
    writeString (BridgeJoint.guid joint)) ;;
  Utils.intc (size (Bridge.joints bridge)) ;;
  writeInt32 (size (Bridge.edges bridge)) ;;
  forEach (Bridge.edges bridge) (fun edge =>
    writeInt32 (BridgeEdge.material_type edge) ;;
    writeString (BridgeEdge.node_a_guid edge) ;;
    writeString (BridgeEdge.node_b_guid edge) ;;
    writeInt32 (BridgeEdge.joint_a_part edge) ;;
    writeInt32 (BridgeEdge.joint_b_part edge)) ;;
  Utils.intc (size (Bridge.edges bridge)) ;;
  writeInt32 (size (Bridge.springs bridge)) ;;
  forEach (Bridge.springs bridge) (fun spring =>
    writeFloat (BridgeSpring.normalized_value spring) ;;
    writeString (BridgeSpring.node_a_guid spring) ;;
    writeString (BridgeSpring.node_b_guid spring) ;;
    writeString (BridgeSpring.guid spring)) ;;
  Utils.intc (size (Bridge.springs bridge)) ;;
  writeInt32 (size (Bridge.pistons bridge)) ;;
  forEach (Bridge.pistons bridge) (fun piston =>
    writeFloat (Piston.normalized_value piston) ;;
    writeString (Piston.node_a_guid piston) ;;
    writeString (Piston.node_b_guid piston) ;;
    writeString (Piston.guid piston)) ;;
  Utils.intc (size (Bridge.pistons bridge)) ;;
  writeInt32 (size (Bridge.phases bridge)) ;;
  forEach (Bridge.phases bridge) (fun phase =>
    writeString (HydraulicsControllerPhase.hydraulics_phase_guid phase) ;;
    writeInt32 (size (HydraulicsControllerPhase.piston_guids phase)) ;;
    forEach (HydraulicsControllerPhase.piston_guids phase) writeString ;;
    writeInt32 (size (HydraulicsControllerPhase.bridge_split_joints phase)) ;;
    forEach (HydraulicsControllerPhase.bridge_split_joints phase)
      (fun bridge_split_joint =>
         writeString (BridgeSplitJoint.guid bridge_split_joint) ;;
         writeInt32 (BridgeSplitJoint.state bridge_split_joint)) ;;
    writeBool (HydraulicsControllerPhase.disable_new_additions phase)) ;;
  Utils.intc (size (Bridge.phases bridge)) ;;
  writeInt32 (size (Bridge.anchors bridge)) ;;
  forEach (Bridge.anchors bridge) (fun anchor =>
    writeVector3 (BridgeJoint.pos anchor) ;;
    writeBool (BridgeJoint.is_anchor anchor) ;;
    writeBool (BridgeJoint.is_split anchor) ;;
    writeString (BridgeJoint.guid anchor)) ;;
  Utils.intc (size (Bridge.anchors bridge)).

Definition serializePostBridgeBinary : M unit :=
  (* Z axis vehicles *)
  writeInt32 (size (Layout.zAxisVehicles layout)) ;;
  forEach (Layout.zAxisVehicles layout) (fun vehicle =>
    writeVector2 (ZAxisVehicle.pos vehicle) ;;
    writeString (ZAxisVehicle.prefab_name vehicle) ;;
    writeString (ZAxisVehicle.guid vehicle) ;;
    writeFloat (ZAxisVehicle.time_delay vehicle) ;;
    writeFloat (ZAxisVehicle.speed vehicle) ;;
    writeQuaternion (ZAxisVehicle.rot vehicle) ;;
    writeFloat (ZAxisVehicle.rotation_degrees vehicle)) ;;
  Utils.intc (size (Layout.zAxisVehicles layout)) ;;
  (* Vehicles *)
  writeInt32 (size (Layout.vehicles layout)) ;;
  forEach (Layout.vehicles layout) (fun vehicle =>
    writeString (Vehicle.display_name vehicle) ;;
    writeVector2 (Vehicle.pos vehicle) ;;
    writeQuaternion (Vehicle.rot vehicle) ;;
    writeString (Vehicle.prefab_name vehicle) ;;
    writeFloat (Vehicle.target_speed vehicle) ;;
    writeFloat (Vehicle.mass vehicle) ;;
    writeFloat (Vehicle.braking_force_multiplier vehicle) ;;
    writeInt32 (Vehicle.strength_method vehicle) ;;
    writeFloat (Vehicle.acceleration vehicle) ;;
    writeFloat (Vehicle.max_slope vehicle) ;;
    writeFloat (Vehicle.desired_acceleration vehicle) ;;
    writeFloat (Vehicle.shocks_multiplier vehicle) ;;
    writeFloat (Vehicle.rotation_degrees vehicle) ;;
    writeFloat (Vehicle.time_delay vehicle) ;;
    writeBool (Vehicle.idle_on_downhill vehicle) ;;
    writeBool (Vehicle.flipped vehicle) ;;
    writeBool (Vehicle.ordered_checkpoints vehicle) ;;
    writeString (Vehicle.guid vehicle) ;;
    v <- findVehicleByGuid (Vehicle.guid vehicle) ;;
    writeInt32 (size (Vehicle.checkpoint_guids v)) ;;
    forEach (Vehicle.checkpoint_guids v) writeString) ;;
  Utils.intc (size (Layout.vehicles layout)) ;;
  (* Vehicle stop triggers *)
  writeInt32 (size (Layout.vehicleStopTriggers layout)) ;;
  forEach (Layout.vehicleStopTriggers layout) (fun trigger =>
    writeVector2 (VehicleStopTrigger.pos trigger) ;;
    writeQuaternion (VehicleStopTrigger.rot trigger) ;;
    writeFloat (VehicleStopTrigger.height trigger) ;;
    writeFloat (VehicleStopTrigger.rotation_degrees trigger) ;;
    writeBool (VehicleStopTrigger.flipped trigger) ;;
    writeString (VehicleStopTrigger.prefab_name trigger) ;;
    writeString (VehicleStopTrigger.stop_vehicle_guid trigger)) ;;
  Utils.intc (size (Layout.vehicleStopTriggers layout)) ;;
  (* Timelines *)
  writeInt32 (size (Layout.eventTimelines layout)) ;;
  forEach (Layout.eventTimelines layout) (fun timeline =>
    writeString (EventTimeline.checkpoint_guid timeline) ;;
    writeInt32 (size (EventTimeline.stages timeline)) ;;
    forEach (EventTimeline.stages timeline) (fun stage =>
      writeInt32 (size (EventStage.units stage)) ;;
      forEach (EventStage.units stage) (fun unit_ =>
        writeString (EventUnit.guid unit_)))) ;;
  Utils.intc (size (Layout.eventTimelines layout)) ;;
  (* Checkpoints *)
  writeInt32 (size (Layout.checkpoints layout)) ;;
  forEach (Layout.checkpoints layout) (fun checkpoint =>
    writeVector2 (Checkpoint.pos checkpoint) ;;
    writeString (Checkpoint.prefab_name checkpoint) ;;
    writeString (Checkpoint.vehicle_guid checkpoint) ;;
    writeString (Checkpoint.vehicle_restart_phase_guid checkpoint) ;;
    writeBool (Checkpoint.trigger_timeline checkpoint) ;;
    writeBool (Checkpoint.stop_vehicle checkpoint) ;;
    writeBool (Checkpoint.reverse_vehicle_on_restart checkpoint) ;;
    writeString (Checkpoint.guid checkpoint)) ;;
  Utils.intc (size (Layout.checkpoints layout)) ;;
  (* Terrain stretches *)
  writeInt32 (size (Layout.terrainStretches layout)) ;;
  forEach (Layout.terrainStretches layout) (fun stretch =>
    writeVector3 (TerrainIsland.pos stretch) ;;
    writeString (TerrainIsland.prefab_name stretch) ;;
    writeFloat (TerrainIsland.height_added stretch) ;;
    writeFloat (TerrainIsland.right_edge_water_height stretch) ;;
    writeInt32 (TerrainIsland.terrain_island_type stretch) ;;
    writeInt32 (TerrainIsland.variant_index stretch) ;;
    writeBool (TerrainIsland.flipped stretch) ;;
    writeBool (TerrainIsland.lock_position stretch)) ;;
  Utils.intc (size (Layout.terrainStretches layout)) ;;
  (* Platforms *)
  writeInt32 (size (Layout.platforms layout)) ;;
  forEach (Layout.platforms layout) (fun platform =>
    writeVector2 (Platform.pos platform) ;;
    writeFloat (Platform.width platform) ;;
    writeFloat (Platform.height platform) ;;
    writeBool (Platform.flipped platform) ;;
    writeBool (Platform.solid platform)) ;;
  Utils.intc (size (Layout.platforms layout)) ;;
  (* Ramps *)
  writeInt32 (size (Layout.ramps layout)) ;;
  forEach (Layout.ramps layout) (fun ramp =>
    writeVector2 (Ramp.pos ramp) ;;
    writeInt32 (size (Ramp.control_points ramp)) ;;
    forEach (Ramp.control_points ramp) writeVector2 ;;
    writeFloat (Ramp.height ramp) ;;
    writeInt32 (Ramp.num_segments ramp) ;;
    writeInt32 (Ramp.spline_type ramp) ;;
    writeBool (Ramp.flipped_vertical ramp) ;;
    writeBool (Ramp.flipped_horizontal ramp) ;;
    writeBool (Ramp.hide_legs ramp) ;;
    writeBool (Ramp.flipped_legs ramp) ;;
    writeInt32 (size (Ramp.line_points ramp)) ;;
    forEach (Ramp.line_points ramp) writeVector2) ;;
  Utils.intc (size (Layout.ramps layout)) ;;
  (* Vehicle restart phases *)
  writeInt32 (size (Layout.vehicleRestartPhases layout)) ;;
  forEach (Layout.vehicleRestartPhases layout) (fun phase =>
    writeFloat (VehicleRestartPhase.time_delay phase) ;;
    writeString (VehicleRestartPhase.guid phase) ;;
    writeString (VehicleRestartPhase.vehicle_guid phase)) ;;
  Utils.intc (size (Layout.vehicleRestartPhases layout)) ;;
  (* Flying objects *)
  writeInt32 (size (Layout.flyingObjects layout)) ;;
  forEach (Layout.flyingObjects layout) (fun flying_object =>
    writeVector3 (FlyingObject.pos flying_object) ;;
    writeVector3 (FlyingObject.scale flying_object) ;;
    writeString (FlyingObject.prefab_name flying_object)) ;;
  Utils.intc (size (Layout.flyingObjects layout)) ;;
  (* Rocks *)
  writeInt32 (size (Layout.rocks layout)) ;;
  forEach (Layout.rocks layout) (fun rock =>
    writeVector3 (Rock.pos rock) ;;
    writeVector3 (Rock.scale rock) ;;
    writeString (Rock.prefab_name rock) ;;
    writeBool (Rock.flipped rock)) ;;
  Utils.intc (size (Layout.rocks layout)) ;;
  (* Water blocks *)
  writeInt32 (size (Layout.waterBlocks layout)) ;;
  forEach (Layout.waterBlocks layout) (fun water_block =>
    writeVector3 (WaterBlock.pos water_block) ;;
    writeFloat (WaterBlock.width water_block) ;;
    writeFloat (WaterBlock.height water_block) ;;
    writeBool (WaterBlock.lock_position water_block)) ;;
  Utils.intc (size (Layout.waterBlocks layout)) ;;
  (* Budget *)
  writeInt32 (Budget.cash (Layout.budget layout)) ;;
  writeInt32 (Budget.road (Layout.budget layout)) ;;
  writeInt32 (Budget.wood (Layout.budget layout)) ;;
  writeInt32 (Budget.steel (Layout.budget layout)) ;;
  writeInt32 (Budget.hydraulics (Layout.budget layout)) ;;
  writeInt32 (Budget.rope (Layout.budget layout)) ;;
  writeInt32 (Budget.cable (Layout.budget layout)) ;;
  writeInt32 (Budget.spring (Layout.budget layout)) ;;
  writeInt32 (Budget.bungee_rope (Layout.budget layout)) ;;
  writeBool (Budget.allow_wood (Layout.budget layout)) ;;
  writeBool (Budget.allow_steel (Layout.budget layout)) ;;
  writeBool (Budget.allow_hydraulics (Layout.budget layout)) ;;
  writeBool (Budget.allow_rope (Layout.budget layout)) ;;
  writeBool (Budget.allow_cable (Layout.budget layout)) ;;
  writeBool (Budget.allow_spring (Layout.budget layout)) ;;
  writeBool (Budget.allow_reinforced_road (Layout.budget layout)) ;;
  Utils.intc_in (Budget.cash (Layout.budget layout)) 0 100000000 0 100000000 ;;
  (* Settings *)
  writeBool (Settings.hydraulics_controller_enabled (Layout.settings layout)) ;;
  writeBool (Settings.unbreakable (Layout.settings layout)) ;;
  (* Custom shapes *)
  writeInt32 (size (Layout.customShapes layout)) ;;
  forEach (Layout.customShapes layout) (fun cs =>
    writeVector3 (CustomShape.pos cs) ;;
    writeQuaternion (CustomShape.rot cs) ;;
    writeVector3 (CustomShape.scale cs) ;;
    writeBool (CustomShape.flipped cs) ;;
    writeBool (CustomShape.dynamic cs) ;;
    writeBool (CustomShape.collides_with_road cs) ;;
    writeBool (CustomShape.collides_with_nodes cs) ;;
    writeBool (CustomShape.collides_with_split_nodes cs) ;;
    writeFloat (CustomShape.rotation_degrees cs) ;;
    writeColor (CustomShape.color cs) ;;
    writeFloat (CustomShape.mass cs) ;;
    writeFloat (CustomShape.bounciness cs) ;;
    writeFloat (CustomShape.pin_motor_strength cs) ;;
    writeFloat (CustomShape.pin_target_velocity cs) ;;
    writeInt32 (size (CustomShape.points_local_space cs)) ;;
    forEach (CustomShape.points_local_space cs) writeVector2 ;;
    writeInt32 (size (CustomShape.static_pins cs)) ;;
    forEach (CustomShape.static_pins cs) writeVector3 ;;
    writeInt32 (size (CustomShape.dynamic_anchor_guids cs)) ;;
    forEach (CustomShape.dynamic_anchor_guids cs) writeString) ;;
  Utils.intc (size (Layout.customShapes layout)) ;;
  (* Workshop *)
  writeString (Workshop.id (Layout.workshop layout)) ;;
  writeString (Workshop.leaderboard_id (Layout.workshop layout)) ;;
  writeString (Workshop.title (Layout.workshop layout)) ;;
  writeString (Workshop.description (Layout.workshop layout)) ;;
  writeBool (Workshop.autoplay (Layout.workshop layout)) ;;
  writeInt32 (size (Workshop.tags (Layout.workshop layout))) ;;
  forEach (Workshop.tags (Layout.workshop layout)) writeString ;;
  (* Support pillars *)
  writeInt32 (size (Layout.supportPillars layout)) ;;
  forEach (Layout.supportPillars layout) (fun support_pillar =>
    writeVector3 (SupportPillar.pos support_pillar) ;;
    writeVector3 (SupportPillar.scale support_pillar) ;;
    writeString (SupportPillar.prefab_name support_pillar)) ;;
  Utils.intc (size (Layout.supportPillars layout)) ;;
  (* Pillars *)
  writeInt32 (size (Layout.pillars layout)) ;;
  forEach (Layout.pillars layout) (fun pillar =>
    writeVector3 (Pillar.pos pillar) ;;
    writeFloat (Pillar.height pillar) ;;
    writeString (Pillar.prefab_name pillar)) ;;
  Utils.intc (size (Layout.pillars layout)).

Definition serializeLayout : M unit :=
  serializePreBridgeBinary ;;
  serializeBridgeBinary ;;
  serializePostBridgeBinary.

End WithLayout.

End Serializer.

(** ** class SimpleBridgeDeserializer

    [data] is the byte buffer and [pos] the member [offset].  A read past
    the end of the buffer is out of bounds in C++: [Undefined]. *)

Module SimpleBridgeDeserializer.

Definition readByte : M byte := bs <- read 1 ;; ret (hd x00 bs).

Definition readBytes (count : Z) : M (list byte) := read (Z.to_nat count).

(** A byte other than 0 or 1 read as [bool] is taken as true. *)
Definition readBool : M bool := b <- readByte ;; ret (negb (Z_of_byte b =? 0)).

Definition readUInt16 : M Z := bs <- readBytes 2 ;; ret (uint16 (le_value bs)).

Definition readInt32 : M Z := bs <- readBytes 4 ;; ret (int32 (le_value bs)).

Definition readFloat : M Z := bs <- readBytes 4 ;; ret (le_value bs).

Definition readString : M string :=
  length <- readUInt16 ;;
  data <- readBytes length ;;
  ret (bytes_string data).

Definition readVector2 : M Vec2.t :=
  x <- readFloat ;; y <- readFloat ;; ret (Vec2.mk x y).

Definition readVector3 : M Vec3.t :=
  x <- readFloat ;; y <- readFloat ;; z <- readFloat ;; ret (Vec3.mk x y z).

Definition deserializeBridge : M Bridge.t :=
  version <- readInt32 ;;
  Utils.intc version ;;
  if version <? 2 then ret (Bridge.mk version [] [] [] [] [] [])
  else
    (* Joints *)
    num <- readInt32 ;;
    Utils.intc num ;;
    joints <- for_count num
      (pos <- readVector3 ;;
       is_anchor <- readBool ;;
       is_split <- readBool ;;
       guid <- readString ;;
       ret (BridgeJoint.mk pos is_anchor is_split guid)) ;;
    (* Edges: each one is read into a local and dropped *)
    num <- readInt32 ;;
    Utils.intc num ;;
    for_count num
      (material_type <- readInt32 ;;
       node_a_guid <- readString ;;
       node_b_guid <- readString ;;
       joint_a_part <- readInt32 ;;
       joint_b_part <- readInt32 ;;
       ret tt) ;;
    (* Springs *)
    springs <-
      (if 7 <=? version then
         num <- readInt32 ;;
         Utils.intc num ;;
         for_count num
           (normalized_value <- readFloat ;;
            node_a_guid <- readString ;;
            node_b_guid <- readString ;;
            guid <- readString ;;
            ret (BridgeSpring.mk normalized_value node_a_guid node_b_guid guid))
       else ret []) ;;
    (* Pistons *)
    num <- readInt32 ;;
    Utils.intc num ;;
    pistons <- for_count num
      (normalized_value <- readFloat ;;
       node_a_guid <- readString ;;
       node_b_guid <- readString ;;
       guid <- readString ;;
       ret (Piston.mk
              (if version <? 8
               then Deserializer.fixPistonNormalizedValue normalized_value
               else normalized_value)
              node_a_guid node_b_guid guid)) ;;
    (* Hydraulic phases: each one is read into a local and dropped *)
    num <- readInt32 ;;
    Utils.intc num ;;
    for_count num
      (hydraulics_phase_guid <- readString ;;
       num_pistons <- readInt32 ;;
       for_count num_pistons readString ;;
       (if 2 <? version then
          split_joint_count <- readInt32 ;;
          for_count split_joint_count
            (guid <- readString ;; state <- readInt32 ;; ret tt) ;;
          ret tt
        else
          count <- readInt32 ;;
          for_count count readString ;;
          ret tt) ;;
       (if 9 <? version then readBool ;; ret tt else ret tt)) ;;
    (* Garbage data (v5) *)
    (if version =? 5 then
       count <- readInt32 ;;
       for_count count readString ;;
       ret tt
     else ret tt) ;;
    (* Anchors *)
    anchors <-
      (if 6 <=? version then
         num <- readInt32 ;;
         Utils.intc num ;;
         for_count num
           (pos <- readVector3 ;;
            is_anchor <- readBool ;;
            is_split <- readBool ;;
            guid <- readString ;;
            ret (BridgeJoint.mk pos is_anchor is_split guid))
       else ret []) ;;
    (if (4 <=? version) && (version <? 9) then readBool ;; ret tt
     else ret tt) ;;
    ret (Bridge.mk version joints [] springs pistons anchors []).

End SimpleBridgeDeserializer.

(** ** class SlotDeserializer *)

(** [file.read(buf, n)] into a buffer that was zero-filled beforehand:
    what the file still holds, then zeros. *)
Definition read_padded (n : nat) : M (list byte) :=
  fun s =>
    let r := firstn n (remaining s) in
    Done (r ++ repeat x00 (n - List.length r)) (advance (List.length r) s).

(** Run a computation on a buffer of its own; the counter is global. *)
Definition onBuffer {A} (buffer : list byte) (m : M A) : M A :=
  fun s =>
    match m (mkSt buffer 0 (unusualNumbers s)) with
    | Done a s' => Done a (mkSt (data s) (pos s) (unusualNumbers s'))
    | Exit why s' => Exit why (mkSt (data s) (pos s) (unusualNumbers s'))
    | Undefined _ => Undefined s
    end.

Definition assert (cond : bool) : M unit :=
  if cond then ret tt else exit AssertionFailed.

Definition EntryType_eqb (a b : EntryType) : bool :=
  match a, b with
  | InvalidType, InvalidType | String_, String_ | Guid, Guid
  | Integer, Integer | FloatingPoint, FloatingPoint | Boolean, Boolean
  | Null, Null | StartOfNode, StartOfNode | EndOfNodeType, EndOfNodeType
  | InternalReference, InternalReference
  | ExternalReferenceByIndex, ExternalReferenceByIndex
  | ExternalReferenceByGuid, ExternalReferenceByGuid
  | StartOfArrayType, StartOfArrayType | EndOfArrayType, EndOfArrayType
  | PrimitiveArrayType, PrimitiveArrayType
  | EndOfStreamType, EndOfStreamType
  | ExternalReferenceByString, ExternalReferenceByString => true
  | _, _ => false
  end.

(** *** UTF-16 to UTF-8, as [codecvt_utf8_utf16<char16_t>] converts *)

Fixpoint utf16_units (bs : list byte) : list Z :=
  match bs with
  | lo :: hi :: rest => (Z_of_byte lo + 256 * Z_of_byte hi) :: utf16_units rest
  | _ => []
  end.

Definition utf8_encode (c : Z) : list byte :=
  if c <? 0x80 then [byte_of_Z c]
  else if c <? 0x800 then
    [byte_of_Z (0xC0 + c / 64); byte_of_Z (0x80 + c mod 64)]
  else if c <? 0x10000 then
    [byte_of_Z (0xE0 + c / 4096); byte_of_Z (0x80 + (c / 64) mod 64);
     byte_of_Z (0x80 + c mod 64)]
  else
    [byte_of_Z (0xF0 + c / 262144); byte_of_Z (0x80 + (c / 4096) mod 64);
     byte_of_Z (0x80 + (c / 64) mod 64); byte_of_Z (0x80 + c mod 64)].

Definition is_high_surrogate (u : Z) : bool := (0xD800 <=? u) && (u <=? 0xDBFF).
Definition is_low_surrogate (u : Z) : bool := (0xDC00 <=? u) && (u <=? 0xDFFF).

(** [None] when [to_bytes] throws: a high surrogate followed by a unit
    that is not a low one, or a low surrogate alone.  A high surrogate that
    ends the input is left unconverted and what was converted before it is
    returned (libstdc++'s [to_bytes] stops there without an error). *)
Fixpoint utf16_to_utf8 (units : list Z) : option (list byte) :=
  match units with
  | [] => Some []
  | u :: rest =>
      if is_high_surrogate u then
        match rest with
        | lo :: rest' =>
            if is_low_surrogate lo then
              option_map
                (app (utf8_encode (0x10000 + (u - 0xD800) * 1024 + (lo - 0xDC00))))
                (utf16_to_utf8 rest')
            else None
        | [] => Some []
        end
      else if is_low_surrogate u then None
      else option_map (app (utf8_encode u)) (utf16_to_utf8 rest)
  end.

(** [std::getline(ss, item, ',')] until it fails: the pieces between
    commas, without a last piece after a final comma. *)
Fixpoint getlines (s : string) (item : string) : list string :=
  match s with
  | EmptyString => if (String.length item =? 0)%nat then [] else [item]
  | String c rest =>
      if Ascii.eqb c ","%char then item :: getlines rest EmptyString
      else getlines rest (item ++ String c EmptyString)
  end.

Module SlotDeserializer.

Definition readInt : M Z := bs <- read 4 ;; ret (int32 (le_value bs)).

Definition readString : M string :=
  num <- get ;;
  if num <? 0 then ret EmptyString
  else if num =? 0 then
    num2 <- readInt ;;
    if num2 <? 0 then exit BadAllocation
    else
      bytes <- read (Z.to_nat num2) ;;
      ret (bytes_string bytes)
  else if num =? 1 then
    length <- readInt ;;
    if length <? 0 then exit BadAllocation
    else
      str <- read_padded (Z.to_nat (length * 2)) ;;
      match utf16_to_utf8 (utf16_units str) with
      | Some bytes => ret (bytes_string bytes)
      | None => exit BadConversion
      end
  else ret EmptyString.

Definition named (type : EntryType) : M EntryTypeReturn.t :=
  name <- readString ;;
  ret (EntryTypeReturn.mk type name).

Definition unnamed (type : EntryType) : M EntryTypeReturn.t :=
  ret (EntryTypeReturn.mk type EmptyString).

Definition peekEntryType : M EntryTypeReturn.t :=
  c <- get ;;
  if c =? -1 then ret (EntryTypeReturn.mk EndOfStreamType EmptyString)
  else
    match c with
    | 1 (* NamedStartOfReferenceNode *)
    | 3 (* NamedStartOfStructNode *) => named StartOfNode
    | 2 (* UnnamedStartOfReferenceNode *)
    | 4 (* UnnamedStartOfStructNode *) => unnamed StartOfNode
    | 5 (* EndOfNode *) => unnamed EndOfNodeType
    | 6 (* StartOfArray *) => unnamed StartOfArrayType
    | 7 (* EndOfArray *) => unnamed EndOfArrayType
    | 8 (* PrimitiveArray *) => unnamed PrimitiveArrayType
    | 9 (* NamedInternalReference *) => named InternalReference
    | 10 (* UnnamedInternalReference *) => unnamed InternalReference
    | 11 (* NamedExternalReferenceByIndex *) => named ExternalReferenceByIndex
    | 12 (* UnnamedExternalReferenceByIndex *) => unnamed ExternalReferenceByIndex
    | 13 (* NamedExternalReferenceByGuid *) => named ExternalReferenceByGuid
    | 14 (* UnnamedExternalReferenceByGuid *) => unnamed ExternalReferenceByGuid
    | 15 (* NamedSByte *) => named Integer
    | 16 (* UnnamedSByte *) => unnamed Integer
    | 17 (* NamedByte *) => named Integer
    | 18 (* UnnamedByte *) => unnamed Integer
    | 19 (* NamedShort *) => named Integer
    | 20 (* UnnamedShort *) => unnamed Integer
    | 21 (* NamedUShort *) => named Integer
    | 22 (* UnnamedUShort *) => unnamed Integer
    | 23 (* NamedInt *) => named Integer
    | 24 (* UnnamedInt *) => unnamed Integer
    | 25 (* NamedUInt *) => named Integer
    | 26 (* UnnamedUInt *) => unnamed Integer
    | 27 (* NamedLong *) => named Integer
    | 28 (* UnnamedLong *) => unnamed Integer
    | 29 (* NamedULong *) => named Integer
    | 30 (* UnnamedULong *) => unnamed Integer
    | 31 (* NamedFloat *) => named FloatingPoint
    | 32 (* UnnamedFloat *) => unnamed FloatingPoint
    | 33 (* NamedDouble *) => named FloatingPoint
    | 34 (* UnnamedDouble *) => unnamed FloatingPoint
    | 35 (* NamedDecimal *) => named FloatingPoint
    | 36 (* UnnamedDecimal *) => unnamed FloatingPoint
    | 37 (* NamedChar *) => named String_
    | 38 (* UnnamedChar *) => unnamed String_
    | 39 (* NamedString *) => named String_
    | 40 (* UnnamedString *) => unnamed String_
    | 41 (* NamedGuid *) => named Guid
    | 42 (* UnnamedGuid *) => unnamed Guid
    | 43 (* NamedBoolean *) => named Boolean
    | 44 (* UnnamedBoolean *) => unnamed Boolean
    | 45 (* NamedNull *) => named Null
    | 46 (* UnnamedNull *) => unnamed Null
    | 47 (* TypeName *)
    | 48 (* TypeID *) => exit CannotPeekType
    | 49 (* EndOfStream *) => unnamed EndOfStreamType
    | 50 (* NamedExternalReferenceByString *) => named ExternalReferenceByString
    | 51 (* UnnamedExternalReferenceByString *) => unnamed ExternalReferenceByString
    | _ => unnamed InvalidType
    end.

Definition readTypeEntry : M TypeEntryReturn.t :=
  num <- get ;;
  if num <? 0 then ret TypeEntryReturn.empty
  else if num =? 47 (* TypeName *) then
    key <- readInt ;;
    type_name <- readString ;;
    match getlines type_name EmptyString with
    | [type; assembly] =>
        ret (TypeEntryReturn.mk type
               (substring 1 (String.length assembly - 1) assembly))
    | _ => exit BadTypeName
    end
  else if num =? 48 (* TypeID *) then ret TypeEntryReturn.empty
  else exit UnknownTypeFlag.

Definition readBool : M bool := c <- get ;; ret (c =? 1).

(** The eight [get] calls are taken left to right. *)
Definition readLong : M Z :=
  b0 <- get ;; b1 <- get ;; b2 <- get ;; b3 <- get ;;
  b4 <- get ;; b5 <- get ;; b6 <- get ;; b7 <- get ;;
  let u c k := wrap 64 (Z.shiftl (wrap 64 c) k) in
  ret (int64 (Z.lor (u b0 0) (Z.lor (u b1 8) (Z.lor (u b2 16) (Z.lor (u b3 24)
         (Z.lor (u b4 32) (Z.lor (u b5 40) (Z.lor (u b6 48) (u b7 56))))))))).

Definition enterNode : M unit :=
  et <- peekEntryType ;;
  if EntryType_eqb (EntryTypeReturn.type et) StartOfNode then
    type <- readTypeEntry ;;
    id <- readInt ;;
    ret tt
  else ret tt.

(** [new char[num3]] followed by [file.read(buf, num3)] *)
Definition readArray (num3 : Z) : M (list byte) :=
  if num3 <? 0 then exit BadAllocation else read (Z.to_nat num3).

Definition deserializeSlot : M SaveSlot.t :=
  enterNode ;;
  et <- peekEntryType ;;
  assert (EntryType_eqb (EntryTypeReturn.type et) Integer) ;;
  assert (String.eqb (EntryTypeReturn.name et) "m_Version") ;;
  version <- readInt ;;
  Utils.intc version ;;
  et <- peekEntryType ;;
  assert (EntryType_eqb (EntryTypeReturn.type et) Integer) ;;
  assert (String.eqb (EntryTypeReturn.name et) "m_PhysicsVersion") ;;
  physics_version <- readInt ;;
  Utils.intc physics_version ;;
  et <- peekEntryType ;;
  assert (EntryType_eqb (EntryTypeReturn.type et) Integer) ;;
  assert (String.eqb (EntryTypeReturn.name et) "m_SlotID") ;;
  slot_id <- readInt ;;
  Utils.intc slot_id ;;
  et <- peekEntryType ;;
  assert (EntryType_eqb (EntryTypeReturn.type et) String_) ;;
  assert (String.eqb (EntryTypeReturn.name et) "m_DisplayName") ;;
  slot_name <- readString ;;
  Utils.log_info_d ("Save slot name: " ++ slot_name) ;;
  et <- peekEntryType ;;
  assert (EntryType_eqb (EntryTypeReturn.type et) String_) ;;
  assert (String.eqb (EntryTypeReturn.name et) "m_SlotFilename") ;;
  slot_filename <- readString ;;
  Utils.log_info_d ("Save slot filename: " ++ slot_filename) ;;
  et <- peekEntryType ;;
  assert (EntryType_eqb (EntryTypeReturn.type et) Integer) ;;
  assert (String.eqb (EntryTypeReturn.name et) "m_Budget") ;;
  budget <- readInt ;;
  Utils.intc_in budget 0 10000000 0 10000000 ;;
  et <- peekEntryType ;;
  assert (EntryType_eqb (EntryTypeReturn.type et) Integer) ;;
  assert (String.eqb (EntryTypeReturn.name et) "m_LastWriteTimeTicks") ;;
  last_write_time <- readLong ;;
  (* the bridge *)
  enterNode ;;
  et <- peekEntryType ;;
  assert (EntryType_eqb (EntryTypeReturn.type et) PrimitiveArrayType) ;;
  num <- readInt ;;
  num2 <- readInt ;;
  let num3 := int32 (num * num2) in
  bridge_data <- readArray num3 ;;
  Utils.intc_in num3 0 100000000 0 100000000 ;;
  bridge <- onBuffer bridge_data SimpleBridgeDeserializer.deserializeBridge ;;
  et <- peekEntryType ;;
  assert (EntryType_eqb (EntryTypeReturn.type et) EndOfNodeType) ;;
  (* thumbnail data *)
  et <- peekEntryType ;;
  assert (String.eqb (EntryTypeReturn.name et) "m_Thumb") ;;
  thumbnail <-
    (if EntryType_eqb (EntryTypeReturn.type et) Null then ret None
     else
       get ;;
       readInt ;;
       node_id <- readInt ;;
       et <- peekEntryType ;;
       assert (EntryType_eqb (EntryTypeReturn.type et) PrimitiveArrayType) ;;
       num <- readInt ;;
       num2 <- readInt ;;
       let num3 := int32 (num * num2) in
       Utils.intc_in num3 0 10000000 0 10000000 ;;
       thumbnail_data <- readArray num3 ;;
       et <- peekEntryType ;;
       assert (EntryType_eqb (EntryTypeReturn.type et) EndOfNodeType) ;;
       ret (Some thumbnail_data)) ;;
  et <- peekEntryType ;;
  assert (String.eqb (EntryTypeReturn.name et) "m_UsingUnlimitedMaterials") ;;
  assert (EntryType_eqb (EntryTypeReturn.type et) Boolean) ;;
  unlimited_materials <- readBool ;;
  et <- peekEntryType ;;
  assert (String.eqb (EntryTypeReturn.name et) "m_UsingUnlimitedBudget") ;;
  assert (EntryType_eqb (EntryTypeReturn.type et) Boolean) ;;
  unlimited_budget <- readBool ;;
  et <- peekEntryType ;;
  assert (EntryType_eqb (EntryTypeReturn.type et) EndOfNodeType) ;;
  ret (SaveSlot.mk version physics_version slot_id slot_name slot_filename
         budget last_write_time bridge unlimited_materials unlimited_budget
         thumbnail).

End SlotDeserializer.

(** * Vocabulary of the statements *)

(** A fresh run: the given file, the cursor at its start, and the counter
    at the value the program initialises it to. *)
Definition fresh (bytes : list byte) : St := mkSt bytes 0 1.

(** The bytes an encoder leaves in an output file that was empty. *)
Definition written (m : M unit) : list byte :=
  match m (fresh []) with
  | Done _ s => data s
  | _ => []
  end.

(** [p] reads exactly the bytes [w] at the cursor and returns [a], whatever
    follows them, and leaves the counter alone. *)
Definition Parses {A} (p : M A) (w : list byte) (a : A) : Prop :=
  forall s rest,
    remaining s = w ++ rest ->
    unusualNumbers s < 3 ->
    p s = Done a (advance (List.length w) s).

(** [m] appends exactly the bytes [w] to the output. *)
Definition Emits (m : M unit) (w : list byte) : Prop :=
  forall s,
    unusualNumbers s < 3 ->
    m s = Done tt (mkSt (data s ++ w) (pos s + List.length w) (unusualNumbers s)).

Definition int32_ok (x : Z) : Prop := - 2 ^ 31 <= x < 2 ^ 31.
Definition float_ok (x : Z) : Prop := 0 <= x < 2 ^ 32.
Definition string_ok (s : string) : Prop := Z.of_nat (String.length s) < 65536.

(** A text that [printf] can take as its format without an argument:
    up to its first NUL every [%] in it is doubled. *)
Definition format_ok (s : string) : Prop := Utils.format_defined s = true.
Definition count_ok {A} (xs : list A) : Prop := Z.of_nat (List.length xs) <= 10000.
Definition size_ok {A} (xs : list A) : Prop := Z.of_nat (List.length xs) < 2 ^ 31.

Definition bool_byte (b : bool) : byte := if b then x01 else x00.

(** The bytes of a length-prefixed string of the layout format. *)
Definition string_image (str : string) : list byte :=
  le_bytes 2 (Z.of_nat (String.length str)) ++ string_bytes str.

(** The bytes of one piston record. *)
Definition piston_image (raw : Z) (node_a node_b guid : string) : list byte :=
  le_bytes 4 raw ++ string_image node_a ++ string_image node_b ++ string_image guid.

(** One call of the sanity guard. *)
Record Check : Type := mkCheck {
  chk_value : Z; chk_min : Z; chk_max : Z; chk_warnMin : Z; chk_warnMax : Z }.

Definition guard (c : Check) : M unit :=
  Utils.ensureReasonable (chk_value c) (chk_min c) (chk_max c)
    (chk_warnMin c) (chk_warnMax c).

(** The guard calls of one run, in order. *)
Definition guardRun (cs : list Check) : M unit := forEach cs guard.

(** Outside the hard bounds. *)
Definition offends (c : Check) : bool :=
  (chk_value c <? chk_min c) || (chk_max c <? chk_value c).

(** Inside the hard bounds and inside the warning bounds. *)
Definition inside (c : Check) : bool :=
  negb (offends c) &&
  negb ((chk_value c <? chk_warnMin c) || (chk_warnMax c <? chk_value c)).

(** Inside the hard bounds, outside the warning bounds. *)
Definition unusual (c : Check) : bool := negb (offends c) && negb (inside c).

Definition count_if {A} (f : A -> bool) (xs : list A) : Z :=
  Z.of_nat (List.length (filter f xs)).

Definition aborts (m : M unit) (s : St) : Prop :=
  exists s', m s = Exit ExcessiveUnusualNumbers s'.

(** ** Wire images

    The byte layout of each record, written from the field order of the
    format.  [counted] is a 32-bit count followed by the elements. *)

Definition bool_image (b : bool) : list byte := [bool_byte b].

Definition int32_image (x : Z) : list byte := le_bytes 4 x.

Definition float_image (x : Z) : list byte := le_bytes 4 x.

Definition counted {A} (enc : A -> list byte) (xs : list A) : list byte :=
  int32_image (Z.of_nat (List.length xs)) ++ flat_map enc xs.

Definition vec3_image (v : Vec3.t) : list byte :=
  float_image (Vec3.x v) ++ float_image (Vec3.y v) ++ float_image (Vec3.z v).

Definition vec2_image (v : Vec2.t) : list byte :=
  float_image (Vec2.x v) ++ float_image (Vec2.y v).

Definition quaternion_image (q : Quaternion.t) : list byte :=
  float_image (Quaternion.x q) ++ float_image (Quaternion.y q) ++
  float_image (Quaternion.z q) ++ float_image (Quaternion.w q).

Definition joint_image (j : BridgeJoint.t) : list byte :=
  vec3_image (BridgeJoint.pos j) ++ bool_image (BridgeJoint.is_anchor j) ++
  bool_image (BridgeJoint.is_split j) ++ string_image (BridgeJoint.guid j).

Definition spring_image (sp : BridgeSpring.t) : list byte :=
  float_image (BridgeSpring.normalized_value sp) ++
  string_image (BridgeSpring.node_a_guid sp) ++
  string_image (BridgeSpring.node_b_guid sp) ++
  string_image (BridgeSpring.guid sp).

Definition piston_record_image (p : Piston.t) : list byte :=
  float_image (Piston.normalized_value p) ++
  string_image (Piston.node_a_guid p) ++
  string_image (Piston.node_b_guid p) ++
  string_image (Piston.guid p).

Definition split_joint_image (j : BridgeSplitJoint.t) : list byte :=
  string_image (BridgeSplitJoint.guid j) ++ int32_image (BridgeSplitJoint.state j).

Definition wf_vec3 (v : Vec3.t) : Prop :=
  float_ok (Vec3.x v) /\ float_ok (Vec3.y v) /\ float_ok (Vec3.z v).

Definition wf_vec2 (v : Vec2.t) : Prop :=
  float_ok (Vec2.x v) /\ float_ok (Vec2.y v).

Definition wf_quaternion (q : Quaternion.t) : Prop :=
  float_ok (Quaternion.x q) /\ float_ok (Quaternion.y q) /\
  float_ok (Quaternion.z q) /\ float_ok (Quaternion.w q).

Definition wf_joint (j : BridgeJoint.t) : Prop :=
  wf_vec3 (BridgeJoint.pos j) /\ string_ok (BridgeJoint.guid j).

Definition wf_edge (e : BridgeEdge.t) : Prop :=
  int32_ok (BridgeEdge.material_type e) /\
  string_ok (BridgeEdge.node_a_guid e) /\ string_ok (BridgeEdge.node_b_guid e) /\
  int32_ok (BridgeEdge.joint_a_part e) /\ int32_ok (BridgeEdge.joint_b_part e) /\
  string_ok (BridgeEdge.guid e).

Definition wf_spring (sp : BridgeSpring.t) : Prop :=
  float_ok (BridgeSpring.normalized_value sp) /\
  string_ok (BridgeSpring.node_a_guid sp) /\
  string_ok (BridgeSpring.node_b_guid sp) /\ string_ok (BridgeSpring.guid sp).

Definition wf_piston (p : Piston.t) : Prop :=
  float_ok (Piston.normalized_value p) /\
  string_ok (Piston.node_a_guid p) /\
  string_ok (Piston.node_b_guid p) /\ string_ok (Piston.guid p).

Definition wf_split_joint (j : BridgeSplitJoint.t) : Prop :=
  string_ok (BridgeSplitJoint.guid j) /\ int32_ok (BridgeSplitJoint.state j).

(** ** The version-gated schedule of the bridge (spec 4.2)

    What a bridge stream of version [v] holds after its version field.  A
    phase carries either split joints or, up to version 2, as many strings
    of garbage; [bw_garbage] is the string block of version 5 and
    [bw_tail] the boolean of versions 4 to 8. *)

Record PhaseWire : Type := mkPhaseWire {
  pw_guid : string;
  pw_piston_guids : list string;
  pw_split_joints : list BridgeSplitJoint.t;
  pw_garbage : list string;
  pw_flag : bool }.

Record BridgeWire : Type := mkBridgeWire {
  bw_joints : list BridgeJoint.t;
  bw_edges : list BridgeEdge.t;
  bw_springs : list BridgeSpring.t;
  bw_pistons : list Piston.t;
  bw_phases : list PhaseWire;
  bw_garbage : list string;
  bw_anchors : list BridgeJoint.t;
  bw_tail : bool }.

Definition edge_image (v : Z) (e : BridgeEdge.t) : list byte :=
  int32_image (BridgeEdge.material_type e) ++
  string_image (BridgeEdge.node_a_guid e) ++
  string_image (BridgeEdge.node_b_guid e) ++
  int32_image (BridgeEdge.joint_a_part e) ++
  int32_image (BridgeEdge.joint_b_part e) ++
  (if 11 <=? v then string_image (BridgeEdge.guid e) else []).

Definition phase_image (v : Z) (p : PhaseWire) : list byte :=
  string_image (pw_guid p) ++
  counted string_image (pw_piston_guids p) ++
  (if 2 <? v then counted split_joint_image (pw_split_joints p)
   else counted string_image (pw_garbage p)) ++
  (if 9 <? v then bool_image (pw_flag p) else []).

Definition bridge_schedule (v : Z) (w : BridgeWire) : list byte :=
  counted joint_image (bw_joints w) ++
  counted (edge_image v) (bw_edges w) ++
  (if 7 <=? v then counted spring_image (bw_springs w) else []) ++
  counted piston_record_image (bw_pistons w) ++
  counted (phase_image v) (bw_phases w) ++
  (if v =? 5 then counted string_image (bw_garbage w) else []) ++
  (if 6 <=? v then counted joint_image (bw_anchors w) else []) ++
  (if (4 <=? v) && (v <? 9) then bool_image (bw_tail w) else []).

Definition edge_decoded (v : Z) (e : BridgeEdge.t) : BridgeEdge.t :=
  BridgeEdge.mk (BridgeEdge.material_type e) (BridgeEdge.node_a_guid e)
    (BridgeEdge.node_b_guid e) (BridgeEdge.joint_a_part e)
    (BridgeEdge.joint_b_part e)
    (if 11 <=? v then BridgeEdge.guid e else EmptyString).

Definition piston_decoded (v : Z) (p : Piston.t) : Piston.t :=
  Piston.mk
    (if v <? 8 then Deserializer.fixPistonNormalizedValue (Piston.normalized_value p)
     else Piston.normalized_value p)
    (Piston.node_a_guid p) (Piston.node_b_guid p) (Piston.guid p).

Definition phase_decoded (v : Z) (p : PhaseWire) : HydraulicsControllerPhase.t :=
  HydraulicsControllerPhase.mk (pw_guid p) (pw_piston_guids p)
    (if 2 <? v then pw_split_joints p else [])
    (if 9 <? v then pw_flag p else false).

Definition bridge_decoded (v : Z) (w : BridgeWire) : Bridge.t :=
  Bridge.mk v
    (bw_joints w)
    (map (edge_decoded v) (bw_edges w))
    (if 7 <=? v then bw_springs w else [])
    (map (piston_decoded v) (bw_pistons w))
    (if 6 <=? v then bw_anchors w else [])
    (map (phase_decoded v) (bw_phases w)).

Definition wf_phase_wire (p : PhaseWire) : Prop :=
  string_ok (pw_guid p) /\
  Forall string_ok (pw_piston_guids p) /\ size_ok (pw_piston_guids p) /\
  Forall wf_split_joint (pw_split_joints p) /\ size_ok (pw_split_joints p) /\
  Forall string_ok (pw_garbage p) /\ size_ok (pw_garbage p).

Definition wf_bridge_wire (w : BridgeWire) : Prop :=
  Forall wf_joint (bw_joints w) /\ count_ok (bw_joints w) /\
  Forall wf_edge (bw_edges w) /\ count_ok (bw_edges w) /\
  Forall wf_spring (bw_springs w) /\ count_ok (bw_springs w) /\
  Forall wf_piston (bw_pistons w) /\ count_ok (bw_pistons w) /\
  Forall wf_phase_wire (bw_phases w) /\ count_ok (bw_phases w) /\
  Forall string_ok (bw_garbage w) /\ size_ok (bw_garbage w) /\
  Forall wf_joint (bw_anchors w) /\ count_ok (bw_anchors w).

(** The two guard calls on a version field. *)
Definition versionGuards (v : Z) : M unit :=
  Utils.ensureReasonable v 0 100 0 50 ;; Utils.intc v.

(** A small bridge stream content used as a concrete instance. *)
Definition sample_joint : BridgeJoint.t :=
  BridgeJoint.mk (Vec3.mk F32.one F32.half F32.zero) true false "j1".

Definition sample_wire : BridgeWire :=
  mkBridgeWire
    [sample_joint]
    [BridgeEdge.mk 1 "j1" "j2" 0 1 "e1"]
    [BridgeSpring.mk F32.half "j1" "j2" "s1"]
    [Piston.mk F32.half "j1" "j2" "p1"]
    [mkPhaseWire "h1" ["p1"%string] [BridgeSplitJoint.mk "j1" 2]
       ["junk"%string] true]
    ["junk"%string; EmptyString]
    [sample_joint]
    true.

(** A version 10 bridge payload with one record of each kind. *)
Definition sample_payload : list byte :=
  int32_image 10 ++ bridge_schedule 10 sample_wire.

(** ** Streams of the save-slot format *)

(** A string in its UTF-8 form: discriminant 0, 32-bit length, bytes. *)
Definition slot_string (str : string) : list byte :=
  x00 :: int32_image (Z.of_nat (String.length str)) ++ string_bytes str.

(** A named entry: the tag byte and the name. *)
Definition named_entry (tag : byte) (name : string) : list byte :=
  tag :: slot_string name.

(** A reference node start with a [TypeName] descriptor and a node id. *)
Definition node_start (entry : list byte) (type_name : string) (id : Z)
    : list byte :=
  entry ++ [x2f] ++ int32_image 0 ++ slot_string type_name ++ int32_image id.

(** A complete save slot: root node, the seven scalar fields, the bridge
    container with [sample_payload], no thumbnail, the two flags. *)
Definition sample_slot : list byte :=
  node_start [x02] "BridgeSaveSlotData, Assembly-CSharp" 0 ++
  named_entry x17 "m_Version" ++ int32_image 3 ++
  named_entry x17 "m_PhysicsVersion" ++ int32_image 1 ++
  named_entry x17 "m_SlotID" ++ int32_image 5 ++
  named_entry x27 "m_DisplayName" ++ slot_string "My bridge" ++
  named_entry x27 "m_SlotFilename" ++ slot_string "my.slot" ++
  named_entry x17 "m_Budget" ++ int32_image 1000 ++
  named_entry x1b "m_LastWriteTimeTicks" ++ le_bytes 8 637000000000000000 ++
  node_start (named_entry x01 "m_Bridge") "System.Byte[], mscorlib" 1 ++
  [x08] ++ int32_image (Z.of_nat (List.length sample_payload)) ++ int32_image 1 ++
  sample_payload ++ [x05] ++
  named_entry x2d "m_Thumb" ++
  named_entry x2b "m_UsingUnlimitedMaterials" ++ [x01] ++
  named_entry x2b "m_UsingUnlimitedBudget" ++ [x00] ++
  [x05].

(** The same root node followed by a first field under another name. *)
Definition misnamed_slot : list byte :=
  node_start [x02] "BridgeSaveSlotData, Assembly-CSharp" 0 ++
  named_entry x17 "m_Wrong" ++ int32_image 3 ++
  named_entry x17 "m_PhysicsVersion" ++ int32_image 1.

(** ** Layout streams *)

(** The raw version field at the cursor. *)
Definition raw_version (s : St) : Z := int32 (le_value (firstn 4 (remaining s))).

Definition sample_budget : Budget.t :=
  Budget.mk 15000 100 200 300 400 500 600 700 800
            true true false true false true true.

Definition budget_image (b : Budget.t) : list byte :=
  int32_image (Budget.cash b) ++ int32_image (Budget.road b) ++
  int32_image (Budget.wood b) ++ int32_image (Budget.steel b) ++
  int32_image (Budget.hydraulics b) ++ int32_image (Budget.rope b) ++
  int32_image (Budget.cable b) ++ int32_image (Budget.spring b) ++
  int32_image (Budget.bungee_rope b) ++
  bool_image (Budget.allow_wood b) ++ bool_image (Budget.allow_steel b) ++
  bool_image (Budget.allow_hydraulics b) ++ bool_image (Budget.allow_rope b) ++
  bool_image (Budget.allow_cable b) ++ bool_image (Budget.allow_spring b) ++
  bool_image (Budget.allow_reinforced_road b).

Definition settings_image (st : Settings.t) : list byte :=
  bool_image (Settings.hydraulics_controller_enabled st) ++
  bool_image (Settings.unbreakable st).

Definition no_records : list byte := int32_image 0.

(** The mod list of a modded layout: a 16-bit count and the strings. *)
Definition mods_image (raws : list string) : list byte :=
  le_bytes 2 (Z.of_nat (List.length raws)) ++ flat_map string_image raws.

(** A layout of version 7 saved by the mod framework: the version field
    holds -7, every collection is empty, the bridge has version 1, and one
    mod is listed behind the settings. *)
Definition sample_modded_layout : list byte :=
  int32_image (-7) ++ string_image "Western" ++
  no_records (* phases *) ++
  int32_image 1 (* bridge *) ++
  no_records (* z-axis vehicles *) ++ no_records (* vehicles *) ++
  no_records (* stop triggers *) ++ no_records (* theme objects *) ++
  no_records (* timelines *) ++ no_records (* checkpoints *) ++
  no_records (* terrain *) ++ no_records (* platforms *) ++
  no_records (* ramps *) ++ no_records (* restart phases *) ++
  no_records (* flying objects *) ++ no_records (* rocks *) ++
  no_records (* water blocks *) ++
  budget_image sample_budget ++ settings_image (Settings.mk true false) ++
  mods_image [("Mod" ++ modDelimiter ++ "1.0" ++ modDelimiter ++ "cfg")%string].

(** A layout whose version field holds [-2^31]: the bridge of the oldest
    versions, every collection empty, the theme objects and the skipped
    block that old versions carry, and an empty mod list. *)
Definition int_min_layout : list byte :=
  int32_image (-2147483648) ++ string_image "Western" ++
  no_records (* joints *) ++ no_records (* edges *) ++
  no_records (* pistons *) ++ no_records (* vehicles *) ++
  no_records (* stop triggers *) ++ no_records (* theme objects *) ++
  no_records (* timelines *) ++ no_records (* checkpoints *) ++
  no_records (* terrain *) ++ no_records (* platforms *) ++
  no_records (* ramps *) ++ no_records (* phases *) ++
  no_records (* restart phases *) ++ no_records (* flying objects *) ++
  no_records (* rocks *) ++ no_records (* water blocks *) ++
  no_records (* skipped block *) ++
  budget_image sample_budget ++ settings_image (Settings.mk true false) ++
  mods_image [].

(** The same layout with a mod whose name is [%s]. *)
Definition format_modded_layout : list byte :=
  int32_image (-7) ++ string_image "Western" ++
  no_records ++ int32_image 1 ++
  no_records ++ no_records ++ no_records ++ no_records ++
  no_records ++ no_records ++ no_records ++ no_records ++
  no_records ++ no_records ++ no_records ++ no_records ++ no_records ++
  budget_image sample_budget ++ settings_image (Settings.mk true false) ++
  mods_image ["%s"%string].

(** The same layout saved by the game itself, without the mod list. *)
Definition sample_plain_layout : list byte :=
  int32_image 7 ++ string_image "Western" ++
  no_records ++ int32_image 1 ++
  no_records ++ no_records ++ no_records ++ no_records ++
  no_records ++ no_records ++ no_records ++ no_records ++
  no_records ++ no_records ++ no_records ++ no_records ++ no_records ++
  budget_image sample_budget ++ settings_image (Settings.mk true false).

(** ** The mod-data block (spec 4.4) *)

Definition save_name (identifier : string) : string :=
  nth 0 (Utils.splitString identifier modDelimiter) EmptyString.

Definition save_version (identifier : string) : string :=
  nth 1 (Utils.splitString identifier modDelimiter) EmptyString.

(** An entry of the extra payload list: its identifier and, unless the
    name part of the identifier is empty, a byte array. *)
Definition save_entry_image (e : string * list byte) : list byte :=
  string_image (fst e) ++
  (if (String.length (save_name (fst e)) =? 0)%nat then []
   else int32_image (Z.of_nat (List.length (snd e))) ++ snd e).

Definition save_decoded (e : string * list byte) : option ModSaveData.t :=
  if (String.length (save_name (fst e)) =? 0)%nat then None
  else Some (ModSaveData.mk (snd e) (save_name (fst e)) (save_version (fst e))).

(** The decoder logs the identifier of an entry that it skips, and the
    name and the version of one that it keeps. *)
Definition wf_save_entry (e : string * list byte) : Prop :=
  string_ok (fst e) /\
  ((String.length (save_name (fst e)) =? 0)%nat = false ->
   0 < Z.of_nat (List.length (snd e)) < 2 ^ 31) /\
  (if (String.length (save_name (fst e)) =? 0)%nat then format_ok (fst e)
   else format_ok (save_name (fst e)) /\ format_ok (save_version (fst e))).

(** A mod string in the range of its length field whose three parts, which
    the decoder logs, can be passed to [printf]. *)
Definition wf_mod_string (str : string) : Prop :=
  string_ok str /\
  format_ok (Mod.name (Deserializer.modOfString str)) /\
  format_ok (Mod.version (Deserializer.modOfString str)) /\
  format_ok (Mod.settings (Deserializer.modOfString str)).

(** The end-of-stream probe of the mod-data decoder, with what follows it
    on either side left open. *)
Definition probe {A} (at_end : M A) (otherwise : M A) : M A :=
  pos <- tellg ;;
  seekg_end ;;
  end_ <- tellg ;;
  if (pos =? end_)%nat then at_end else seekg pos ;; otherwise.

Definition sample_mod_string : string :=
  ("Mod" ++ modDelimiter ++ "1.0" ++ modDelimiter ++ "cfg")%string.

Definition sample_extras : list (string * list byte) :=
  [(("Mod" ++ modDelimiter ++ "1.0")%string, [x01; x02; x03]);
   ((modDelimiter ++ "1.0")%string, [])].

Definition sample_mod_block : list byte :=
  mods_image [sample_mod_string] ++ counted save_entry_image sample_extras ++ [].

(** ** The layout at the current version

    The byte layout that [Serializer] produces, record by record, and the
    conditions under which a record is read back unchanged. *)

Definition hphase_image (p : HydraulicPhase.t) : list byte :=
  float_image (HydraulicPhase.time_delay p) ++ string_image (HydraulicPhase.guid p).

Definition wf_hphase (p : HydraulicPhase.t) : Prop :=
  float_ok (HydraulicPhase.time_delay p) /\ string_ok (HydraulicPhase.guid p).

(** An edge as the encoder writes it: without its GUID. *)
Definition edge_written_image (e : BridgeEdge.t) : list byte :=
  int32_image (BridgeEdge.material_type e) ++
  string_image (BridgeEdge.node_a_guid e) ++
  string_image (BridgeEdge.node_b_guid e) ++
  int32_image (BridgeEdge.joint_a_part e) ++
  int32_image (BridgeEdge.joint_b_part e).

Definition cphase_image (p : HydraulicsControllerPhase.t) : list byte :=
  string_image (HydraulicsControllerPhase.hydraulics_phase_guid p) ++
  counted string_image (HydraulicsControllerPhase.piston_guids p) ++
  counted split_joint_image (HydraulicsControllerPhase.bridge_split_joints p) ++
  bool_image (HydraulicsControllerPhase.disable_new_additions p).

Definition wf_cphase (p : HydraulicsControllerPhase.t) : Prop :=
  string_ok (HydraulicsControllerPhase.hydraulics_phase_guid p) /\
  Forall string_ok (HydraulicsControllerPhase.piston_guids p) /\
  size_ok (HydraulicsControllerPhase.piston_guids p) /\
  Forall wf_split_joint (HydraulicsControllerPhase.bridge_split_joints p) /\
  size_ok (HydraulicsControllerPhase.bridge_split_joints p).

Definition bridge_image (b : Bridge.t) : list byte :=
  int32_image MAX_BRIDGE_VERSION ++
  counted joint_image (Bridge.joints b) ++
  counted edge_written_image (Bridge.edges b) ++
  counted spring_image (Bridge.springs b) ++
  counted piston_record_image (Bridge.pistons b) ++
  counted cphase_image (Bridge.phases b) ++
  counted joint_image (Bridge.anchors b).

(** The bridge carries the current version and no edges. *)
Definition wf_bridge (b : Bridge.t) : Prop :=
  Bridge.version b = MAX_BRIDGE_VERSION /\
  Bridge.edges b = [] /\
  Forall wf_joint (Bridge.joints b) /\ count_ok (Bridge.joints b) /\
  Forall wf_spring (Bridge.springs b) /\ count_ok (Bridge.springs b) /\
  Forall wf_piston (Bridge.pistons b) /\ count_ok (Bridge.pistons b) /\
  Forall wf_cphase (Bridge.phases b) /\ count_ok (Bridge.phases b) /\
  Forall wf_joint (Bridge.anchors b) /\ count_ok (Bridge.anchors b).

Definition zaxis_image (v : ZAxisVehicle.t) : list byte :=
  vec2_image (ZAxisVehicle.pos v) ++ string_image (ZAxisVehicle.prefab_name v) ++
  string_image (ZAxisVehicle.guid v) ++ float_image (ZAxisVehicle.time_delay v) ++
  float_image (ZAxisVehicle.speed v) ++ quaternion_image (ZAxisVehicle.rot v) ++
  float_image (ZAxisVehicle.rotation_degrees v).

Definition wf_zaxis (v : ZAxisVehicle.t) : Prop :=
  wf_vec2 (ZAxisVehicle.pos v) /\ string_ok (ZAxisVehicle.prefab_name v) /\
  string_ok (ZAxisVehicle.guid v) /\ float_ok (ZAxisVehicle.time_delay v) /\
  float_ok (ZAxisVehicle.speed v) /\ wf_quaternion (ZAxisVehicle.rot v) /\
  float_ok (ZAxisVehicle.rotation_degrees v).

Definition vehicle_image (v : Vehicle.t) : list byte :=
  string_image (Vehicle.display_name v) ++ vec2_image (Vehicle.pos v) ++
  quaternion_image (Vehicle.rot v) ++ string_image (Vehicle.prefab_name v) ++
  float_image (Vehicle.target_speed v) ++ float_image (Vehicle.mass v) ++
  float_image (Vehicle.braking_force_multiplier v) ++
  int32_image (Vehicle.strength_method v) ++
  float_image (Vehicle.acceleration v) ++ float_image (Vehicle.max_slope v) ++
  float_image (Vehicle.desired_acceleration v) ++
  float_image (Vehicle.shocks_multiplier v) ++
  float_image (Vehicle.rotation_degrees v) ++ float_image (Vehicle.time_delay v) ++
  bool_image (Vehicle.idle_on_downhill v) ++ bool_image (Vehicle.flipped v) ++
  bool_image (Vehicle.ordered_checkpoints v) ++ string_image (Vehicle.guid v) ++
  counted string_image (Vehicle.checkpoint_guids v).

Definition wf_vehicle (v : Vehicle.t) : Prop :=
  string_ok (Vehicle.display_name v) /\ wf_vec2 (Vehicle.pos v) /\
  wf_quaternion (Vehicle.rot v) /\ string_ok (Vehicle.prefab_name v) /\
  float_ok (Vehicle.target_speed v) /\ float_ok (Vehicle.mass v) /\
  float_ok (Vehicle.braking_force_multiplier v) /\
  int32_ok (Vehicle.strength_method v) /\
  float_ok (Vehicle.acceleration v) /\ float_ok (Vehicle.max_slope v) /\
  float_ok (Vehicle.desired_acceleration v) /\
  float_ok (Vehicle.shocks_multiplier v) /\
  float_ok (Vehicle.rotation_degrees v) /\ float_ok (Vehicle.time_delay v) /\
  string_ok (Vehicle.guid v) /\
  Forall string_ok (Vehicle.checkpoint_guids v) /\
  size_ok (Vehicle.checkpoint_guids v).

(** The encoder writes the checkpoints of the first vehicle that carries
    the GUID; they are the vehicle's own when that vehicle has the same
    checkpoints, as it does when GUIDs are distinct. *)
Definition own_checkpoints (vehicles : list Vehicle.t) (v : Vehicle.t) : Prop :=
  exists v',
    find (fun x => String.eqb (Vehicle.guid x) (Vehicle.guid v)) vehicles = Some v' /\
    Vehicle.checkpoint_guids v' = Vehicle.checkpoint_guids v.

Definition stop_trigger_image (t : VehicleStopTrigger.t) : list byte :=
  vec2_image (VehicleStopTrigger.pos t) ++
  quaternion_image (VehicleStopTrigger.rot t) ++
  float_image (VehicleStopTrigger.height t) ++
  float_image (VehicleStopTrigger.rotation_degrees t) ++
  bool_image (VehicleStopTrigger.flipped t) ++
  string_image (VehicleStopTrigger.prefab_name t) ++
  string_image (VehicleStopTrigger.stop_vehicle_guid t).

Definition wf_stop_trigger (t : VehicleStopTrigger.t) : Prop :=
  wf_vec2 (VehicleStopTrigger.pos t) /\ wf_quaternion (VehicleStopTrigger.rot t) /\
  float_ok (VehicleStopTrigger.height t) /\
  float_ok (VehicleStopTrigger.rotation_degrees t) /\
  string_ok (VehicleStopTrigger.prefab_name t) /\
  string_ok (VehicleStopTrigger.stop_vehicle_guid t).

Definition unit_image (u : EventUnit.t) : list byte := string_image (EventUnit.guid u).

Definition wf_unit (u : EventUnit.t) : Prop := string_ok (EventUnit.guid u).

Definition stage_image (st : EventStage.t) : list byte :=
  counted unit_image (EventStage.units st).

Definition wf_stage (st : EventStage.t) : Prop :=
  Forall wf_unit (EventStage.units st) /\ size_ok (EventStage.units st).

Definition timeline_image (t : EventTimeline.t) : list byte :=
  string_image (EventTimeline.checkpoint_guid t) ++
  counted stage_image (EventTimeline.stages t).

Definition wf_timeline (t : EventTimeline.t) : Prop :=
  string_ok (EventTimeline.checkpoint_guid t) /\
  Forall wf_stage (EventTimeline.stages t) /\ size_ok (EventTimeline.stages t).

Definition checkpoint_image (c : Checkpoint.t) : list byte :=
  vec2_image (Checkpoint.pos c) ++ string_image (Checkpoint.prefab_name c) ++
  string_image (Checkpoint.vehicle_guid c) ++
  string_image (Checkpoint.vehicle_restart_phase_guid c) ++
  bool_image (Checkpoint.trigger_timeline c) ++
  bool_image (Checkpoint.stop_vehicle c) ++
  bool_image (Checkpoint.reverse_vehicle_on_restart c) ++
  string_image (Checkpoint.guid c).

Definition wf_checkpoint (c : Checkpoint.t) : Prop :=
  wf_vec2 (Checkpoint.pos c) /\ string_ok (Checkpoint.prefab_name c) /\
  string_ok (Checkpoint.vehicle_guid c) /\
  string_ok (Checkpoint.vehicle_restart_phase_guid c) /\
  string_ok (Checkpoint.guid c).

Definition terrain_image (t : TerrainIsland.t) : list byte :=
  vec3_image (TerrainIsland.pos t) ++ string_image (TerrainIsland.prefab_name t) ++
  float_image (TerrainIsland.height_added t) ++
  float_image (TerrainIsland.right_edge_water_height t) ++
  int32_image (TerrainIsland.terrain_island_type t) ++
  int32_image (TerrainIsland.variant_index t) ++
  bool_image (TerrainIsland.flipped t) ++ bool_image (TerrainIsland.lock_position t).

Definition wf_terrain (t : TerrainIsland.t) : Prop :=
  wf_vec3 (TerrainIsland.pos t) /\ string_ok (TerrainIsland.prefab_name t) /\
  float_ok (TerrainIsland.height_added t) /\
  float_ok (TerrainIsland.right_edge_water_height t) /\
  int32_ok (TerrainIsland.terrain_island_type t) /\
  int32_ok (TerrainIsland.variant_index t).

Definition platform_image (p : Platform.t) : list byte :=
  vec2_image (Platform.pos p) ++ float_image (Platform.width p) ++
  float_image (Platform.height p) ++ bool_image (Platform.flipped p) ++
  bool_image (Platform.solid p).

Definition wf_platform (p : Platform.t) : Prop :=
  wf_vec2 (Platform.pos p) /\ float_ok (Platform.width p) /\
  float_ok (Platform.height p).

Definition ramp_image (r : Ramp.t) : list byte :=
  vec2_image (Ramp.pos r) ++ counted vec2_image (Ramp.control_points r) ++
  float_image (Ramp.height r) ++ int32_image (Ramp.num_segments r) ++
  int32_image (Ramp.spline_type r) ++ bool_image (Ramp.flipped_vertical r) ++
  bool_image (Ramp.flipped_horizontal r) ++ bool_image (Ramp.hide_legs r) ++
  bool_image (Ramp.flipped_legs r) ++ counted vec2_image (Ramp.line_points r).

(** The height of a ramp is read through [std::abs]. *)
Definition wf_ramp (r : Ramp.t) : Prop :=
  wf_vec2 (Ramp.pos r) /\
  Forall wf_vec2 (Ramp.control_points r) /\ size_ok (Ramp.control_points r) /\
  float_ok (Ramp.height r) /\ F32.abs (Ramp.height r) = Ramp.height r /\
  int32_ok (Ramp.num_segments r) /\ int32_ok (Ramp.spline_type r) /\
  Forall wf_vec2 (Ramp.line_points r) /\ size_ok (Ramp.line_points r).

Definition restart_image (p : VehicleRestartPhase.t) : list byte :=
  float_image (VehicleRestartPhase.time_delay p) ++
  string_image (VehicleRestartPhase.guid p) ++
  string_image (VehicleRestartPhase.vehicle_guid p).

Definition wf_restart (p : VehicleRestartPhase.t) : Prop :=
  float_ok (VehicleRestartPhase.time_delay p) /\
  string_ok (VehicleRestartPhase.guid p) /\
  string_ok (VehicleRestartPhase.vehicle_guid p).

Definition flying_image (o : FlyingObject.t) : list byte :=
  vec3_image (FlyingObject.pos o) ++ vec3_image (FlyingObject.scale o) ++
  string_image (FlyingObject.prefab_name o).

Definition wf_flying (o : FlyingObject.t) : Prop :=
  wf_vec3 (FlyingObject.pos o) /\ wf_vec3 (FlyingObject.scale o) /\
  string_ok (FlyingObject.prefab_name o).

Definition rock_image (r : Rock.t) : list byte :=
  vec3_image (Rock.pos r) ++ vec3_image (Rock.scale r) ++
  string_image (Rock.prefab_name r) ++ bool_image (Rock.flipped r).

Definition wf_rock (r : Rock.t) : Prop :=
  wf_vec3 (Rock.pos r) /\ wf_vec3 (Rock.scale r) /\ string_ok (Rock.prefab_name r).

Definition water_image (w : WaterBlock.t) : list byte :=
  vec3_image (WaterBlock.pos w) ++ float_image (WaterBlock.width w) ++
  float_image (WaterBlock.height w) ++ bool_image (WaterBlock.lock_position w).

Definition wf_water (w : WaterBlock.t) : Prop :=
  wf_vec3 (WaterBlock.pos w) /\ float_ok (WaterBlock.width w) /\
  float_ok (WaterBlock.height w).

(** The cash is routed through the guard with the bounds 0 and 10^8. *)
Definition cash_ok (cash : Z) : Prop := 0 <= cash <= 100000000.

Definition wf_budget (b : Budget.t) : Prop :=
  cash_ok (Budget.cash b) /\
  int32_ok (Budget.road b) /\ int32_ok (Budget.wood b) /\
  int32_ok (Budget.steel b) /\ int32_ok (Budget.hydraulics b) /\
  int32_ok (Budget.rope b) /\ int32_ok (Budget.cable b) /\
  int32_ok (Budget.spring b) /\ int32_ok (Budget.bungee_rope b).

(** A colour channel as [readColor] computes it from a byte. *)
Definition channel (b : byte) : Z := F32.div (F32.of_Z (Z_of_byte b)) F32.c255.

(** A colour channel as [writeColor] stores it in a byte. *)
Definition channel_byte (c : Z) : byte :=
  byte_of_Z (F32.to_uint8 (F32.mul c F32.c255)).

Definition color_image (c : Color.t) : list byte :=
  [channel_byte (Color.r c)] ++ [channel_byte (Color.g c)] ++
  [channel_byte (Color.b c)].

(** A colour that three bytes decode to: the alpha is 1. *)
Definition wf_color (c : Color.t) : Prop :=
  exists r g b, c = Color.mk (channel r) (channel g) (channel b) F32.one.

(** A static pin is read with its z forced to a constant. *)
Definition wf_static_pin (p : Vec3.t) : Prop :=
  float_ok (Vec3.x p) /\ float_ok (Vec3.y p) /\ Vec3.z p = F32.pin_z.

Definition shape_image (cs : CustomShape.t) : list byte :=
  vec3_image (CustomShape.pos cs) ++ quaternion_image (CustomShape.rot cs) ++
  vec3_image (CustomShape.scale cs) ++ bool_image (CustomShape.flipped cs) ++
  bool_image (CustomShape.dynamic cs) ++
  bool_image (CustomShape.collides_with_road cs) ++
  bool_image (CustomShape.collides_with_nodes cs) ++
  bool_image (CustomShape.collides_with_split_nodes cs) ++
  float_image (CustomShape.rotation_degrees cs) ++
  color_image (CustomShape.color cs) ++ float_image (CustomShape.mass cs) ++
  float_image (CustomShape.bounciness cs) ++
  float_image (CustomShape.pin_motor_strength cs) ++
  float_image (CustomShape.pin_target_velocity cs) ++
  counted vec2_image (CustomShape.points_local_space cs) ++
  counted vec3_image (CustomShape.static_pins cs) ++
  counted string_image (CustomShape.dynamic_anchor_guids cs).

Definition wf_shape (cs : CustomShape.t) : Prop :=
  wf_vec3 (CustomShape.pos cs) /\ wf_quaternion (CustomShape.rot cs) /\
  wf_vec3 (CustomShape.scale cs) /\ float_ok (CustomShape.rotation_degrees cs) /\
  wf_color (CustomShape.color cs) /\ float_ok (CustomShape.mass cs) /\
  float_ok (CustomShape.bounciness cs) /\
  float_ok (CustomShape.pin_motor_strength cs) /\
  float_ok (CustomShape.pin_target_velocity cs) /\
  Forall wf_vec2 (CustomShape.points_local_space cs) /\
  size_ok (CustomShape.points_local_space cs) /\
  Forall wf_static_pin (CustomShape.static_pins cs) /\
  size_ok (CustomShape.static_pins cs) /\
  Forall string_ok (CustomShape.dynamic_anchor_guids cs) /\
  size_ok (CustomShape.dynamic_anchor_guids cs).

Definition workshop_image (w : Workshop.t) : list byte :=
  string_image (Workshop.id w) ++ string_image (Workshop.leaderboard_id w) ++
  string_image (Workshop.title w) ++ string_image (Workshop.description w) ++
  bool_image (Workshop.autoplay w) ++ counted string_image (Workshop.tags w).

(** The decoder logs the four texts of the workshop entry through
    [printf], each as a part of the format. *)
Definition wf_workshop (w : Workshop.t) : Prop :=
  string_ok (Workshop.id w) /\ string_ok (Workshop.leaderboard_id w) /\
  string_ok (Workshop.title w) /\ string_ok (Workshop.description w) /\
  format_ok (Workshop.id w) /\ format_ok (Workshop.leaderboard_id w) /\
  format_ok (Workshop.title w) /\ format_ok (Workshop.description w) /\
  Forall string_ok (Workshop.tags w) /\ count_ok (Workshop.tags w).

Definition support_pillar_image (p : SupportPillar.t) : list byte :=
  vec3_image (SupportPillar.pos p) ++ vec3_image (SupportPillar.scale p) ++
  string_image (SupportPillar.prefab_name p).

Definition wf_support_pillar (p : SupportPillar.t) : Prop :=
  wf_vec3 (SupportPillar.pos p) /\ wf_vec3 (SupportPillar.scale p) /\
  string_ok (SupportPillar.prefab_name p).

Definition pillar_image (p : Pillar.t) : list byte :=
  vec3_image (Pillar.pos p) ++ float_image (Pillar.height p) ++
  string_image (Pillar.prefab_name p).

Definition wf_pillar (p : Pillar.t) : Prop :=
  wf_vec3 (Pillar.pos p) /\ float_ok (Pillar.height p) /\
  string_ok (Pillar.prefab_name p).

Definition pre_bridge_image (l : Layout.t) : list byte :=
  int32_image MAX_VERSION ++ string_image (Layout.stubKey l) ++
  counted joint_image (Layout.anchors l) ++
  counted hphase_image (Layout.phases l).

Definition post_bridge_image (l : Layout.t) : list byte :=
  counted zaxis_image (Layout.zAxisVehicles l) ++
  counted vehicle_image (Layout.vehicles l) ++
  counted stop_trigger_image (Layout.vehicleStopTriggers l) ++
  counted timeline_image (Layout.eventTimelines l) ++
  counted checkpoint_image (Layout.checkpoints l) ++
  counted terrain_image (Layout.terrainStretches l) ++
  counted platform_image (Layout.platforms l) ++
  counted ramp_image (Layout.ramps l) ++
  counted restart_image (Layout.vehicleRestartPhases l) ++
  counted flying_image (Layout.flyingObjects l) ++
  counted rock_image (Layout.rocks l) ++
  counted water_image (Layout.waterBlocks l) ++
  budget_image (Layout.budget l) ++
  settings_image (Layout.settings l) ++
  counted shape_image (Layout.customShapes l) ++
  workshop_image (Layout.workshop l) ++
  counted support_pillar_image (Layout.supportPillars l) ++
  counted pillar_image (Layout.pillars l).

Definition layout_image (l : Layout.t) : list byte :=
  pre_bridge_image l ++ bridge_image (Layout.bridge l) ++ post_bridge_image l.

(** What the encoder needs in order to finish: every top-level count and
    the cash within the guard's hard bounds, and each vehicle found with
    its own checkpoints. *)
Definition encodable (l : Layout.t) : Prop :=
  count_ok (Layout.anchors l) /\ count_ok (Layout.phases l) /\
  count_ok (Bridge.joints (Layout.bridge l)) /\
  count_ok (Bridge.edges (Layout.bridge l)) /\
  count_ok (Bridge.springs (Layout.bridge l)) /\
  count_ok (Bridge.pistons (Layout.bridge l)) /\
  count_ok (Bridge.phases (Layout.bridge l)) /\
  count_ok (Bridge.anchors (Layout.bridge l)) /\
  count_ok (Layout.zAxisVehicles l) /\ count_ok (Layout.vehicles l) /\
  Forall (own_checkpoints (Layout.vehicles l)) (Layout.vehicles l) /\
  count_ok (Layout.vehicleStopTriggers l) /\
  count_ok (Layout.eventTimelines l) /\ count_ok (Layout.checkpoints l) /\
  count_ok (Layout.terrainStretches l) /\ count_ok (Layout.platforms l) /\
  count_ok (Layout.ramps l) /\ count_ok (Layout.vehicleRestartPhases l) /\
  count_ok (Layout.flyingObjects l) /\ count_ok (Layout.rocks l) /\
  count_ok (Layout.waterBlocks l) /\
  cash_ok (Budget.cash (Layout.budget l)) /\
  count_ok (Layout.customShapes l) /\
  count_ok (Layout.supportPillars l) /\ count_ok (Layout.pillars l).



(** ** Layouts at the current version (spec 8, round trip) *)

Definition minus_one : Z := F32.sub F32.zero F32.one.

Definition sample_vehicle : Vehicle.t :=
  Vehicle.mk "Car" (Vec2.mk F32.one F32.zero)
    (Quaternion.mk F32.zero F32.zero F32.zero F32.one) "CompactCar"
    F32.forty F32.one F32.one 0 F32.half F32.quarter F32.one F32.one
    F32.zero F32.zero false false true "v1" ["c1"; "c2"]%string.

Definition sample_ramp (height : Z) : Ramp.t :=
  Ramp.mk (Vec2.mk F32.zero F32.one)
    [Vec2.mk F32.zero F32.zero; Vec2.mk F32.one F32.one]
    height 8 1 false true false false [].



(** An otherwise empty layout at the current versions whose workshop id
    is [%s]. *)
Definition sample_format_layout : Layout.t :=
  Layout.mk MAX_VERSION "" [] []
    (Bridge.mk MAX_BRIDGE_VERSION [] [] [] [] [] [])
    [] [] [] [] [] [] [] [] [] [] [] [] []
    (Budget.mk 0 0 0 0 0 0 0 0 0 false false false false false false false)
    (Settings.mk false false) []
    (Workshop.mk "%s" "" "" "" false []) [] []
    false ModData.empty.

(** An otherwise empty layout at the current versions whose bridge has
    one edge. *)
Definition sample_edge_layout : Layout.t :=
  Layout.mk MAX_VERSION "" [] []
    (Bridge.mk MAX_BRIDGE_VERSION [] [BridgeEdge.mk 1 "j1" "j2" 0 1 "e1"]
       [] [] [] [])
    [] [] [] [] [] [] [] [] [] [] [] [] []
    (Budget.mk 0 0 0 0 0 0 0 0 0 false false false false false false false)
    (Settings.mk false false) [] Workshop.empty [] []
    false ModData.empty.


(** ** What decoding an encoded layout returns *)

(** The vehicle that [findVehicleByGuid] returns for the GUID of [v]. *)
Definition looked_up (vehicles : list Vehicle.t) (v : Vehicle.t) : Vehicle.t :=
  match find (fun x => String.eqb (Vehicle.guid x) (Vehicle.guid v)) vehicles with
  | Some v' => v'
  | None => v
  end.

Definition with_checkpoints (guids : list string) (v : Vehicle.t) : Vehicle.t :=
  Vehicle.mk (Vehicle.display_name v) (Vehicle.pos v) (Vehicle.rot v)
    (Vehicle.prefab_name v) (Vehicle.target_speed v) (Vehicle.mass v)
    (Vehicle.braking_force_multiplier v) (Vehicle.strength_method v)
    (Vehicle.acceleration v) (Vehicle.max_slope v)
    (Vehicle.desired_acceleration v) (Vehicle.shocks_multiplier v)
    (Vehicle.rotation_degrees v) (Vehicle.time_delay v)
    (Vehicle.idle_on_downhill v) (Vehicle.flipped v)
    (Vehicle.ordered_checkpoints v) (Vehicle.guid v) guids.

(** A vehicle as the encoder stores it: with the checkpoints of the first
    vehicle of the layout that carries its GUID. *)
Definition stored_vehicle (vehicles : list Vehicle.t) (v : Vehicle.t) : Vehicle.t :=
  with_checkpoints (Vehicle.checkpoint_guids (looked_up vehicles v)) v.

Definition stored_ramp (r : Ramp.t) : Ramp.t :=
  Ramp.mk (Ramp.pos r) (Ramp.control_points r) (F32.abs (Ramp.height r))
    (Ramp.num_segments r) (Ramp.spline_type r) (Ramp.flipped_vertical r)
    (Ramp.flipped_horizontal r) (Ramp.hide_legs r) (Ramp.flipped_legs r)
    (Ramp.line_points r).

Definition stored_color (c : Color.t) : Color.t :=
  Color.mk (channel (channel_byte (Color.r c)))
           (channel (channel_byte (Color.g c)))
           (channel (channel_byte (Color.b c))) F32.one.

Definition stored_pin (p : Vec3.t) : Vec3.t :=
  Vec3.mk (Vec3.x p) (Vec3.y p) F32.pin_z.

Definition stored_shape (cs : CustomShape.t) : CustomShape.t :=
  CustomShape.mk (CustomShape.pos cs) (CustomShape.rot cs) (CustomShape.scale cs)
    (CustomShape.flipped cs) (CustomShape.dynamic cs)
    (CustomShape.collides_with_road cs) (CustomShape.collides_with_nodes cs)
    (CustomShape.collides_with_split_nodes cs) (CustomShape.rotation_degrees cs)
    (stored_color (CustomShape.color cs)) (CustomShape.mass cs)
    (CustomShape.bounciness cs) (CustomShape.pin_motor_strength cs)
    (CustomShape.pin_target_velocity cs) (CustomShape.points_local_space cs)
    (map stored_pin (CustomShape.static_pins cs))
    (CustomShape.dynamic_anchor_guids cs).

Definition stored_bridge (b : Bridge.t) : Bridge.t :=
  Bridge.mk MAX_BRIDGE_VERSION (Bridge.joints b) (Bridge.edges b)
    (Bridge.springs b) (Bridge.pistons b) (Bridge.anchors b) (Bridge.phases b).

(** The layout with every vehicle as the encoder stores it. *)
Definition with_lookups (l : Layout.t) : Layout.t :=
  Layout.mk (Layout.version l) (Layout.stubKey l) (Layout.anchors l)
    (Layout.phases l) (Layout.bridge l) (Layout.zAxisVehicles l)
    (map (stored_vehicle (Layout.vehicles l)) (Layout.vehicles l))
    (Layout.vehicleStopTriggers l) (Layout.themeObjects_OBSOLETE l)
    (Layout.eventTimelines l) (Layout.checkpoints l) (Layout.platforms l)
    (Layout.terrainStretches l) (Layout.ramps l)
    (Layout.vehicleRestartPhases l) (Layout.flyingObjects l) (Layout.rocks l)
    (Layout.waterBlocks l) (Layout.budget l) (Layout.settings l)
    (Layout.customShapes l) (Layout.workshop l) (Layout.supportPillars l)
    (Layout.pillars l) (Layout.isModded l) (Layout.modData l).

(** What the decoder makes of the image of a layout: the current versions,
    no theme objects, no mod data, and the ramps and custom shapes as the
    decoder reads them. *)
Definition decoded (l : Layout.t) : Layout.t :=
  Layout.mk MAX_VERSION (Layout.stubKey l) (Layout.anchors l)
    (Layout.phases l) (stored_bridge (Layout.bridge l)) (Layout.zAxisVehicles l)
    (Layout.vehicles l) (Layout.vehicleStopTriggers l) []
    (Layout.eventTimelines l) (Layout.checkpoints l) (Layout.platforms l)
    (Layout.terrainStretches l) (map stored_ramp (Layout.ramps l))
    (Layout.vehicleRestartPhases l) (Layout.flyingObjects l) (Layout.rocks l)
    (Layout.waterBlocks l) (Layout.budget l) (Layout.settings l)
    (map stored_shape (Layout.customShapes l)) (Layout.workshop l)
    (Layout.supportPillars l) (Layout.pillars l) false ModData.empty.

(** The layout that comes back from a save followed by a load. *)
Definition stored (l : Layout.t) : Layout.t := decoded (with_lookups l).

(** Values in the range of their types, without the conditions on the
    values that decoding normalises. *)
Definition typed_ramp (r : Ramp.t) : Prop :=
  wf_vec2 (Ramp.pos r) /\
  Forall wf_vec2 (Ramp.control_points r) /\ size_ok (Ramp.control_points r) /\
  float_ok (Ramp.height r) /\
  int32_ok (Ramp.num_segments r) /\ int32_ok (Ramp.spline_type r) /\
  Forall wf_vec2 (Ramp.line_points r) /\ size_ok (Ramp.line_points r).

Definition typed_shape (cs : CustomShape.t) : Prop :=
  wf_vec3 (CustomShape.pos cs) /\ wf_quaternion (CustomShape.rot cs) /\
  wf_vec3 (CustomShape.scale cs) /\ float_ok (CustomShape.rotation_degrees cs) /\
  float_ok (CustomShape.mass cs) /\
  float_ok (CustomShape.bounciness cs) /\
  float_ok (CustomShape.pin_motor_strength cs) /\
  float_ok (CustomShape.pin_target_velocity cs) /\
  Forall wf_vec2 (CustomShape.points_local_space cs) /\
  size_ok (CustomShape.points_local_space cs) /\
  Forall wf_vec3 (CustomShape.static_pins cs) /\
  size_ok (CustomShape.static_pins cs) /\
  Forall string_ok (CustomShape.dynamic_anchor_guids cs) /\
  size_ok (CustomShape.dynamic_anchor_guids cs).

Definition typed_bridge (b : Bridge.t) : Prop :=
  Bridge.edges b = [] /\
  Forall wf_joint (Bridge.joints b) /\ count_ok (Bridge.joints b) /\
  Forall wf_spring (Bridge.springs b) /\ count_ok (Bridge.springs b) /\
  Forall wf_piston (Bridge.pistons b) /\ count_ok (Bridge.pistons b) /\
  Forall wf_cphase (Bridge.phases b) /\ count_ok (Bridge.phases b) /\
  Forall wf_joint (Bridge.anchors b) /\ count_ok (Bridge.anchors b).

(** A layout that a save followed by a load carries through: any version,
    modded or not, values in the range of their types, the counts and the
    cash inside the guard's bounds, a bridge without edges, and workshop
    texts that [printf] can take as a format. *)
Definition storable (l : Layout.t) : Prop :=
  string_ok (Layout.stubKey l) /\
  Forall wf_joint (Layout.anchors l) /\ count_ok (Layout.anchors l) /\
  Forall wf_hphase (Layout.phases l) /\ count_ok (Layout.phases l) /\
  typed_bridge (Layout.bridge l) /\
  Forall wf_zaxis (Layout.zAxisVehicles l) /\ count_ok (Layout.zAxisVehicles l) /\
  Forall wf_vehicle (Layout.vehicles l) /\ count_ok (Layout.vehicles l) /\
  Forall wf_stop_trigger (Layout.vehicleStopTriggers l) /\
  count_ok (Layout.vehicleStopTriggers l) /\
  Forall wf_timeline (Layout.eventTimelines l) /\
  count_ok (Layout.eventTimelines l) /\
  Forall wf_checkpoint (Layout.checkpoints l) /\ count_ok (Layout.checkpoints l) /\
  Forall wf_terrain (Layout.terrainStretches l) /\
  count_ok (Layout.terrainStretches l) /\
  Forall wf_platform (Layout.platforms l) /\ count_ok (Layout.platforms l) /\
  Forall typed_ramp (Layout.ramps l) /\ count_ok (Layout.ramps l) /\
  Forall wf_restart (Layout.vehicleRestartPhases l) /\
  count_ok (Layout.vehicleRestartPhases l) /\
  Forall wf_flying (Layout.flyingObjects l) /\ count_ok (Layout.flyingObjects l) /\
  Forall wf_rock (Layout.rocks l) /\ count_ok (Layout.rocks l) /\
  Forall wf_water (Layout.waterBlocks l) /\ count_ok (Layout.waterBlocks l) /\
  wf_budget (Layout.budget l) /\
  Forall typed_shape (Layout.customShapes l) /\ count_ok (Layout.customShapes l) /\
  wf_workshop (Layout.workshop l) /\
  Forall wf_support_pillar (Layout.supportPillars l) /\
  count_ok (Layout.supportPillars l) /\
  Forall wf_pillar (Layout.pillars l) /\ count_ok (Layout.pillars l).

(** A layout at version 3, modded, with a theme object, a ramp of height
    -1, a custom shape with an arbitrary colour and pin depth, and two
    vehicles that share a GUID. *)
Definition sample_second_vehicle : Vehicle.t :=
  with_checkpoints ["c9"]%string sample_vehicle.

Definition sample_raw_shape : CustomShape.t :=
  CustomShape.mk (Vec3.mk F32.one F32.half F32.zero)
    (Quaternion.mk F32.zero F32.zero F32.zero F32.one)
    (Vec3.mk F32.one F32.one F32.one)
    false true true true false F32.zero
    (Color.mk F32.half F32.quarter F32.one F32.half)
    F32.forty F32.half F32.zero F32.zero
    [Vec2.mk F32.zero F32.zero]
    [Vec3.mk F32.one F32.half F32.forty]
    ["j1"]%string.

Definition sample_raw_layout : Layout.t :=
  Layout.mk 3 "Western" [sample_joint] []
    (Bridge.mk 7 [sample_joint] [] [] [] [] [])
    [] [sample_vehicle; sample_second_vehicle] []
    [ThemeObject.mk (Vec2.mk F32.zero F32.zero) "Tree" true] [] [] [] []
    [sample_ramp minus_one] [] [] [] []
    sample_budget (Settings.mk true false) [sample_raw_shape]
    (Workshop.mk "id" "" "title" "" false ["tag"]%string) [] []
    true (ModData.mk [Mod.mk "m" "1" "s"] []).

(** ** Outcomes of the encoder *)

(** A computation that can only append to the file and raise the counter,
    and whose only fatal outcome is the abort of the guard. *)
Definition Steady {A} (m : M A) : Prop :=
  forall s,
    match m s with
    | Done _ s' =>
        (exists w, data s' = data s ++ w) /\
        unusualNumbers s <= unusualNumbers s'
    | Exit why _ => why = ExcessiveUnusualNumbers
    | Undefined _ => False
    end.

(** ** The bridge decoder of the save slots *)

(** What [SimpleBridgeDeserializer] keeps of a bridge stream: it reads the
    edges and the hydraulics phases into locals and drops them. *)
Definition simple_decoded (v : Z) (w : BridgeWire) : Bridge.t :=
  Bridge.mk v
    (bw_joints w)
    []
    (if 7 <=? v then bw_springs w else [])
    (map (piston_decoded v) (bw_pistons w))
    (if 6 <=? v then bw_anchors w else [])
    [].

(** The result of reading a record into a local that is then dropped. *)
Definition dropped {A} (x : A) : unit := tt.

(** ** Outcomes of the decoders *)

(** A computation that, as long as the source determines what it does,
    never changes the contents of the stream, never lowers the counter of
    unusual numbers nor lets it pass 3, and whose fatal outcomes are among
    [allowed]. *)
Definition Reads {A} (allowed : Fatal -> Prop) (p : M A) : Prop :=
  forall s,
    unusualNumbers s <= 3 ->
    match p s with
    | Done _ s' =>
        data s' = data s /\ unusualNumbers s <= unusualNumbers s' <= 3
    | Exit why s' =>
        allowed why /\ data s' = data s /\
        unusualNumbers s <= unusualNumbers s' <= 3
    | Undefined _ => True
    end.

(** The fatal outcomes of the layout decoder. *)
Definition layout_fatal (why : Fatal) : Prop :=
  why = ExcessiveUnusualNumbers \/ why = BadByteArrayLength.

(** A layout stream that the guard stops: a version of a million, which
    it counts twice, an empty stub key and an anchor count of -5000. *)
Definition guard_stop_layout : list byte :=
  int32_image 1000000 ++ string_image "" ++ int32_image (-5000).

(** The fatal outcomes of the save-slot decoder. *)
Definition slot_fatal (why : Fatal) : Prop :=
  In why [ExcessiveUnusualNumbers; AssertionFailed; CannotPeekType;
          BadTypeName; UnknownTypeFlag; BadAllocation; BadConversion].

(** ** Pieces of a split string *)

(** The pieces, each with the delimiter behind it. *)
Fixpoint glued (delimiter : string) (pieces : list string) : string :=
  match pieces with
  | [] => EmptyString
  | piece :: rest => (piece ++ delimiter ++ glued delimiter rest)%string
  end.

(** ** namespace Utils: the number formatting behind [intc]

    [std::to_string] and [operator<<] on an [int] give its decimal digits,
    with a minus sign in front of a negative number. *)

Definition to_string (value : Z) : string :=
  NilZero.string_of_int (Z.to_int value).

(** [s.insert(i, text)] for [i] within the string *)
Definition insert (i : nat) (text s : string) : string :=
  (substring 0 i s ++ text ++ substring i (String.length s - i) s)%string.

(** [for (int i = (int)s.length() - 3; i > 0; i -= 3) s = s.insert(i, ",");]
    The loop runs less often than the string is long. *)
Fixpoint comma_loop (fuel : nat) (i : Z) (s : string) : string :=
  match fuel with
  | O => s
  | S fuel' =>
      if 0 <? i then comma_loop fuel' (i - 3) (insert (Z.to_nat i) "," s)
      else s
  end.

Definition add_commas (value : Z) : string :=
  let s := to_string value in
  comma_loop (String.length s) (Z.of_nat (String.length s) - 3) s.

(** A text without its commas. *)
Fixpoint without_commas (s : string) : string :=
  match s with
  | EmptyString => EmptyString
  | String c rest =>
      if Ascii.eqb c ","%char then without_commas rest
      else String c (without_commas rest)
  end.


(** ** The version-gated schedule of the layout

    What a layout stream of version [v] holds after its version field, and
    what the decoder returns for it.  The records that no version changes
    are described by the structs themselves; where a version reads a value
    and discards it, the value is kept beside the struct. *)

(** An event unit: one GUID from version 7 on, three strings before. *)
Record UnitWire : Type := mkUnitWire {
  uw_guid : string;
  uw_text1 : string;
  uw_text2 : string;
  uw_text3 : string }.

Record TimelineWire : Type := mkTimelineWire {
  tw_checkpoint_guid : string;
  tw_stages : list (list UnitWire) }.

(** A platform and the integer that ends it below version 22. *)
Record PlatformWire : Type := mkPlatformWire {
  pfw_platform : Platform.t;
  pfw_legacy : Z }.

(** A ramp, the boolean read and discarded in versions 22 to 24, and the
    integer read and discarded below version 22. *)
Record RampWire : Type := mkRampWire {
  rw_ramp : Ramp.t;
  rw_legacy_flag : bool;
  rw_legacy_int : Z }.

(** A custom shape and the integer that stands for its colour below
    version 10. *)
Record ShapeWire : Type := mkShapeWire {
  sw_shape : CustomShape.t;
  sw_legacy_color : Z }.


Definition zaxis_schedule (v : Z) (z : ZAxisVehicle.t) : list byte :=
  vec2_image (ZAxisVehicle.pos z) ++ string_image (ZAxisVehicle.prefab_name z) ++
  string_image (ZAxisVehicle.guid z) ++ float_image (ZAxisVehicle.time_delay z) ++
  (if 8 <=? v then float_image (ZAxisVehicle.speed z) else []) ++
  (if 26 <=? v then quaternion_image (ZAxisVehicle.rot z) else []) ++
  (if 26 <=? v then float_image (ZAxisVehicle.rotation_degrees z) else []).

Definition zaxis_decoded (v : Z) (z : ZAxisVehicle.t) : ZAxisVehicle.t :=
  ZAxisVehicle.mk (ZAxisVehicle.pos z) (ZAxisVehicle.prefab_name z)
    (ZAxisVehicle.guid z) (ZAxisVehicle.time_delay z)
    (if 8 <=? v then ZAxisVehicle.speed z else F32.zero)
    (if 26 <=? v then ZAxisVehicle.rot z else Quaternion.zero)
    (if 26 <=? v then ZAxisVehicle.rotation_degrees z else F32.zero).

Definition theme_image (t : ThemeObject.t) : list byte :=
  vec2_image (ThemeObject.pos t) ++ string_image (ThemeObject.prefab_name t) ++
  bool_image (ThemeObject.unknown_value t).

Definition wf_theme (t : ThemeObject.t) : Prop :=
  wf_vec2 (ThemeObject.pos t) /\ string_ok (ThemeObject.prefab_name t).

Definition unit_schedule (v : Z) (u : UnitWire) : list byte :=
  if 7 <=? v then string_image (uw_guid u)
  else string_image (uw_text1 u) ++ string_image (uw_text2 u) ++
       string_image (uw_text3 u).

(** Below version 7 the GUID is the last of the three strings that is not
    empty. *)
Definition unit_decoded (v : Z) (u : UnitWire) : EventUnit.t :=
  EventUnit.mk
    (if 7 <=? v then uw_guid u
     else Deserializer.nonEmptyOr (uw_text3 u)
            (Deserializer.nonEmptyOr (uw_text2 u)
               (Deserializer.nonEmptyOr (uw_text1 u) EmptyString))).

Definition wf_unit_wire (u : UnitWire) : Prop :=
  string_ok (uw_guid u) /\ string_ok (uw_text1 u) /\ string_ok (uw_text2 u) /\
  string_ok (uw_text3 u).

Definition stage_schedule (v : Z) (units : list UnitWire) : list byte :=
  counted (unit_schedule v) units.

Definition stage_decoded (v : Z) (units : list UnitWire) : EventStage.t :=
  EventStage.mk (map (unit_decoded v) units).

Definition wf_stage_wire (units : list UnitWire) : Prop :=
  Forall wf_unit_wire units /\ size_ok units.

Definition timeline_schedule (v : Z) (t : TimelineWire) : list byte :=
  string_image (tw_checkpoint_guid t) ++ counted (stage_schedule v) (tw_stages t).

Definition timeline_decoded (v : Z) (t : TimelineWire) : EventTimeline.t :=
  EventTimeline.mk (tw_checkpoint_guid t) (map (stage_decoded v) (tw_stages t)).

Definition wf_timeline_wire (t : TimelineWire) : Prop :=
  string_ok (tw_checkpoint_guid t) /\
  Forall wf_stage_wire (tw_stages t) /\ size_ok (tw_stages t).

Definition terrain_schedule (v : Z) (t : TerrainIsland.t) : list byte :=
  vec3_image (TerrainIsland.pos t) ++ string_image (TerrainIsland.prefab_name t) ++
  float_image (TerrainIsland.height_added t) ++
  float_image (TerrainIsland.right_edge_water_height t) ++
  int32_image (TerrainIsland.terrain_island_type t) ++
  int32_image (TerrainIsland.variant_index t) ++
  bool_image (TerrainIsland.flipped t) ++
  (if 6 <=? v then bool_image (TerrainIsland.lock_position t) else []).

Definition terrain_decoded (v : Z) (t : TerrainIsland.t) : TerrainIsland.t :=
  TerrainIsland.mk (TerrainIsland.pos t) (TerrainIsland.prefab_name t)
    (TerrainIsland.height_added t) (TerrainIsland.right_edge_water_height t)
    (TerrainIsland.terrain_island_type t) (TerrainIsland.variant_index t)
    (TerrainIsland.flipped t)
    (if 6 <=? v then TerrainIsland.lock_position t else false).

Definition platform_schedule (v : Z) (p : PlatformWire) : list byte :=
  vec2_image (Platform.pos (pfw_platform p)) ++
  float_image (Platform.width (pfw_platform p)) ++
  float_image (Platform.height (pfw_platform p)) ++
  bool_image (Platform.flipped (pfw_platform p)) ++
  (if 22 <=? v then bool_image (Platform.solid (pfw_platform p))
   else int32_image (pfw_legacy p)).

Definition platform_decoded (v : Z) (p : PlatformWire) : Platform.t :=
  Platform.mk (Platform.pos (pfw_platform p)) (Platform.width (pfw_platform p))
    (Platform.height (pfw_platform p)) (Platform.flipped (pfw_platform p))
    (if 22 <=? v then Platform.solid (pfw_platform p) else false).

Definition wf_platform_wire (p : PlatformWire) : Prop :=
  wf_platform (pfw_platform p) /\ int32_ok (pfw_legacy p).

Definition ramp_schedule (v : Z) (r : RampWire) : list byte :=
  vec2_image (Ramp.pos (rw_ramp r)) ++
  counted vec2_image (Ramp.control_points (rw_ramp r)) ++
  float_image (Ramp.height (rw_ramp r)) ++
  int32_image (Ramp.num_segments (rw_ramp r)) ++
  int32_image (Ramp.spline_type (rw_ramp r)) ++
  bool_image (Ramp.flipped_vertical (rw_ramp r)) ++
  bool_image (Ramp.flipped_horizontal (rw_ramp r)) ++
  (if 23 <=? v then bool_image (Ramp.hide_legs (rw_ramp r)) else []) ++
  (if 25 <=? v then bool_image (Ramp.flipped_legs (rw_ramp r))
   else if 22 <=? v then bool_image (rw_legacy_flag r)
   else int32_image (rw_legacy_int r)) ++
  (if 13 <=? v then counted vec2_image (Ramp.line_points (rw_ramp r)) else []).

Definition ramp_decoded (v : Z) (r : RampWire) : Ramp.t :=
  Ramp.mk (Ramp.pos (rw_ramp r)) (Ramp.control_points (rw_ramp r))
    (F32.abs (Ramp.height (rw_ramp r)))
    (Ramp.num_segments (rw_ramp r)) (Ramp.spline_type (rw_ramp r))
    (Ramp.flipped_vertical (rw_ramp r)) (Ramp.flipped_horizontal (rw_ramp r))
    (if 23 <=? v then Ramp.hide_legs (rw_ramp r) else false)
    (if 25 <=? v then Ramp.flipped_legs (rw_ramp r) else false)
    (if 13 <=? v then Ramp.line_points (rw_ramp r) else []).

Definition wf_ramp_wire (r : RampWire) : Prop :=
  typed_ramp (rw_ramp r) /\ int32_ok (rw_legacy_int r).

Definition water_schedule (v : Z) (w : WaterBlock.t) : list byte :=
  vec3_image (WaterBlock.pos w) ++ float_image (WaterBlock.width w) ++
  float_image (WaterBlock.height w) ++
  (if 12 <=? v then bool_image (WaterBlock.lock_position w) else []).

Definition water_decoded (v : Z) (w : WaterBlock.t) : WaterBlock.t :=
  WaterBlock.mk (WaterBlock.pos w) (WaterBlock.width w) (WaterBlock.height w)
    (if 12 <=? v then WaterBlock.lock_position w else false).

Definition shape_schedule (v : Z) (s : ShapeWire) : list byte :=
  vec3_image (CustomShape.pos (sw_shape s)) ++
  quaternion_image (CustomShape.rot (sw_shape s)) ++
  vec3_image (CustomShape.scale (sw_shape s)) ++
  bool_image (CustomShape.flipped (sw_shape s)) ++
  bool_image (CustomShape.dynamic (sw_shape s)) ++
  bool_image (CustomShape.collides_with_road (sw_shape s)) ++
  bool_image (CustomShape.collides_with_nodes (sw_shape s)) ++
  (if 25 <=? v then bool_image (CustomShape.collides_with_split_nodes (sw_shape s))
   else []) ++
  float_image (CustomShape.rotation_degrees (sw_shape s)) ++
  (if 10 <=? v then color_image (CustomShape.color (sw_shape s))
   else int32_image (sw_legacy_color s)) ++
  float_image (CustomShape.mass (sw_shape s)) ++
  (if 14 <=? v then float_image (CustomShape.bounciness (sw_shape s)) else []) ++
  (if 24 <=? v then float_image (CustomShape.pin_motor_strength (sw_shape s))
   else []) ++
  (if 24 <=? v then float_image (CustomShape.pin_target_velocity (sw_shape s))
   else []) ++
  counted vec2_image (CustomShape.points_local_space (sw_shape s)) ++
  counted vec3_image (CustomShape.static_pins (sw_shape s)) ++
  counted string_image (CustomShape.dynamic_anchor_guids (sw_shape s)).

Definition shape_decoded (v : Z) (s : ShapeWire) : CustomShape.t :=
  CustomShape.mk (CustomShape.pos (sw_shape s)) (CustomShape.rot (sw_shape s))
    (CustomShape.scale (sw_shape s)) (CustomShape.flipped (sw_shape s))
    (CustomShape.dynamic (sw_shape s))
    (CustomShape.collides_with_road (sw_shape s))
    (CustomShape.collides_with_nodes (sw_shape s))
    (if 25 <=? v then CustomShape.collides_with_split_nodes (sw_shape s)
     else false)
    (CustomShape.rotation_degrees (sw_shape s))
    (if 10 <=? v then stored_color (CustomShape.color (sw_shape s))
     else Color.zero)
    (if 11 <=? v then CustomShape.mass (sw_shape s) else F32.forty)
    (if 14 <=? v then CustomShape.bounciness (sw_shape s) else F32.half)
    (if 24 <=? v then CustomShape.pin_motor_strength (sw_shape s) else F32.zero)
    (if 24 <=? v then CustomShape.pin_target_velocity (sw_shape s) else F32.zero)
    (CustomShape.points_local_space (sw_shape s))
    (map stored_pin (CustomShape.static_pins (sw_shape s)))
    (CustomShape.dynamic_anchor_guids (sw_shape s)).

Definition wf_shape_wire (s : ShapeWire) : Prop :=
  typed_shape (sw_shape s) /\ int32_ok (sw_legacy_color s).

Definition workshop_schedule (v : Z) (w : Workshop.t) : list byte :=
  string_image (Workshop.id w) ++
  (if 16 <=? v then string_image (Workshop.leaderboard_id w) else []) ++
  string_image (Workshop.title w) ++ string_image (Workshop.description w) ++
  bool_image (Workshop.autoplay w) ++ counted string_image (Workshop.tags w).

Definition workshop_decoded (v : Z) (w : Workshop.t) : Workshop.t :=
  Workshop.mk (Workshop.id w)
    (if 16 <=? v then Workshop.leaderboard_id w else EmptyString)
    (Workshop.title w) (Workshop.description w) (Workshop.autoplay w)
    (Workshop.tags w).

(** One entry of the block that layouts below version 5 carry and that the
    decoder skips: a string and a counted list of strings. *)
Definition garbage_entry_image (g : string * list string) : list byte :=
  string_image (fst g) ++ counted string_image (snd g).

Definition wf_garbage_entry (g : string * list string) : Prop :=
  string_ok (fst g) /\ Forall string_ok (snd g) /\ size_ok (snd g).

(** A bridge stream: its version and what the schedule of that version
    holds. *)
Definition bridge_stream (bv : Z) (b : BridgeWire) : list byte :=
  int32_image bv ++ bridge_schedule bv b.

(** The bridge of a layout below version 5: the joints, the edges and the
    pistons alone, read as those of bridge version 0. *)
Definition legacy_bridge_image (b : BridgeWire) : list byte :=
  counted joint_image (bw_joints b) ++
  counted (edge_image 0) (bw_edges b) ++
  counted piston_record_image (bw_pistons b).

Definition legacy_bridge_decoded (b : BridgeWire) : Bridge.t :=
  Bridge.mk 0 (bw_joints b) (map (edge_decoded 0) (bw_edges b)) []
    (map (piston_decoded 0) (bw_pistons b)) [] [].







(** ** The schedule of a save slot

    A save slot as the decoder expects it: the root node, the seven scalar
    fields under their names, the node of the bridge with its byte array,
    the thumbnail or a null entry, the two flags and the end of the root
    node. *)

(** A thumbnail node: the byte and the integer that the decoder skips, the
    node id and the bytes of the picture. *)
Record ThumbWire : Type := mkThumbWire {
  th_flag : byte;
  th_type : Z;
  th_node : Z;
  th_data : list byte }.

Record SlotWire : Type := mkSlotWire {
  sl_root_type : string;
  sl_root_id : Z;
  sl_version : Z;
  sl_physics_version : Z;
  sl_slot_id : Z;
  sl_display_name : string;
  sl_filename : string;
  sl_budget : Z;
  sl_ticks : Z;
  sl_bridge_type : string;
  sl_bridge_id : Z;
  sl_bridge_version : Z;
  sl_bridge : BridgeWire;
  sl_thumb : option ThumbWire;
  sl_unlimited_materials : bool;
  sl_unlimited_budget : bool }.

(** A primitive array of bytes: the tag, the number of elements, the size
    of an element and the elements. *)
Definition byte_array (bytes : list byte) : list byte :=
  [x08] ++ int32_image (Z.of_nat (List.length bytes)) ++ int32_image 1 ++ bytes.

Definition thumb_body (t : ThumbWire) : list byte :=
  [th_flag t] ++ int32_image (th_type t) ++ int32_image (th_node t) ++
  byte_array (th_data t) ++ [x05].

(** The thumbnail entry: a null entry, or a node with the thumbnail. *)
Definition thumb_image (t : option ThumbWire) : list byte :=
  match t with
  | None => named_entry x2d "m_Thumb"
  | Some t => named_entry x01 "m_Thumb" ++ thumb_body t
  end.

Definition slot_image (w : SlotWire) : list byte :=
  node_start [x02] (sl_root_type w) (sl_root_id w) ++
  named_entry x17 "m_Version" ++ int32_image (sl_version w) ++
  named_entry x17 "m_PhysicsVersion" ++ int32_image (sl_physics_version w) ++
  named_entry x17 "m_SlotID" ++ int32_image (sl_slot_id w) ++
  named_entry x27 "m_DisplayName" ++ slot_string (sl_display_name w) ++
  named_entry x27 "m_SlotFilename" ++ slot_string (sl_filename w) ++
  named_entry x17 "m_Budget" ++ int32_image (sl_budget w) ++
  named_entry x1b "m_LastWriteTimeTicks" ++ le_bytes 8 (sl_ticks w) ++
  node_start (named_entry x01 "m_Bridge") (sl_bridge_type w) (sl_bridge_id w) ++
  byte_array (bridge_stream (sl_bridge_version w) (sl_bridge w)) ++ [x05] ++
  thumb_image (sl_thumb w) ++
  named_entry x2b "m_UsingUnlimitedMaterials" ++
  [bool_byte (sl_unlimited_materials w)] ++
  named_entry x2b "m_UsingUnlimitedBudget" ++
  [bool_byte (sl_unlimited_budget w)] ++
  [x05].

Definition slot_decoded (w : SlotWire) : SaveSlot.t :=
  SaveSlot.mk (sl_version w) (sl_physics_version w) (sl_slot_id w)
    (sl_display_name w) (sl_filename w) (sl_budget w) (sl_ticks w)
    (simple_decoded (sl_bridge_version w) (sl_bridge w))
    (sl_unlimited_materials w) (sl_unlimited_budget w)
    (option_map th_data (sl_thumb w)).

(** A type name that [readTypeEntry] accepts: two pieces around one comma. *)
Definition type_name_ok (name : string) : Prop :=
  List.length (getlines name EmptyString) = 2%nat /\
  int32_ok (Z.of_nat (String.length name)).

Definition wf_thumb (t : ThumbWire) : Prop :=
  int32_ok (th_type t) /\ int32_ok (th_node t) /\
  Z.of_nat (List.length (th_data t)) <= 10000000.

(** The three numbers inside the default bounds of the guard, the budget
    and the sizes of the arrays inside the bounds given for them, a bridge
    version from 2 to 10, and a display name and a file name that [printf]
    can take as a format: the decoder logs both that way. *)
Definition wf_slot_wire (w : SlotWire) : Prop :=
  type_name_ok (sl_root_type w) /\ int32_ok (sl_root_id w) /\
  -1000 <= sl_version w <= 10000 /\
  -1000 <= sl_physics_version w <= 10000 /\
  -1000 <= sl_slot_id w <= 10000 /\
  int32_ok (Z.of_nat (String.length (sl_display_name w))) /\
  int32_ok (Z.of_nat (String.length (sl_filename w))) /\
  format_ok (sl_display_name w) /\ format_ok (sl_filename w) /\
  0 <= sl_budget w <= 10000000 /\
  - 2 ^ 63 <= sl_ticks w < 2 ^ 63 /\
  type_name_ok (sl_bridge_type w) /\ int32_ok (sl_bridge_id w) /\
  2 <= sl_bridge_version w <= 10 /\ wf_bridge_wire (sl_bridge w) /\
  Z.of_nat (List.length (bridge_stream (sl_bridge_version w) (sl_bridge w)))
    <= 100000000 /\
  match sl_thumb w with Some t => wf_thumb t | None => True end.

(** A version 3 slot with the bridge of [sample_wire] and a thumbnail of
    four bytes. *)
Definition sample_slot_wire : SlotWire :=
  mkSlotWire "BridgeSaveSlotData, Assembly-CSharp" 0 3 1 5
    "My bridge" "my.slot" 1000 637000000000000000
    "System.Byte[], mscorlib" 1 10 sample_wire
    (Some (mkThumbWire x30 2 7 [x89; x50; x4e; x47]))
    true false.

(** ** Binary32 numbers, their rounding and their order *)

(** What [k] steps make of a record: the mantissa divided by [2^k], and
    an exact location when nothing was cut off. *)
Definition shifted (k : Z) (x y : shr_record) : Prop :=
  0 <= shr_m y /\ shr_m y = shr_m x / 2 ^ k /\
  (shr_r x = false -> shr_s x = false -> shr_m x mod 2 ^ k = 0 ->
   shr_r y = false /\ shr_s y = false).

Definition fexp32 (e : Z) : Z := Z.max (e - 24) (-149).

(** The float that has the sign [s] and the value [m1 * 2^E], for a
    mantissa of at most 24 bits or the 25-bit [2^24]. *)
Definition rounded (s : bool) (m1 E : Z) : spec_float :=
  if m1 =? 0 then S754_zero s
  else if m1 <? 2 ^ 24 then
    if E <=? 104 then S754_finite s (Z.to_pos m1) E else S754_infinity s
  else
    if E + 1 <=? 104 then S754_finite s (Z.to_pos (2 ^ 23)) (E + 1)
    else S754_infinity s.

(** The mantissa and the exponent of a binary32 number. *)
Definition canon (m : positive) (e : Z) : Prop :=
  Zpos m < 2 ^ 24 /\ -149 <= e <= 104 /\ (Zpos m < 2 ^ 23 -> e = -149).

(** A float that is a number of binary32. *)
Definition number (f : spec_float) : Prop :=
  match f with
  | S754_nan => False
  | S754_finite _ m e => canon m e
  | _ => True
  end.

Definition sign_of (s : bool) : Z := if s then 1 else 0.

(** [m * 2^e <= 2^k] and [2^k <= m * 2^e], on integers. *)
Definition below (m e k : Z) : Prop := e <= k /\ m <= 2 ^ (k - e).
Definition above (m e k : Z) : Prop := k <= e \/ 2 ^ (k - e) <= m.

(** [2^k] as a float, for a [k] among the normal exponents. *)
Definition pow2 (k : Z) : spec_float :=
  S754_finite false (Z.to_pos (2 ^ 23)) (k - 23).

(** A float in [0, 1]: what [clamp01] returns. *)
Definition unit_float (f : spec_float) : Prop :=
  match f with
  | S754_zero _ => True
  | S754_finite false m e => canon m e /\ below (Zpos m) e 0
  | _ => False
  end.

(** A zero, or a float of sign [s] and magnitude at most 0.5. *)
Definition small (s : bool) (f : spec_float) : Prop :=
  match f with
  | S754_zero _ => True
  | S754_finite s' m e => s' = s /\ canon m e /\ below (Zpos m) e (-1)
  | _ => False
  end.

(** A float in [2^lo, 2^hi]. *)
Definition between (lo hi : Z) (f : spec_float) : Prop :=
  match f with
  | S754_finite false m e =>
      canon m e /\ below (Zpos m) e hi /\ above (Zpos m) e lo
  | _ => False
  end.

Definition f_half (s : bool) : spec_float := S754_finite s 8388608 (-24).
Definition f_one : spec_float := S754_finite false 8388608 (-23).

(** * Properties *)

(** ** Bytes and machine integers *)

Lemma Z_of_byte_range (b : byte) : 0 <= Z_of_byte b < 256.
Proof.
  unfold Z_of_byte.
  pose proof (Byte.to_N_bounded b) as H.
  lia.
Qed.

Lemma Z_of_byte_of_Z (z : Z) : Z_of_byte (byte_of_Z z) = z mod 256.
Proof.
  unfold Z_of_byte, byte_of_Z.
  assert (Hr : 0 <= z mod 256 < 256) by (apply Z.mod_pos_bound; lia).
  destruct (Byte.of_N (Z.to_N (z mod 256))) as [b|] eqn:E.
  - apply Byte.to_of_N in E. rewrite E. lia.
  - apply Byte.of_N_None_iff in E. lia.
Qed.

Lemma byte_of_Z_of_byte (b : byte) : byte_of_Z (Z_of_byte b) = b.
Proof. destruct b; reflexivity. Qed.

Lemma length_le_bytes (n : nat) (x : Z) : List.length (le_bytes n x) = n.
Proof.
  revert x; induction n as [|n IH]; intro x; simpl; [reflexivity|].
  now rewrite IH.
Qed.

Lemma le_value_le_bytes (n : nat) (x : Z) :
  le_value (le_bytes n x) = x mod 2 ^ (8 * Z.of_nat n).
Proof.
  revert x; induction n as [|n IH]; intro x.
  - simpl. now rewrite Z.mod_1_r.
  - cbn [le_bytes le_value]. rewrite IH, Z_of_byte_of_Z.
    replace (8 * Z.of_nat (S n)) with (8 + 8 * Z.of_nat n) by lia.
    rewrite Z.pow_add_r by lia.
    change (2 ^ 8) with 256.
    rewrite Z.rem_mul_r by lia.
    reflexivity.
Qed.

Lemma le_value_range (bs : list byte) :
  0 <= le_value bs < 2 ^ (8 * Z.of_nat (List.length bs)).
Proof.
  induction bs as [|b bs IH].
  - simpl. lia.
  - cbn [le_value List.length].
    replace (8 * Z.of_nat (S (List.length bs)))
      with (8 + 8 * Z.of_nat (List.length bs)) by lia.
    rewrite Z.pow_add_r by lia.
    change (2 ^ 8) with 256.
    pose proof (Z_of_byte_range b). nia.
Qed.

Lemma signed_small (bits x : Z) :
  0 < bits -> - 2 ^ (bits - 1) <= x < 2 ^ (bits - 1) ->
  signed bits (x mod 2 ^ bits) = x.
Proof.
  intros Hb Hx. unfold signed, wrap.
  assert (Hp : 2 ^ bits = 2 * 2 ^ (bits - 1)).
  { replace bits with (1 + (bits - 1)) at 1 by lia.
    rewrite Z.pow_add_r by lia. reflexivity. }
  rewrite Z.mod_mod by lia.
  destruct (Z.leb_spec 0 x).
  - rewrite Z.mod_small by lia.
    destruct (Z.ltb_spec x (2 ^ (bits - 1))); lia.
  - replace (x mod 2 ^ bits) with (x + 2 ^ bits).
    + destruct (Z.ltb_spec (x + 2 ^ bits) (2 ^ (bits - 1))); lia.
    + apply Z.mod_unique with (q := -1); lia.
Qed.

Lemma int32_le_bytes (x : Z) :
  int32_ok x -> int32 (le_value (le_bytes 4 x)) = x.
Proof.
  intro H. rewrite le_value_le_bytes.
  apply (signed_small 32); [lia | exact H].
Qed.

Lemma float_le_bytes (x : Z) :
  float_ok x -> le_value (le_bytes 4 x) = x.
Proof.
  intro H. rewrite le_value_le_bytes.
  apply Z.mod_small. exact H.
Qed.

Lemma length_string_bytes (s : string) :
  List.length (string_bytes s) = String.length s.
Proof.
  unfold string_bytes, list_byte_of_string.
  rewrite length_map.
  induction s as [|c s IH]; simpl; [reflexivity | now rewrite IH].
Qed.

Lemma length_bytes_string (bs : list byte) :
  String.length (bytes_string bs) = List.length bs.
Proof.
  unfold bytes_string, string_of_list_byte.
  induction bs as [|b bs IH]; simpl; [reflexivity | now rewrite IH].
Qed.

Lemma bytes_string_bytes (s : string) : bytes_string (string_bytes s) = s.
Proof. apply string_of_list_byte_of_string. Qed.

(** ** The stream *)

Lemma remaining_advance (s : St) (w rest : list byte) :
  remaining s = w ++ rest ->
  remaining (advance (List.length w) s) = rest.
Proof.
  unfold remaining, advance; simpl. intro H.
  rewrite Nat.add_comm, <- skipn_skipn, H.
  rewrite skipn_app, skipn_all, Nat.sub_diag. reflexivity.
Qed.

Lemma advance_advance (n m : nat) (s : St) :
  advance m (advance n s) = advance (n + m) s.
Proof. unfold advance; simpl. f_equal. lia. Qed.

Lemma advance_0 (s : St) : advance 0 s = s.
Proof. destruct s; unfold advance; simpl. f_equal. lia. Qed.

Lemma read_exact (s : St) (w rest : list byte) :
  remaining s = w ++ rest ->
  read (List.length w) s = Done w (advance (List.length w) s).
Proof.
  intro H. unfold read. rewrite H.
  rewrite length_app.
  destruct (Nat.ltb_spec (List.length w + List.length rest) (List.length w)); [lia|].
  rewrite firstn_app, firstn_all, Nat.sub_diag. simpl.
  now rewrite app_nil_r.
Qed.

Lemma read_Done (n : nat) (s s' : St) (bs : list byte) :
  read n s = Done bs s' -> List.length bs = n /\ s' = advance n s.
Proof.
  unfold read.
  destruct (Nat.ltb_spec (List.length (remaining s)) n); [discriminate|].
  intro E; inversion E; subst. split; [|reflexivity].
  rewrite length_firstn. lia.
Qed.

Lemma read_firstn (n : nat) (s s' : St) (bs : list byte) :
  read n s = Done bs s' -> bs = firstn n (remaining s) /\ s' = advance n s.
Proof.
  unfold read.
  destruct (List.length (remaining s) <? n)%nat; [discriminate|].
  intro E. injection E as <- <-. now split.
Qed.

Lemma bind_Done {A B} (m : M A) (f : A -> M B) (s s' : St) (b : B) :
  bind m f s = Done b s' ->
  exists a s1, m s = Done a s1 /\ f a s1 = Done b s'.
Proof.
  unfold bind. destruct (m s) as [a s1| |]; try discriminate.
  intro H. now exists a, s1.
Qed.

(** ** Combinators for [Parses] and [Emits] *)

Lemma Parses_ret {A} (a : A) : Parses (ret a) [] a.
Proof. intros s rest _ _. unfold ret. now rewrite advance_0. Qed.

Lemma Parses_bind {A B} (p : M A) (f : A -> M B) w1 w2 a b :
  Parses p w1 a -> Parses (f a) w2 b -> Parses (bind p f) (w1 ++ w2) b.
Proof.
  intros Hp Hf s rest Hr Hc. unfold bind.
  rewrite <- app_assoc in Hr.
  rewrite (Hp s _ Hr Hc).
  rewrite (Hf _ rest (remaining_advance _ _ _ Hr) Hc).
  now rewrite advance_advance, length_app.
Qed.

Lemma Parses_bind_ret {A B} (p : M A) (g : A -> B) w a :
  Parses p w a -> Parses (bind p (fun x => ret (g x))) w (g a).
Proof.
  intro Hp. rewrite <- (app_nil_r w).
  eapply Parses_bind; [exact Hp | apply Parses_ret].
Qed.

Lemma Parses_bind_nil {A B} (p : M A) (f : A -> M B) w a b :
  Parses p [] a -> Parses (f a) w b -> Parses (bind p f) w b.
Proof.
  intros Hp Hf. change w with ([] ++ w).
  eapply Parses_bind; eassumption.
Qed.

Lemma Parses_times {A} (p : M A) (enc : A -> list byte) (xs : list A) :
  Forall (fun x => Parses p (enc x) x) xs ->
  Parses (times (List.length xs) p) (flat_map enc xs) xs.
Proof.
  induction 1 as [|x xs Hx _ IH]; simpl.
  - apply Parses_ret.
  - eapply Parses_bind; [exact Hx|].
    apply (Parses_bind_ret _ (fun l => x :: l)). exact IH.
Qed.

Lemma Emits_ret : Emits (ret tt) [].
Proof.
  intros s _. unfold ret. destruct s; simpl.
  now rewrite app_nil_r, Nat.add_0_r.
Qed.

Lemma Emits_bind (m1 : M unit) (m2 : M unit) w1 w2 :
  Emits m1 w1 -> Emits m2 w2 -> Emits (bind m1 (fun _ => m2)) (w1 ++ w2).
Proof.
  intros H1 H2 s Hc. unfold bind.
  rewrite (H1 s Hc). rewrite H2 by exact Hc. simpl.
  now rewrite <- app_assoc, length_app, Nat.add_assoc.
Qed.

Lemma Emits_bind_nil (m1 : M unit) (m2 : M unit) w :
  Emits m1 [] -> Emits m2 w -> Emits (bind m1 (fun _ => m2)) w.
Proof.
  intros H1 H2. change w with ([] ++ w). now apply Emits_bind.
Qed.

Lemma Emits_write (bs : list byte) : Emits (write bs) bs.
Proof. intros s _. reflexivity. Qed.

Lemma Emits_forEach {A} (body : A -> M unit) (enc : A -> list byte) (xs : list A) :
  Forall (fun x => Emits (body x) (enc x)) xs ->
  Emits (forEach xs body) (flat_map enc xs).
Proof.
  induction 1 as [|x xs Hx _ IH]; simpl.
  - apply Emits_ret.
  - apply Emits_bind; assumption.
Qed.

Lemma Emits_written (m : M unit) (w : list byte) : Emits m w -> written m = w.
Proof.
  intro H. unfold written. rewrite H by (simpl; lia). reflexivity.
Qed.

Lemma Parses_fresh {A} (p : M A) (w : list byte) (a : A) :
  Parses p w a -> p (fresh w) = Done a (mkSt w (List.length w) 1).
Proof.
  intro H. rewrite (H (fresh w) []).
  - reflexivity.
  - unfold remaining; simpl. now rewrite app_nil_r.
  - simpl; lia.
Qed.

(** ** Primitive readers and writers *)

Lemma Parses_read (n : nat) (w : list byte) :
  List.length w = n -> Parses (read n) w w.
Proof. intros <- s rest Hr _. now apply read_exact with (rest := rest). Qed.

Lemma parse_readByte (b : byte) : Parses Deserializer.readByte [b] b.
Proof.
  unfold Deserializer.readByte.
  apply (Parses_bind_ret (read 1) (hd x00) [b] [b]).
  now apply Parses_read.
Qed.

Lemma parse_readInt32 (v : Z) :
  int32_ok v -> Parses Deserializer.readInt32 (le_bytes 4 v) v.
Proof.
  intro H. unfold Deserializer.readInt32.
  rewrite <- (int32_le_bytes v H) at 2.
  apply (Parses_bind_ret (read 4) (fun bs => int32 (le_value bs))).
  apply Parses_read, length_le_bytes.
Qed.

Lemma parse_readFloat (v : Z) :
  float_ok v -> Parses Deserializer.readFloat (le_bytes 4 v) v.
Proof.
  intro H. unfold Deserializer.readFloat.
  rewrite <- (float_le_bytes v H) at 2.
  apply (Parses_bind_ret (read 4) le_value).
  apply Parses_read, length_le_bytes.
Qed.

Lemma parse_readBool (b : bool) : Parses Deserializer.readBool [bool_byte b] b.
Proof.
  unfold Deserializer.readBool, Deserializer.readInt8.
  intros s rest Hr Hc. unfold bind.
  pose proof (read_exact s [bool_byte b] rest Hr) as E.
  cbn [List.length] in E. rewrite E.
  destruct b; reflexivity.
Qed.

Lemma parse_readUInt16 (n : Z) :
  0 <= n < 65536 -> Parses Deserializer.readUInt16 (le_bytes 2 n) n.
Proof.
  intro H. unfold Deserializer.readUInt16.
  replace n with (uint16 (le_value (le_bytes 2 n))) at 2.
  - apply (Parses_bind_ret (read 2) (fun bs => uint16 (le_value bs))).
    apply Parses_read, length_le_bytes.
  - rewrite le_value_le_bytes. unfold uint16, wrap.
    change (2 ^ (8 * Z.of_nat 2)) with 65536. change (2 ^ 16) with 65536.
    rewrite Z.mod_mod by lia. apply Z.mod_small; lia.
Qed.

Lemma parse_readString (str : string) :
  string_ok str -> Parses Deserializer.readString (string_image str) str.
Proof.
  intro H. unfold Deserializer.readString, string_image.
  eapply Parses_bind.
  - apply parse_readUInt16. unfold string_ok in H. lia.
  - cbv beta. rewrite <- (bytes_string_bytes str) at 3.
    apply (Parses_bind_ret _ bytes_string).
    unfold Deserializer.readBytes.
    apply Parses_read. rewrite length_string_bytes, Nat2Z.id. reflexivity.
Qed.

Lemma uint16_int16 (n : Z) : uint16 (int16 n) = n mod 65536.
Proof.
  unfold uint16, int16, signed, wrap.
  change (2 ^ 16) with 65536. change (2 ^ (16 - 1)) with 32768.
  pose proof (Z.mod_pos_bound n 65536 ltac:(lia)) as Hr.
  destruct (Z.ltb_spec (n mod 65536) 32768).
  - apply Z.mod_mod; lia.
  - symmetry. apply Z.mod_unique with (q := -1); lia.
Qed.

Lemma le_bytes_mod (n : nat) (x : Z) :
  le_bytes n (x mod 2 ^ (8 * Z.of_nat n)) = le_bytes n x.
Proof.
  revert x; induction n as [|n IH]; intro x; [reflexivity|].
  cbn [le_bytes].
  replace (8 * Z.of_nat (S n)) with (8 + 8 * Z.of_nat n) by lia.
  rewrite Z.pow_add_r by lia. change (2 ^ 8) with 256.
  assert (Hp : 0 < 2 ^ (8 * Z.of_nat n)) by (apply Z.pow_pos_nonneg; lia).
  rewrite Z.rem_mul_r by lia.
  set (y := (x / 256) mod 2 ^ (8 * Z.of_nat n)).
  rewrite (Z.mul_comm 256 y).
  f_equal.
  - unfold byte_of_Z.
    now rewrite Z.mod_add, Z.mod_mod by lia.
  - rewrite Z.div_add by lia.
    rewrite (Z.div_small (x mod 256)) by (apply Z.mod_pos_bound; lia).
    rewrite Z.add_0_l. subst y. apply IH.
Qed.

Lemma firstn_le_bytes_app (n : nat) (x : Z) (l : list byte) :
  firstn n (le_bytes n x ++ l) = le_bytes n x.
Proof.
  rewrite firstn_app, length_le_bytes, Nat.sub_diag.
  rewrite firstn_all2 by (rewrite length_le_bytes; lia).
  simpl. apply app_nil_r.
Qed.

Lemma Emits_writeInt32 (v : Z) : Emits (Serializer.writeInt32 v) (le_bytes 4 v).
Proof. apply Emits_write. Qed.

Lemma Emits_writeFloat (v : Z) : Emits (Serializer.writeFloat v) (le_bytes 4 v).
Proof. apply Emits_write. Qed.

Lemma Emits_writeBool (b : bool) : Emits (Serializer.writeBool b) [bool_byte b].
Proof. apply Emits_write. Qed.

Lemma Emits_writeString_any (str : string) :
  Emits (Serializer.writeString str)
        (le_bytes 2 (Z.of_nat (String.length str) mod 65536) ++ string_bytes str).
Proof.
  unfold Serializer.writeString, Serializer.writeUInt16.
  rewrite uint16_int16.
  apply Emits_bind; apply Emits_write.
Qed.

Lemma Emits_writeString (str : string) :
  Emits (Serializer.writeString str) (string_image str).
Proof.
  unfold string_image.
  rewrite <- (le_bytes_mod 2 (Z.of_nat (String.length str))).
  apply Emits_writeString_any.
Qed.

Lemma readString_Done (s s' : St) (str : string) :
  Deserializer.readString s = Done str s' ->
  let n := le_value (firstn 2 (remaining s)) in
  0 <= n <= 65535 /\
  Z.of_nat (String.length str) = n /\
  string_bytes str = firstn (Z.to_nat n) (skipn 2 (remaining s)) /\
  s' = advance (2 + Z.to_nat n) s.
Proof.
  unfold Deserializer.readString, Deserializer.readUInt16, Deserializer.readBytes.
  intro H.
  apply bind_Done in H as (len & s1 & H1 & H).
  apply bind_Done in H1 as (bs & s0 & H0 & H1).
  unfold ret in H1; inversion H1; subst len s1; clear H1.
  apply bind_Done in H as (body & s2 & H2 & H).
  unfold ret in H; inversion H; subst str s'; clear H.
  assert (Hbs : bs = firstn 2 (remaining s)).
  { unfold read in H0.
    destruct (List.length (remaining s) <? 2)%nat; [discriminate|].
    now inversion H0. }
  destruct (read_Done _ _ _ _ H0) as [Hl0 ->].
  pose proof (le_value_range bs) as Hr. rewrite Hl0 in Hr.
  change (2 ^ (8 * Z.of_nat 2)) with 65536 in Hr.
  assert (Hu : uint16 (le_value bs) = le_value bs).
  { unfold uint16, wrap. change (2 ^ 16) with 65536. apply Z.mod_small; lia. }
  rewrite Hu in H2.
  destruct (read_Done _ _ _ _ H2) as [Hl2 ->].
  cbv zeta. rewrite <- Hbs.
  repeat split; try lia.
  - rewrite length_bytes_string, Hl2. lia.
  - unfold bytes_string, string_bytes.
    rewrite list_byte_of_string_of_list_byte.
    unfold read in H2.
    destruct (List.length (remaining (advance 2 s)) <? Z.to_nat (le_value bs))%nat;
      [discriminate|].
    inversion H2 as [[Hb]].
    unfold remaining, advance; simpl.
    now rewrite Nat.add_comm, <- skipn_skipn.
  - apply advance_advance.
Qed.

(** C10.  The string codec of the layout format: [readString] reads a
    16-bit unsigned length and exactly that many bytes, so a decoded string
    has at most 65535 bytes; [writeString] writes the length cut to 16 bits
    and then every byte; a string shorter than 65536 bytes is read back as
    it was written, and no string of 65536 bytes or more is. *)
Theorem C10_layout_string_codec :
  (forall s s' str,
      Deserializer.readString s = Done str s' ->
      let n := le_value (firstn 2 (remaining s)) in
      Z.of_nat (String.length str) = n /\ n <= 65535 /\
      string_bytes str = firstn (Z.to_nat n) (skipn 2 (remaining s)) /\
      s' = advance (2 + Z.to_nat n) s) /\
  (forall str,
      written (Serializer.writeString str) =
      le_bytes 2 (Z.of_nat (String.length str) mod 65536) ++ string_bytes str) /\
  (forall str,
      Z.of_nat (String.length str) < 65536 ->
      let file := written (Serializer.writeString str) in
      Deserializer.readString (fresh file) =
      Done str (mkSt file (List.length file) 1)) /\
  (forall str s',
      65536 <= Z.of_nat (String.length str) ->
      Deserializer.readString (fresh (written (Serializer.writeString str)))
      <> Done str s') /\
  (exists str, 65536 <= Z.of_nat (String.length str)).
Proof.
  split; [|split; [|split; [|split]]].
  - intros s s' str H.
    destruct (readString_Done _ _ _ H) as (Hn & Hl & Hb & Hs).
    cbv zeta. repeat split; tauto || lia.
  - intro str. apply Emits_written, Emits_writeString_any.
  - intros str H file. subst file.
    rewrite (Emits_written _ _ (Emits_writeString str)).
    apply Parses_fresh, parse_readString, H.
  - intros str s' Hlen H.
    apply readString_Done in H. cbv zeta in H.
    destruct H as (_ & Hl & _).
    rewrite (Emits_written _ _ (Emits_writeString_any str)) in Hl.
    unfold fresh, remaining in Hl; cbn [data pos skipn] in Hl.
    rewrite firstn_le_bytes_app, le_value_le_bytes in Hl.
    change (2 ^ (8 * Z.of_nat 2)) with 65536 in Hl.
    rewrite Z.mod_mod in Hl by lia.
    pose proof (Z.mod_pos_bound (Z.of_nat (String.length str)) 65536 ltac:(lia)).
    lia.
  - exists (bytes_string (repeat x61 (Z.to_nat 65536))).
    rewrite length_bytes_string, repeat_length. lia.
Qed.

Lemma C10_layout_string_codec_witness :
  Z.of_nat (String.length "Western") < 65536 /\
  Deserializer.readString (fresh (written (Serializer.writeString "Western")))
  = Done "Western"%string
         (mkSt (written (Serializer.writeString "Western"))
               (List.length (written (Serializer.writeString "Western"))) 1).
Proof.
  split.
  - simpl; lia.
  - apply (proj1 (proj2 (proj2 C10_layout_string_codec)) "Western"%string).
    simpl; lia.
Defined.

(** ** Rounding to binary32 *)

(** *** Digits *)

Lemma digits2_pos_bounds (p : positive) :
  2 ^ (Zpos (digits2_pos p) - 1) <= Zpos p < 2 ^ Zpos (digits2_pos p).
Proof.
  induction p as [p IH | p IH |]; cbn [digits2_pos].
  - rewrite Pos2Z.inj_succ.
    replace (Z.succ (Zpos (digits2_pos p)) - 1)
      with (Z.succ (Zpos (digits2_pos p) - 1)) by lia.
    rewrite !Z.pow_succ_r by lia. lia.
  - rewrite Pos2Z.inj_succ.
    replace (Z.succ (Zpos (digits2_pos p)) - 1)
      with (Z.succ (Zpos (digits2_pos p) - 1)) by lia.
    rewrite !Z.pow_succ_r by lia. lia.
  - cbn. lia.
Qed.

Lemma Zdigits2_bounds (m : Z) :
  0 < m -> 2 ^ (Zdigits2 m - 1) <= m < 2 ^ Zdigits2 m.
Proof.
  destruct m as [|p|p]; try lia. intros _. apply digits2_pos_bounds.
Qed.

Lemma Zdigits2_pos (m : Z) : 0 < m -> 0 < Zdigits2 m.
Proof. destruct m; cbn; lia. Qed.

Lemma Zdigits2_unique (m d : Z) :
  2 ^ (d - 1) <= m < 2 ^ d -> 0 < d -> Zdigits2 m = d.
Proof.
  intros H Hd.
  assert (Hm : 0 < m) by (pose proof (Z.pow_pos_nonneg 2 (d - 1)); lia).
  pose proof (Zdigits2_bounds m Hm) as B.
  pose proof (Zdigits2_pos m Hm) as P.
  destruct (Z.lt_trichotomy (Zdigits2 m) d) as [L | [E | G]]; [|exact E|].
  - assert (2 ^ Zdigits2 m <= 2 ^ (d - 1)) by (apply Z.pow_le_mono_r; lia). lia.
  - assert (2 ^ d <= 2 ^ (Zdigits2 m - 1)) by (apply Z.pow_le_mono_r; lia). lia.
Qed.

(** *** Shifting right *)

Lemma shr_1_spec (m : Z) (r s : bool) :
  0 <= m ->
  shr_1 (Build_shr_record m r s)
  = Build_shr_record (m / 2) (Z.odd m) (r || s).
Proof.
  intro H. destruct m as [|p|p]; [reflexivity | | lia].
  destruct p as [p|p|]; cbn [shr_1 Z.odd].
  - f_equal. rewrite Pos2Z.inj_xI.
    rewrite Z.add_comm, Z.mul_comm, Z.div_add by lia. reflexivity.
  - f_equal. rewrite Pos2Z.inj_xO, Z.mul_comm, Z.div_mul by lia. reflexivity.
  - reflexivity.
Qed.

Lemma shifted_1 (x : shr_record) : 0 <= shr_m x -> shifted 1 x (shr_1 x).
Proof.
  destruct x as [m r s]; cbn [shr_m shr_r shr_s]. intro H.
  rewrite shr_1_spec by exact H. unfold shifted. cbn [shr_m shr_r shr_s].
  change (2 ^ 1) with 2.
  split; [apply Z.div_pos; lia|]. split; [reflexivity|].
  intros -> -> Hm. split; [|reflexivity].
  rewrite <- Z.negb_even. rewrite Zeven_mod, Hm. reflexivity.
Qed.

Lemma shifted_trans (j k : Z) (x y z : shr_record) :
  0 <= j -> 0 <= k -> 0 <= shr_m x ->
  shifted j x y -> shifted k y z -> shifted (j + k) x z.
Proof.
  intros Hj Hk Hx (Hy0 & Hy & Hye) (Hz0 & Hz & Hze).
  split; [exact Hz0|]. split.
  - rewrite Hz, Hy, Z.pow_add_r, Z.div_div by (try apply Z.pow_pos_nonneg; lia).
    reflexivity.
  - intros Hr Hs Hm.
    assert (P1 : 0 < 2 ^ j) by (apply Z.pow_pos_nonneg; lia).
    assert (P2 : 0 < 2 ^ k) by (apply Z.pow_pos_nonneg; lia).
    rewrite Z.pow_add_r in Hm by lia.
    assert (Hmj : shr_m x mod 2 ^ j = 0).
    { rewrite Z.rem_mul_r in Hm by lia.
      pose proof (Z.mod_pos_bound (shr_m x) (2 ^ j) P1).
      pose proof (Z.mod_pos_bound (shr_m x / 2 ^ j) (2 ^ k) P2). nia. }
    destruct (Hye Hr Hs Hmj) as (Hyr & Hys).
    apply (Hze Hyr Hys). rewrite Hy.
    rewrite Z.rem_mul_r in Hm by lia.
    pose proof (Z.mod_pos_bound (shr_m x) (2 ^ j) P1).
    pose proof (Z.mod_pos_bound (shr_m x / 2 ^ j) (2 ^ k) P2). nia.
Qed.

Lemma shifted_nonneg (k : Z) (x y : shr_record) : shifted k x y -> 0 <= shr_m y.
Proof. now intros (H & _). Qed.

Lemma iter_pos_shifted (p : positive) (x : shr_record) :
  0 <= shr_m x -> shifted (Zpos p) x (iter_pos shr_1 p x).
Proof.
  revert x. induction p as [p IH | p IH |]; intros x Hx; cbn [iter_pos].
  - pose proof (shifted_1 x Hx) as H1.
    pose proof (IH _ (shifted_nonneg _ _ _ H1)) as H2.
    pose proof (IH _ (shifted_nonneg _ _ _ H2)) as H3.
    replace (Zpos p~1) with (1 + Zpos p + Zpos p) by lia.
    apply (shifted_trans (1 + Zpos p) (Zpos p) x
             (iter_pos shr_1 p (shr_1 x))); try lia; [|exact H3].
    apply (shifted_trans 1 (Zpos p) x (shr_1 x)); try lia; assumption.
  - pose proof (IH _ Hx) as H2.
    pose proof (IH _ (shifted_nonneg _ _ _ H2)) as H3.
    replace (Zpos p~0) with (Zpos p + Zpos p) by lia.
    apply (shifted_trans (Zpos p) (Zpos p) x (iter_pos shr_1 p x));
      try lia; assumption.
  - apply shifted_1, Hx.
Qed.

Lemma shr_shifted (x : shr_record) (e n : Z) :
  0 <= shr_m x -> 0 <= n ->
  shifted n x (fst (shr x e n)) /\ snd (shr x e n) = e + n.
Proof.
  intros Hx Hn. destruct n as [|p|p]; [| |lia]; cbn [shr fst snd].
  - split; [|lia]. split; [exact Hx|]. split; [now rewrite Z.div_1_r|].
    intros Hr Hs _. now split.
  - split; [|reflexivity]. now apply iter_pos_shifted.
Qed.

(** *** One rounding *)

Lemma fexp_32 (e : Z) : fexp F32.prec F32.emax e = fexp32 e.
Proof. reflexivity. Qed.

Lemma record_of_loc (m : Z) (l : location) :
  shr_m (shr_record_of_loc m l) = m /\
  loc_of_shr_record (shr_record_of_loc m l) = l /\
  (l = loc_Exact ->
   shr_r (shr_record_of_loc m l) = false /\
   shr_s (shr_record_of_loc m l) = false).
Proof.
  destruct l as [|[| |]]; cbn; repeat split; intros; discriminate.
Qed.

Lemma round_nearest_even_near (m : Z) (l : location) :
  m <= round_nearest_even m l <= m + 1 /\
  (l = loc_Exact -> round_nearest_even m l = m).
Proof.
  destruct l as [|[| |]]; cbn [round_nearest_even];
    try destruct (Z.even m); split; try lia; intros; try discriminate;
    reflexivity.
Qed.

Lemma exact_record (y : shr_record) :
  shr_r y = false -> shr_s y = false -> loc_of_shr_record y = loc_Exact.
Proof. destruct y as [m r s]; cbn. now intros -> ->. Qed.

Lemma binary_round_aux_spec (s : bool) (mx ex : Z) (lx : location) :
  0 <= mx -> ex <= fexp32 (Zdigits2 mx + ex) ->
  exists m1,
    mx / 2 ^ (fexp32 (Zdigits2 mx + ex) - ex) <= m1
      <= mx / 2 ^ (fexp32 (Zdigits2 mx + ex) - ex) + 1 /\
    (lx = loc_Exact -> mx mod 2 ^ (fexp32 (Zdigits2 mx + ex) - ex) = 0 ->
     m1 = mx / 2 ^ (fexp32 (Zdigits2 mx + ex) - ex)) /\
    m1 <= 2 ^ 24 /\
    (m1 < 2 ^ 23 -> fexp32 (Zdigits2 mx + ex) = -149) /\
    binary_round_aux F32.prec F32.emax s mx ex lx
    = rounded s m1 (fexp32 (Zdigits2 mx + ex)).
Proof.
  intros Hm He. set (E := fexp32 (Zdigits2 mx + ex)) in *.
  set (n := E - ex). assert (Hn : 0 <= n) by (unfold n; lia).
  assert (P : 0 < 2 ^ n) by (apply Z.pow_pos_nonneg; lia).
  destruct (record_of_loc mx lx) as (R1 & R2 & R3).
  destruct (shr_shifted (shr_record_of_loc mx lx) ex n) as (S1 & S2);
    [rewrite R1; exact Hm | exact Hn |].
  unfold binary_round_aux.
  assert (F1 : shr_fexp F32.prec F32.emax mx ex lx
               = shr (shr_record_of_loc mx lx) ex n) by reflexivity.
  rewrite F1. clear F1.
  destruct (shr (shr_record_of_loc mx lx) ex n) as [y e'] eqn:Ey.
  cbn [fst snd] in S1, S2. subst e'.
  replace (ex + n) with E by (unfold n; lia).
  destruct S1 as (Y0 & Yq & Yx). rewrite R1 in Yq, Yx.
  set (q := mx / 2 ^ n) in *.
  destruct (round_nearest_even_near (shr_m y) (loc_of_shr_record y)) as (N1 & N2).
  set (m1 := round_nearest_even (shr_m y) (loc_of_shr_record y)) in *.
  rewrite Yq in N1, N2.
  assert (Hq : q < 2 ^ 24).
  { destruct (Z.eq_dec mx 0) as [->|Hnz]; [unfold q; rewrite Z.div_0_l; lia|].
    pose proof (Zdigits2_bounds mx ltac:(lia)) as B.
    apply Z.div_lt_upper_bound; [exact P|].
    rewrite <- Z.pow_add_r by lia.
    apply Z.lt_le_trans with (2 ^ Zdigits2 mx); [lia|].
    apply Z.pow_le_mono_r; [lia|]. unfold n, E, fexp32. lia. }
  assert (Hnorm : m1 < 2 ^ 23 -> E = -149).
  { intro Hlt. destruct (Z.eq_dec E (-149)) as [|Hne]; [assumption|exfalso].
    assert (Hd : E = Zdigits2 mx + ex - 24) by (unfold E, fexp32 in *; lia).
    destruct (Z.eq_dec mx 0) as [->|Hnz].
    { cbn in Hd. unfold E, fexp32 in *. cbn in He. lia. }
    pose proof (Zdigits2_bounds mx ltac:(lia)) as B.
    assert (2 ^ 23 <= q).
    { apply Z.div_le_lower_bound; [exact P|].
      rewrite <- Z.pow_add_r by lia.
      replace (n + 23) with (Zdigits2 mx - 1) by (unfold n; lia). lia. }
    lia. }
  exists m1. split; [exact N1|]. split.
  { intros -> Hmod. apply N2. destruct (R3 eq_refl) as (Hr & Hs).
    destruct (Yx Hr Hs Hmod) as (Hyr & Hys). now apply exact_record. }
  split; [lia|]. split; [exact Hnorm|].
  assert (F2 : forall m, shr_fexp F32.prec F32.emax m E loc_Exact
               = shr (Build_shr_record m false false) E
                     (fexp32 (Zdigits2 m + E) - E)) by reflexivity.
  rewrite F2. unfold rounded.
  assert (HE : -149 <= E) by (unfold E, fexp32; lia).
  destruct (Z.eqb_spec m1 0) as [Z0 | NZ].
  - rewrite Z0. cbn [Zdigits2].
    assert (E = -149) by (apply Hnorm; lia).
    replace (fexp32 (0 + E) - E) with 0 by (unfold fexp32; lia).
    reflexivity.
  - assert (Hpos : 0 < m1) by lia.
    destruct (Z.ltb_spec m1 (2 ^ 24)) as [L | G].
    + assert (Hd1 : fexp32 (Zdigits2 m1 + E) - E = 0).
      { pose proof (Zdigits2_bounds m1 Hpos) as B.
        pose proof (Zdigits2_pos m1 Hpos) as D.
        assert (Zdigits2 m1 <= 24).
        { destruct (Z.le_gt_cases (Zdigits2 m1) 24); [assumption|exfalso].
          assert (2 ^ 24 <= 2 ^ (Zdigits2 m1 - 1))
            by (apply Z.pow_le_mono_r; lia). lia. }
        destruct (Z.lt_ge_cases m1 (2 ^ 23)) as [Hs | Hg].
        * rewrite (Hnorm Hs). unfold fexp32. lia.
        * rewrite (Zdigits2_unique m1 24) by lia. unfold fexp32. lia. }
      rewrite Hd1. cbn [shr shr_m].
      destruct m1 as [|p|p]; try lia. cbn [Z.to_pos]. reflexivity.
    + assert (m1 = 2 ^ 24) by lia. subst m1.
      replace (round_nearest_even (shr_m y) (loc_of_shr_record y)) with (2 ^ 24).
      rewrite (Zdigits2_unique (2 ^ 24) 25) by lia.
      replace (fexp32 (25 + E) - E) with 1 by (unfold fexp32; lia).
      cbn [shr iter_pos]. rewrite shr_1_spec by lia. cbn [shr_m].
      change (2 ^ 24 / 2) with (2 ^ 23).
      change (2 ^ 23) with (Zpos (Z.to_pos (2 ^ 23))) at 1.
      cbv iota. replace (E + 1 <=? F32.emax - F32.prec) with (E + 1 <=? 104)
        by reflexivity.
      reflexivity.
Qed.

(** *** Patterns and floats *)

Lemma fields (S ef mf : Z) :
  0 <= S <= 1 -> 0 <= ef < 256 -> 0 <= mf < 2 ^ 23 ->
  Z.testbit (S * 2 ^ 31 + ef * 2 ^ 23 + mf) 31 = (S =? 1) /\
  Z.land (Z.shiftr (S * 2 ^ 31 + ef * 2 ^ 23 + mf) 23) 255 = ef /\
  Z.land (S * 2 ^ 31 + ef * 2 ^ 23 + mf) (2 ^ 23 - 1) = mf.
Proof.
  intros HS He Hm. repeat split.
  - rewrite Z.testbit_odd, Z.shiftr_div_pow2 by lia.
    replace (S * 2 ^ 31 + ef * 2 ^ 23 + mf)
      with (ef * 2 ^ 23 + mf + S * 2 ^ 31) by lia.
    rewrite Z.div_add by lia. rewrite Z.div_small by lia.
    assert (S = 0 \/ S = 1) as [-> | ->] by lia; reflexivity.
  - rewrite Z.shiftr_div_pow2 by lia.
    change 255 with (Z.ones 8). rewrite Z.land_ones by lia.
    replace (S * 2 ^ 31 + ef * 2 ^ 23 + mf)
      with (mf + (S * 2 ^ 8 + ef) * 2 ^ 23) by lia.
    rewrite Z.div_add by lia. rewrite (Z.div_small mf) by lia.
    replace (0 + (S * 2 ^ 8 + ef)) with (ef + S * 2 ^ 8) by lia.
    rewrite Z.mod_add by lia. apply Z.mod_small. lia.
  - change (2 ^ 23 - 1) with (Z.ones 23). rewrite Z.land_ones by lia.
    replace (S * 2 ^ 31 + ef * 2 ^ 23 + mf)
      with (mf + (S * 2 ^ 8 + ef) * 2 ^ 23) by lia.
    rewrite Z.mod_add by lia. apply Z.mod_small. lia.
Qed.

Lemma sign_of_eqb (s : bool) : (sign_of s =? 1) = s.
Proof. now destruct s. Qed.

Lemma sign_bit_of (s : bool) : F32.sign_bit s = sign_of s * 2 ^ 31.
Proof. now destruct s. Qed.

Lemma of_bits_fields (s : bool) (ef mf : Z) :
  0 <= ef < 256 -> 0 <= mf < 2 ^ 23 ->
  F32.of_bits (sign_of s * 2 ^ 31 + ef * 2 ^ 23 + mf)
  = if ef =? 0 then
      match mf with
      | Zpos p => S754_finite s p (-149)
      | _ => S754_zero s
      end
    else if ef =? 255 then
      if mf =? 0 then S754_infinity s else S754_nan
    else
      match mf + 2 ^ 23 with
      | Zpos p => S754_finite s p (ef - 150)
      | _ => S754_nan
      end.
Proof.
  intros He Hm. unfold F32.of_bits.
  destruct (fields (sign_of s) ef mf) as (F1 & F2 & F3);
    [destruct s; cbn; lia | exact He | exact Hm |].
  rewrite F1, F2, F3, sign_of_eqb. reflexivity.
Qed.

Lemma of_to_bits (f : spec_float) : number f -> F32.of_bits (F32.to_bits f) = f.
Proof.
  destruct f as [s | s | | s m e]; cbn [number F32.to_bits]; intro H.
  - rewrite sign_bit_of.
    replace (sign_of s * 2 ^ 31) with (sign_of s * 2 ^ 31 + 0 * 2 ^ 23 + 0) by lia.
    rewrite of_bits_fields by lia. reflexivity.
  - rewrite sign_bit_of.
    replace (sign_of s * 2 ^ 31 + 0x7F800000)
      with (sign_of s * 2 ^ 31 + 255 * 2 ^ 23 + 0) by lia.
    rewrite of_bits_fields by lia. reflexivity.
  - contradiction.
  - destruct H as (Hm & He & Hs). rewrite sign_bit_of.
    destruct (Z.ltb_spec (Zpos m) (2 ^ 23)) as [L | G].
    + replace (sign_of s * 2 ^ 31 + Zpos m)
        with (sign_of s * 2 ^ 31 + 0 * 2 ^ 23 + Zpos m) by lia.
      rewrite of_bits_fields by lia. cbn [Z.eqb]. now rewrite (Hs L).
    + replace (sign_of s * 2 ^ 31 + ((e + 150) * 2 ^ 23 + (Zpos m - 2 ^ 23)))
        with (sign_of s * 2 ^ 31 + (e + 150) * 2 ^ 23 + (Zpos m - 2 ^ 23)) by lia.
      rewrite of_bits_fields by lia.
      destruct (Z.eqb_spec (e + 150) 0); [lia|].
      destruct (Z.eqb_spec (e + 150) 255); [lia|].
      replace (Zpos m - 2 ^ 23 + 2 ^ 23) with (Zpos m) by lia.
      f_equal. lia.
Qed.

(** Every pattern is a number or a NaN. *)
Lemma of_bits_number (b : Z) :
  F32.of_bits b = S754_nan \/ number (F32.of_bits b).
Proof.
  unfold F32.of_bits.
  assert (He : 0 <= Z.land (Z.shiftr b 23) 255 < 256).
  { change 255 with (Z.ones 8). rewrite Z.land_ones by lia.
    apply Z.mod_pos_bound. lia. }
  assert (Hm : 0 <= Z.land b (2 ^ 23 - 1) < 2 ^ 23).
  { change (2 ^ 23 - 1) with (Z.ones 23). rewrite Z.land_ones by lia.
    apply Z.mod_pos_bound. lia. }
  set (e := Z.land (Z.shiftr b 23) 255) in *.
  set (m := Z.land b (2 ^ 23 - 1)) in *.
  cbv zeta.
  destruct (Z.eqb_spec e 0).
  - right. destruct m as [|p|p]; cbn [number]; try exact I.
    unfold canon. lia.
  - destruct (Z.eqb_spec e 255).
    + destruct (m =? 0); [right; exact I | left; reflexivity].
    + right. destruct (m + 2 ^ 23) as [|p|p] eqn:Ep; try lia.
      cbn [number]. unfold canon. lia.
Qed.

Lemma rounded_number (s : bool) (m1 E : Z) :
  0 <= m1 <= 2 ^ 24 -> (m1 < 2 ^ 23 -> E = -149) -> -149 <= E ->
  number (rounded s m1 E).
Proof.
  intros Hm Hs HE. unfold rounded.
  destruct (Z.eqb_spec m1 0); [exact I|].
  destruct (Z.ltb_spec m1 (2 ^ 24)).
  - destruct (Z.leb_spec E 104); [|exact I].
    cbn [number]. unfold canon. rewrite Z2Pos.id by lia. lia.
  - destruct (Z.leb_spec (E + 1) 104); [|exact I].
    cbn [number]. unfold canon. rewrite Z2Pos.id by lia. lia.
Qed.

(** *** Magnitudes against powers of two *)

Lemma round_upper (mx n U m1 : Z) :
  0 <= n -> 0 <= mx -> mx <= U * 2 ^ n ->
  mx / 2 ^ n <= m1 <= mx / 2 ^ n + 1 ->
  (mx mod 2 ^ n = 0 -> m1 = mx / 2 ^ n) ->
  m1 <= U.
Proof.
  intros Hn Hm Hu Hq Hx.
  assert (P : 0 < 2 ^ n) by (apply Z.pow_pos_nonneg; lia).
  assert (Q : mx / 2 ^ n <= U) by (apply Z.div_le_upper_bound; lia).
  destruct (Z.eq_dec (mx / 2 ^ n) U) as [E | N]; [|lia].
  rewrite Hx; [lia|].
  pose proof (Z.div_mod mx (2 ^ n) ltac:(lia)) as D.
  pose proof (Z.mod_pos_bound mx (2 ^ n) P). rewrite E in D. nia.
Qed.

Lemma round_lower (mx n L m1 : Z) :
  0 <= n -> L * 2 ^ n <= mx -> mx / 2 ^ n <= m1 -> L <= m1.
Proof.
  intros Hn Hl Hq.
  assert (P : 0 < 2 ^ n) by (apply Z.pow_pos_nonneg; lia).
  assert (L <= mx / 2 ^ n) by (apply Z.div_le_lower_bound; lia). lia.
Qed.

(** What one rounding of a positive [mx * 2^ex] that lies between [2^lo]
    and [2^hi] gives. *)
Lemma binary_round_aux_between (s : bool) (mx ex lo hi : Z) :
  0 < mx -> ex <= fexp32 (Zdigits2 mx + ex) ->
  lo <= hi -> hi <= 104 -> ex <= lo ->
  fexp32 (hi + 1) <= lo ->
  2 ^ (lo - ex) <= mx <= 2 ^ (hi - ex) ->
  exists m e,
    binary_round_aux F32.prec F32.emax s mx ex loc_Exact = S754_finite s m e /\
    canon m e /\ below (Zpos m) e hi /\ above (Zpos m) e lo.
Proof.
  intros Hm He Hlh Hhi Hlo Hf (Hl & Hu).
  destruct (binary_round_aux_spec s mx ex loc_Exact ltac:(lia) He)
    as (m1 & Hq & Hx & H24 & Hsub & ->).
  set (E := fexp32 (Zdigits2 mx + ex)) in *.
  pose proof (Zdigits2_bounds mx Hm) as B.
  pose proof (Zdigits2_pos mx Hm) as D.
  assert (HdE : Zdigits2 mx + ex <= hi + 1).
  { destruct (Z.le_gt_cases (Zdigits2 mx + ex) (hi + 1)); [assumption|exfalso].
    assert (2 ^ (hi - ex) < 2 ^ (Zdigits2 mx - 1)); [|lia].
    apply Z.pow_lt_mono_r; lia. }
  assert (HE : E <= lo) by (unfold E, fexp32 in *; lia).
  assert (HE' : -149 <= E) by (unfold E, fexp32; lia).
  assert (P : 0 < 2 ^ (E - ex)) by (apply Z.pow_pos_nonneg; lia).
  assert (Up : m1 <= 2 ^ (hi - E)).
  { apply (round_upper mx (E - ex) (2 ^ (hi - E)) m1); try lia.
    - rewrite <- Z.pow_add_r by lia.
      replace (hi - E + (E - ex)) with (hi - ex) by lia. lia.
    - intro Hmod. now apply Hx. }
  assert (Lo : 2 ^ (lo - E) <= m1).
  { apply (round_lower mx (E - ex) (2 ^ (lo - E)) m1); try lia.
    rewrite <- Z.pow_add_r by lia.
    replace (lo - E + (E - ex)) with (lo - ex) by lia. lia. }
  assert (Pl : 0 < 2 ^ (lo - E)) by (apply Z.pow_pos_nonneg; lia).
  unfold rounded.
  destruct (Z.eqb_spec m1 0); [lia|].
  destruct (Z.ltb_spec m1 (2 ^ 24)) as [L | G].
  - destruct (Z.leb_spec E 104); [|lia].
    exists (Z.to_pos m1), E. split; [reflexivity|].
    rewrite Z2Pos.id by lia. unfold canon, below, above.
    rewrite Z2Pos.id by lia. repeat split; lia.
  - assert (m1 = 2 ^ 24) by lia. subst m1.
    assert (24 <= hi - E).
    { destruct (Z.le_gt_cases 24 (hi - E)); [assumption|exfalso].
      assert (2 ^ (hi - E) < 2 ^ 24) by (apply Z.pow_lt_mono_r; lia). lia. }
    destruct (Z.leb_spec (E + 1) 104); [|lia].
    exists (Z.to_pos (2 ^ 23)), (E + 1). split; [reflexivity|].
    unfold canon, below, above. rewrite Z2Pos.id by lia.
    repeat split; try lia.
    + apply (Z.pow_le_mono_r 2 23 (hi - (E + 1))); lia.
    + destruct (Z.le_gt_cases lo (E + 1)); [left; assumption | right].
      apply (Z.pow_le_mono_r 2 (lo - (E + 1)) 23); try lia.
      destruct (Z.le_gt_cases (lo - (E + 1)) 23); [assumption|exfalso].
      assert (2 ^ 24 < 2 ^ (lo - E)) by (apply Z.pow_lt_mono_r; lia). lia.
Qed.

(** The same without a lower bound: the result may be a zero. *)
Lemma binary_round_aux_below (s : bool) (mx ex hi : Z) :
  0 < mx -> ex <= fexp32 (Zdigits2 mx + ex) ->
  hi <= 104 -> -149 <= hi -> mx <= 2 ^ (hi - ex) -> ex <= hi ->
  binary_round_aux F32.prec F32.emax s mx ex loc_Exact = S754_zero s \/
  exists m e,
    binary_round_aux F32.prec F32.emax s mx ex loc_Exact = S754_finite s m e /\
    canon m e /\ below (Zpos m) e hi.
Proof.
  intros Hm He Hhi Hlo Hu Hex.
  destruct (binary_round_aux_spec s mx ex loc_Exact ltac:(lia) He)
    as (m1 & Hq & Hx & H24 & Hsub & ->).
  set (E := fexp32 (Zdigits2 mx + ex)) in *.
  pose proof (Zdigits2_bounds mx Hm) as B.
  pose proof (Zdigits2_pos mx Hm) as D.
  assert (HdE : Zdigits2 mx + ex <= hi + 1).
  { destruct (Z.le_gt_cases (Zdigits2 mx + ex) (hi + 1)); [assumption|exfalso].
    assert (2 ^ (hi - ex) < 2 ^ (Zdigits2 mx - 1)); [|lia].
    apply Z.pow_lt_mono_r; lia. }
  assert (HE : E <= hi) by (unfold E, fexp32 in *; lia).
  assert (HE' : -149 <= E) by (unfold E, fexp32; lia).
  assert (P : 0 < 2 ^ (E - ex)) by (apply Z.pow_pos_nonneg; lia).
  assert (Q0 : 0 <= mx / 2 ^ (E - ex)) by (apply Z.div_pos; lia).
  assert (Up : m1 <= 2 ^ (hi - E)).
  { apply (round_upper mx (E - ex) (2 ^ (hi - E)) m1); try lia.
    - rewrite <- Z.pow_add_r by lia.
      replace (hi - E + (E - ex)) with (hi - ex) by lia. lia.
    - intro Hmod. now apply Hx. }
  unfold rounded.
  destruct (Z.eqb_spec m1 0); [left; reflexivity | right].
  destruct (Z.ltb_spec m1 (2 ^ 24)) as [L | G].
  - destruct (Z.leb_spec E 104); [|lia].
    exists (Z.to_pos m1), E. split; [reflexivity|].
    unfold canon, below. rewrite Z2Pos.id by lia. repeat split; lia.
  - assert (m1 = 2 ^ 24) by lia. subst m1.
    assert (24 <= hi - E).
    { destruct (Z.le_gt_cases 24 (hi - E)); [assumption|exfalso].
      assert (2 ^ (hi - E) < 2 ^ 24) by (apply Z.pow_lt_mono_r; lia). lia. }
    destruct (Z.leb_spec (E + 1) 104); [|lia].
    exists (Z.to_pos (2 ^ 23)), (E + 1). split; [reflexivity|].
    unfold canon, below. rewrite Z2Pos.id by lia.
    repeat split; try lia.
    apply (Z.pow_le_mono_r 2 23 (hi - (E + 1))); lia.
Qed.

(** *** The order of binary32 against 0.5 and 1 *)

Lemma leb_pow2_above (m : positive) (e k : Z) :
  canon m e -> above (Zpos m) e k -> -126 <= k ->
  SFleb (pow2 k) (S754_finite false m e) = true.
Proof.
  intros (H24 & He & Hs) Ha Hk. unfold SFleb, SFcompare, pow2.
  destruct (Z.compare_spec (k - 23) e) as [E | L | G]; try reflexivity.
  - subst e. destruct Ha as [Ha | Ha]; [lia|].
    replace (k - (k - 23)) with 23 in Ha by lia.
    rewrite Pos.compare_cont_spec. cbn [Pos.switch_Eq].
    destruct (Pos.compare_spec (Z.to_pos (2 ^ 23)) m) as [| |C];
      try reflexivity. exfalso.
    apply Pos2Z.pos_lt_pos in C. rewrite Z2Pos.id in C by lia. lia.
  - exfalso. destruct Ha as [Ha | Ha]; [lia|].
    assert (2 ^ 24 <= 2 ^ (k - e)) by (apply Z.pow_le_mono_r; lia). lia.
Qed.

Lemma leb_pow2_below (m : positive) (e k : Z) :
  canon m e -> below (Zpos m) e k -> -126 <= k ->
  SFleb (S754_finite false m e) (pow2 k) = true.
Proof.
  intros (H24 & He & Hs) (Hb1 & Hb2) Hk. unfold SFleb, SFcompare, pow2.
  destruct (Z.compare_spec e (k - 23)) as [E | L | G]; try reflexivity.
  - subst e. replace (k - (k - 23)) with 23 in Hb2 by lia.
    rewrite Pos.compare_cont_spec. cbn [Pos.switch_Eq].
    destruct (Pos.compare_spec m (Z.to_pos (2 ^ 23))) as [| |C];
      try reflexivity. exfalso.
    apply Pos2Z.pos_lt_pos in C. rewrite Z2Pos.id in C by lia. lia.
  - exfalso.
    assert (2 ^ 23 <= Zpos m).
    { destruct (Z.le_gt_cases (2 ^ 23) (Zpos m)); [assumption|].
      specialize (Hs ltac:(lia)). lia. }
    assert (2 ^ (k - e) < 2 ^ 23) by (apply Z.pow_lt_mono_r; lia). lia.
Qed.

(** *** Alignment and normalisation *)

Lemma iter_xO (d m : positive) : Zpos (Pos.iter xO m d) = Zpos m * 2 ^ Zpos d.
Proof.
  induction d as [|d IH] using Pos.peano_ind.
  - cbn [Pos.iter]. rewrite Pos2Z.inj_xO. change (2 ^ 1) with 2. lia.
  - rewrite Pos.iter_succ, Pos2Z.inj_xO, IH, Pos2Z.inj_succ, Z.pow_succ_r by lia.
    lia.
Qed.

Lemma shl_align_spec (m : positive) (e ez : Z) :
  ez <= e ->
  shl_align m e ez = (Z.to_pos (Zpos m * 2 ^ (e - ez)), ez).
Proof.
  intro H. unfold shl_align.
  destruct (ez - e) as [|d|d] eqn:D; try lia.
  - replace (e - ez) with 0 by lia. replace ez with e by lia.
    rewrite Z.pow_0_r, Z.mul_1_r. reflexivity.
  - replace (e - ez) with (Zpos d) by lia.
    rewrite <- iter_xO. reflexivity.
Qed.

Lemma shl_align_fst (m : positive) (e ez : Z) :
  ez <= e -> Zpos (fst (shl_align m e ez)) = Zpos m * 2 ^ (e - ez).
Proof.
  intro H. rewrite shl_align_spec by exact H. cbn [fst].
  assert (0 < 2 ^ (e - ez)) by (apply Z.pow_pos_nonneg; lia).
  rewrite Z2Pos.id by lia. reflexivity.
Qed.

Lemma Zdigits2_shift (m n : Z) :
  0 < m -> 0 <= n -> Zdigits2 (m * 2 ^ n) = Zdigits2 m + n.
Proof.
  intros Hm Hn.
  pose proof (Zdigits2_bounds m Hm) as B.
  pose proof (Zdigits2_pos m Hm) as P.
  assert (0 < 2 ^ n) by (apply Z.pow_pos_nonneg; lia).
  apply Zdigits2_unique; [|lia].
  replace (Zdigits2 m + n - 1) with (Zdigits2 m - 1 + n) by lia.
  rewrite !Z.pow_add_r by lia. nia.
Qed.

(** [binary_round] first aligns, so that its one rounding step starts at
    or below the target exponent. *)
Lemma binary_round_aligned (s : bool) (m : positive) (e : Z) :
  exists mz ez,
    binary_round F32.prec F32.emax s m e
    = binary_round_aux F32.prec F32.emax s mz ez loc_Exact /\
    ez <= e /\ mz = Zpos m * 2 ^ (e - ez) /\
    ez <= fexp32 (Zdigits2 mz + ez).
Proof.
  unfold binary_round. rewrite fexp_32.
  change (Zpos (digits2_pos m)) with (Zdigits2 (Zpos m)).
  set (F := fexp32 (Zdigits2 (Zpos m) + e)).
  destruct (Z.le_gt_cases e F) as [L | G].
  - exists (Zpos m), e.
    assert (A : shl_align m e F = (m, e)).
    { unfold shl_align. destruct (F - e) eqn:D; try reflexivity. lia. }
    rewrite A. replace (e - e) with 0 by lia. rewrite Z.pow_0_r.
    repeat split; lia.
  - exists (Zpos m * 2 ^ (e - F)), F.
    assert (P : 0 < 2 ^ (e - F)) by (apply Z.pow_pos_nonneg; lia).
    rewrite shl_align_spec by lia. rewrite Z2Pos.id by lia.
    repeat split; try lia.
    rewrite Zdigits2_shift by lia.
    replace (Zdigits2 (Zpos m) + (e - F) + F) with (Zdigits2 (Zpos m) + e) by lia.
    fold F. lia.
Qed.

Lemma binary_round_number (s : bool) (m : positive) (e : Z) :
  number (binary_round F32.prec F32.emax s m e).
Proof.
  destruct (binary_round_aligned s m e) as (mz & ez & -> & Hle & Hm & Hf).
  assert (P : 0 < 2 ^ (e - ez)) by (apply Z.pow_pos_nonneg; lia).
  assert (Z0 : 0 <= mz) by nia.
  destruct (binary_round_aux_spec s mz ez loc_Exact Z0 Hf)
    as (m1 & Hq & _ & H24 & Hsub & ->).
  apply rounded_number; [|exact Hsub|unfold fexp32; lia].
  split; [|exact H24].
  assert (0 <= mz / 2 ^ (fexp32 (Zdigits2 mz + ez) - ez)); [|lia].
  apply Z.div_pos; [lia|]. apply Z.pow_pos_nonneg; lia.
Qed.

Lemma binary_normalize_number (m e : Z) :
  number (binary_normalize F32.prec F32.emax m e false).
Proof.
  destruct m; cbn [binary_normalize]; [exact I | |]; apply binary_round_number.
Qed.

Lemma binary_normalize_between (S ez lo hi : Z) :
  2 ^ (lo - ez) <= S <= 2 ^ (hi - ez) ->
  ez <= lo -> lo <= hi -> hi <= 104 -> fexp32 (hi + 1) <= lo ->
  exists m e,
    binary_normalize F32.prec F32.emax S ez false = S754_finite false m e /\
    canon m e /\ below (Zpos m) e hi /\ above (Zpos m) e lo.
Proof.
  intros (Hl & Hu) Hez Hlh Hhi Hf.
  assert (0 < 2 ^ (lo - ez)) by (apply Z.pow_pos_nonneg; lia).
  destruct S as [|p|p]; try lia. cbn [binary_normalize].
  destruct (binary_round_aligned false p ez) as (mz & ez' & -> & Hle & Hm & Hfe).
  assert (P : 0 < 2 ^ (ez - ez')) by (apply Z.pow_pos_nonneg; lia).
  apply (binary_round_aux_between false mz ez' lo hi); try lia.
  subst mz. split.
  - replace (lo - ez') with (lo - ez + (ez - ez')) by lia.
    rewrite Z.pow_add_r by lia. nia.
  - replace (hi - ez') with (hi - ez + (ez - ez')) by lia.
    rewrite Z.pow_add_r by lia. nia.
Qed.

(** *** The values met by [lerp] *)

Lemma unit_number (f : spec_float) : unit_float f -> number f.
Proof. destruct f as [| | |[] m e]; cbn; tauto. Qed.

Lemma small_number (s : bool) (f : spec_float) : small s f -> number f.
Proof. destruct f; cbn; tauto. Qed.

Lemma between_number (lo hi : Z) (f : spec_float) : between lo hi f -> number f.
Proof. destruct f as [| | |[] m e]; cbn; tauto. Qed.

Lemma clamp01_unit (x : Z) :
  number (F32.of_bits x) -> unit_float (F32.of_bits (Deserializer.clamp01 x)).
Proof.
  intro N. unfold Deserializer.clamp01, F32.ltb.
  change (F32.of_bits F32.zero) with (S754_zero false).
  change (F32.of_bits F32.one) with f_one.
  assert (U1 : unit_float f_one) by (cbn; unfold canon, below; lia).
  destruct (F32.of_bits x) as [s|s| |s m e] eqn:E.
  - cbn [SFltb SFcompare f_one]. rewrite E. exact I.
  - destruct s; cbn [SFltb SFcompare f_one]; [exact I | exact U1].
  - destruct N.
  - destruct s; cbn [SFltb SFcompare f_one]; [exact I|].
    destruct (Z.compare_spec (-23) e) as [Q | L | G].
    + subst e. rewrite Pos.compare_cont_spec.
      destruct (Pos.compare_spec 8388608 m) as [Q | L | G]; cbn [Pos.switch_Eq].
      * rewrite E. cbn. split; [exact N|]. subst m. unfold below. lia.
      * exact U1.
      * rewrite E. cbn. split; [exact N|]. unfold below.
        apply Pos2Z.pos_lt_pos in G. lia.
    + exact U1.
    + rewrite E. cbn. split; [exact N|]. destruct N as (H24 & _).
      unfold below. split; [lia|].
      assert (2 ^ 24 <= 2 ^ (0 - e)) by (apply Z.pow_le_mono_r; lia). lia.
Qed.

Lemma mul_half_small (s : bool) (t : spec_float) :
  unit_float t -> small s (SFmul F32.prec F32.emax (f_half s) t).
Proof.
  destruct t as [st| | |[] m e]; cbn [unit_float]; try tauto.
  intros (C & B1 & B2). cbn [SFmul f_half]. rewrite xorb_false_r.
  assert (Hm : Zpos (8388608 * m) = Zpos m * 2 ^ 23) by lia.
  rewrite Hm.
  pose proof (Zdigits2_pos (Zpos m) ltac:(lia)) as D.
  assert (P : 0 < 2 ^ (0 - e)) by (apply Z.pow_pos_nonneg; lia).
  destruct (binary_round_aux_below s (Zpos m * 2 ^ 23) (-24 + e) (-1))
    as [-> | (m' & e' & -> & C' & B')]; try lia.
  - rewrite Zdigits2_shift by lia. unfold fexp32. lia.
  - replace (-1 - (-24 + e)) with (0 - e + 23) by lia.
    rewrite Z.pow_add_r by lia. nia.
  - exact I.
  - cbn. tauto.
Qed.

Lemma add_one_small (y : spec_float) :
  small true y -> between (-1) 0 (SFadd F32.prec F32.emax f_one y).
Proof.
  destruct y as [sy| | |sy m e]; cbn [small]; try tauto.
  - intros _. cbn. unfold canon, below, above. lia.
  - intros (-> & C & B1 & B2). cbn [SFadd f_one].
    set (ez := Z.min (-23) e).
    rewrite !shl_align_fst by lia. cbn [cond_Zopp].
    assert (P1 : 0 < 2 ^ (-1 - ez)) by (apply Z.pow_pos_nonneg; lia).
    assert (P2 : 0 < 2 ^ (e - ez)) by (apply Z.pow_pos_nonneg; lia).
    assert (Q1 : 8388608 * 2 ^ (-23 - ez) = 2 * 2 ^ (-1 - ez)).
    { change 8388608 with (2 ^ 23). rewrite <- Z.pow_add_r by lia.
      rewrite <- Z.pow_succ_r by lia. f_equal. lia. }
    assert (Q2 : Zpos m * 2 ^ (e - ez) <= 2 ^ (-1 - ez)).
    { replace (-1 - ez) with (-1 - e + (e - ez)) by lia.
      rewrite Z.pow_add_r by lia. nia. }
    destruct (binary_normalize_between
                (8388608 * 2 ^ (-23 - ez) + - (Zpos m * 2 ^ (e - ez))) ez (-1) 0)
      as (m' & e' & -> & R); try lia.
    + replace (0 - ez) with (Z.succ (-1 - ez)) by lia.
      rewrite Z.pow_succ_r by lia. nia.
    + unfold fexp32. lia.
    + cbn. exact R.
Qed.

Lemma add_half_small (y : spec_float) :
  small false y -> between (-1) 0 (SFadd F32.prec F32.emax (f_half false) y).
Proof.
  destruct y as [sy| | |sy m e]; cbn [small]; try tauto.
  - intros _. cbn. unfold canon, below, above. lia.
  - intros (-> & C & B1 & B2). cbn [SFadd f_half].
    set (ez := Z.min (-24) e).
    rewrite !shl_align_fst by lia. cbn [cond_Zopp].
    assert (P1 : 0 < 2 ^ (-1 - ez)) by (apply Z.pow_pos_nonneg; lia).
    assert (P2 : 0 < 2 ^ (e - ez)) by (apply Z.pow_pos_nonneg; lia).
    assert (Q1 : 8388608 * 2 ^ (-24 - ez) = 2 ^ (-1 - ez)).
    { change 8388608 with (2 ^ 23). rewrite <- Z.pow_add_r by lia.
      f_equal. lia. }
    assert (Q2 : Zpos m * 2 ^ (e - ez) <= 2 ^ (-1 - ez)).
    { replace (-1 - ez) with (-1 - e + (e - ez)) by lia.
      rewrite Z.pow_add_r by lia. nia. }
    destruct (binary_normalize_between
                (8388608 * 2 ^ (-24 - ez) + Zpos m * 2 ^ (e - ez)) ez (-1) 0)
      as (m' & e' & -> & R); try lia.
    + replace (0 - ez) with (Z.succ (-1 - ez)) by lia.
      rewrite Z.pow_succ_r by lia. nia.
    + unfold fexp32. lia.
    + cbn. exact R.
Qed.

Lemma add_zero_small (y : spec_float) :
  small false y -> small false (SFadd F32.prec F32.emax (S754_zero false) y).
Proof.
  destruct y as [[]| | |sy m e]; cbn; tauto.
Qed.

(** *** No operation of the correction makes a NaN out of a number *)

Lemma sub_finite_number (x : spec_float) (s : bool) (m : positive) (e : Z) :
  number x -> canon m e ->
  number (SFsub F32.prec F32.emax x (S754_finite s m e)).
Proof.
  intros N C. destruct x as [sx|sx| |sx mx ex]; cbn [SFsub].
  - exact C.
  - exact I.
  - destruct N.
  - apply binary_normalize_number.
Qed.

Lemma abs_bits (w : Z) : F32.of_bits (F32.abs w) = SFabs (F32.of_bits w).
Proof.
  unfold F32.abs, F32.of_bits.
  change 0x7FFFFFFF with (Z.ones 31).
  change (2 ^ 23 - 1) with (Z.ones 23). change 255 with (Z.ones 8).
  rewrite !Z.land_ones by lia.
  assert (T : Z.testbit (w mod 2 ^ 31) 31 = false)
    by (apply Z.mod_pow2_bits_high; lia).
  rewrite T.
  assert (M : (w mod 2 ^ 31) mod 2 ^ 23 = w mod 2 ^ 23).
  { apply Z.mod_mod_divide. exists (2 ^ 8). reflexivity. }
  assert (X : Z.shiftr (w mod 2 ^ 31) 23 mod 2 ^ 8 = Z.shiftr w 23 mod 2 ^ 8).
  { rewrite !Z.shiftr_div_pow2 by lia.
    rewrite (Z.div_mod w (2 ^ 31)) at 2 by lia.
    replace (2 ^ 31 * (w / 2 ^ 31) + w mod 2 ^ 31)
      with (w mod 2 ^ 31 + (w / 2 ^ 31 * 2 ^ 8) * 2 ^ 23)
      by (change (2 ^ 31) with (2 ^ 8 * 2 ^ 23); lia).
    rewrite Z.div_add by lia. rewrite Z.mod_add by lia. reflexivity. }
  rewrite M, X.
  destruct (Z.shiftr w 23 mod 2 ^ 8 =? 0).
  - destruct (w mod 2 ^ 23); reflexivity.
  - destruct (Z.shiftr w 23 mod 2 ^ 8 =? Z.ones 8).
    + destruct (w mod 2 ^ 23 =? 0); reflexivity.
    + destruct (w mod 2 ^ 23 + 2 ^ 23); reflexivity.
Qed.

Lemma abs_number (f : spec_float) : number f -> number (SFabs f).
Proof. destruct f; cbn; tauto. Qed.

Lemma div_quarter_number (x : spec_float) :
  number x ->
  number (SFdiv F32.prec F32.emax x (S754_finite false 8388608 (-25))).
Proof.
  intro N. destruct x as [sx|sx| |sx m e]; cbn [SFdiv]; try exact I; try exact N.
  unfold SFdiv_core_binary. rewrite fexp_32.
  change (Zdigits2 (Zpos 8388608)) with 24.
  set (d1 := Zdigits2 (Zpos m)).
  set (e' := Z.min (fexp32 (d1 + e - (24 + -25))) (e - -25)).
  set (s := e - -25 - e').
  assert (Hs : 0 <= s) by (unfold s, e'; lia).
  set (m' := match s with
             | Zpos _ => Z.shiftl (Zpos m) s | 0 => Zpos m | Zneg _ => 0 end).
  assert (Hm' : m' = Zpos m * 2 ^ s).
  { unfold m'. destruct s eqn:S0; try lia.
    rewrite Z.shiftl_mul_pow2 by lia. reflexivity. }
  pose proof (Z_div_mod m' (Zpos 8388608) ltac:(lia)) as DM.
  destruct (Z.div_eucl m' (Zpos 8388608)) as [q r].
  destruct DM as (DM & Hr).
  pose proof (Zdigits2_bounds (Zpos m) ltac:(lia)) as B. fold d1 in B.
  pose proof (Zdigits2_pos (Zpos m) ltac:(lia)) as D. fold d1 in D.
  assert (Ps : 0 < 2 ^ s) by (apply Z.pow_pos_nonneg; lia).
  assert (Hq : 0 <= q) by nia.
  assert (D24 : d1 <= 24).
  { destruct N as (H24 & _).
    destruct (Z.le_gt_cases d1 24); [assumption|exfalso].
    assert (2 ^ 24 <= 2 ^ (d1 - 1)) by (apply Z.pow_le_mono_r; lia). lia. }
  assert (Hbig : -149 < e' -> 2 ^ 24 <= q).
  { intro G.
    assert (S48 : 48 - d1 <= s) by (unfold s, e', fexp32 in *; lia).
    assert (2 ^ 47 <= m').
    { rewrite Hm'. replace 47 with (d1 - 1 + (48 - d1)) by lia.
      rewrite Z.pow_add_r by lia.
      assert (2 ^ (48 - d1) <= 2 ^ s) by (apply Z.pow_le_mono_r; lia).
      assert (0 < 2 ^ (48 - d1)) by (apply Z.pow_pos_nonneg; lia).
      nia. }
    change (2 ^ 47) with (2 ^ 24 * 8388608) in *. nia. }
  assert (Hf : e' <= fexp32 (Zdigits2 q + e')).
  { destruct (Z.le_gt_cases e' (-149)) as [L | G]; [unfold fexp32; lia|].
    specialize (Hbig ltac:(lia)).
    pose proof (Zdigits2_bounds q ltac:(lia)) as Bq.
    assert (24 < Zdigits2 q).
    { destruct (Z.lt_ge_cases 24 (Zdigits2 q)); [assumption|exfalso].
      assert (2 ^ Zdigits2 q <= 2 ^ 24) by (apply Z.pow_le_mono_r; lia). lia. }
    unfold fexp32. lia. }
  destruct (binary_round_aux_spec (xorb sx false) q e' (new_location (Zpos 8388608) r)
              Hq Hf) as (m1 & Hq1 & _ & H24 & Hsub & ->).
  apply rounded_number; [|exact Hsub|unfold fexp32; lia].
  split; [|exact H24].
  assert (0 <= q / 2 ^ (fexp32 (Zdigits2 q + e') - e')); [|lia].
  apply Z.div_pos; [lia|]. apply Z.pow_pos_nonneg; lia.
Qed.

Lemma between_half_one (f : spec_float) :
  between (-1) 0 f ->
  SFleb (F32.of_bits F32.half) f = true /\ SFleb f (F32.of_bits F32.one) = true.
Proof.
  destruct f as [| | |[] m e]; cbn [between]; try tauto.
  intros (C & B & A). split.
  - apply (leb_pow2_above m e (-1) C A). lia.
  - apply (leb_pow2_below m e 0 C B). lia.
Qed.

Lemma small_zero_half (f : spec_float) :
  small false f ->
  SFleb (F32.of_bits F32.zero) f = true /\ SFleb f (F32.of_bits F32.half) = true.
Proof.
  destruct f as [s| | |s m e]; cbn [small];
    try solve [intros []]; try (intros _; split; reflexivity).
  intros (-> & C & B). split; [reflexivity|].
  apply (leb_pow2_below m e (-1) C B). lia.
Qed.

Lemma number_of_ltb_l (a b : Z) : F32.ltb a b = true -> number (F32.of_bits a).
Proof.
  unfold F32.ltb. intro H.
  destruct (of_bits_number a) as [N | N]; [|exact N].
  rewrite N in H. discriminate H.
Qed.

Lemma number_of_ltb_r (a b : Z) : F32.ltb a b = true -> number (F32.of_bits b).
Proof.
  unfold F32.ltb. intro H.
  destruct (of_bits_number b) as [N | N]; [|exact N].
  rewrite N in H. destruct (F32.of_bits a); discriminate H.
Qed.

Lemma of_bits_div_quarter (x : Z) :
  number (F32.of_bits x) -> number (F32.of_bits (F32.div x F32.quarter)).
Proof.
  intro N. unfold F32.div.
  change (F32.of_bits F32.quarter) with (S754_finite false 8388608 (-25)).
  rewrite of_to_bits; apply div_quarter_number; exact N.
Qed.

Lemma of_bits_sub (x c : Z) (m : positive) (e : Z) :
  F32.of_bits c = S754_finite false m e -> canon m e ->
  number (F32.of_bits x) -> number (F32.of_bits (F32.sub x c)).
Proof.
  intros Hc C N. unfold F32.sub. rewrite Hc.
  rewrite of_to_bits; apply sub_finite_number; assumption.
Qed.

Lemma of_bits_abs (x : Z) :
  number (F32.of_bits x) -> number (F32.of_bits (F32.abs x)).
Proof. intro N. rewrite abs_bits. apply abs_number, N. Qed.

(** [lerp(1.0f, 0.5f, t)], [lerp(0.5f, 1.0f, t)] and [lerp(0.0f, 0.5f, t)]
    for a [t] in [0, 1]. *)
Lemma lerp_one_half (t : Z) :
  unit_float (F32.of_bits t) ->
  between (-1) 0 (F32.of_bits (Deserializer.lerp F32.one F32.half t)).
Proof.
  intro U. unfold Deserializer.lerp, F32.add, F32.mul.
  replace (F32.of_bits (F32.sub F32.half F32.one)) with (f_half true)
    by (vm_compute; reflexivity).
  change (F32.of_bits F32.one) with f_one.
  pose proof (mul_half_small true _ U) as S.
  rewrite (of_to_bits _ (small_number _ _ S)).
  pose proof (add_one_small _ S) as B.
  rewrite (of_to_bits _ (between_number _ _ _ B)). exact B.
Qed.

Lemma lerp_half_one (t : Z) :
  unit_float (F32.of_bits t) ->
  between (-1) 0 (F32.of_bits (Deserializer.lerp F32.half F32.one t)).
Proof.
  intro U. unfold Deserializer.lerp, F32.add, F32.mul.
  replace (F32.of_bits (F32.sub F32.one F32.half)) with (f_half false)
    by (vm_compute; reflexivity).
  change (F32.of_bits F32.half) with (f_half false).
  pose proof (mul_half_small false _ U) as S.
  rewrite (of_to_bits _ (small_number _ _ S)).
  pose proof (add_half_small _ S) as B.
  rewrite (of_to_bits _ (between_number _ _ _ B)). exact B.
Qed.

Lemma lerp_zero_half (t : Z) :
  unit_float (F32.of_bits t) ->
  small false (F32.of_bits (Deserializer.lerp F32.zero F32.half t)).
Proof.
  intro U. unfold Deserializer.lerp, F32.add, F32.mul.
  replace (F32.of_bits (F32.sub F32.half F32.zero)) with (f_half false)
    by (vm_compute; reflexivity).
  change (F32.of_bits F32.zero) with (S754_zero false).
  pose proof (mul_half_small false _ U) as S.
  rewrite (of_to_bits _ (small_number _ _ S)).
  pose proof (add_zero_small _ S) as B.
  rewrite (of_to_bits _ (small_number _ _ B)). exact B.
Qed.

Lemma fixPistonNormalizedValue_branch_ranges (v : Z) :
  (F32.ltb v F32.quarter = true ->
   F32.leb F32.half (Deserializer.fixPistonNormalizedValue v) = true /\
   F32.leb (Deserializer.fixPistonNormalizedValue v) F32.one = true) /\
  (F32.ltb v F32.quarter = false -> F32.ltb F32.three_quarters v = true ->
   F32.leb F32.half (Deserializer.fixPistonNormalizedValue v) = true /\
   F32.leb (Deserializer.fixPistonNormalizedValue v) F32.one = true) /\
  (F32.ltb v F32.quarter = false -> F32.ltb F32.three_quarters v = false ->
   F32.of_bits v <> S754_nan ->
   F32.leb F32.zero (Deserializer.fixPistonNormalizedValue v) = true /\
   F32.leb (Deserializer.fixPistonNormalizedValue v) F32.half = true).
Proof.
  unfold Deserializer.fixPistonNormalizedValue, F32.leb.
  split; [|split].
  - intro L. rewrite L. apply between_half_one, lerp_one_half, clamp01_unit.
    apply of_bits_div_quarter. exact (number_of_ltb_l _ _ L).
  - intros L1 L2. rewrite L1, L2.
    apply between_half_one, lerp_half_one, clamp01_unit.
    apply of_bits_div_quarter.
    apply (of_bits_sub v F32.three_quarters 12582912 (-24)).
    + reflexivity.
    + unfold canon. lia.
    + exact (number_of_ltb_r _ _ L2).
  - intros L1 L2 N. rewrite L1, L2.
    apply small_zero_half, lerp_zero_half, clamp01_unit.
    apply of_bits_div_quarter, of_bits_abs.
    apply (of_bits_sub v F32.half 8388608 (-24)).
    + reflexivity.
    + unfold canon. lia.
    + destruct (of_bits_number v) as [E | E]; [contradiction | exact E].
Qed.

Lemma SFcompare_antisym (x y : spec_float) :
  SFcompare y x = option_map CompOpp (SFcompare x y).
Proof.
  destruct x as [sx|sx| |sx mx ex], y as [sy|sy| |sy my ey];
    try reflexivity;
    try (destruct sx; reflexivity); try (destruct sy; reflexivity);
    try (destruct sx, sy; reflexivity).
  cbn [SFcompare option_map].
  rewrite (Z.compare_antisym ex ey).
  assert (A : Pos.compare_cont Eq my mx = CompOpp (Pos.compare_cont Eq mx my))
    by (rewrite Pos.compare_cont_antisym; reflexivity).
  rewrite A.
  destruct sx, sy; try reflexivity;
    destruct (ex ?= ey); cbn [CompOpp]; try reflexivity;
    destruct (Pos.compare_cont Eq mx my); reflexivity.
Qed.

Lemma leb_not_ltb (a b : Z) : F32.leb a b = true -> F32.ltb b a = false.
Proof.
  unfold F32.leb, F32.ltb, SFleb, SFltb.
  rewrite (SFcompare_antisym (F32.of_bits a) (F32.of_bits b)).
  destruct (SFcompare (F32.of_bits a) (F32.of_bits b)) as [[]|];
    cbn; congruence.
Qed.

Lemma leb_number_r (a b : Z) : F32.leb a b = true -> F32.of_bits b <> S754_nan.
Proof.
  unfold F32.leb, SFleb. intros H E. rewrite E in H.
  destruct (F32.of_bits a); discriminate H.
Qed.

Lemma above_three_quarters (v : Z) :
  F32.ltb F32.three_quarters v = true -> F32.ltb v F32.quarter = false.
Proof.
  unfold F32.ltb.
  change (F32.of_bits F32.three_quarters) with (S754_finite false 12582912 (-24)).
  change (F32.of_bits F32.quarter) with (S754_finite false 8388608 (-25)).
  destruct (F32.of_bits v) as [s|[]| |[] m e]; try discriminate; try reflexivity.
  unfold SFltb, SFcompare.
  destruct (Z.compare_spec (-24) e) as [Q | L | G]; try discriminate.
  - subst e. reflexivity.
  - intros _. destruct (Z.compare_spec e (-25)); try reflexivity; lia.
Qed.

Lemma fixPistonNormalizedValue_ranges (v : Z) :
  (F32.ltb v F32.quarter = true ->
   F32.leb F32.half (Deserializer.fixPistonNormalizedValue v) = true /\
   F32.leb (Deserializer.fixPistonNormalizedValue v) F32.one = true) /\
  (F32.ltb F32.three_quarters v = true ->
   F32.leb F32.half (Deserializer.fixPistonNormalizedValue v) = true /\
   F32.leb (Deserializer.fixPistonNormalizedValue v) F32.one = true) /\
  (F32.leb F32.quarter v = true -> F32.leb v F32.three_quarters = true ->
   F32.leb F32.zero (Deserializer.fixPistonNormalizedValue v) = true /\
   F32.leb (Deserializer.fixPistonNormalizedValue v) F32.half = true).
Proof.
  destruct (fixPistonNormalizedValue_branch_ranges v) as (R1 & R2 & R3).
  split; [exact R1|]. split.
  - intro H. exact (R2 (above_three_quarters v H) H).
  - intros H1 H2.
    exact (R3 (leb_not_ltb _ _ H1) (leb_not_ltb _ _ H2) (leb_number_r _ _ H1)).
Qed.

(** ** The piston correction *)

Lemma parse_deserializePiston (version raw : Z) (node_a node_b guid : string) :
  float_ok raw -> string_ok node_a -> string_ok node_b -> string_ok guid ->
  Parses (Deserializer.deserializePiston version)
         (piston_image raw node_a node_b guid)
         (Piston.mk (if version <? 8
                     then Deserializer.fixPistonNormalizedValue raw else raw)
                    node_a node_b guid).
Proof.
  intros Hr Ha Hb Hg. unfold Deserializer.deserializePiston, piston_image.
  eapply Parses_bind; [apply parse_readFloat, Hr|].
  eapply Parses_bind; [apply parse_readString, Ha|].
  eapply Parses_bind; [apply parse_readString, Hb|].
  apply (Parses_bind_ret Deserializer.readString
           (fun g => Piston.mk _ node_a node_b g)).
  apply parse_readString, Hg.
Qed.

Lemma deserializePiston_Done (version : Z) (s s' : St) (p : Piston.t) :
  Deserializer.deserializePiston version s = Done p s' ->
  let raw := le_value (firstn 4 (remaining s)) in
  Piston.normalized_value p =
  if version <? 8 then Deserializer.fixPistonNormalizedValue raw else raw.
Proof.
  unfold Deserializer.deserializePiston. intro H.
  apply bind_Done in H as (raw & s1 & H1 & H).
  apply bind_Done in H as (a & s2 & _ & H).
  apply bind_Done in H as (b & s3 & _ & H).
  apply bind_Done in H as (g & s4 & _ & H).
  unfold ret in H; inversion H; subst; clear H. cbn [Piston.normalized_value].
  unfold Deserializer.readFloat in H1.
  apply bind_Done in H1 as (bs & s0 & H0 & H1).
  unfold ret in H1; inversion H1; subst; clear H1.
  unfold read in H0.
  destruct (List.length (remaining s) <? 4)%nat; [discriminate|].
  inversion H0; subst. reflexivity.
Qed.

(** C3.  A piston decoded under a bridge version below 8 stores the
    three-segment curve of the raw float: [lerp(1, 0.5, clamp01(v / 0.25))]
    below 0.25, [lerp(0.5, 1, clamp01((v - 0.75) / 0.25))] above 0.75, and
    [lerp(0, 0.5, clamp01(|v - 0.5| / 0.25))] in between; from version 8 on
    the raw float is stored.  The decoder does return that piston on every
    stream that holds the record.  Over all binary32 inputs, each operation
    rounding to nearest even: every input below 0.25 (the negative ones
    and minus infinity too) comes out in [0.5, 1], every input above 0.75
    (plus infinity too) in [0.5, 1], and every input of the middle band
    [0.25, 0.75] in [0, 0.5].  The first segment is inverted: 0 gives 1,
    0.125 gives 0.75 and 0.25 gives 0.5; the second rises: 0.75 gives 0.5,
    0.875 gives 0.75 and 1 gives 1; the middle one gives 0 at 0.5 and 0.25
    at 0.375 and 0.625; -1 and 2 are clamped to the ends and give 1; 0.1f
    and 0.9f give the floats next to 0.8.  A NaN is in none of the three
    bands; it takes the third formula and comes out a NaN. *)
Theorem C3_piston_normalized_value :
  (forall version raw node_a node_b guid,
      float_ok raw -> string_ok node_a -> string_ok node_b -> string_ok guid ->
      Parses (Deserializer.deserializePiston version)
             (piston_image raw node_a node_b guid)
             (Piston.mk (if version <? 8
                         then Deserializer.fixPistonNormalizedValue raw else raw)
                        node_a node_b guid)) /\
  (forall version s s' p,
      Deserializer.deserializePiston version s = Done p s' ->
      let raw := le_value (firstn 4 (remaining s)) in
      Piston.normalized_value p =
      if version <? 8 then Deserializer.fixPistonNormalizedValue raw else raw) /\
  (forall v,
      Deserializer.fixPistonNormalizedValue v =
      if F32.ltb v F32.quarter then
        Deserializer.lerp F32.one F32.half
          (Deserializer.clamp01 (F32.div v F32.quarter))
      else if F32.ltb F32.three_quarters v then
        Deserializer.lerp F32.half F32.one
          (Deserializer.clamp01
             (F32.div (F32.sub v F32.three_quarters) F32.quarter))
      else
        Deserializer.lerp F32.zero F32.half
          (Deserializer.clamp01
             (F32.div (F32.abs (F32.sub v F32.half)) F32.quarter))) /\
  (forall v,
      F32.ltb v F32.quarter = true ->
      F32.leb F32.half (Deserializer.fixPistonNormalizedValue v) = true /\
      F32.leb (Deserializer.fixPistonNormalizedValue v) F32.one = true) /\
  (forall v,
      F32.ltb F32.three_quarters v = true ->
      F32.leb F32.half (Deserializer.fixPistonNormalizedValue v) = true /\
      F32.leb (Deserializer.fixPistonNormalizedValue v) F32.one = true) /\
  (forall v,
      F32.leb F32.quarter v = true -> F32.leb v F32.three_quarters = true ->
      F32.leb F32.zero (Deserializer.fixPistonNormalizedValue v) = true /\
      F32.leb (Deserializer.fixPistonNormalizedValue v) F32.half = true) /\
  Deserializer.fixPistonNormalizedValue F32.half = F32.zero /\
  Deserializer.fixPistonNormalizedValue F32.zero = F32.one /\
  Deserializer.fixPistonNormalizedValue F32.quarter = F32.half /\
  Deserializer.fixPistonNormalizedValue F32.three_quarters = F32.half /\
  Deserializer.fixPistonNormalizedValue F32.one = F32.one /\
  Deserializer.fixPistonNormalizedValue 0x3E000000 = F32.three_quarters /\
  Deserializer.fixPistonNormalizedValue 0x3F600000 = F32.three_quarters /\
  Deserializer.fixPistonNormalizedValue 0x3EC00000 = F32.quarter /\
  Deserializer.fixPistonNormalizedValue 0x3F200000 = F32.quarter /\
  Deserializer.fixPistonNormalizedValue 0xBF800000 = F32.one /\
  Deserializer.fixPistonNormalizedValue 0x40000000 = F32.one /\
  Deserializer.fixPistonNormalizedValue 0x3DCCCCCD = 0x3F4CCCCD /\
  Deserializer.fixPistonNormalizedValue 0x3F666666 = 0x3F4CCCCC /\
  F32.of_bits (Deserializer.fixPistonNormalizedValue 0x7FC00000) = S754_nan.
Proof.
  split; [exact parse_deserializePiston|].
  split; [exact deserializePiston_Done|].
  split; [reflexivity|].
  split; [intro v; exact (proj1 (fixPistonNormalizedValue_ranges v))|].
  split; [intro v; exact (proj1 (proj2 (fixPistonNormalizedValue_ranges v)))|].
  split; [intro v; exact (proj2 (proj2 (fixPistonNormalizedValue_ranges v)))|].
  repeat split; vm_compute; reflexivity.
Qed.

Lemma C3_piston_normalized_value_witness :
  (float_ok F32.half /\ string_ok "a" /\ string_ok "b" /\ string_ok "p" /\
   Deserializer.deserializePiston 7
     (fresh (piston_image F32.half "a" "b" "p"))
   = Done (Piston.mk F32.zero "a" "b" "p")
          (mkSt (piston_image F32.half "a" "b" "p")
                (List.length (piston_image F32.half "a" "b" "p")) 1)) /\
  (F32.ltb 0x3DCCCCCD F32.quarter = true /\
   F32.leb F32.half (Deserializer.fixPistonNormalizedValue 0x3DCCCCCD) = true /\
   F32.leb (Deserializer.fixPistonNormalizedValue 0x3DCCCCCD) F32.one = true) /\
  (F32.ltb F32.three_quarters 0x3F666666 = true /\
   F32.leb F32.half (Deserializer.fixPistonNormalizedValue 0x3F666666) = true /\
   F32.leb (Deserializer.fixPistonNormalizedValue 0x3F666666) F32.one = true) /\
  (F32.leb F32.quarter 0x3ECCCCCD = true /\
   F32.leb 0x3ECCCCCD F32.three_quarters = true /\
   F32.leb F32.zero (Deserializer.fixPistonNormalizedValue 0x3ECCCCCD) = true /\
   F32.leb (Deserializer.fixPistonNormalizedValue 0x3ECCCCCD) F32.half = true).
Proof.
  assert (Hf : float_ok F32.half) by (unfold float_ok, F32.half; lia).
  assert (Hs : forall c, string_ok (String c EmptyString))
    by (intro c; unfold string_ok; simpl; lia).
  assert (L1 : F32.ltb 0x3DCCCCCD F32.quarter = true) by reflexivity.
  assert (L2 : F32.ltb F32.three_quarters 0x3F666666 = true) by reflexivity.
  assert (L3 : F32.leb F32.quarter 0x3ECCCCCD = true) by reflexivity.
  assert (L4 : F32.leb 0x3ECCCCCD F32.three_quarters = true) by reflexivity.
  destruct C3_piston_normalized_value as (P & _ & _ & R1 & R2 & R3 & _).
  split; [|split; [|split]].
  - refine (conj Hf (conj (Hs _) (conj (Hs _) (conj (Hs _) _)))).
    apply Parses_fresh.
    exact (P 7 F32.half "a"%string "b"%string "p"%string Hf (Hs _) (Hs _) (Hs _)).
  - exact (conj L1 (R1 _ L1)).
  - exact (conj L2 (R2 _ L2)).
  - exact (conj L3 (conj L4 (R3 _ L3 L4))).
Defined.

(** ** The sanity guard *)

Lemma guard_inside (c : Check) (s : St) :
  inside c = true -> guard c s = Done tt s.
Proof.
  unfold inside, offends, guard, Utils.ensureReasonable, Utils.verdict.
  intro H.
  destruct (chk_value c <? chk_min c), (chk_max c <? chk_value c),
    (chk_value c <? chk_warnMin c), (chk_warnMax c <? chk_value c);
    try discriminate.
  now destruct s.
Qed.

Lemma guard_offends (c : Check) (s : St) :
  offends c = true ->
  guard c s =
  if 3 <=? unusualNumbers s then Exit ExcessiveUnusualNumbers s
  else Done tt (mkSt (data s) (pos s) (unusualNumbers s + 1)).
Proof.
  unfold offends, guard, Utils.ensureReasonable, Utils.verdict.
  intro H.
  destruct (chk_value c <? chk_min c), (chk_max c <? chk_value c);
    try discriminate; destruct (3 <=? unusualNumbers s); reflexivity.
Qed.

Lemma guard_unusual (c : Check) (s : St) :
  unusual c = true ->
  guard c s =
  if 3 <=? unusualNumbers s then Exit ExcessiveUnusualNumbers s else Done tt s.
Proof.
  unfold unusual, inside, offends, guard, Utils.ensureReasonable, Utils.verdict.
  intro H.
  destruct (chk_value c <? chk_min c), (chk_max c <? chk_value c),
    (chk_value c <? chk_warnMin c), (chk_warnMax c <? chk_value c);
    try discriminate; destruct (3 <=? unusualNumbers s); try reflexivity;
    now destruct s.
Qed.

Lemma check_cases (c : Check) :
  inside c = true \/ offends c = true \/ unusual c = true.
Proof.
  unfold unusual, inside. destruct (offends c); simpl; [tauto|].
  destruct (_ || _); simpl; tauto.
Qed.

Lemma count_if_cons {A} (f : A -> bool) (x : A) (xs : list A) :
  count_if f (x :: xs) = (if f x then 1 else 0) + count_if f xs.
Proof.
  unfold count_if; cbn [filter]. destruct (f x); cbn [List.length]; lia.
Qed.

Lemma count_if_nonneg {A} (f : A -> bool) (xs : list A) : 0 <= count_if f xs.
Proof. unfold count_if; lia. Qed.

Lemma guardRun_cons (c : Check) (cs : list Check) (s : St) :
  guardRun (c :: cs) s =
  match guard c s with
  | Done _ s' => guardRun cs s'
  | Exit why s' => Exit why s'
  | Undefined s' => Undefined s'
  end.
Proof. reflexivity. Qed.

Lemma guardRun_three_offenses (cs : list Check) (s : St) :
  unusualNumbers s <= 3 ->
  4 <= unusualNumbers s + count_if offends cs ->
  aborts (guardRun cs) s.
Proof.
  revert s. induction cs as [|c cs IH]; intros s Hle Hcnt.
  - unfold count_if in Hcnt; simpl in Hcnt. lia.
  - rewrite count_if_cons in Hcnt.
    unfold aborts. rewrite guardRun_cons.
    destruct (check_cases c) as [Hi|[Ho|Hu]].
    + rewrite (guard_inside c s Hi).
      assert (offends c = false)
        by (unfold inside in Hi; destruct (offends c); [discriminate|reflexivity]).
      rewrite H in Hcnt. apply IH; lia.
    + rewrite (guard_offends c s Ho). rewrite Ho in Hcnt.
      destruct (Z.leb_spec 3 (unusualNumbers s)).
      * eexists; reflexivity.
      * apply IH; simpl; lia.
    + rewrite (guard_unusual c s Hu).
      assert (offends c = false)
        by (unfold unusual in Hu; destruct (offends c); [discriminate|reflexivity]).
      rewrite H in Hcnt.
      destruct (Z.leb_spec 3 (unusualNumbers s)).
      * eexists; reflexivity.
      * apply IH; lia.
Qed.

Lemma guardRun_no_offense (cs : list Check) (s : St) :
  unusualNumbers s < 3 ->
  Forall (fun c => offends c = false) cs ->
  guardRun cs s = Done tt s.
Proof.
  intros Hc H. induction H as [|c cs Hx _ IH]; [reflexivity|].
  rewrite guardRun_cons.
  destruct (check_cases c) as [Hi|[Ho|Hu]].
  - rewrite (guard_inside c s Hi). exact IH.
  - congruence.
  - rewrite (guard_unusual c s Hu).
    destruct (Z.leb_spec 3 (unusualNumbers s)); [lia|]. exact IH.
Qed.

(** C6, as stated: a run with three values outside the envelope aborts.
    It does not: a value inside [min, max] but outside [warnMin, warnMax]
    is warned about and not counted. *)
Lemma C6_counterexample :
  ~ (forall cs : list Check,
        3 <= count_if (fun c => negb (inside c)) cs ->
        aborts (guardRun cs) (fresh [])).
Proof.
  intro H.
  specialize (H (repeat (mkCheck 60 0 100 0 50) 3)).
  destruct H as [s' H]; [vm_compute; discriminate|].
  vm_compute in H. discriminate.
Qed.

(** C6, amended.  The guard compares a value with [min], [max], [warnMin]
    and [warnMax].  A value outside [min, max] is counted; the counter
    starts at 1 and the guard aborts instead of counting once it has
    reached 3, so a run aborts at the latest on its third such value.  A
    value inside [min, max] but outside [warnMin, warnMax] is never
    counted, and aborts only once the counter has reached 3.  A value
    inside both ranges changes nothing and never aborts. *)
Theorem C6_guard_amended :
  (forall c s, inside c = true -> guard c s = Done tt s) /\
  (forall c s, offends c = true ->
      guard c s =
      if 3 <=? unusualNumbers s then Exit ExcessiveUnusualNumbers s
      else Done tt (mkSt (data s) (pos s) (unusualNumbers s + 1))) /\
  (forall c s, unusual c = true ->
      guard c s =
      if 3 <=? unusualNumbers s then Exit ExcessiveUnusualNumbers s
      else Done tt s) /\
  (forall cs bytes, 3 <= count_if offends cs ->
      aborts (guardRun cs) (fresh bytes)) /\
  (forall cs bytes, Forall (fun c => offends c = false) cs ->
      guardRun cs (fresh bytes) = Done tt (fresh bytes)).
Proof.
  split; [exact guard_inside|].
  split; [exact guard_offends|].
  split; [exact guard_unusual|].
  split.
  - intros cs bytes H.
    apply guardRun_three_offenses; unfold fresh; cbn [unusualNumbers]; lia.
  - intros cs bytes H.
    apply guardRun_no_offense; [unfold fresh; cbn [unusualNumbers]; lia | exact H].
Qed.

Lemma C6_guard_amended_witness :
  inside (mkCheck 26 0 100 0 50) = true /\
  offends (mkCheck 200 0 100 0 50) = true /\
  unusual (mkCheck 60 0 100 0 50) = true /\
  guard (mkCheck 26 0 100 0 50) (fresh []) = Done tt (fresh []) /\
  guard (mkCheck 200 0 100 0 50) (fresh []) = Done tt (mkSt [] 0 2) /\
  guard (mkCheck 60 0 100 0 50) (fresh []) = Done tt (fresh []) /\
  aborts (guardRun (repeat (mkCheck 200 0 100 0 50) 3)) (fresh []) /\
  guardRun (repeat (mkCheck 60 0 100 0 50) 5) (fresh []) = Done tt (fresh []).
Proof.
  split; [reflexivity|]. split; [reflexivity|]. split; [reflexivity|].
  split; [exact (proj1 C6_guard_amended (mkCheck 26 0 100 0 50) (fresh []) eq_refl)|].
  split; [exact (proj1 (proj2 C6_guard_amended) (mkCheck 200 0 100 0 50) (fresh []) eq_refl)|].
  split; [exact (proj1 (proj2 (proj2 C6_guard_amended)) (mkCheck 60 0 100 0 50) (fresh []) eq_refl)|].
  split.
  - apply (proj1 (proj2 (proj2 (proj2 C6_guard_amended)))). vm_compute; discriminate.
  - apply (proj2 (proj2 (proj2 (proj2 C6_guard_amended)))).
    repeat constructor.
Defined.

(** ** Automation for codec proofs *)

Arguments le_bytes : simpl never.
Arguments string_image : simpl never.
Arguments bool_image : simpl never.
Arguments int32_image : simpl never.
Arguments float_image : simpl never.

Lemma parse_bool_image (b : bool) : Parses Deserializer.readBool (bool_image b) b.
Proof. apply parse_readBool. Qed.

Lemma parse_int32_image (v : Z) :
  int32_ok v -> Parses Deserializer.readInt32 (int32_image v) v.
Proof. apply parse_readInt32. Qed.

Lemma parse_float_image (v : Z) :
  float_ok v -> Parses Deserializer.readFloat (float_image v) v.
Proof. apply parse_readFloat. Qed.

Lemma Parses_bind_last {A B} (p : M A) (f : A -> M B) w a b :
  Parses p w a -> Parses (f a) [] b -> Parses (bind p f) w b.
Proof.
  intros Hp Hf. rewrite <- (app_nil_r w).
  eapply Parses_bind; eassumption.
Qed.

Lemma ensureReasonable_quiet (v lo hi wlo whi : Z) :
  lo <= v <= hi -> Parses (Utils.ensureReasonable v lo hi wlo whi) [] tt.
Proof.
  intros H s rest _ Hc.
  unfold Utils.ensureReasonable, Utils.verdict.
  destruct (Z.ltb_spec v lo); [lia|].
  destruct (Z.ltb_spec hi v); [lia|].
  destruct (Z.leb_spec 3 (unusualNumbers s)); [lia|].
  rewrite advance_0.
  destruct (v <? wlo), (whi <? v); now destruct s.
Qed.

Lemma parse_intc (v : Z) : -1000 <= v <= 10000 -> Parses (Utils.intc v) [] tt.
Proof. apply ensureReasonable_quiet. Qed.

Lemma parse_for_count {A} (p : M A) (enc : A -> list byte) (xs : list A) :
  Forall (fun x => Parses p (enc x) x) xs ->
  Parses (for_count (Z.of_nat (List.length xs)) p) (flat_map enc xs) xs.
Proof.
  intro H. unfold for_count. rewrite Nat2Z.id. now apply Parses_times.
Qed.

Section Counted.
Context {A B : Type} (p : M A) (enc : A -> list byte) (xs : list A).
Hypothesis each : Forall (fun x => Parses p (enc x) x) xs.

Lemma Parses_counted_then (f : list A -> M B) w b :
  size_ok xs -> Parses (f xs) w b ->
  Parses (count <- Deserializer.readInt32 ;; ys <- for_count count p ;; f ys)
         (counted enc xs ++ w) b.
Proof.
  intros Hs Hf. unfold counted. rewrite <- app_assoc.
  eapply Parses_bind.
  { apply parse_int32_image. unfold size_ok in Hs. unfold int32_ok. lia. }
  eapply Parses_bind; [apply parse_for_count, each | exact Hf].
Qed.

Lemma Parses_counted_last (f : list A -> M B) b :
  size_ok xs -> Parses (f xs) [] b ->
  Parses (count <- Deserializer.readInt32 ;; ys <- for_count count p ;; f ys)
         (counted enc xs) b.
Proof.
  intros Hs Hf. rewrite <- (app_nil_r (counted enc xs)).
  now apply Parses_counted_then.
Qed.

Lemma Parses_counted_guarded_then (f : list A -> M B) w b :
  count_ok xs -> Parses (f xs) w b ->
  Parses (count <- Deserializer.readInt32 ;; Utils.intc count ;;
          ys <- for_count count p ;; f ys)
         (counted enc xs ++ w) b.
Proof.
  intros Hs Hf. unfold counted. rewrite <- app_assoc.
  unfold count_ok in Hs.
  eapply Parses_bind.
  { apply parse_int32_image. unfold int32_ok. lia. }
  eapply Parses_bind_nil; [apply parse_intc; lia|].
  eapply Parses_bind; [apply parse_for_count, each | exact Hf].
Qed.

Lemma Parses_counted_guarded_last (f : list A -> M B) b :
  count_ok xs -> Parses (f xs) [] b ->
  Parses (count <- Deserializer.readInt32 ;; Utils.intc count ;;
          ys <- for_count count p ;; f ys)
         (counted enc xs) b.
Proof.
  intros Hs Hf. rewrite <- (app_nil_r (counted enc xs)).
  now apply Parses_counted_guarded_then.
Qed.
End Counted.

Lemma Parses_counted {A} (p : M A) (enc : A -> list byte) (xs : list A) :
  Forall (fun x => Parses p (enc x) x) xs -> size_ok xs ->
  Parses (count <- Deserializer.readInt32 ;; for_count count p)
         (counted enc xs) xs.
Proof.
  intros He Hs. unfold counted.
  eapply Parses_bind.
  { apply parse_int32_image. unfold size_ok in Hs. unfold int32_ok. lia. }
  now apply parse_for_count.
Qed.

Lemma Parses_counted_guarded {A} (p : M A) (enc : A -> list byte) (xs : list A) :
  Forall (fun x => Parses p (enc x) x) xs -> count_ok xs ->
  Parses (count <- Deserializer.readInt32 ;; Utils.intc count ;; for_count count p)
         (counted enc xs) xs.
Proof.
  intros He Hs. unfold counted. unfold count_ok in Hs.
  eapply Parses_bind.
  { apply parse_int32_image. unfold int32_ok. lia. }
  eapply Parses_bind_nil; [apply parse_intc; lia|].
  now apply parse_for_count.
Qed.

Lemma parse_for_count_map {A B} (p : M B) (enc : A -> list byte) (dec : A -> B)
    (xs : list A) :
  Forall (fun x => Parses p (enc x) (dec x)) xs ->
  Parses (for_count (Z.of_nat (List.length xs)) p) (flat_map enc xs) (map dec xs).
Proof.
  intro H. unfold for_count. rewrite Nat2Z.id.
  induction H as [|x xs Hx _ IH]; cbn [List.length times flat_map map].
  - apply Parses_ret.
  - eapply Parses_bind; [exact Hx|].
    apply (Parses_bind_ret _ (fun l => dec x :: l)). exact IH.
Qed.

Section CountedMap.
Context {A B C : Type} (p : M B) (enc : A -> list byte) (dec : A -> B)
  (xs : list A).
Hypothesis each : Forall (fun x => Parses p (enc x) (dec x)) xs.

Lemma Parses_mapped_guarded_then (f : list B -> M C) w b :
  count_ok xs -> Parses (f (map dec xs)) w b ->
  Parses (count <- Deserializer.readInt32 ;; Utils.intc count ;;
          ys <- for_count count p ;; f ys)
         (counted enc xs ++ w) b.
Proof.
  intros Hs Hf. unfold counted. rewrite <- app_assoc.
  unfold count_ok in Hs.
  eapply Parses_bind.
  { apply parse_int32_image. unfold int32_ok. lia. }
  eapply Parses_bind_nil; [apply parse_intc; lia|].
  eapply Parses_bind; [apply parse_for_count_map, each | exact Hf].
Qed.

Lemma Parses_mapped_then (f : list B -> M C) w b :
  size_ok xs -> Parses (f (map dec xs)) w b ->
  Parses (count <- Deserializer.readInt32 ;; ys <- for_count count p ;; f ys)
         (counted enc xs ++ w) b.
Proof.
  intros Hs Hf. unfold counted. rewrite <- app_assoc.
  eapply Parses_bind.
  { apply parse_int32_image. unfold size_ok in Hs. unfold int32_ok. lia. }
  eapply Parses_bind; [apply parse_for_count_map, each | exact Hf].
Qed.
End CountedMap.

(** ** Texts passed to [printf] *)

Lemma format_defined_app_upto (n : nat) (a b : string) :
  (String.length a <= n)%nat ->
  Utils.format_defined a = true -> Utils.format_defined b = true ->
  Utils.format_defined (a ++ b) = true.
Proof.
  revert a. induction n as [|n IH]; intros a Hn Ha Hb.
  - destruct a; [exact Hb | cbn in Hn; lia].
  - destruct a as [|c a]; [exact Hb|].
    cbn [append Utils.format_defined] in *.
    destruct (Ascii.eqb c "000"); [reflexivity|].
    destruct (Ascii.eqb c "%").
    + destruct a as [|c' a]; [discriminate Ha|].
      cbn [append]. destruct (Ascii.eqb c' "%"); [|discriminate Ha].
      apply IH; [cbn in Hn; lia | exact Ha | exact Hb].
    + apply IH; [cbn in Hn; lia | exact Ha | exact Hb].
Qed.

Lemma format_defined_app (a b : string) :
  Utils.format_defined a = true -> Utils.format_defined b = true ->
  Utils.format_defined (a ++ b) = true.
Proof. apply (format_defined_app_upto (String.length a)); lia. Qed.

(** A text with a conversion stays one inside a message: what stands
    before it in the messages of the decoders holds neither [%] nor NUL. *)
Ltac formats :=
  unfold format_ok in *; unfold Utils.bright;
  repeat first [ assumption | apply format_defined_app | reflexivity ].

Lemma log_info_d_quiet (message : string) :
  format_ok message -> Parses (Utils.log_info_d message) [] tt.
Proof.
  intro H. unfold Utils.log_info_d, Utils.silent, Utils.printf.
  cbv iota.
  replace (Utils.format_defined _) with true; [apply Parses_ret|].
  symmetry. formats.
Qed.

Lemma log_warn_d_quiet (message : string) :
  format_ok message -> Parses (Utils.log_warn_d message) [] tt.
Proof.
  intro H. unfold Utils.log_warn_d, Utils.silent, Utils.printf.
  cbv iota.
  replace (Utils.format_defined _) with true; [apply Parses_ret|].
  symmetry. formats.
Qed.

Create HintDb parse.
#[export] Hint Resolve parse_bool_image parse_int32_image parse_float_image
  parse_readString parse_readByte Parses_ret : parse.

Ltac side :=
  solve [ assumption | reflexivity
        | unfold size_ok, count_ok, int32_ok, float_ok, string_ok in *; simpl; lia ].

Ltac parse_simpl :=
  cbv beta;
  cbn [Z.leb Z.ltb Z.eqb Z.compare Pos.compare Pos.compare_cont Pos.eqb
       andb negb fst snd].

Ltac parse_step :=
  first
    [ apply Parses_ret
    | eapply Parses_counted_guarded_then; [parse_all | side | parse_simpl]
    | eapply Parses_counted_guarded_last; [parse_all | side | parse_simpl]
    | eapply Parses_counted_guarded; [parse_all | side]
    | eapply Parses_counted_then; [parse_all | side | parse_simpl]
    | eapply Parses_counted_last; [parse_all | side | parse_simpl]
    | eapply Parses_counted; [parse_all | side]
    | eapply Parses_mapped_guarded_then; [parse_all | side | parse_simpl]
    | eapply Parses_mapped_then; [parse_all | side | parse_simpl]
    | eapply Parses_bind_nil;
        [apply ensureReasonable_quiet; side | parse_simpl]
    | eapply Parses_bind_nil;
        [apply log_info_d_quiet; solve [formats] | parse_simpl]
    | eapply Parses_bind; [parse_leaf | parse_simpl]
    | eapply Parses_bind_last; [parse_leaf | parse_simpl]
    | eapply Parses_bind_nil; [apply Parses_ret | parse_simpl] ]
with parse_leaf :=
  solve [ eauto 4 with parse | repeat parse_step ]
with parse_all :=
  first [ apply Forall_nil
        | eapply Forall_impl; [ | eassumption ]; cbv beta; intros; parse_leaf ].

#[export] Hint Extern 1 (int32_ok _) => side : parse.
#[export] Hint Extern 1 (float_ok _) => side : parse.
#[export] Hint Extern 1 (string_ok _) => side : parse.

Ltac open_wf c H :=
  unfold c in H; cbn in H;
  repeat match goal with X : _ /\ _ |- _ => destruct X end.

(** ** Records of the bridge *)

Lemma parse_readVec3 (v : Vec3.t) :
  wf_vec3 v -> Parses Deserializer.readVec3 (vec3_image v) v.
Proof.
  destruct v; intro H; open_wf wf_vec3 H.
  unfold Deserializer.readVec3, vec3_image; cbn. repeat parse_step.
Qed.

Lemma parse_readVec2 (v : Vec2.t) :
  wf_vec2 v -> Parses Deserializer.readVec2 (vec2_image v) v.
Proof.
  destruct v; intro H; open_wf wf_vec2 H.
  unfold Deserializer.readVec2, vec2_image; cbn. repeat parse_step.
Qed.

Lemma parse_readQuaternion (q : Quaternion.t) :
  wf_quaternion q -> Parses Deserializer.readQuaternion (quaternion_image q) q.
Proof.
  destruct q; intro H; open_wf wf_quaternion H.
  unfold Deserializer.readQuaternion, quaternion_image; cbn. repeat parse_step.
Qed.

#[export] Hint Resolve parse_readVec3 parse_readVec2 parse_readQuaternion : parse.

Lemma parse_deserializeJoint (j : BridgeJoint.t) :
  wf_joint j -> Parses Deserializer.deserializeJoint (joint_image j) j.
Proof.
  destruct j; intro H; open_wf wf_joint H.
  unfold Deserializer.deserializeJoint, joint_image; cbn. repeat parse_step.
Qed.

Lemma parse_deserializeAnchor (j : BridgeJoint.t) :
  wf_joint j -> Parses Deserializer.deserializeAnchor (joint_image j) j.
Proof. apply parse_deserializeJoint. Qed.

Lemma parse_deserializeEdge (v : Z) (e : BridgeEdge.t) :
  wf_edge e ->
  Parses (Deserializer.deserializeEdge v) (edge_image v e) (edge_decoded v e).
Proof.
  destruct e; intro H; open_wf wf_edge H.
  unfold Deserializer.deserializeEdge, edge_image, edge_decoded; cbn.
  destruct (11 <=? v); repeat parse_step.
Qed.

Lemma parse_deserializeSpring (sp : BridgeSpring.t) :
  wf_spring sp -> Parses Deserializer.deserializeSpring (spring_image sp) sp.
Proof.
  destruct sp; intro H; open_wf wf_spring H.
  unfold Deserializer.deserializeSpring, spring_image; cbn. repeat parse_step.
Qed.

Lemma parse_piston_record (v : Z) (p : Piston.t) :
  wf_piston p ->
  Parses (Deserializer.deserializePiston v) (piston_record_image p)
         (piston_decoded v p).
Proof.
  destruct p; intro H; open_wf wf_piston H.
  unfold Deserializer.deserializePiston, piston_record_image, piston_decoded; cbn.
  repeat parse_step.
Qed.

Lemma parse_deserializeSplitJoint (j : BridgeSplitJoint.t) :
  wf_split_joint j ->
  Parses Deserializer.deserializeSplitJoint (split_joint_image j) j.
Proof.
  destruct j; intro H; open_wf wf_split_joint H.
  unfold Deserializer.deserializeSplitJoint, split_joint_image; cbn.
  repeat parse_step.
Qed.

#[export] Hint Resolve parse_deserializeJoint parse_deserializeAnchor
  parse_deserializeEdge parse_deserializeSpring parse_piston_record
  parse_deserializeSplitJoint : parse.

Lemma parse_phase_wire (v : Z) (p : PhaseWire) :
  wf_phase_wire p ->
  Parses (Deserializer.deserializeHydraulicControllerPhase v)
         (phase_image v p) (phase_decoded v p).
Proof.
  destruct p; intro H; open_wf wf_phase_wire H.
  unfold Deserializer.deserializeHydraulicControllerPhase, phase_image,
    phase_decoded; cbn.
  destruct (2 <? v), (9 <? v); repeat parse_step.
Qed.

#[export] Hint Resolve parse_phase_wire : parse.

(** ** The bridge decoder follows the schedule *)

Lemma bind_eq {A B} (m : M A) (f : A -> M B) (s s1 : St) (a : A) :
  m s = Done a s1 -> bind m f s = f a s1.
Proof. intro H. unfold bind. now rewrite H. Qed.

Lemma readInt32_at (s : St) (v : Z) (rest : list byte) :
  int32_ok v -> remaining s = int32_image v ++ rest ->
  Deserializer.readInt32 s = Done v (advance 4 s).
Proof.
  intros Hv Hr. unfold Deserializer.readInt32.
  pose proof (read_exact s (int32_image v) rest Hr) as E.
  unfold int32_image in E at 1 3. rewrite length_le_bytes in E.
  rewrite (bind_eq _ _ _ _ _ E). unfold ret, int32_image.
  now rewrite int32_le_bytes.
Qed.

Lemma ensureReasonable_cases (v lo hi wlo whi : Z) (s : St) :
  (exists c, unusualNumbers s <= c /\
             Utils.ensureReasonable v lo hi wlo whi s
             = Done tt (mkSt (data s) (pos s) c)) \/
  (3 <= unusualNumbers s /\
   Utils.ensureReasonable v lo hi wlo whi s = Exit ExcessiveUnusualNumbers s).
Proof.
  unfold Utils.ensureReasonable, Utils.verdict.
  destruct (v <? lo), (hi <? v), (v <? wlo), (whi <? v),
    (Z.leb_spec 3 (unusualNumbers s));
    first [ right; split; [assumption | reflexivity]
          | left; eexists; split; [|reflexivity]; lia ].
Qed.

Lemma ensureReasonable_Done (v lo hi wlo whi : Z) (s s1 : St) :
  Utils.ensureReasonable v lo hi wlo whi s = Done tt s1 ->
  data s1 = data s /\ pos s1 = pos s /\ unusualNumbers s <= unusualNumbers s1.
Proof.
  intro H.
  destruct (ensureReasonable_cases v lo hi wlo whi s) as [(c & Hc & E)|(_ & E)];
    rewrite E in H; [|discriminate].
  inversion H; subst; simpl. auto.
Qed.

Lemma versionGuards_Done (v : Z) (s s1 : St) :
  versionGuards v s = Done tt s1 ->
  data s1 = data s /\ pos s1 = pos s /\ unusualNumbers s <= unusualNumbers s1.
Proof.
  unfold versionGuards, Utils.intc, Utils.intc_in. intro H.
  apply bind_Done in H as ([] & s0 & H0 & H1).
  apply ensureReasonable_Done in H0 as (? & ? & ?).
  apply ensureReasonable_Done in H1 as (? & ? & ?).
  repeat split; try congruence; lia.
Qed.

Lemma versionGuards_fresh (v : Z) (s : St) :
  unusualNumbers s <= 1 ->
  exists c, versionGuards v s = Done tt (mkSt (data s) (pos s) c).
Proof.
  intro Hc.
  unfold versionGuards, Utils.intc, Utils.intc_in, Utils.ensureReasonable,
    Utils.verdict, bind.
  destruct (v <? 0), (100 <? v), (50 <? v);
    destruct (Z.leb_spec 3 (unusualNumbers s)); try lia; cbn;
    destruct (v <? -1000), (10000 <? v), (v <? 0), (4096 <? v);
    try (destruct (Z.leb_spec 3 (unusualNumbers s + 1)); try lia);
    try (destruct (Z.leb_spec 3 (unusualNumbers s)); try lia);
    eexists; reflexivity.
Qed.

Lemma versionGuards_quiet (v : Z) :
  0 <= v <= 100 -> Parses (versionGuards v) [] tt.
Proof.
  intro H. unfold versionGuards.
  eapply Parses_bind_nil; [apply ensureReasonable_quiet; lia|].
  apply parse_intc; lia.
Qed.

Lemma bridge_below_2 (v : Z) (s : St) (rest : list byte) :
  int32_ok v -> v < 2 -> remaining s = int32_image v ++ rest ->
  match Deserializer.deserializeBridge s with
  | Done b s' =>
      b = Bridge.mk v [] [] [] [] [] [] /\
      data s' = data s /\ pos s' = (pos s + 4)%nat
  | Exit why s' =>
      why = ExcessiveUnusualNumbers /\ 2 <= unusualNumbers s /\
      pos s' = (pos s + 4)%nat
  | Undefined _ => False
  end.
Proof.
  intros Hv Hlt Hr. unfold Deserializer.deserializeBridge.
  rewrite (bind_eq _ _ _ _ _ (readInt32_at s v rest Hv Hr)).
  unfold Utils.intc, Utils.intc_in.
  destruct (ensureReasonable_cases v 0 100 0 50 (advance 4 s))
    as [(c & Hc & E)|(Hc & E)].
  - rewrite (bind_eq _ _ _ _ _ E).
    destruct (ensureReasonable_cases v (-1000) 10000 0 4096
                (mkSt (data (advance 4 s)) (pos (advance 4 s)) c))
      as [(c' & Hc' & E')|(Hc' & E')].
    + rewrite (bind_eq _ _ _ _ _ E').
      destruct (Z.ltb_spec v 2); [|lia].
      unfold ret; cbn. auto.
    + unfold bind at 1. rewrite E'. cbn in *.
      repeat split; try reflexivity.
      destruct (Z.leb_spec 2 (unusualNumbers s)); [assumption|exfalso].
      destruct (versionGuards_fresh v (advance 4 s)) as [c2 E2]; [cbn; lia|].
      unfold versionGuards, Utils.intc, Utils.intc_in in E2.
      rewrite (bind_eq _ _ _ _ _ E) in E2. rewrite E' in E2. discriminate.
  - unfold bind at 1. rewrite E. cbn in *. repeat split; try reflexivity; lia.
Qed.

Lemma bridge_from_2 (v : Z) (w : BridgeWire) (s s1 : St) (rest : list byte) :
  int32_ok v -> 2 <= v -> wf_bridge_wire w ->
  remaining s = int32_image v ++ bridge_schedule v w ++ rest ->
  versionGuards v (advance 4 s) = Done tt s1 ->
  unusualNumbers s1 < 3 ->
  Deserializer.deserializeBridge s =
  Done (bridge_decoded v w) (advance (List.length (bridge_schedule v w)) s1).
Proof.
  intros Hv Hge Hw Hr Hg Hc. unfold Deserializer.deserializeBridge.
  rewrite (bind_eq _ _ _ _ _ (readInt32_at s v _ Hv Hr)).
  pose proof (versionGuards_Done _ _ _ Hg) as (Hd & Hp & _).
  unfold versionGuards in Hg.
  apply bind_Done in Hg as ([] & s0 & Hg0 & Hg1).
  rewrite (bind_eq _ _ _ _ _ Hg0), (bind_eq _ _ _ _ _ Hg1).
  destruct (Z.ltb_spec v 2); [lia|].
  assert (Hr1 : remaining s1 = bridge_schedule v w ++ rest).
  { unfold remaining. rewrite Hd, Hp.
    apply (remaining_advance s (int32_image v)) in Hr. exact Hr. }
  match goal with
  | |- ?p s1 = _ =>
      assert (HP : Parses p (bridge_schedule v w) (bridge_decoded v w))
  end.
  { clear - Hw. destruct w. open_wf wf_bridge_wire Hw.
    unfold bridge_schedule, bridge_decoded; cbn.
    destruct (7 <=? v), (v =? 5), (6 <=? v), ((4 <=? v) && (v <? 9));
      repeat parse_step. }
  exact (HP s1 rest Hr1 Hc).
Qed.

Ltac wf_concrete :=
  repeat first [ split | constructor ];
  unfold string_ok, float_ok, int32_ok, count_ok, size_ok; cbn;
  first [ lia | vm_compute; congruence ].

(** C4.  The bridge decoder reads the version and then follows the
    version-gated schedule.  Below version 2 it stops right after the four
    bytes of the version with an empty bridge (or aborts there in the guard,
    which it cannot do at the start of a run).  From version 2 on, a stream
    laid out as joints, edges (with their GUID from version 11), springs
    from version 7, pistons, phases (split joints above version 2, as many
    discarded strings otherwise, and a flag above version 9), a discarded
    string block at version 5, anchors from version 6 and one discarded
    boolean for versions 4 to 8 is decoded to exactly those fields, the
    absent ones empty, and the cursor ends right behind it. *)
Theorem C4_bridge_schedule :
  (forall v s rest,
      int32_ok v -> v < 2 -> remaining s = int32_image v ++ rest ->
      match Deserializer.deserializeBridge s with
      | Done b s' =>
          b = Bridge.mk v [] [] [] [] [] [] /\
          data s' = data s /\ pos s' = (pos s + 4)%nat
      | Exit why s' =>
          why = ExcessiveUnusualNumbers /\ 2 <= unusualNumbers s /\
          pos s' = (pos s + 4)%nat
      | Undefined _ => False
      end) /\
  (forall v w s s1 rest,
      int32_ok v -> 2 <= v -> wf_bridge_wire w ->
      remaining s = int32_image v ++ bridge_schedule v w ++ rest ->
      versionGuards v (advance 4 s) = Done tt s1 ->
      unusualNumbers s1 < 3 ->
      Deserializer.deserializeBridge s =
      Done (bridge_decoded v w)
           (advance (List.length (bridge_schedule v w)) s1)) /\
  (forall v w,
      2 <= v <= 100 -> wf_bridge_wire w ->
      Parses Deserializer.deserializeBridge
             (int32_image v ++ bridge_schedule v w) (bridge_decoded v w)).
Proof.
  split; [exact bridge_below_2|].
  split; [exact bridge_from_2|].
  intros v w Hv Hw s rest Hr Hc.
  rewrite <- app_assoc in Hr.
  assert (Hi : int32_ok v) by (unfold int32_ok; lia).
  assert (Hg : versionGuards v (advance 4 s) = Done tt (advance 4 s)).
  { rewrite (versionGuards_quiet v ltac:(lia) (advance 4 s)
               (bridge_schedule v w ++ rest)).
    - now rewrite advance_0.
    - apply (remaining_advance s (int32_image v)). exact Hr.
    - exact Hc. }
  rewrite (bridge_from_2 v w s _ rest Hi ltac:(lia) Hw Hr Hg Hc).
  rewrite advance_advance, length_app.
  unfold int32_image at 1. now rewrite length_le_bytes.
Qed.

Lemma C4_bridge_schedule_witness :
  (int32_ok 1 /\ 1 < 2 /\
   Deserializer.deserializeBridge (fresh (int32_image 1 ++ [x2a]))
   = Done (Bridge.mk 1 [] [] [] [] [] []) (mkSt (int32_image 1 ++ [x2a]) 4 1)) /\
  (2 <= 5 <= 100 /\ wf_bridge_wire sample_wire /\
   Deserializer.deserializeBridge
     (fresh (int32_image 5 ++ bridge_schedule 5 sample_wire))
   = Done (bridge_decoded 5 sample_wire)
          (mkSt (int32_image 5 ++ bridge_schedule 5 sample_wire)
                (List.length (int32_image 5 ++ bridge_schedule 5 sample_wire)) 1)).
Proof.
  assert (H1 : int32_ok 1) by (unfold int32_ok; lia).
  assert (Hw : wf_bridge_wire sample_wire) by wf_concrete.
  assert (H12 : 1 < 2) by lia.
  assert (H5 : 2 <= 5 <= 100) by lia.
  split.
  - refine (conj H1 (conj H12 _)).
    pose proof (proj1 C4_bridge_schedule 1 (fresh (int32_image 1 ++ [x2a]))
                  [x2a] H1 H12 eq_refl) as H.
    destruct (Deserializer.deserializeBridge (fresh (int32_image 1 ++ [x2a])))
      as [b s'| why s' | s'] eqn:E.
    + destruct H as (-> & Hd & Hp). destruct s' as [d p c].
      cbn in Hd, Hp. subst d p.
      vm_compute in E. inversion E. reflexivity.
    + destruct H as (_ & Hc & _). cbn in Hc. lia.
    + destruct H.
  - refine (conj H5 (conj Hw _)).
    apply Parses_fresh.
    exact (proj2 (proj2 C4_bridge_schedule) 5 sample_wire H5 Hw).
Defined.

(** ** The two bridge decoders *)

(** C2.  On a version 10 payload with one edge and one hydraulics phase
    the decoder of the layout path returns both, and the decoder used on
    the raw payload of a save slot reads the same bytes and returns a
    bridge without edges and without phases: the two decoders do not
    produce equal bridges. *)
Theorem C2_bridge_decoders_disagree :
  exists b1 b2 s1 s2,
    Deserializer.deserializeBridge (fresh sample_payload) = Done b1 s1 /\
    SimpleBridgeDeserializer.deserializeBridge (fresh sample_payload) = Done b2 s2 /\
    s1 = s2 /\
    Bridge.version b1 = Bridge.version b2 /\
    Bridge.joints b1 = Bridge.joints b2 /\
    Bridge.springs b1 = Bridge.springs b2 /\
    Bridge.pistons b1 = Bridge.pistons b2 /\
    Bridge.anchors b1 = Bridge.anchors b2 /\
    Bridge.edges b1 = [BridgeEdge.mk 1 "j1" "j2" 0 1 ""] /\
    Bridge.edges b2 = [] /\
    List.length (Bridge.phases b1) = 1%nat /\
    Bridge.phases b2 = [] /\
    b1 <> b2.
Proof.
  do 4 eexists.
  split; [vm_compute; reflexivity|].
  split; [vm_compute; reflexivity|].
  repeat split; try reflexivity.
  discriminate.
Qed.

(** ** The save-slot format *)

Lemma get_cons (s : St) (b : byte) (rest : list byte) :
  remaining s = b :: rest ->
  get s = Done (Z_of_byte b) (advance 1 s) /\ remaining (advance 1 s) = rest.
Proof.
  intro H. split.
  - unfold get. now rewrite H.
  - apply (remaining_advance s [b] rest H).
Qed.

Lemma get_eof (s : St) : remaining s = [] -> get s = Done (-1) s.
Proof. intro H. unfold get. now rewrite H. Qed.

Lemma slot_readInt_at (s : St) (v : Z) (rest : list byte) :
  int32_ok v -> remaining s = int32_image v ++ rest ->
  SlotDeserializer.readInt s = Done v (advance 4 s).
Proof. apply readInt32_at. Qed.

Lemma slot_readString_eof (s : St) :
  remaining s = [] -> SlotDeserializer.readString s = Done EmptyString s.
Proof.
  intro H. unfold SlotDeserializer.readString.
  now rewrite (bind_eq _ _ _ _ _ (get_eof s H)).
Qed.

Lemma slot_readString_other (s : St) (d : byte) (rest : list byte) :
  remaining s = d :: rest -> d <> x00 -> d <> x01 ->
  SlotDeserializer.readString s = Done EmptyString (advance 1 s).
Proof.
  intros H H0 H1. unfold SlotDeserializer.readString.
  rewrite (bind_eq _ _ _ _ _ (proj1 (get_cons s d rest H))).
  pose proof (Z_of_byte_range d) as Hr.
  destruct (Z.ltb_spec (Z_of_byte d) 0); [lia|].
  destruct (Z.eqb_spec (Z_of_byte d) 0) as [E|_].
  { exfalso. apply H0. rewrite <- (byte_of_Z_of_byte d), E. reflexivity. }
  destruct (Z.eqb_spec (Z_of_byte d) 1) as [E|_].
  { exfalso. apply H1. rewrite <- (byte_of_Z_of_byte d), E. reflexivity. }
  reflexivity.
Qed.

Lemma slot_readString_utf8 (s : St) (bytes rest : list byte) :
  int32_ok (Z.of_nat (List.length bytes)) ->
  remaining s = x00 :: int32_image (Z.of_nat (List.length bytes)) ++ bytes ++ rest ->
  SlotDeserializer.readString s =
  Done (bytes_string bytes) (advance (5 + List.length bytes) s).
Proof.
  intros Hn H. unfold SlotDeserializer.readString.
  destruct (get_cons s x00 _ H) as [Hg Hr].
  rewrite (bind_eq _ _ _ _ _ Hg). cbn [Z_of_byte].
  change (Z_of_byte x00) with 0. cbv iota beta.
  change (0 <? 0) with false. change (0 =? 0) with true. cbv iota.
  rewrite (bind_eq _ _ _ _ _ (slot_readInt_at _ _ _ Hn Hr)).
  destruct (Z.ltb_spec (Z.of_nat (List.length bytes)) 0); [lia|].
  apply (remaining_advance _ (int32_image _)) in Hr.
  unfold int32_image in Hr at 1. rewrite length_le_bytes in Hr.
  rewrite Nat2Z.id.
  rewrite (bind_eq _ _ _ _ _ (read_exact _ bytes rest Hr)).
  unfold ret. rewrite !advance_advance. reflexivity.
Qed.

Lemma slot_readString_utf16 (s : St) (n : nat) (units rest utf8 : list byte) :
  int32_ok (Z.of_nat n) -> List.length units = (2 * n)%nat ->
  utf16_to_utf8 (utf16_units units) = Some utf8 ->
  remaining s = x01 :: int32_image (Z.of_nat n) ++ units ++ rest ->
  SlotDeserializer.readString s =
  Done (bytes_string utf8) (advance (5 + 2 * n) s).
Proof.
  intros Hn Hl Hu H. unfold SlotDeserializer.readString.
  destruct (get_cons s x01 _ H) as [Hg Hr].
  rewrite (bind_eq _ _ _ _ _ Hg).
  change (Z_of_byte x01) with 1.
  change (1 <? 0) with false. change (1 =? 0) with false.
  change (1 =? 1) with true. cbv iota.
  rewrite (bind_eq _ _ _ _ _ (slot_readInt_at _ _ _ Hn Hr)).
  destruct (Z.ltb_spec (Z.of_nat n) 0); [lia|].
  apply (remaining_advance _ (int32_image _)) in Hr.
  unfold int32_image in Hr at 1. rewrite length_le_bytes in Hr.
  replace (Z.to_nat (Z.of_nat n * 2)) with (List.length units) by lia.
  unfold bind, read_padded. rewrite Hr.
  rewrite firstn_app, firstn_all, Nat.sub_diag. cbn [firstn].
  rewrite app_nil_r, Nat.sub_diag. cbn [repeat]. rewrite app_nil_r.
  rewrite Hu. unfold ret. rewrite !advance_advance, Hl. reflexivity.
Qed.

(** C9.  The string reader of the save-slot format reads one
    discriminant byte.  At the end of the stream it returns the empty
    string.  Discriminant 0: a 32-bit byte count and that many bytes, which
    are the string.  Discriminant 1: a 32-bit count of UTF-16 code units and
    twice as many bytes, little-endian units, returned in UTF-8.  Any other
    discriminant: the empty string, with only that byte consumed. *)
Theorem C9_slot_readString :
  (forall s, remaining s = [] ->
      SlotDeserializer.readString s = Done EmptyString s) /\
  (forall s bytes rest,
      int32_ok (Z.of_nat (List.length bytes)) ->
      remaining s =
        x00 :: int32_image (Z.of_nat (List.length bytes)) ++ bytes ++ rest ->
      SlotDeserializer.readString s =
      Done (bytes_string bytes) (advance (5 + List.length bytes) s)) /\
  (forall s n units rest utf8,
      int32_ok (Z.of_nat n) -> List.length units = (2 * n)%nat ->
      utf16_to_utf8 (utf16_units units) = Some utf8 ->
      remaining s = x01 :: int32_image (Z.of_nat n) ++ units ++ rest ->
      SlotDeserializer.readString s =
      Done (bytes_string utf8) (advance (5 + 2 * n) s)) /\
  (forall s d rest,
      remaining s = d :: rest -> d <> x00 -> d <> x01 ->
      SlotDeserializer.readString s = Done EmptyString (advance 1 s)) /\
  utf16_units [x41; x00; xe9; x00; xac; x20; x3d; xd8; x00; xde]
    = [0x41; 0xE9; 0x20AC; 0xD83D; 0xDE00] /\
  utf16_to_utf8 [0x41; 0xE9; 0x20AC; 0xD83D; 0xDE00]
    = Some [x41; xc3; xa9; xe2; x82; xac; xf0; x9f; x98; x80].
Proof.
  split; [exact slot_readString_eof|].
  split; [exact slot_readString_utf8|].
  split; [exact slot_readString_utf16|].
  split; [exact slot_readString_other|].
  split; reflexivity.
Qed.

Lemma C9_slot_readString_witness :
  SlotDeserializer.readString (fresh []) = Done EmptyString (fresh []) /\
  SlotDeserializer.readString
    (fresh (x00 :: int32_image 2 ++ [x68; x69] ++ [x05]))
  = Done "hi"%string (mkSt (x00 :: int32_image 2 ++ [x68; x69] ++ [x05]) 7 1) /\
  SlotDeserializer.readString
    (fresh (x01 :: int32_image 2 ++ [x41; x00; xe9; x00] ++ [x05]))
  = Done (bytes_string [x41; xc3; xa9])
         (mkSt (x01 :: int32_image 2 ++ [x41; x00; xe9; x00] ++ [x05]) 9 1) /\
  SlotDeserializer.readString (fresh [x07; x05])
  = Done EmptyString (mkSt [x07; x05] 1 1).
Proof.
  assert (H2 : int32_ok 2) by (unfold int32_ok; lia).
  split; [exact (proj1 C9_slot_readString (fresh []) eq_refl)|].
  split; [exact (proj1 (proj2 C9_slot_readString)
                   (fresh (x00 :: int32_image 2 ++ [x68; x69] ++ [x05]))
                   [x68; x69] [x05] H2 eq_refl)|].
  split; [exact (proj1 (proj2 (proj2 C9_slot_readString))
                   (fresh (x01 :: int32_image 2 ++ [x41; x00; xe9; x00] ++ [x05]))
                   2%nat [x41; x00; xe9; x00] [x05] [x41; xc3; xa9]
                   H2 eq_refl eq_refl eq_refl)|].
  refine (proj1 (proj2 (proj2 (proj2 C9_slot_readString)))
            (fresh [x07; x05]) x07 [x05] eq_refl _ _); discriminate.
Defined.

Lemma EntryType_eqb_eq (a b : EntryType) : EntryType_eqb a b = true <-> a = b.
Proof. destruct a, b; cbn; split; intro H; try reflexivity; discriminate. Qed.

Lemma slot_first_field (s s1 s2 : St) (et : EntryTypeReturn.t) :
  SlotDeserializer.enterNode s = Done tt s1 ->
  SlotDeserializer.peekEntryType s1 = Done et s2 ->
  EntryTypeReturn.type et <> Integer \/
  EntryTypeReturn.name et <> "m_Version"%string ->
  SlotDeserializer.deserializeSlot s = Exit AssertionFailed s2.
Proof.
  intros He Hp Hbad. unfold SlotDeserializer.deserializeSlot.
  rewrite (bind_eq _ _ _ _ _ He), (bind_eq _ _ _ _ _ Hp).
  destruct (EntryType_eqb (EntryTypeReturn.type et) Integer) eqn:Et.
  - destruct Hbad as [Hbad|Hbad].
    + apply EntryType_eqb_eq in Et. contradiction.
    + destruct (String.eqb_spec (EntryTypeReturn.name et) "m_Version");
        [contradiction|reflexivity].
  - reflexivity.
Qed.

Lemma slot_enterNode_skips (s s1 : St) (et : EntryTypeReturn.t) :
  SlotDeserializer.peekEntryType s = Done et s1 ->
  EntryTypeReturn.type et <> StartOfNode ->
  SlotDeserializer.enterNode s = Done tt s1.
Proof.
  intros Hp Hn. unfold SlotDeserializer.enterNode.
  rewrite (bind_eq _ _ _ _ _ Hp).
  destruct (EntryType_eqb (EntryTypeReturn.type et) StartOfNode) eqn:E.
  - apply EntryType_eqb_eq in E. contradiction.
  - reflexivity.
Qed.

(** C5, as stated: whenever the first tagged entry of the stream carries
    a name other than [m_Version], the decoder fails right behind it.  The
    first entry of every save slot is its root node, which the decoder
    enters without looking at its name: [sample_slot] decodes to the end. *)
Lemma C5_counterexample :
  ~ (forall s et s1,
        SlotDeserializer.peekEntryType s = Done et s1 ->
        EntryTypeReturn.name et <> "m_Version"%string ->
        SlotDeserializer.deserializeSlot s = Exit AssertionFailed s1).
Proof.
  intro H.
  specialize (H (fresh sample_slot)
                (EntryTypeReturn.mk StartOfNode EmptyString)
                (mkSt sample_slot 1 1) eq_refl ltac:(discriminate)).
  vm_compute in H. discriminate.
Qed.

(** C5, amended.  The decoder first enters the root node; a first entry
    that is not a node start is consumed there, whatever its name.  If the
    entry it peeks next is not an integer entry named [m_Version], it fails
    with a schema assertion, and the cursor is where the peek left it,
    right behind that entry's tag and name. *)
Theorem C5_slot_first_field_amended :
  (forall s s1 s2 et,
      SlotDeserializer.enterNode s = Done tt s1 ->
      SlotDeserializer.peekEntryType s1 = Done et s2 ->
      EntryTypeReturn.type et <> Integer \/
      EntryTypeReturn.name et <> "m_Version"%string ->
      SlotDeserializer.deserializeSlot s = Exit AssertionFailed s2) /\
  (forall s s1 et,
      SlotDeserializer.peekEntryType s = Done et s1 ->
      EntryTypeReturn.type et <> StartOfNode ->
      SlotDeserializer.enterNode s = Done tt s1).
Proof. split; [exact slot_first_field | exact slot_enterNode_skips]. Qed.

Lemma C5_slot_first_field_amended_witness :
  SlotDeserializer.enterNode (fresh misnamed_slot)
    = Done tt (mkSt misnamed_slot 50 1) /\
  SlotDeserializer.peekEntryType (mkSt misnamed_slot 50 1)
    = Done (EntryTypeReturn.mk Integer "m_Wrong") (mkSt misnamed_slot 63 1) /\
  SlotDeserializer.deserializeSlot (fresh misnamed_slot)
    = Exit AssertionFailed (mkSt misnamed_slot 63 1) /\
  SlotDeserializer.enterNode (mkSt misnamed_slot 50 1)
    = Done tt (mkSt misnamed_slot 63 1).
Proof.
  assert (He : SlotDeserializer.enterNode (fresh misnamed_slot)
               = Done tt (mkSt misnamed_slot 50 1)) by (vm_compute; reflexivity).
  assert (Hp : SlotDeserializer.peekEntryType (mkSt misnamed_slot 50 1)
               = Done (EntryTypeReturn.mk Integer "m_Wrong")
                      (mkSt misnamed_slot 63 1)) by (vm_compute; reflexivity).
  refine (conj He (conj Hp (conj _ _))).
  - refine (proj1 C5_slot_first_field_amended _ _ _ _ He Hp _).
    right. discriminate.
  - refine (proj2 C5_slot_first_field_amended _ _ _ Hp _). discriminate.
Defined.

(** ** The version field of a layout *)

Lemma getVersion_at (s : St) (v : Z) (rest : list byte) :
  int32_ok v -> remaining s = int32_image v ++ rest ->
  Deserializer.getVersion s =
  Done (if v <? 0 then (int32 (- v), true) else (v, false)) (advance 4 s).
Proof.
  intros Hv Hr. unfold Deserializer.getVersion.
  rewrite (bind_eq _ _ _ _ _ (readInt32_at s v rest Hv Hr)).
  now destruct (v <? 0).
Qed.

Lemma getVersion_Done (s s1 : St) (vm : Z * bool) :
  Deserializer.getVersion s = Done vm s1 ->
  vm = (if raw_version s <? 0 then (int32 (- raw_version s), true)
        else (raw_version s, false)).
Proof.
  unfold Deserializer.getVersion, Deserializer.readInt32, raw_version.
  intro H.
  apply bind_Done in H as (v & s0 & H0 & H).
  apply bind_Done in H0 as (bs & s00 & Hread & H0).
  unfold ret in H0; injection H0 as <- <-.
  apply read_firstn in Hread as [-> ->].
  destruct (int32 (le_value (firstn 4 (remaining s))) <? 0);
    unfold ret in H; now injection H as <- _.
Qed.

Lemma int32_negate (raw : Z) : - 2 ^ 31 < raw < 0 -> int32 (- raw) = - raw.
Proof.
  intro H. unfold int32, signed, wrap.
  rewrite Z.mod_small by lia.
  destruct (Z.ltb_spec (- raw) (2 ^ (32 - 1))); [reflexivity|].
  change (2 ^ (32 - 1)) with (2 ^ 31) in *. lia.
Qed.

Ltac invert_binds H :=
  repeat (cbv zeta in H;
          match type of H with
          | bind _ _ _ = Done _ _ =>
              let a := fresh "a" in
              let st := fresh "st" in
              let E := fresh "E" in
              apply bind_Done in H; destruct H as (a & st & E & H)
          end).

Lemma deserializeLayout_Done (s s' : St) (l : Layout.t) :
  Deserializer.deserializeLayout s = Done l s' ->
  exists vm s0,
    Deserializer.getVersion s = Done vm s0 /\
    Layout.version l = fst vm /\
    Layout.isModded l = snd vm /\
    exists s1,
      (if negb (snd vm) then ret ModData.empty
       else Deserializer.deserializePTFModData) s1
      = Done (Layout.modData l) s'.
Proof.
  unfold Deserializer.deserializeLayout. intro H.
  apply bind_Done in H as (vm & s0 & Hv & H).
  exists vm, s0. split; [exact Hv|].
  invert_binds H.
  unfold ret in H; inversion H; subst; clear H. cbn.
  repeat split.
  match goal with
  | E : (if negb _ then _ else _) ?s1 = Done _ _ |- _ => exists s1; exact E
  end.
Qed.

(** C8, as stated: every negative raw version is stored negated, as a
    positive version.  The raw version [-2^31] has no negation among the
    32-bit integers: the layout below, which holds it in front of empty
    collections and an empty mod list, is decoded to the end with the
    version [-2147483648] and the modded flag set, the guard having counted
    the version twice. *)
Lemma C8_counterexample :
  raw_version (fresh int_min_layout) < 0 /\
  exists l,
    Deserializer.deserializeLayout (fresh int_min_layout)
      = Done l (mkSt int_min_layout (List.length int_min_layout) 3) /\
    Layout.isModded l = true /\
    Layout.version l = -2147483648 /\
    Layout.version l <> - raw_version (fresh int_min_layout) /\
    ~ 0 < Layout.version l.
Proof.
  split; [vm_compute; reflexivity|].
  eexists. split; [vm_compute; reflexivity|].
  cbn [Layout.isModded Layout.version].
  split; [reflexivity|]. split; [reflexivity|].
  split; [vm_compute; discriminate | lia].
Qed.

(** C8, amended.  A layout stream whose raw version field is negative and
    not [-2^31] is decoded with the negated version, which is positive,
    and the modded flag set, and its mod data is what the mod-data decoder
    returns as the last step; a raw version that is not negative is kept,
    the flag stays false and no mod data is decoded.  A raw version of -7
    gives version 7. *)
Theorem C8_layout_version :
  (forall s v rest,
      int32_ok v -> remaining s = int32_image v ++ rest ->
      Deserializer.getVersion s =
      Done (if v <? 0 then (int32 (- v), true) else (v, false)) (advance 4 s)) /\
  (forall s l s',
      Deserializer.deserializeLayout s = Done l s' ->
      - 2 ^ 31 < raw_version s < 0 ->
      Layout.version l = - raw_version s /\
      0 < Layout.version l /\
      Layout.isModded l = true /\
      exists s1,
        Deserializer.deserializePTFModData s1 = Done (Layout.modData l) s') /\
  (forall s l s',
      Deserializer.deserializeLayout s = Done l s' ->
      0 <= raw_version s ->
      Layout.version l = raw_version s /\
      Layout.isModded l = false /\
      Layout.modData l = ModData.empty) /\
  (exists l,
      Deserializer.deserializeLayout (fresh sample_modded_layout)
        = Done l (mkSt sample_modded_layout
                       (List.length sample_modded_layout) 1) /\
      raw_version (fresh sample_modded_layout) = -7 /\
      Layout.version l = 7 /\ Layout.isModded l = true /\
      Layout.modData l = ModData.mk [Mod.mk "Mod" "1.0" "cfg"] []) /\
  (exists l,
      Deserializer.deserializeLayout (fresh sample_plain_layout)
        = Done l (mkSt sample_plain_layout
                       (List.length sample_plain_layout) 1) /\
      raw_version (fresh sample_plain_layout) = 7 /\
      Layout.version l = 7 /\ Layout.isModded l = false /\
      Layout.modData l = ModData.empty).
Proof.
  split; [exact getVersion_at|].
  split; [|split; [|split]].
  - intros s l s' H Hneg.
    apply deserializeLayout_Done in H as (vm & s0 & Hv & Hver & Hmod & s1 & Hd).
    apply getVersion_Done in Hv.
    destruct (Z.ltb_spec (raw_version s) 0); [|lia].
    subst vm; cbn in *. rewrite (int32_negate _ Hneg) in Hver.
    repeat split; try assumption; [lia|]. now exists s1.
  - intros s l s' H Hpos.
    apply deserializeLayout_Done in H as (vm & s0 & Hv & Hver & Hmod & s1 & Hd).
    apply getVersion_Done in Hv.
    destruct (Z.ltb_spec (raw_version s) 0); [lia|].
    subst vm; cbn in *. repeat split; try assumption.
    unfold ret in Hd. now inversion Hd.
  - eexists. split; [vm_compute; reflexivity|]. repeat split.
  - eexists. split; [vm_compute; reflexivity|]. repeat split.
Qed.

Lemma C8_layout_version_witness :
  - 2 ^ 31 < raw_version (fresh sample_modded_layout) < 0 /\
  0 <= raw_version (fresh sample_plain_layout) /\
  (forall l s',
      Deserializer.deserializeLayout (fresh sample_modded_layout) = Done l s' ->
      Layout.version l = - raw_version (fresh sample_modded_layout) /\
      0 < Layout.version l /\
      Layout.isModded l = true /\
      exists s1,
        Deserializer.deserializePTFModData s1 = Done (Layout.modData l) s') /\
  (forall l s',
      Deserializer.deserializeLayout (fresh sample_plain_layout) = Done l s' ->
      Layout.version l = raw_version (fresh sample_plain_layout) /\
      Layout.isModded l = false /\
      Layout.modData l = ModData.empty).
Proof.
  assert (Hn : - 2 ^ 31 < raw_version (fresh sample_modded_layout) < 0)
    by (vm_compute; split; reflexivity).
  assert (Hp : 0 <= raw_version (fresh sample_plain_layout))
    by (vm_compute; discriminate).
  refine (conj Hn (conj Hp (conj _ _))).
  - intros l s' H.
    exact (proj1 (proj2 C8_layout_version) _ l s' H Hn).
  - intros l s' H.
    exact (proj1 (proj2 (proj2 C8_layout_version)) _ l s' H Hp).
Defined.

(** ** The mod-data block *)

Lemma parse_readInt16 (n : Z) :
  - 2 ^ 15 <= n < 2 ^ 15 -> Parses Deserializer.readInt16 (le_bytes 2 n) n.
Proof.
  intro H. unfold Deserializer.readInt16.
  replace n with (int16 (le_value (le_bytes 2 n))) at 2.
  - apply (Parses_bind_ret (read 2) (fun bs => int16 (le_value bs))).
    apply Parses_read, length_le_bytes.
  - rewrite le_value_le_bytes. apply (signed_small 16); [lia | exact H].
Qed.

Lemma parse_byte_run (payload : list byte) :
  Parses (times (List.length payload) (Deserializer.readBytes 1))
         payload (map (fun b => [b]) payload).
Proof.
  induction payload as [|b payload IH]; cbn [List.length times map].
  - apply Parses_ret.
  - change (b :: payload) with ([b] ++ payload) at 1.
    eapply Parses_bind.
    + unfold Deserializer.readBytes. now apply Parses_read.
    + apply (Parses_bind_ret _ (fun l => [b] :: l)). exact IH.
Qed.

Lemma concat_singletons {A} (l : list A) : List.concat (map (fun b => [b]) l) = l.
Proof. induction l as [|x l IH]; cbn; [reflexivity | now rewrite IH]. Qed.

Lemma parse_readByteArray (payload : list byte) :
  0 < Z.of_nat (List.length payload) < 2 ^ 31 ->
  Parses Deserializer.readByteArray
         (int32_image (Z.of_nat (List.length payload)) ++ payload) payload.
Proof.
  intro H. unfold Deserializer.readByteArray.
  eapply Parses_bind.
  { apply parse_int32_image. unfold int32_ok. lia. }
  cbv beta. destruct (Z.ltb_spec 0 (Z.of_nat (List.length payload))); [|lia].
  rewrite <- (concat_singletons payload) at 3.
  apply (Parses_bind_ret _ (@List.concat byte)).
  unfold for_count. rewrite Nat2Z.id. apply parse_byte_run.
Qed.

Lemma parse_mod_string (str : string) :
  wf_mod_string str ->
  Parses Deserializer.deserializeMod
         (string_image str) (Deserializer.modOfString str).
Proof.
  intros (H & Hn & Hv & Hs). unfold Deserializer.deserializeMod.
  eapply Parses_bind_last; [now apply parse_readString|].
  cbv beta zeta.
  eapply Parses_bind_nil; [apply log_info_d_quiet; formats|].
  eapply Parses_bind_nil; [apply log_info_d_quiet; formats|].
  eapply Parses_bind_nil; [apply log_info_d_quiet; formats|].
  apply Parses_ret.
Qed.

Lemma parse_deserializeModSaveData (e : string * list byte) :
  wf_save_entry e ->
  Parses Deserializer.deserializeModSaveData (save_entry_image e) (save_decoded e).
Proof.
  destruct e as [identifier payload]. intros (Hs & Hp & Hf). cbn [fst snd] in *.
  unfold Deserializer.deserializeModSaveData, save_entry_image, save_decoded.
  cbn [fst snd].
  eapply Parses_bind; [apply parse_readString, Hs|].
  cbv beta zeta. fold (save_name identifier). fold (save_version identifier).
  destruct (String.length (save_name identifier) =? 0)%nat.
  - eapply Parses_bind_nil; [apply log_warn_d_quiet; formats|].
    apply Parses_ret.
  - destruct Hf as (Hn & Hv).
    eapply Parses_bind_nil; [apply log_info_d_quiet; formats|].
    eapply Parses_bind_nil; [apply log_info_d_quiet; formats|].
    apply (Parses_bind_ret _
             (fun d => Some (ModSaveData.mk d (save_name identifier)
                                            (save_version identifier)))).
    apply parse_readByteArray. now apply Hp.
Qed.

Lemma probe_spec {A} (at_end otherwise : M A) (s : St) :
  probe at_end otherwise s =
  if (pos s =? List.length (data s))%nat
  then at_end (mkSt (data s) (List.length (data s)) (unusualNumbers s))
  else otherwise (mkSt (data s) (pos s) (unusualNumbers s)).
Proof.
  unfold probe, bind, tellg, seekg_end, seekg. cbn.
  now destruct (pos s =? List.length (data s))%nat.
Qed.

Lemma deserializePTFModData_probe :
  Deserializer.deserializePTFModData =
  (count <- Deserializer.readInt16 ;;
   Utils.intc count ;;
   mods <- for_count count Deserializer.deserializeMod ;;
   probe (ret (ModData.mk mods []))
     (extraSaveDataCount <- Deserializer.readInt32 ;;
      if extraSaveDataCount =? 0 then ret (ModData.mk mods [])
      else
        Utils.intc extraSaveDataCount ;;
        saves <- for_count extraSaveDataCount Deserializer.deserializeModSaveData ;;
        ret (ModData.mk mods (Deserializer.somes saves)))).
Proof. reflexivity. Qed.

Lemma mods_then (raws : list string) (s : St) (rest : list byte)
    (k : list Mod.t -> M ModData.t) :
  Forall wf_mod_string raws -> count_ok raws -> unusualNumbers s < 3 ->
  remaining s = mods_image raws ++ rest ->
  (count <- Deserializer.readInt16 ;;
   Utils.intc count ;;
   mods <- for_count count Deserializer.deserializeMod ;;
   k mods) s
  = k (map Deserializer.modOfString raws)
      (advance (List.length (mods_image raws)) s).
Proof.
  intros Hs Hc Hu Hr.
  assert (HP : Parses
                 (count <- Deserializer.readInt16 ;;
                  Utils.intc count ;;
                  for_count count Deserializer.deserializeMod)
                 (mods_image raws) (map Deserializer.modOfString raws)).
  { unfold mods_image. unfold count_ok in Hc.
    eapply Parses_bind; [apply parse_readInt16; lia|].
    eapply Parses_bind_nil; [apply parse_intc; lia|].
    apply parse_for_count_map.
    eapply Forall_impl; [|exact Hs]. apply parse_mod_string. }
  specialize (HP s rest Hr Hu).
  unfold bind in *.
  destruct (Deserializer.readInt16 s) as [n s1| |]; try discriminate.
  destruct (Utils.intc n s1) as [[] s2| |]; try discriminate.
  now rewrite HP.
Qed.

Lemma at_end_iff (s : St) (w : list byte) :
  remaining s = w -> (pos s <= List.length (data s))%nat ->
  (pos s =? List.length (data s))%nat = match w with [] => true | _ => false end.
Proof.
  unfold remaining. intros H Hle.
  assert (Hl : List.length w = (List.length (data s) - pos s)%nat)
    by (rewrite <- H; apply length_skipn).
  destruct w; cbn in Hl.
  - apply Nat.eqb_eq. lia.
  - apply Nat.eqb_neq. lia.
Qed.

Lemma remaining_nonempty_pos (s : St) (b : byte) (w : list byte) :
  remaining s = b :: w -> (pos s < List.length (data s))%nat.
Proof.
  unfold remaining. intro H.
  assert (Hl : List.length (skipn (pos s) (data s)) = S (List.length w))
    by now rewrite H.
  rewrite length_skipn in Hl. lia.
Qed.

Lemma mods_image_length (raws : list string) :
  (2 <= List.length (mods_image raws))%nat.
Proof. unfold mods_image. rewrite length_app, length_le_bytes. lia. Qed.

Lemma advance_in_range (s : St) (w rest : list byte) :
  remaining s = w ++ rest ->
  (pos s <= List.length (data s))%nat ->
  (pos (advance (List.length w) s) <= List.length (data s))%nat.
Proof.
  unfold remaining, advance. cbn. intros H Hle.
  assert (Hl : List.length (skipn (pos s) (data s))
               = (List.length w + List.length rest)%nat)
    by now rewrite H, length_app.
  rewrite length_skipn in Hl. lia.
Qed.

Lemma state_eta (s : St) : mkSt (data s) (pos s) (unusualNumbers s) = s.
Proof. now destruct s. Qed.

Section ModData.
Variables (raws : list string) (s : St).
Hypothesis raws_ok : Forall wf_mod_string raws.
Hypothesis raws_count : count_ok raws.
Hypothesis counter : unusualNumbers s < 3.
Hypothesis in_file : (pos s <= List.length (data s))%nat.

Lemma modData_at_end :
  remaining s = mods_image raws ->
  Deserializer.deserializePTFModData s =
  Done (ModData.mk (map Deserializer.modOfString raws) [])
       (advance (List.length (mods_image raws)) s).
Proof.
  intro Hr. rewrite deserializePTFModData_probe.
  rewrite <- (app_nil_r (mods_image raws)) in Hr.
  rewrite (mods_then raws s [] _ raws_ok raws_count counter Hr).
  rewrite probe_spec.
  rewrite (at_end_iff _ [] (remaining_advance _ _ _ Hr))
    by (apply (advance_in_range s _ [] Hr in_file)).
  unfold ret. f_equal.
  pose proof (at_end_iff _ [] (remaining_advance _ _ _ Hr)
                (advance_in_range s _ [] Hr in_file)) as E.
  apply Nat.eqb_eq in E. rewrite <- E. apply state_eta.
Qed.

Lemma modData_no_extras (rest : list byte) :
  remaining s = mods_image raws ++ int32_image 0 ++ rest ->
  Deserializer.deserializePTFModData s =
  Done (ModData.mk (map Deserializer.modOfString raws) [])
       (advance (List.length (mods_image raws) + 4) s).
Proof.
  intro Hr. rewrite deserializePTFModData_probe.
  rewrite (mods_then raws s _ _ raws_ok raws_count counter Hr).
  rewrite probe_spec.
  pose proof (remaining_advance _ _ _ Hr) as Hr1.
  rewrite (at_end_iff _ _ Hr1) by (apply (advance_in_range s _ _ Hr in_file)).
  unfold int32_image at 1. cbn [le_bytes app]. cbv iota.
  rewrite state_eta.
  rewrite (bind_eq _ _ _ _ _ (readInt32_at _ 0 rest ltac:(unfold int32_ok; lia) Hr1)).
  cbn. unfold ret. now rewrite advance_advance.
Qed.

Lemma modData_extras (extras : list (string * list byte)) (rest : list byte) :
  Forall wf_save_entry extras -> count_ok extras -> extras <> [] ->
  remaining s =
    mods_image raws ++ counted save_entry_image extras ++ rest ->
  Deserializer.deserializePTFModData s =
  Done (ModData.mk (map Deserializer.modOfString raws)
                   (Deserializer.somes (map save_decoded extras)))
       (advance (List.length (mods_image raws) +
                 List.length (counted save_entry_image extras)) s).
Proof.
  intros He Hc Hne Hr. rewrite deserializePTFModData_probe.
  rewrite (mods_then raws s _ _ raws_ok raws_count counter Hr).
  rewrite probe_spec.
  pose proof (remaining_advance _ _ _ Hr) as Hr1.
  rewrite (at_end_iff _ _ Hr1) by (apply (advance_in_range s _ _ Hr in_file)).
  unfold counted at 1, int32_image at 1. cbn [le_bytes app]. cbv iota.
  rewrite state_eta.
  assert (HP : Parses
                 (extraSaveDataCount <- Deserializer.readInt32 ;;
                  if extraSaveDataCount =? 0
                  then ret (ModData.mk (map Deserializer.modOfString raws) [])
                  else
                    Utils.intc extraSaveDataCount ;;
                    saves <- for_count extraSaveDataCount
                               Deserializer.deserializeModSaveData ;;
                    ret (ModData.mk (map Deserializer.modOfString raws)
                                    (Deserializer.somes saves)))
                 (counted save_entry_image extras)
                 (ModData.mk (map Deserializer.modOfString raws)
                             (Deserializer.somes (map save_decoded extras)))).
  { unfold counted. unfold count_ok in Hc.
    eapply Parses_bind.
    { apply parse_int32_image. unfold int32_ok. lia. }
    cbv beta.
    destruct (Z.eqb_spec (Z.of_nat (List.length extras)) 0) as [E|_].
    { destruct extras; [contradiction | cbn in E; lia]. }
    eapply Parses_bind_nil; [apply parse_intc; lia|].
    apply (Parses_bind_ret _
             (fun saves => ModData.mk (map Deserializer.modOfString raws)
                                      (Deserializer.somes saves))).
    apply parse_for_count_map.
    eapply Forall_impl; [|exact He]. apply parse_deserializeModSaveData. }
  rewrite (HP _ rest Hr1 counter).
  now rewrite advance_advance.
Qed.
End ModData.

Lemma substring_all (str : string) : substring 0 (String.length str) str = str.
Proof. induction str as [|c str IH]; cbn; [reflexivity | now rewrite IH]. Qed.

Lemma splitString_no_delimiter (str delimiter : string) :
  index 0 delimiter str = None ->
  Utils.splitString str delimiter = [str].
Proof.
  intro H. unfold Utils.splitString. rewrite H. cbn.
  now rewrite Nat.sub_0_r, substring_all.
Qed.

(** The mod-data decoder reads a 16-bit count and that many strings,
    each split on the delimiter into name, version and settings with the
    missing parts empty.  It then probes for the end of the stream: it
    notes the cursor, seeks to the end and compares, and if the cursor was
    not at the end it seeks back to exactly where it was.  There it reads
    a 32-bit count; for each entry it reads an identifier, skips the entry
    when the name part is empty, and otherwise reads a 32-bit length and
    that many single bytes as the payload.  This is so for mod strings and
    identifiers whose logged parts [printf] can take as a format. *)
Theorem mod_data_decodes :
  (forall raws s,
      Forall wf_mod_string raws -> count_ok raws -> unusualNumbers s < 3 ->
      (pos s <= List.length (data s))%nat ->
      remaining s = mods_image raws ->
      Deserializer.deserializePTFModData s =
      Done (ModData.mk (map Deserializer.modOfString raws) [])
           (advance (List.length (mods_image raws)) s)) /\
  (forall raws s rest,
      Forall wf_mod_string raws -> count_ok raws -> unusualNumbers s < 3 ->
      (pos s <= List.length (data s))%nat ->
      remaining s = mods_image raws ++ int32_image 0 ++ rest ->
      Deserializer.deserializePTFModData s =
      Done (ModData.mk (map Deserializer.modOfString raws) [])
           (advance (List.length (mods_image raws) + 4) s)) /\
  (forall raws s extras rest,
      Forall wf_mod_string raws -> count_ok raws -> unusualNumbers s < 3 ->
      (pos s <= List.length (data s))%nat ->
      Forall wf_save_entry extras -> count_ok extras -> extras <> [] ->
      remaining s =
        mods_image raws ++ counted save_entry_image extras ++ rest ->
      Deserializer.deserializePTFModData s =
      Done (ModData.mk (map Deserializer.modOfString raws)
                       (Deserializer.somes (map save_decoded extras)))
           (advance (List.length (mods_image raws) +
                     List.length (counted save_entry_image extras)) s)) /\
  (forall (at_end otherwise : M ModData.t) s,
      probe at_end otherwise s =
      if (pos s =? List.length (data s))%nat
      then at_end (mkSt (data s) (List.length (data s)) (unusualNumbers s))
      else otherwise (mkSt (data s) (pos s) (unusualNumbers s))) /\
  (forall str,
      index 0 modDelimiter str = None ->
      Deserializer.modOfString str = Mod.mk str EmptyString EmptyString) /\
  Deserializer.modOfString sample_mod_string = Mod.mk "Mod" "1.0" "cfg" /\
  Deserializer.modOfString ("Mod" ++ modDelimiter ++ "1.0")
    = Mod.mk "Mod" "1.0" EmptyString /\
  Deserializer.modOfString (sample_mod_string ++ modDelimiter ++ "more")
    = Mod.mk "Mod" "1.0" "cfg".
Proof.
  split; [exact modData_at_end|].
  split; [intros; eapply modData_no_extras; eassumption|].
  split; [intros; eapply modData_extras; eassumption|].
  split; [exact probe_spec|].
  split.
  - intros str H. unfold Deserializer.modOfString.
    now rewrite (splitString_no_delimiter _ _ H).
  - repeat split; vm_compute; reflexivity.
Qed.

Lemma wf_sample_mod_string : wf_mod_string sample_mod_string.
Proof.
  split; [unfold string_ok; vm_compute; reflexivity|].
  repeat split; vm_compute; reflexivity.
Qed.

Lemma wf_sample_extras : Forall wf_save_entry sample_extras.
Proof.
  constructor; [|constructor; [|constructor]].
  - split; [unfold string_ok; vm_compute; reflexivity|].
    split; [intros _; vm_compute; split; [reflexivity | reflexivity]|].
    vm_compute. split; reflexivity.
  - split; [unfold string_ok; vm_compute; reflexivity|].
    split; [intro H; vm_compute in H; discriminate H|].
    vm_compute. reflexivity.
Qed.

Lemma mod_data_decodes_witness :
  Forall wf_mod_string [sample_mod_string] /\
  count_ok [sample_mod_string] /\
  unusualNumbers (fresh sample_mod_block) < 3 /\
  (pos (fresh sample_mod_block) <= List.length (data (fresh sample_mod_block)))%nat /\
  Forall wf_save_entry sample_extras /\ count_ok sample_extras /\
  sample_extras <> [] /\
  Deserializer.deserializePTFModData (fresh sample_mod_block) =
  Done (ModData.mk (map Deserializer.modOfString [sample_mod_string])
                   (Deserializer.somes (map save_decoded sample_extras)))
       (advance (List.length (mods_image [sample_mod_string]) +
                 List.length (counted save_entry_image sample_extras))
                (fresh sample_mod_block)) /\
  Deserializer.somes (map save_decoded sample_extras)
    = [ModSaveData.mk [x01; x02; x03] "Mod" "1.0"] /\
  Deserializer.deserializePTFModData (fresh (mods_image [sample_mod_string])) =
  Done (ModData.mk (map Deserializer.modOfString [sample_mod_string]) [])
       (advance (List.length (mods_image [sample_mod_string]))
                (fresh (mods_image [sample_mod_string]))).
Proof.
  assert (H1 : Forall wf_mod_string [sample_mod_string])
    by (constructor; [exact wf_sample_mod_string | constructor]).
  assert (H2 : count_ok [sample_mod_string]) by wf_concrete.
  assert (H3 : unusualNumbers (fresh sample_mod_block) < 3) by (cbn; lia).
  assert (H4 : (pos (fresh sample_mod_block)
                <= List.length (data (fresh sample_mod_block)))%nat) by (cbn; lia).
  assert (H5 : Forall wf_save_entry sample_extras) by exact wf_sample_extras.
  assert (H6 : count_ok sample_extras) by wf_concrete.
  assert (H7 : sample_extras <> []) by discriminate.
  assert (H8 : (pos (fresh (mods_image [sample_mod_string]))
                <= List.length (data (fresh (mods_image [sample_mod_string]))))%nat)
    by (cbn; lia).
  refine (conj H1 (conj H2 (conj H3 (conj H4 (conj H5 (conj H6 (conj H7
            (conj _ (conj eq_refl _))))))))).
  - exact (proj1 (proj2 (proj2 mod_data_decodes)) [sample_mod_string]
             (fresh sample_mod_block) sample_extras [] H1 H2 H3 H4 H5 H6 H7 eq_refl).
  - exact (proj1 mod_data_decodes [sample_mod_string]
             (fresh (mods_image [sample_mod_string])) H1 H2 H3 H8 eq_refl).
Defined.

(** C7.  A mod string is logged by its parts, each inside the format of a
    [printf] that is given no argument.  On the mod list that holds the one
    string [%s] the decoder reads the count and the string and then calls
    [printf] with a format that has a conversion: what the run does from
    there on is not defined, and it returns no mod data.  The same holds
    for the layout of version 7 that the mod framework saved with this
    mod. *)
Theorem C7_mod_string_as_format :
  Deserializer.modOfString "%s" = Mod.mk "%s" EmptyString EmptyString /\
  Utils.format_defined "%s" = false /\
  Deserializer.deserializePTFModData (fresh (mods_image ["%s"%string]))
  = Undefined (mkSt (mods_image ["%s"%string]) 6 1) /\
  Deserializer.deserializeLayout (fresh format_modded_layout)
  = Undefined
      (mkSt format_modded_layout (List.length format_modded_layout) 1).
Proof.
  repeat split; vm_compute; reflexivity.
Qed.


(** ** The layout codec at the current version *)
(** ** Reading the records of the current version *)

Lemma parse_deserializePhase (p : HydraulicPhase.t) :
  wf_hphase p -> Parses Deserializer.deserializePhase (hphase_image p) p.
Proof.
  destruct p; intro H; open_wf wf_hphase H.
  unfold Deserializer.deserializePhase, hphase_image; cbn. repeat parse_step.
Qed.

Lemma parse_piston_current (p : Piston.t) :
  wf_piston p ->
  Parses (Deserializer.deserializePiston MAX_BRIDGE_VERSION)
         (piston_record_image p) p.
Proof.
  intro H. replace p with (piston_decoded MAX_BRIDGE_VERSION p) at 2
    by now destruct p.
  now apply parse_piston_record.
Qed.

Lemma parse_cphase (p : HydraulicsControllerPhase.t) :
  wf_cphase p ->
  Parses (Deserializer.deserializeHydraulicControllerPhase MAX_BRIDGE_VERSION)
         (cphase_image p) p.
Proof.
  destruct p; intro H; open_wf wf_cphase H.
  unfold Deserializer.deserializeHydraulicControllerPhase, cphase_image; cbn.
  repeat parse_step.
Qed.

#[export] Hint Resolve parse_deserializePhase parse_piston_current parse_cphase
  : parse.

Lemma parse_bridge_current (b : Bridge.t) :
  wf_bridge b -> Parses Deserializer.deserializeBridge (bridge_image b) b.
Proof.
  destruct b as [version joints edges springs pistons anchors phases].
  intro H; open_wf wf_bridge H. subst version edges.
  unfold Deserializer.deserializeBridge, bridge_image, MAX_BRIDGE_VERSION; cbn.
  repeat parse_step.
Qed.

Lemma parse_zaxis (v : ZAxisVehicle.t) :
  wf_zaxis v ->
  Parses (Deserializer.deserializeZAxisVehicle MAX_VERSION) (zaxis_image v) v.
Proof.
  destruct v; intro H; open_wf wf_zaxis H.
  unfold Deserializer.deserializeZAxisVehicle, zaxis_image; cbn.
  repeat parse_step.
Qed.

Lemma parse_vehicle (v : Vehicle.t) :
  wf_vehicle v -> Parses Deserializer.deserializeVehicle (vehicle_image v) v.
Proof.
  destruct v; intro H; open_wf wf_vehicle H.
  unfold Deserializer.deserializeVehicle, vehicle_image; cbn.
  repeat parse_step.
Qed.

Lemma parse_stop_trigger (t : VehicleStopTrigger.t) :
  wf_stop_trigger t ->
  Parses Deserializer.deserializeVehicleStopTrigger (stop_trigger_image t) t.
Proof.
  destruct t; intro H; open_wf wf_stop_trigger H.
  unfold Deserializer.deserializeVehicleStopTrigger, stop_trigger_image; cbn.
  repeat parse_step.
Qed.

Lemma parse_unit (u : EventUnit.t) :
  wf_unit u -> Parses (Deserializer.deserializeEventUnit MAX_VERSION) (unit_image u) u.
Proof.
  destruct u; intro H; unfold wf_unit in H; cbn in H.
  unfold Deserializer.deserializeEventUnit, unit_image; cbn.
  repeat parse_step.
Qed.

#[export] Hint Resolve parse_bridge_current parse_zaxis parse_vehicle
  parse_stop_trigger parse_unit : parse.

Lemma parse_stage (st : EventStage.t) :
  wf_stage st ->
  Parses (Deserializer.deserializeEventStage MAX_VERSION) (stage_image st) st.
Proof.
  destruct st; intro H; open_wf wf_stage H.
  unfold Deserializer.deserializeEventStage, stage_image; cbn.
  repeat parse_step.
Qed.

#[export] Hint Resolve parse_stage : parse.

Lemma parse_timeline (t : EventTimeline.t) :
  wf_timeline t ->
  Parses (Deserializer.deserializeEventTimeline MAX_VERSION) (timeline_image t) t.
Proof.
  destruct t; intro H; open_wf wf_timeline H.
  unfold Deserializer.deserializeEventTimeline, timeline_image; cbn.
  repeat parse_step.
Qed.

Lemma parse_checkpoint (c : Checkpoint.t) :
  wf_checkpoint c -> Parses Deserializer.deserializeCheckpoint (checkpoint_image c) c.
Proof.
  destruct c; intro H; open_wf wf_checkpoint H.
  unfold Deserializer.deserializeCheckpoint, checkpoint_image; cbn.
  repeat parse_step.
Qed.

Lemma parse_terrain (t : TerrainIsland.t) :
  wf_terrain t ->
  Parses (Deserializer.deserializeTerrainStretch MAX_VERSION) (terrain_image t) t.
Proof.
  destruct t; intro H; open_wf wf_terrain H.
  unfold Deserializer.deserializeTerrainStretch, terrain_image; cbn.
  repeat parse_step.
Qed.

Lemma parse_platform (p : Platform.t) :
  wf_platform p ->
  Parses (Deserializer.deserializePlatform MAX_VERSION) (platform_image p) p.
Proof.
  destruct p; intro H; open_wf wf_platform H.
  unfold Deserializer.deserializePlatform, platform_image; cbn.
  repeat parse_step.
Qed.

Lemma parse_ramp (r : Ramp.t) :
  wf_ramp r -> Parses (Deserializer.deserializeRamp MAX_VERSION) (ramp_image r) r.
Proof.
  destruct r as [pos cps height segs spline fv fh hide legs lps].
  intro H; open_wf wf_ramp H.
  unfold Deserializer.deserializeRamp, ramp_image; cbn.
  match goal with E : F32.abs height = height |- _ => rewrite <- E at 2 end.
  repeat parse_step.
Qed.

Lemma parse_restart (p : VehicleRestartPhase.t) :
  wf_restart p ->
  Parses Deserializer.deserializeVehicleRestartPhase (restart_image p) p.
Proof.
  destruct p; intro H; open_wf wf_restart H.
  unfold Deserializer.deserializeVehicleRestartPhase, restart_image; cbn.
  repeat parse_step.
Qed.

Lemma parse_flying (o : FlyingObject.t) :
  wf_flying o -> Parses Deserializer.deserializeFlyingObject (flying_image o) o.
Proof.
  destruct o; intro H; open_wf wf_flying H.
  unfold Deserializer.deserializeFlyingObject, flying_image; cbn.
  repeat parse_step.
Qed.

Lemma parse_rock (r : Rock.t) :
  wf_rock r -> Parses Deserializer.deserializeRock (rock_image r) r.
Proof.
  destruct r; intro H; open_wf wf_rock H.
  unfold Deserializer.deserializeRock, rock_image; cbn.
  repeat parse_step.
Qed.

Lemma parse_water (w : WaterBlock.t) :
  wf_water w ->
  Parses (Deserializer.deserializeWaterBlock MAX_VERSION) (water_image w) w.
Proof.
  destruct w; intro H; open_wf wf_water H.
  unfold Deserializer.deserializeWaterBlock, water_image; cbn.
  repeat parse_step.
Qed.

Lemma parse_budget (b : Budget.t) :
  wf_budget b -> Parses Deserializer.deserializeBudget (budget_image b) b.
Proof.
  destruct b; intro H; open_wf wf_budget H.
  unfold Deserializer.deserializeBudget, budget_image, Utils.intc_in; cbn.
  unfold cash_ok in *.
  assert (int32_ok cash) by (unfold int32_ok; lia).
  repeat parse_step.
Qed.

Lemma parse_settings (st : Settings.t) :
  Parses Deserializer.deserializeSettings (settings_image st) st.
Proof.
  destruct st.
  unfold Deserializer.deserializeSettings, settings_image; cbn.
  repeat parse_step.
Qed.

Lemma channel_byte_channel (b : byte) : channel_byte (channel b) = b.
Proof. destruct b; vm_compute; reflexivity. Qed.

Lemma parse_readColor (c : Color.t) :
  wf_color c -> Parses Deserializer.readColor (color_image c) c.
Proof.
  intros (r & g & b & ->).
  unfold Deserializer.readColor, color_image; cbn [Color.r Color.g Color.b].
  rewrite !channel_byte_channel.
  fold (channel r). fold (channel g). fold (channel b).
  eapply Parses_bind; [apply parse_readByte|].
  eapply Parses_bind; [apply parse_readByte|].
  apply (Parses_bind_ret _ (fun x => Color.mk (channel r) (channel g) (channel x) F32.one)).
  apply parse_readByte.
Qed.

Lemma parse_readStaticPin (p : Vec3.t) :
  wf_static_pin p -> Parses Deserializer.readStaticPin (vec3_image p) p.
Proof.
  destruct p as [x y z]. intros (Hx & Hy & Hz). cbn in *. subst z.
  unfold Deserializer.readStaticPin.
  apply (Parses_bind_ret _ (fun pos => Vec3.mk (Vec3.x pos) (Vec3.y pos) F32.pin_z)
           _ (Vec3.mk x y F32.pin_z)).
  apply parse_readVec3. refine (conj Hx (conj Hy _)).
  vm_compute. split; [discriminate | reflexivity].
Qed.

#[export] Hint Resolve parse_timeline parse_checkpoint parse_terrain
  parse_platform parse_ramp parse_restart parse_flying parse_rock parse_water
  parse_budget parse_settings parse_readColor parse_readStaticPin : parse.

Arguments color_image : simpl never.

Lemma parse_shape (cs : CustomShape.t) :
  wf_shape cs ->
  Parses (Deserializer.deserializeCustomShape MAX_VERSION) (shape_image cs) cs.
Proof.
  destruct cs; intro H; open_wf wf_shape H.
  unfold Deserializer.deserializeCustomShape, shape_image, MAX_VERSION; cbn.
  repeat parse_step.
Qed.

Lemma parse_workshop (w : Workshop.t) :
  wf_workshop w ->
  Parses (Deserializer.deserializeWorkshop MAX_VERSION) (workshop_image w) w.
Proof.
  destruct w; intro H; open_wf wf_workshop H.
  unfold Deserializer.deserializeWorkshop, workshop_image, MAX_VERSION; cbn.
  repeat parse_step.
Qed.

Lemma parse_support_pillar (p : SupportPillar.t) :
  wf_support_pillar p ->
  Parses Deserializer.deserializeSupportPillar (support_pillar_image p) p.
Proof.
  destruct p; intro H; open_wf wf_support_pillar H.
  unfold Deserializer.deserializeSupportPillar, support_pillar_image; cbn.
  repeat parse_step.
Qed.

Lemma parse_pillar (p : Pillar.t) :
  wf_pillar p -> Parses Deserializer.deserializePillar (pillar_image p) p.
Proof.
  destruct p; intro H; open_wf wf_pillar H.
  unfold Deserializer.deserializePillar, pillar_image; cbn.
  repeat parse_step.
Qed.

#[export] Hint Resolve parse_shape parse_workshop parse_support_pillar
  parse_pillar : parse.

Lemma parse_getVersion_current :
  Parses Deserializer.getVersion (int32_image MAX_VERSION) (MAX_VERSION, false).
Proof.
  intros s rest Hr _.
  rewrite (getVersion_at s MAX_VERSION rest); [reflexivity | | exact Hr].
  unfold int32_ok, MAX_VERSION; lia.
Qed.

Lemma parse_getStubKey (key : string) :
  string_ok key -> Parses Deserializer.getStubKey (string_image key) key.
Proof. apply parse_readString. Qed.

#[export] Hint Resolve parse_getVersion_current parse_getStubKey : parse.

Arguments budget_image : simpl never.
Arguments settings_image : simpl never.
Arguments workshop_image : simpl never.
Arguments bridge_image : simpl never.


(** ** The encoder *)

Lemma int32_mod (x : Z) : int32 x mod 2 ^ 32 = x mod 2 ^ 32.
Proof.
  unfold int32, signed, wrap. cbv zeta.
  destruct (x mod 2 ^ 32 <? 2 ^ (32 - 1)).
  - apply Z.mod_mod. lia.
  - rewrite <- (Z.mod_add _ 1) by lia.
    replace (x mod 2 ^ 32 - 2 ^ 32 + 1 * 2 ^ 32) with (x mod 2 ^ 32) by lia.
    apply Z.mod_mod. lia.
Qed.

Lemma le_bytes_int32 (x : Z) : le_bytes 4 (int32 x) = le_bytes 4 x.
Proof.
  rewrite <- (le_bytes_mod 4 (int32 x)), <- (le_bytes_mod 4 x).
  f_equal. apply int32_mod.
Qed.

Lemma int32_small (x : Z) : int32_ok x -> int32 x = x.
Proof.
  intro H. rewrite <- (signed_small 32 x) at 2 by (exact H || lia).
  unfold int32, signed, wrap. now rewrite Z.mod_mod by lia.
Qed.

Lemma emit_int32 (v : Z) : Emits (Serializer.writeInt32 v) (int32_image v).
Proof. apply Emits_write. Qed.

Lemma emit_float (v : Z) : Emits (Serializer.writeFloat v) (float_image v).
Proof. apply Emits_write. Qed.

Lemma emit_bool (b : bool) : Emits (Serializer.writeBool b) (bool_image b).
Proof. apply Emits_write. Qed.

Lemma emit_size {A} (xs : list A) :
  Emits (Serializer.writeInt32 (Serializer.size xs))
        (int32_image (Z.of_nat (List.length xs))).
Proof.
  unfold Serializer.size, int32_image. rewrite <- le_bytes_int32.
  apply Emits_write.
Qed.

Lemma emit_guard (v lo hi wlo whi : Z) :
  lo <= v <= hi -> Emits (Utils.ensureReasonable v lo hi wlo whi) [].
Proof.
  intros H s Hc.
  rewrite (ensureReasonable_quiet v lo hi wlo whi H s (remaining s) eq_refl Hc).
  rewrite advance_0, app_nil_r, Nat.add_0_r, state_eta. reflexivity.
Qed.

Lemma emit_intc_size {A} (xs : list A) :
  count_ok xs -> Emits (Utils.intc (Serializer.size xs)) [].
Proof.
  intro H. apply emit_guard. unfold Serializer.size, count_ok in *.
  rewrite int32_small by (unfold int32_ok; lia). lia.
Qed.

Lemma Emits_bind_value {A} (m : M A) (a : A) (k : A -> M unit) (w : list byte) :
  (forall s, m s = Done a s) -> Emits (k a) w -> Emits (bind m k) w.
Proof. intros Hm Hk s Hc. unfold bind. rewrite Hm. now apply Hk. Qed.

Section EmitCounted.
Context {A : Type} (body : A -> M unit) (enc : A -> list byte) (xs : list A).
Hypothesis items : Forall (fun x => Emits (body x) (enc x)) xs.

Lemma Emits_counted_last :
  Emits (Serializer.writeInt32 (Serializer.size xs) ;; forEach xs body)
        (counted enc xs).
Proof.
  unfold counted. apply Emits_bind; [apply emit_size|].
  now apply Emits_forEach.
Qed.

Lemma Emits_counted_then (rest : M unit) (w : list byte) :
  Emits rest w ->
  Emits (Serializer.writeInt32 (Serializer.size xs) ;; forEach xs body ;; rest)
        (counted enc xs ++ w).
Proof.
  intro H. unfold counted. rewrite <- app_assoc.
  apply Emits_bind; [apply emit_size|].
  apply Emits_bind; [now apply Emits_forEach | exact H].
Qed.

Lemma Emits_counted_guarded_last :
  count_ok xs ->
  Emits (Serializer.writeInt32 (Serializer.size xs) ;; forEach xs body ;;
         Utils.intc (Serializer.size xs))
        (counted enc xs).
Proof.
  intro H. rewrite <- (app_nil_r (counted enc xs)).
  apply Emits_counted_then. now apply emit_intc_size.
Qed.

Lemma Emits_counted_guarded_then (rest : M unit) (w : list byte) :
  count_ok xs -> Emits rest w ->
  Emits (Serializer.writeInt32 (Serializer.size xs) ;; forEach xs body ;;
         Utils.intc (Serializer.size xs) ;; rest)
        (counted enc xs ++ w).
Proof.
  intros H Hr. apply Emits_counted_then.
  apply Emits_bind_nil; [now apply emit_intc_size | exact Hr].
Qed.

End EmitCounted.

Lemma emit_vec3 (v : Vec3.t) : Emits (Serializer.writeVector3 v) (vec3_image v).
Proof. repeat apply Emits_bind; apply Emits_write. Qed.

Lemma emit_vec2 (v : Vec2.t) : Emits (Serializer.writeVector2 v) (vec2_image v).
Proof. repeat apply Emits_bind; apply Emits_write. Qed.

Lemma emit_quaternion (q : Quaternion.t) :
  Emits (Serializer.writeQuaternion q) (quaternion_image q).
Proof. repeat apply Emits_bind; apply Emits_write. Qed.

Lemma emit_color (c : Color.t) : Emits (Serializer.writeColor c) (color_image c).
Proof. repeat apply Emits_bind; apply Emits_write. Qed.

Create HintDb emit discriminated.

#[export] Hint Resolve emit_int32 emit_float emit_bool Emits_writeString
  emit_vec3 emit_vec2 emit_quaternion emit_color : emit.

Ltac open_images :=
  unfold joint_image, hphase_image, edge_written_image, spring_image,
    piston_record_image, split_joint_image, cphase_image, zaxis_image,
    stop_trigger_image, unit_image, stage_image, timeline_image,
    checkpoint_image, terrain_image, platform_image, ramp_image,
    restart_image, flying_image, rock_image, water_image, shape_image,
    support_pillar_image, pillar_image.

Ltac emit_step :=
  lazymatch goal with
  | |- Emits (ret tt) _ => apply Emits_ret
  | |- Emits (bind (Serializer.writeInt32 (Serializer.size _))
                (fun _ => bind (forEach _ _)
                            (fun _ => bind (Utils.intc _) _))) _ =>
      eapply Emits_counted_guarded_then; [emit_all | assumption | ]
  | |- Emits (bind (Serializer.writeInt32 (Serializer.size _))
                (fun _ => bind (forEach _ _) (fun _ => Utils.intc _))) _ =>
      eapply Emits_counted_guarded_last; [emit_all | assumption]
  | |- Emits (bind (Serializer.writeInt32 (Serializer.size _))
                (fun _ => bind (forEach _ _) _)) _ =>
      eapply Emits_counted_then; [emit_all | ]
  | |- Emits (bind (Serializer.writeInt32 (Serializer.size _))
                (fun _ => forEach _ _)) _ =>
      eapply Emits_counted_last; emit_all
  | |- Emits (bind _ _) _ => eapply Emits_bind; [emit_leaf | ]
  | |- _ => solve [ eauto 3 with emit ]
  end
with emit_leaf :=
  solve [ eauto 3 with emit | repeat emit_step ]
with emit_all :=
  apply Forall_forall; intros ? _; cbv beta; open_images; emit_leaf.





(** Two slips that the amended statement leaves out.  The encoder writes
    bridge version 11 without the GUID of an edge, which the decoder reads
    from version 11 on: the decoder of a layout with one edge runs past the
    end of the file that the encoder wrote. *)
Lemma edge_guid_not_written :
  encodable sample_edge_layout /\
  Deserializer.deserializeLayout
    (fresh (written (Serializer.serializeLayout sample_edge_layout)))
  = Undefined
      (mkSt (written (Serializer.serializeLayout sample_edge_layout)) 178 1).
Proof.
  split; [|vm_compute; reflexivity].
  unfold encodable; cbn.
  repeat split; try constructor; unfold count_ok, cash_ok; cbn; lia.
Qed.

(** The decoder logs the texts of the workshop entry by passing them to
    [printf] inside the format: for a workshop id [%s], which the encoder
    writes like any other, the call has a conversion and no argument. *)
Lemma workshop_text_as_format :
  encodable sample_format_layout /\
  Deserializer.deserializeLayout
    (fresh (written (Serializer.serializeLayout sample_format_layout)))
  = Undefined
      (mkSt (written (Serializer.serializeLayout sample_format_layout)) 143 1).
Proof.
  split; [|vm_compute; reflexivity].
  unfold encodable; cbn.
  repeat split; try constructor; unfold count_ok, cash_ok; cbn; lia.
Qed.




Ltac wf_evaluated :=
  repeat (hnf;
          match goal with
          | |- _ /\ _ => split
          | |- Forall _ _ => constructor
          | |- ex _ => eexists
          end);
  match goal with
  | |- ?g =>
      tryif has_evar g then reflexivity
      else (vm_compute; first [ reflexivity | discriminate ])
  end.



(** ** A save followed by a load *)

Lemma parse_color_bytes (r g b : byte) :
  Parses Deserializer.readColor [r; g; b]
         (Color.mk (channel r) (channel g) (channel b) F32.one).
Proof.
  unfold Deserializer.readColor.
  change [r; g; b] with ([r] ++ [g] ++ [b]).
  fold (channel r). fold (channel g). fold (channel b).
  eapply Parses_bind; [apply parse_readByte|].
  eapply Parses_bind; [apply parse_readByte|].
  apply (Parses_bind_ret _ (fun x => Color.mk (channel r) (channel g) (channel x) F32.one)).
  apply parse_readByte.
Qed.

Lemma parse_color_stored (c : Color.t) :
  Parses Deserializer.readColor (color_image c) (stored_color c).
Proof. apply parse_color_bytes. Qed.

Lemma parse_pin_stored (p : Vec3.t) :
  wf_vec3 p -> Parses Deserializer.readStaticPin (vec3_image p) (stored_pin p).
Proof.
  intro H. unfold Deserializer.readStaticPin.
  apply (Parses_bind_ret _ (fun pos => Vec3.mk (Vec3.x pos) (Vec3.y pos) F32.pin_z)).
  now apply parse_readVec3.
Qed.

Lemma parse_ramp_stored (r : Ramp.t) :
  typed_ramp r ->
  Parses (Deserializer.deserializeRamp MAX_VERSION) (ramp_image r) (stored_ramp r).
Proof.
  destruct r; intro H; open_wf typed_ramp H.
  unfold Deserializer.deserializeRamp, ramp_image, stored_ramp; cbn.
  repeat parse_step.
Qed.

#[export] Hint Resolve parse_color_stored parse_pin_stored parse_ramp_stored
  : parse.

Lemma parse_shape_stored (cs : CustomShape.t) :
  typed_shape cs ->
  Parses (Deserializer.deserializeCustomShape MAX_VERSION) (shape_image cs)
         (stored_shape cs).
Proof.
  destruct cs; intro H; open_wf typed_shape H.
  unfold Deserializer.deserializeCustomShape, shape_image, stored_shape,
    MAX_VERSION; cbn.
  repeat parse_step.
Qed.

Lemma parse_bridge_stored (b : Bridge.t) :
  typed_bridge b ->
  Parses Deserializer.deserializeBridge (bridge_image b) (stored_bridge b).
Proof.
  destruct b; intro H; open_wf typed_bridge H. subst edges.
  unfold Deserializer.deserializeBridge, bridge_image, stored_bridge,
    MAX_BRIDGE_VERSION; cbn.
  repeat parse_step.
Qed.

#[export] Hint Resolve parse_shape_stored parse_bridge_stored : parse.

Lemma Parses_mapped_guarded {A B} (p : M B) (enc : A -> list byte)
    (dec : A -> B) (xs : list A) :
  Forall (fun x => Parses p (enc x) (dec x)) xs -> count_ok xs ->
  Parses (count <- Deserializer.readInt32 ;; Utils.intc count ;; for_count count p)
         (counted enc xs) (map dec xs).
Proof.
  intros He Hs. unfold counted. unfold count_ok in Hs.
  eapply Parses_bind.
  { apply parse_int32_image. unfold int32_ok. lia. }
  eapply Parses_bind_nil; [apply parse_intc; lia|].
  now apply parse_for_count_map.
Qed.

Ltac parse_mapped :=
  eapply Parses_bind;
  [ eapply Parses_mapped_guarded; [parse_all | side] | parse_simpl ].

Lemma parse_layout_decoded (l : Layout.t) :
  storable l -> Parses Deserializer.deserializeLayout (layout_image l) (decoded l).
Proof.
  destruct l; intro H; open_wf storable H.
  unfold Deserializer.deserializeLayout, layout_image, pre_bridge_image,
    post_bridge_image, decoded.
  cbn [Layout.version Layout.stubKey Layout.anchors Layout.phases Layout.bridge
       Layout.zAxisVehicles Layout.vehicles Layout.vehicleStopTriggers
       Layout.themeObjects_OBSOLETE Layout.eventTimelines Layout.checkpoints
       Layout.platforms Layout.terrainStretches Layout.ramps
       Layout.vehicleRestartPhases Layout.flyingObjects Layout.rocks
       Layout.waterBlocks Layout.budget Layout.settings Layout.customShapes
       Layout.workshop Layout.supportPillars Layout.pillars Layout.isModded
       Layout.modData].
  repeat rewrite <- app_assoc.
  eapply Parses_bind; [apply parse_getVersion_current|].
  cbv zeta. cbn [fst snd negb].
  unfold MAX_VERSION.
  unfold Deserializer.deserializeAnchors, Deserializer.deserializePhases,
    Deserializer.deserializeZAxisVehicles, Deserializer.deserializeVehicles,
    Deserializer.deserializeVehicleStopTriggers,
    Deserializer.deserializeEventTimelines, Deserializer.deserializeCheckpoints,
    Deserializer.deserializeTerrainIslands, Deserializer.deserializePlatforms,
    Deserializer.deserializeRamps, Deserializer.deserializeVehicleRestartPhases,
    Deserializer.deserializeFlyingObjects, Deserializer.deserializeRocks,
    Deserializer.deserializeWaterBlocks, Deserializer.deserializeCustomShapes,
    Deserializer.deserializeSupportPillars, Deserializer.deserializePillars.
  repeat parse_step. parse_mapped.
  repeat parse_step. parse_mapped.
  repeat parse_step.
Qed.

Lemma find_member (vehicles : list Vehicle.t) (v : Vehicle.t) :
  In v vehicles ->
  exists v',
    find (fun x => String.eqb (Vehicle.guid x) (Vehicle.guid v)) vehicles = Some v' /\
    In v' vehicles /\ Vehicle.guid v' = Vehicle.guid v.
Proof.
  intro Hin.
  destruct (find (fun x => String.eqb (Vehicle.guid x) (Vehicle.guid v)) vehicles)
    as [v'|] eqn:E.
  - exists v'. split; [reflexivity|].
    apply find_some in E as [Hin' Heq]. split; [exact Hin'|].
    now apply String.eqb_eq.
  - apply (find_none _ _ E) in Hin. now rewrite String.eqb_refl in Hin.
Qed.

Lemma looked_up_member (vehicles : list Vehicle.t) (v : Vehicle.t) :
  In v vehicles ->
  In (looked_up vehicles v) vehicles /\
  Vehicle.guid (looked_up vehicles v) = Vehicle.guid v /\
  looked_up vehicles (looked_up vehicles v) = looked_up vehicles v.
Proof.
  intro Hin. destruct (find_member vehicles v Hin) as (v' & Hf & Hin' & Hg).
  unfold looked_up at 1 2 4. rewrite Hf. repeat split; try assumption.
  unfold looked_up. rewrite Hg, Hf. reflexivity.
Qed.

Lemma counted_map {A B} (enc : B -> list byte) (f : A -> B) (xs : list A) :
  counted enc (map f xs) = counted (fun x => enc (f x)) xs.
Proof.
  unfold counted. rewrite length_map. f_equal.
  induction xs as [|x xs IH]; [reflexivity|]. cbn. now rewrite IH.
Qed.

Lemma emit_vehicles (l : Layout.t) :
  Forall
    (fun v =>
       Emits
         (Serializer.writeString (Vehicle.display_name v) ;;
          Serializer.writeVector2 (Vehicle.pos v) ;;
          Serializer.writeQuaternion (Vehicle.rot v) ;;
          Serializer.writeString (Vehicle.prefab_name v) ;;
          Serializer.writeFloat (Vehicle.target_speed v) ;;
          Serializer.writeFloat (Vehicle.mass v) ;;
          Serializer.writeFloat (Vehicle.braking_force_multiplier v) ;;
          Serializer.writeInt32 (Vehicle.strength_method v) ;;
          Serializer.writeFloat (Vehicle.acceleration v) ;;
          Serializer.writeFloat (Vehicle.max_slope v) ;;
          Serializer.writeFloat (Vehicle.desired_acceleration v) ;;
          Serializer.writeFloat (Vehicle.shocks_multiplier v) ;;
          Serializer.writeFloat (Vehicle.rotation_degrees v) ;;
          Serializer.writeFloat (Vehicle.time_delay v) ;;
          Serializer.writeBool (Vehicle.idle_on_downhill v) ;;
          Serializer.writeBool (Vehicle.flipped v) ;;
          Serializer.writeBool (Vehicle.ordered_checkpoints v) ;;
          Serializer.writeString (Vehicle.guid v) ;;
          found <- Serializer.findVehicleByGuid l (Vehicle.guid v) ;;
          Serializer.writeInt32 (Serializer.size (Vehicle.checkpoint_guids found)) ;;
          forEach (Vehicle.checkpoint_guids found) Serializer.writeString)
         (vehicle_image (stored_vehicle (Layout.vehicles l) v)))
    (Layout.vehicles l).
Proof.
  apply Forall_forall. intros v Hin.
  destruct (find_member _ _ Hin) as (v' & Hfind & _).
  unfold vehicle_image, stored_vehicle, looked_up. rewrite Hfind.
  cbn [with_checkpoints Vehicle.display_name Vehicle.pos Vehicle.rot
       Vehicle.prefab_name Vehicle.target_speed Vehicle.mass
       Vehicle.braking_force_multiplier Vehicle.strength_method
       Vehicle.acceleration Vehicle.max_slope Vehicle.desired_acceleration
       Vehicle.shocks_multiplier Vehicle.rotation_degrees Vehicle.time_delay
       Vehicle.idle_on_downhill Vehicle.flipped Vehicle.ordered_checkpoints
       Vehicle.guid Vehicle.checkpoint_guids].
  repeat emit_step.
  eapply Emits_bind_value.
  - intro s. unfold Serializer.findVehicleByGuid. rewrite Hfind. reflexivity.
  - emit_leaf.
Qed.

Lemma emit_post_bridge_lookups (l : Layout.t) :
  storable l ->
  Emits (Serializer.serializePostBridgeBinary l)
        (post_bridge_image (with_lookups l)).
Proof.
  intro H; open_wf storable H.
  match goal with X : wf_budget _ |- _ => destruct X as (Hcash & _) end.
  unfold Serializer.serializePostBridgeBinary, post_bridge_image,
    budget_image, settings_image, workshop_image.
  cbn [with_lookups Layout.zAxisVehicles Layout.vehicles
       Layout.vehicleStopTriggers Layout.eventTimelines Layout.checkpoints
       Layout.platforms Layout.terrainStretches Layout.ramps
       Layout.vehicleRestartPhases Layout.flyingObjects Layout.rocks
       Layout.waterBlocks Layout.budget Layout.settings Layout.customShapes
       Layout.workshop Layout.supportPillars Layout.pillars].
  rewrite counted_map.
  repeat rewrite <- app_assoc.
  emit_step.
  eapply Emits_counted_guarded_then; [apply emit_vehicles | assumption | ].
  repeat emit_step.
  apply Emits_bind_nil; [apply emit_guard; exact Hcash|].
  repeat emit_step.
Qed.

Lemma storable_encodable_parts (l : Layout.t) :
  storable l ->
  count_ok (Layout.anchors l) /\ count_ok (Layout.phases l) /\
  count_ok (Bridge.joints (Layout.bridge l)) /\
  count_ok (Bridge.edges (Layout.bridge l)) /\
  count_ok (Bridge.springs (Layout.bridge l)) /\
  count_ok (Bridge.pistons (Layout.bridge l)) /\
  count_ok (Bridge.phases (Layout.bridge l)) /\
  count_ok (Bridge.anchors (Layout.bridge l)).
Proof.
  intro H. unfold storable, typed_bridge in H.
  repeat match goal with X : _ /\ _ |- _ => destruct X end.
  repeat split; try assumption.
  match goal with E : Bridge.edges _ = [] |- _ => rewrite E end.
  unfold count_ok; cbn; lia.
Qed.

Lemma emit_layout_lookups (l : Layout.t) :
  storable l ->
  Emits (Serializer.serializeLayout l) (layout_image (with_lookups l)).
Proof.
  intro H. unfold Serializer.serializeLayout, layout_image.
  pose proof (storable_encodable_parts l H) as (? & ? & ? & ? & ? & ? & ? & ?).
  apply Emits_bind; [|apply Emits_bind].
  - unfold Serializer.serializePreBridgeBinary, pre_bridge_image,
      Serializer.serializeAnchorsBinary, Serializer.serializeHydraulicsPhasesBinary.
    cbn [with_lookups Layout.stubKey Layout.anchors Layout.phases].
    apply Emits_bind; [apply emit_int32|].
    apply Emits_bind_nil; [apply emit_guard; unfold MAX_VERSION; lia|].
    repeat emit_step.
  - unfold Serializer.serializeBridgeBinary, bridge_image. cbv zeta.
    cbn [with_lookups Layout.bridge].
    apply Emits_bind; [apply emit_int32|].
    apply Emits_bind_nil; [apply emit_guard; unfold MAX_BRIDGE_VERSION; lia|].
    repeat emit_step.
  - now apply emit_post_bridge_lookups.
Qed.

Lemma wf_stored_vehicle (vehicles : list Vehicle.t) (v : Vehicle.t) :
  Forall wf_vehicle vehicles -> In v vehicles ->
  wf_vehicle (stored_vehicle vehicles v).
Proof.
  intros Hall Hin.
  destruct (looked_up_member vehicles v Hin) as (Hin' & _ & _).
  pose proof (proj1 (Forall_forall _ _) Hall _ Hin) as Hv.
  pose proof (proj1 (Forall_forall _ _) Hall _ Hin') as Hv'.
  unfold wf_vehicle in *. unfold stored_vehicle. cbn.
  repeat match goal with X : _ /\ _ |- _ => destruct X end.
  repeat match goal with |- _ /\ _ => split end; assumption.
Qed.

Lemma storable_with_lookups (l : Layout.t) :
  storable l -> storable (with_lookups l).
Proof.
  intro H. unfold storable in *. 
  cbn [with_lookups Layout.version Layout.stubKey Layout.anchors Layout.phases
       Layout.bridge Layout.zAxisVehicles Layout.vehicles
       Layout.vehicleStopTriggers Layout.themeObjects_OBSOLETE
       Layout.eventTimelines Layout.checkpoints Layout.platforms
       Layout.terrainStretches Layout.ramps Layout.vehicleRestartPhases
       Layout.flyingObjects Layout.rocks Layout.waterBlocks Layout.budget
       Layout.settings Layout.customShapes Layout.workshop
       Layout.supportPillars Layout.pillars Layout.isModded Layout.modData].
  repeat match goal with X : _ /\ _ |- _ => destruct X end.
  repeat match goal with |- _ /\ _ => split end; try assumption.
  - apply Forall_forall. intros x Hx. apply in_map_iff in Hx as (v & <- & Hin).
    now apply wf_stored_vehicle.
  - unfold count_ok in *. now rewrite length_map.
Qed.

Lemma save_then_load (l : Layout.t) :
  storable l ->
  written (Serializer.serializeLayout l) = layout_image (with_lookups l) /\
  Deserializer.deserializeLayout (fresh (layout_image (with_lookups l)))
  = Done (stored l)
         (mkSt (layout_image (with_lookups l))
               (List.length (layout_image (with_lookups l))) 1).
Proof.
  intro H. split.
  - apply Emits_written. now apply emit_layout_lookups.
  - apply Parses_fresh. apply parse_layout_decoded.
    now apply storable_with_lookups.
Qed.

Lemma abs_abs (a : Z) : F32.abs (F32.abs a) = F32.abs a.
Proof. unfold F32.abs. now rewrite <- Z.land_assoc, Z.land_diag. Qed.

Lemma float_ok_abs (a : Z) : float_ok (F32.abs a).
Proof.
  unfold float_ok, F32.abs.
  change 0x7FFFFFFF with (Z.ones 31). rewrite Z.land_ones by lia.
  pose proof (Z.mod_pos_bound a (2 ^ 31) ltac:(lia)). lia.
Qed.

Lemma stored_ramp_twice (r : Ramp.t) : stored_ramp (stored_ramp r) = stored_ramp r.
Proof. unfold stored_ramp; cbn. now rewrite abs_abs. Qed.

Lemma stored_color_twice (c : Color.t) :
  stored_color (stored_color c) = stored_color c.
Proof. unfold stored_color; cbn. now rewrite !channel_byte_channel. Qed.

Lemma stored_shape_twice (cs : CustomShape.t) :
  stored_shape (stored_shape cs) = stored_shape cs.
Proof.
  unfold stored_shape; cbn [CustomShape.pos CustomShape.rot CustomShape.scale
    CustomShape.flipped CustomShape.dynamic CustomShape.collides_with_road
    CustomShape.collides_with_nodes CustomShape.collides_with_split_nodes
    CustomShape.rotation_degrees CustomShape.color CustomShape.mass
    CustomShape.bounciness CustomShape.pin_motor_strength
    CustomShape.pin_target_velocity CustomShape.points_local_space
    CustomShape.static_pins CustomShape.dynamic_anchor_guids].
  rewrite stored_color_twice, map_map. reflexivity.
Qed.

Lemma map_twice {A} (f : A -> A) (xs : list A) :
  (forall x, f (f x) = f x) -> map f (map f xs) = map f xs.
Proof. intro H. rewrite map_map. apply map_ext. exact H. Qed.

Lemma decoded_twice (l : Layout.t) : decoded (decoded l) = decoded l.
Proof.
  unfold decoded; cbn [Layout.version Layout.stubKey Layout.anchors
    Layout.phases Layout.bridge Layout.zAxisVehicles Layout.vehicles
    Layout.vehicleStopTriggers Layout.themeObjects_OBSOLETE
    Layout.eventTimelines Layout.checkpoints Layout.platforms
    Layout.terrainStretches Layout.ramps Layout.vehicleRestartPhases
    Layout.flyingObjects Layout.rocks Layout.waterBlocks Layout.budget
    Layout.settings Layout.customShapes Layout.workshop
    Layout.supportPillars Layout.pillars Layout.isModded Layout.modData].
  rewrite (map_twice stored_ramp) by apply stored_ramp_twice.
  rewrite (map_twice stored_shape) by apply stored_shape_twice.
  reflexivity.
Qed.

Lemma find_map_stored (vehicles all : list Vehicle.t) (guid : string) :
  find (fun x => String.eqb (Vehicle.guid x) guid)
       (map (stored_vehicle all) vehicles)
  = option_map (stored_vehicle all)
      (find (fun x => String.eqb (Vehicle.guid x) guid) vehicles).
Proof.
  induction vehicles as [|v vs IH]; [reflexivity|].
  cbn [map find]. change (Vehicle.guid (stored_vehicle all v)) with (Vehicle.guid v).
  destruct (String.eqb (Vehicle.guid v) guid); [reflexivity | exact IH].
Qed.

Lemma stored_vehicle_twice (vehicles : list Vehicle.t) (v : Vehicle.t) :
  In v vehicles ->
  stored_vehicle (map (stored_vehicle vehicles) vehicles)
                 (stored_vehicle vehicles v)
  = stored_vehicle vehicles v.
Proof.
  intro Hin.
  destruct (find_member vehicles v Hin) as (v' & Hf & Hin' & Hg).
  unfold stored_vehicle at 1. unfold looked_up at 1.
  change (Vehicle.guid (stored_vehicle vehicles v)) with (Vehicle.guid v).
  rewrite find_map_stored, Hf. cbn [option_map].
  unfold stored_vehicle at 1.
  cbn [with_checkpoints Vehicle.checkpoint_guids].
  assert (Hv' : looked_up vehicles v' = v').
  { unfold looked_up. rewrite Hg, Hf. reflexivity. }
  rewrite Hv'.
  unfold stored_vehicle, looked_up. rewrite Hf. reflexivity.
Qed.

Lemma with_lookups_twice (l : Layout.t) :
  with_lookups (with_lookups l) = with_lookups l.
Proof.
  unfold with_lookups; cbn [Layout.version Layout.stubKey Layout.anchors
    Layout.phases Layout.bridge Layout.zAxisVehicles Layout.vehicles
    Layout.vehicleStopTriggers Layout.themeObjects_OBSOLETE
    Layout.eventTimelines Layout.checkpoints Layout.platforms
    Layout.terrainStretches Layout.ramps Layout.vehicleRestartPhases
    Layout.flyingObjects Layout.rocks Layout.waterBlocks Layout.budget
    Layout.settings Layout.customShapes Layout.workshop
    Layout.supportPillars Layout.pillars Layout.isModded Layout.modData].
  f_equal. rewrite map_map. apply map_ext_in.
  intros v Hin. now apply stored_vehicle_twice.
Qed.

Lemma stored_twice (l : Layout.t) : stored (stored l) = stored l.
Proof.
  unfold stored.
  change (with_lookups (decoded (with_lookups l)))
    with (decoded (with_lookups (with_lookups l))).
  now rewrite decoded_twice, with_lookups_twice.
Qed.

Lemma typed_stored_ramp (r : Ramp.t) : typed_ramp r -> typed_ramp (stored_ramp r).
Proof.
  unfold typed_ramp, stored_ramp; cbn. intro H.
  repeat match goal with X : _ /\ _ |- _ => destruct X end.
  repeat match goal with |- _ /\ _ => split end;
    try assumption. apply float_ok_abs.
Qed.

Lemma wf_stored_pin (p : Vec3.t) : wf_vec3 p -> wf_vec3 (stored_pin p).
Proof.
  unfold wf_vec3, stored_pin; cbn. intros (Hx & Hy & _).
  refine (conj Hx (conj Hy _)). vm_compute. split; [discriminate | reflexivity].
Qed.

Lemma typed_stored_shape (cs : CustomShape.t) :
  typed_shape cs -> typed_shape (stored_shape cs).
Proof.
  unfold typed_shape, stored_shape; cbn. intro H.
  repeat match goal with X : _ /\ _ |- _ => destruct X end.
  repeat match goal with |- _ /\ _ => split end; try assumption.
  - apply Forall_forall. intros x Hx. apply in_map_iff in Hx as (p & <- & Hin).
    apply wf_stored_pin.
    match goal with X : Forall wf_vec3 _ |- _ =>
      exact (proj1 (Forall_forall _ _) X _ Hin) end.
  - unfold size_ok in *. now rewrite length_map.
Qed.

Lemma Forall_map_same {A} (P : A -> Prop) (f : A -> A) (xs : list A) :
  (forall x, P x -> P (f x)) -> Forall P xs -> Forall P (map f xs).
Proof.
  intros Hf H. induction H; cbn; constructor; auto.
Qed.

Lemma storable_decoded (l : Layout.t) : storable l -> storable (decoded l).
Proof.
  intro H. unfold storable in *.
  cbn [decoded stored_bridge Layout.version Layout.stubKey Layout.anchors
       Layout.phases Layout.bridge Layout.zAxisVehicles Layout.vehicles
       Layout.vehicleStopTriggers Layout.themeObjects_OBSOLETE
       Layout.eventTimelines Layout.checkpoints Layout.platforms
       Layout.terrainStretches Layout.ramps Layout.vehicleRestartPhases
       Layout.flyingObjects Layout.rocks Layout.waterBlocks Layout.budget
       Layout.settings Layout.customShapes Layout.workshop
       Layout.supportPillars Layout.pillars Layout.isModded Layout.modData].
  repeat match goal with X : _ /\ _ |- _ => destruct X end.
  repeat match goal with |- _ /\ _ => split end; try assumption.
  - apply Forall_map_same; [apply typed_stored_ramp | assumption].
  - unfold count_ok in *. now rewrite length_map.
  - apply Forall_map_same; [apply typed_stored_shape | assumption].
  - unfold count_ok in *. now rewrite length_map.
Qed.

Lemma storable_stored (l : Layout.t) : storable l -> storable (stored l).
Proof.
  intro H. apply storable_decoded. now apply storable_with_lookups.
Qed.

(** ** [findVehicleByGuid] and the outcomes of the encoder *)




Lemma Steady_ret {A} (a : A) : Steady (ret a).
Proof. intro s. cbn. split; [exists []; now rewrite app_nil_r | lia]. Qed.

Lemma Steady_bind {A B} (m : M A) (k : A -> M B) :
  Steady m -> (forall a, Steady (k a)) -> Steady (bind m k).
Proof.
  intros Hm Hk s. unfold bind. specialize (Hm s).
  destruct (m s) as [a s1 | why s1 | s1]; [ | exact Hm | exact Hm].
  destruct Hm as ((w1 & Hd1) & Hc1). specialize (Hk a s1).
  destruct (k a s1) as [b s2 | why s2 | s2]; [ | exact Hk | exact Hk].
  destruct Hk as ((w2 & Hd2) & Hc2). split; [|lia].
  exists (w1 ++ w2). now rewrite Hd2, Hd1, app_assoc.
Qed.

Lemma Steady_write (bs : list byte) : Steady (write bs).
Proof. intro s. cbn. split; [now exists bs | lia]. Qed.

Lemma Steady_guard (v lo hi wlo whi : Z) :
  Steady (Utils.ensureReasonable v lo hi wlo whi).
Proof.
  intro s. unfold Utils.ensureReasonable, Utils.verdict.
  destruct (v <? lo); [|destruct (hi <? v); [|destruct (v <? wlo);
    [|destruct (whi <? v)]]];
    try destruct (3 <=? unusualNumbers s); cbn;
    try reflexivity; (split; [exists []; now rewrite app_nil_r | lia]).
Qed.

Lemma Steady_forEach {A} (xs : list A) (body : A -> M unit) :
  (forall x, In x xs -> Steady (body x)) -> Steady (forEach xs body).
Proof.
  induction xs as [|x xs IH]; intro H; cbn [forEach].
  - apply Steady_ret.
  - apply Steady_bind; [apply H; now left|].
    intros _. apply IH. intros y Hy. apply H. now right.
Qed.

Lemma Steady_find (l : Layout.t) (v : Vehicle.t) :
  In v (Layout.vehicles l) ->
  Steady (Serializer.findVehicleByGuid l (Vehicle.guid v)).
Proof.
  intros Hin s. unfold Serializer.findVehicleByGuid.
  destruct (find_member _ _ Hin) as (v' & -> & _).
  apply Steady_ret.
Qed.

Ltac steady_step :=
  lazymatch goal with
  | |- Steady (bind _ _) => apply Steady_bind; [ | intros ? ]
  | |- Steady (write _) => apply Steady_write
  | |- Steady (forEach _ _) => apply Steady_forEach; intros ? ?
  | |- Steady (Utils.ensureReasonable _ _ _ _ _) => apply Steady_guard
  | |- Steady (Serializer.findVehicleByGuid _ _) =>
      apply Steady_find; assumption
  | |- Steady (ret _) => apply Steady_ret
  end.

Ltac steady := repeat steady_step.

Lemma Steady_serializeLayout (l : Layout.t) : Steady (Serializer.serializeLayout l).
Proof.
  unfold Serializer.serializeLayout, Serializer.serializePreBridgeBinary,
    Serializer.serializeBridgeBinary, Serializer.serializePostBridgeBinary,
    Serializer.serializeAnchorsBinary, Serializer.serializeHydraulicsPhasesBinary,
    Serializer.writeColor, Serializer.writeQuaternion, Serializer.writeVector3,
    Serializer.writeVector2, Serializer.writeString, Serializer.writeUInt16,
    Serializer.writeByte, Serializer.writeBool, Serializer.writeFloat,
    Serializer.writeInt32, Utils.intc, Utils.intc_in.
  cbv zeta.
  steady.
Qed.



(** X2.  Whatever the layout and the state of the output, the encoder
    either finishes, having only appended bytes to the file and not
    lowered the counter of unusual numbers, or is stopped by the guard.
    It never stops for a missing vehicle: every GUID it looks up is the
    GUID of a vehicle of the layout. *)
Theorem serializeLayout_outcomes (l : Layout.t) (s : St) :
  match Serializer.serializeLayout l s with
  | Done _ s' =>
      (exists w, data s' = data s ++ w) /\
      unusualNumbers s <= unusualNumbers s'
  | Exit why _ => why = ExcessiveUnusualNumbers
  | Undefined _ => False
  end.
Proof. exact (Steady_serializeLayout l s). Qed.

(** X3.  A save followed by a load returns the layout as the encoder
    stores it and the decoder reads it back: the layout version 26 and the
    bridge version 11 whatever they were, the modded flag cleared, the mod
    data and the obsolete theme objects dropped, every ramp height replaced
    by its absolute value, every colour channel replaced by byte/255 of the
    byte it was written as and the alpha by 1, every static pin moved to
    the fixed depth, and every vehicle given the checkpoints of the first
    vehicle with its GUID.  This holds for every layout with values in the
    range of their types, counts and cash inside the guard's bounds, a
    bridge without edges and workshop texts in which every [%] is doubled
    (the decoder passes them to [printf] inside the format); the cursor
    ends at the end of the file and the guard counts nothing. *)
Theorem save_then_load_stored (l : Layout.t) :
  storable l ->
  Deserializer.deserializeLayout (fresh (written (Serializer.serializeLayout l)))
  = Done (stored l)
         (mkSt (written (Serializer.serializeLayout l))
               (List.length (written (Serializer.serializeLayout l))) 1).
Proof.
  intro H. destruct (save_then_load l H) as (-> & Hload). exact Hload.
Qed.

Lemma save_then_load_stored_witness :
  storable sample_raw_layout /\
  Deserializer.deserializeLayout
    (fresh (written (Serializer.serializeLayout sample_raw_layout)))
  = Done (stored sample_raw_layout)
         (mkSt (written (Serializer.serializeLayout sample_raw_layout))
               (List.length (written (Serializer.serializeLayout sample_raw_layout)))
               1).
Proof.
  assert (H : storable sample_raw_layout) by wf_evaluated.
  exact (conj H (save_then_load_stored sample_raw_layout H)).
Defined.

(** X4.  Saving and loading is idempotent on the layouts of X3 (values
    in the range of their types, counts and cash inside the guard's bounds,
    no bridge edges, workshop texts in which every [%] is doubled): what a
    save followed by a load returns is again such a layout, storing it
    changes nothing more, and a second save followed by a load returns it
    unchanged. *)
Theorem save_then_load_idempotent (l : Layout.t) :
  storable l ->
  storable (stored l) /\
  stored (stored l) = stored l /\
  Deserializer.deserializeLayout
    (fresh (written (Serializer.serializeLayout (stored l))))
  = Done (stored l)
         (mkSt (written (Serializer.serializeLayout (stored l)))
               (List.length (written (Serializer.serializeLayout (stored l)))) 1).
Proof.
  intro H. pose proof (storable_stored l H) as Hs.
  split; [exact Hs|]. split; [apply stored_twice|].
  destruct (save_then_load (stored l) Hs) as (-> & Hload).
  rewrite Hload. now rewrite stored_twice.
Qed.

Lemma save_then_load_idempotent_witness :
  storable sample_raw_layout /\
  Deserializer.deserializeLayout
    (fresh (written (Serializer.serializeLayout (stored sample_raw_layout))))
  = Done (stored sample_raw_layout)
         (mkSt (written (Serializer.serializeLayout (stored sample_raw_layout)))
               (List.length
                  (written (Serializer.serializeLayout (stored sample_raw_layout))))
               1).
Proof.
  assert (H : storable sample_raw_layout) by wf_evaluated.
  exact (conj H (proj2 (proj2 (save_then_load_idempotent sample_raw_layout H)))).
Defined.

(** ** The bridge decoder of the save slots *)

Lemma simple_readBool (b : bool) :
  Parses SimpleBridgeDeserializer.readBool (bool_image b) b.
Proof.
  unfold SimpleBridgeDeserializer.readBool.
  replace b with (negb (Z_of_byte (bool_byte b) =? 0)) at 2 by now destruct b.
  apply (Parses_bind_ret _ (fun x => negb (Z_of_byte x =? 0))).
  apply parse_readByte.
Qed.

#[export] Hint Resolve simple_readBool : parse.

Ltac simple_primitives :=
  change SimpleBridgeDeserializer.readInt32 with Deserializer.readInt32;
  change SimpleBridgeDeserializer.readFloat with Deserializer.readFloat;
  change SimpleBridgeDeserializer.readString with Deserializer.readString;
  change SimpleBridgeDeserializer.readVector3 with Deserializer.readVec3.

(** The readers of the slot-side decoder are those of the layout decoder,
    except [readBool]; the record lemmas below are stated on the latter. *)
Lemma simple_primitives_same :
  SimpleBridgeDeserializer.readInt32 = Deserializer.readInt32 /\
  SimpleBridgeDeserializer.readFloat = Deserializer.readFloat /\
  SimpleBridgeDeserializer.readString = Deserializer.readString /\
  SimpleBridgeDeserializer.readVector3 = Deserializer.readVec3.
Proof. repeat split; reflexivity. Qed.

Lemma simple_joint (j : BridgeJoint.t) :
  wf_joint j ->
  Parses (pos <- Deserializer.readVec3 ;;
          is_anchor <- SimpleBridgeDeserializer.readBool ;;
          is_split <- SimpleBridgeDeserializer.readBool ;;
          guid <- Deserializer.readString ;;
          ret (BridgeJoint.mk pos is_anchor is_split guid))
         (joint_image j) j.
Proof.
  destruct j; intro H; open_wf wf_joint H.
  unfold joint_image; cbn. repeat parse_step.
Qed.

Lemma simple_edge (v : Z) (e : BridgeEdge.t) :
  v <= 10 -> wf_edge e ->
  Parses (material_type <- Deserializer.readInt32 ;;
          node_a_guid <- Deserializer.readString ;;
          node_b_guid <- Deserializer.readString ;;
          joint_a_part <- Deserializer.readInt32 ;;
          joint_b_part <- Deserializer.readInt32 ;;
          ret tt)
         (edge_image v e) (dropped e).
Proof.
  intro Hv. destruct e; intro H; open_wf wf_edge H.
  unfold edge_image; cbn.
  destruct (Z.leb_spec 11 v); [lia|]. repeat parse_step.
Qed.

Lemma simple_spring (sp : BridgeSpring.t) :
  wf_spring sp ->
  Parses (normalized_value <- Deserializer.readFloat ;;
          node_a_guid <- Deserializer.readString ;;
          node_b_guid <- Deserializer.readString ;;
          guid <- Deserializer.readString ;;
          ret (BridgeSpring.mk normalized_value node_a_guid node_b_guid guid))
         (spring_image sp) sp.
Proof.
  destruct sp; intro H; open_wf wf_spring H.
  unfold spring_image; cbn. repeat parse_step.
Qed.

Lemma simple_piston (v : Z) (p : Piston.t) :
  wf_piston p ->
  Parses (normalized_value <- Deserializer.readFloat ;;
          node_a_guid <- Deserializer.readString ;;
          node_b_guid <- Deserializer.readString ;;
          guid <- Deserializer.readString ;;
          ret (Piston.mk
                 (if v <? 8
                  then Deserializer.fixPistonNormalizedValue normalized_value
                  else normalized_value)
                 node_a_guid node_b_guid guid))
         (piston_record_image p) (piston_decoded v p).
Proof.
  destruct p; intro H; open_wf wf_piston H.
  unfold piston_record_image, piston_decoded; cbn.
  repeat parse_step.
Qed.

Lemma simple_split_joint (j : BridgeSplitJoint.t) :
  wf_split_joint j ->
  Parses (guid <- Deserializer.readString ;;
          state <- Deserializer.readInt32 ;;
          ret tt)
         (split_joint_image j) (dropped j).
Proof.
  destruct j; intro H; open_wf wf_split_joint H.
  unfold split_joint_image; cbn. repeat parse_step.
Qed.

#[export] Hint Resolve simple_joint simple_edge simple_spring simple_piston
  simple_split_joint : parse.

Lemma Parses_mapped_last {A B C} (p : M B) (enc : A -> list byte)
    (dec : A -> B) (xs : list A) (f : list B -> M C) (b : C) :
  Forall (fun x => Parses p (enc x) (dec x)) xs ->
  size_ok xs -> Parses (f (map dec xs)) [] b ->
  Parses (count <- Deserializer.readInt32 ;; ys <- for_count count p ;; f ys)
         (counted enc xs) b.
Proof.
  intros He Hs Hf. rewrite <- (app_nil_r (counted enc xs)).
  now apply (Parses_mapped_then p enc dec xs He).
Qed.

Ltac parse_dropped :=
  eapply Parses_bind;
  [ eapply Parses_mapped_last; [parse_all | side | apply Parses_ret]
  | parse_simpl ].

Lemma simple_phase (v : Z) (p : PhaseWire) :
  wf_phase_wire p ->
  Parses (hydraulics_phase_guid <- Deserializer.readString ;;
          num_pistons <- Deserializer.readInt32 ;;
          for_count num_pistons Deserializer.readString ;;
          (if 2 <? v then
             split_joint_count <- Deserializer.readInt32 ;;
             for_count split_joint_count
               (guid <- Deserializer.readString ;;
                state <- Deserializer.readInt32 ;;
                ret tt) ;;
             ret tt
           else
             count <- Deserializer.readInt32 ;;
             for_count count Deserializer.readString ;;
             ret tt) ;;
          (if 9 <? v then SimpleBridgeDeserializer.readBool ;; ret tt else ret tt))
         (phase_image v p) (dropped p).
Proof.
  destruct p; intro H; open_wf wf_phase_wire H.
  unfold phase_image; cbn.
  destruct (2 <? v), (9 <? v); repeat parse_step;
    try parse_dropped; repeat parse_step.
Qed.

#[export] Hint Resolve simple_phase : parse.

Lemma simple_bridge_parses (v : Z) (w : BridgeWire) :
  2 <= v -> v <= 10 -> wf_bridge_wire w ->
  Parses SimpleBridgeDeserializer.deserializeBridge
         (int32_image v ++ bridge_schedule v w) (simple_decoded v w).
Proof.
  intros Hlo Hhi Hw. unfold SimpleBridgeDeserializer.deserializeBridge.
  eapply Parses_bind; [apply parse_int32_image; unfold int32_ok; lia|].
  cbv beta.
  eapply Parses_bind_nil; [apply parse_intc; lia|].
  destruct (Z.ltb_spec v 2); [lia|].
  destruct w. open_wf wf_bridge_wire Hw.
  unfold bridge_schedule, simple_decoded; cbn.
  destruct (7 <=? v), (v =? 5), (6 <=? v), ((4 <=? v) && (v <? 9));
    simple_primitives; repeat parse_step.
Qed.

(** ** Outcomes of the decoders *)

Section Reads.
Variable allowed : Fatal -> Prop.

Lemma Reads_ret {A} (a : A) : Reads allowed (ret a).
Proof. intros s Hc. cbn. split; [reflexivity | lia]. Qed.

Lemma Reads_bind {A B} (m : M A) (k : A -> M B) :
  Reads allowed m -> (forall a, Reads allowed (k a)) -> Reads allowed (bind m k).
Proof.
  intros Hm Hk s Hc. unfold bind. specialize (Hm s Hc).
  destruct (m s) as [a s1 | why s1 | s1]; [ | exact Hm | exact I].
  destruct Hm as (Hd1 & Hc1). specialize (Hk a s1 ltac:(lia)).
  destruct (k a s1) as [b s2 | why s2 | s2].
  - destruct Hk as (Hd2 & Hc2). split; [congruence | lia].
  - destruct Hk as (Ha & Hd2 & Hc2). repeat split; [exact Ha | congruence | lia | lia].
  - exact I.
Qed.

Lemma Reads_undefined {A} : Reads allowed (@undefined A).
Proof. intros s Hc. exact I. Qed.

Lemma Reads_printf (format : string) : Reads allowed (Utils.printf format).
Proof.
  unfold Utils.printf. destruct (Utils.format_defined format).
  - intros s Hc. cbn. split; [reflexivity | lia].
  - apply Reads_undefined.
Qed.

Lemma Reads_log_info_d (message : string) :
  Reads allowed (Utils.log_info_d message).
Proof. unfold Utils.log_info_d, Utils.silent. apply Reads_printf. Qed.

Lemma Reads_log_warn_d (message : string) :
  Reads allowed (Utils.log_warn_d message).
Proof. unfold Utils.log_warn_d, Utils.silent. apply Reads_printf. Qed.

Lemma Reads_exit {A} (why : Fatal) : allowed why -> Reads allowed (@exit A why).
Proof. intros Ha s Hc. cbn. repeat split; [exact Ha | lia | lia]. Qed.

Lemma Reads_read (n : nat) : Reads allowed (read n).
Proof.
  intros s Hc. unfold read. cbv zeta.
  destruct (List.length (remaining s) <? n)%nat; cbn; [exact I|].
  split; [reflexivity | lia].
Qed.

Lemma Reads_read_padded (n : nat) : Reads allowed (read_padded n).
Proof. intros s Hc. cbn. split; [reflexivity | lia]. Qed.

Lemma Reads_get : Reads allowed get.
Proof.
  intros s Hc. unfold get. destruct (remaining s); cbn; split;
    first [reflexivity | lia].
Qed.

Lemma Reads_tellg : Reads allowed tellg.
Proof. intros s Hc. cbn. split; [reflexivity | lia]. Qed.

Lemma Reads_seekg (p : nat) : Reads allowed (seekg p).
Proof. intros s Hc. cbn. split; [reflexivity | lia]. Qed.

Lemma Reads_seekg_end : Reads allowed seekg_end.
Proof. intros s Hc. cbn. split; [reflexivity | lia]. Qed.

Lemma Reads_guard (v lo hi wlo whi : Z) :
  allowed ExcessiveUnusualNumbers ->
  Reads allowed (Utils.ensureReasonable v lo hi wlo whi).
Proof.
  intros Ha s Hc. unfold Utils.ensureReasonable, Utils.verdict.
  destruct (v <? lo); [|destruct (hi <? v); [|destruct (v <? wlo);
    [|destruct (whi <? v)]]];
    try destruct (Z.leb_spec 3 (unusualNumbers s)); cbn;
    repeat split; first [exact Ha | lia].
Qed.

Lemma Reads_times {A} (n : nat) (body : M A) :
  Reads allowed body -> Reads allowed (times n body).
Proof.
  intro H. induction n as [|n IH]; cbn [times].
  - apply Reads_ret.
  - apply Reads_bind; [exact H|]. intro x.
    apply Reads_bind; [exact IH|]. intro xs. apply Reads_ret.
Qed.

Lemma Reads_for_count {A} (count : Z) (body : M A) :
  Reads allowed body -> Reads allowed (for_count count body).
Proof. apply Reads_times. Qed.

Lemma Reads_assert (cond : bool) :
  allowed AssertionFailed -> Reads allowed (assert cond).
Proof.
  intro Ha. unfold assert. destruct cond; [apply Reads_ret | now apply Reads_exit].
Qed.

Lemma Reads_onBuffer {A} (buffer : list byte) (m : M A) :
  Reads allowed m -> Reads allowed (onBuffer buffer m).
Proof.
  intros Hm s Hc. unfold onBuffer.
  specialize (Hm (mkSt buffer 0 (unusualNumbers s)) Hc).
  destruct (m (mkSt buffer 0 (unusualNumbers s))) as [a s1 | why s1 | s1]; cbn in *.
  - split; [reflexivity | lia].
  - destruct Hm as (Ha & _ & Hc1). repeat split; [exact Ha | lia | lia].
  - exact I.
Qed.

End Reads.

Ltac reads_step :=
  lazymatch goal with
  | |- Reads _ (bind _ _) => apply Reads_bind; [ | intros ? ]
  | |- Reads _ (ret _) => apply Reads_ret
  | |- Reads _ (read _) => apply Reads_read
  | |- Reads _ (read_padded _) => apply Reads_read_padded
  | |- Reads _ get => apply Reads_get
  | |- Reads _ tellg => apply Reads_tellg
  | |- Reads _ (seekg _) => apply Reads_seekg
  | |- Reads _ seekg_end => apply Reads_seekg_end
  | |- Reads _ (for_count _ _) => apply Reads_for_count
  | |- Reads _ (Utils.ensureReasonable _ _ _ _ _) =>
      apply Reads_guard; unfold layout_fatal, slot_fatal; cbn; auto 10
  | |- Reads _ (exit _) =>
      apply Reads_exit; unfold layout_fatal, slot_fatal; cbn; auto 10
  | |- Reads _ (assert _) =>
      apply Reads_assert; unfold layout_fatal, slot_fatal; cbn; auto 10
  | |- Reads _ (onBuffer _ _) => apply Reads_onBuffer
  | |- Reads _ (Utils.log_info_d _) => apply Reads_log_info_d
  | |- Reads _ (Utils.log_warn_d _) => apply Reads_log_warn_d
  | |- Reads _ (if ?c then _ else _) => destruct c
  | |- Reads _ (match ?x with Some _ => _ | None => _ end) => destruct x
  | |- Reads _ (let _ := _ in _) => cbv zeta
  end.

Ltac reads := repeat reads_step.

Lemma Reads_deserializeLayout : Reads layout_fatal Deserializer.deserializeLayout.
Proof.
  unfold Deserializer.deserializeLayout, Deserializer.getVersion,
    Deserializer.getStubKey, Deserializer.discardGarbage,
    Deserializer.deserializePTFModData, Deserializer.deserializeModSaveData,
    Deserializer.deserializeMod,
    Deserializer.deserializeAnchors, Deserializer.deserializePhases,
    Deserializer.deserializeBridge,
    Deserializer.deserializeZAxisVehicles, Deserializer.deserializeVehicles,
    Deserializer.deserializeVehicleStopTriggers,
    Deserializer.deserializeThemeObjects_OBSOLETE,
    Deserializer.deserializeEventTimelines, Deserializer.deserializeCheckpoints,
    Deserializer.deserializeTerrainIslands, Deserializer.deserializePlatforms,
    Deserializer.deserializeRamps, Deserializer.deserializeVehicleRestartPhases,
    Deserializer.deserializeFlyingObjects, Deserializer.deserializeRocks,
    Deserializer.deserializeWaterBlocks, Deserializer.deserializeBudget,
    Deserializer.deserializeSettings, Deserializer.deserializeCustomShapes,
    Deserializer.deserializeWorkshop,
    Deserializer.deserializeSupportPillars, Deserializer.deserializePillars,
    Deserializer.deserializeAnchor, Deserializer.deserializePhase,
    Deserializer.deserializeJoint, Deserializer.deserializeEdge,
    Deserializer.deserializeSpring, Deserializer.deserializePiston,
    Deserializer.deserializeHydraulicControllerPhase,
    Deserializer.deserializeSplitJoint,
    Deserializer.deserializeZAxisVehicle, Deserializer.deserializeVehicle,
    Deserializer.deserializeVehicleStopTrigger,
    Deserializer.deserializeThemeObject_OBSOLETE,
    Deserializer.deserializeEventTimeline, Deserializer.deserializeEventStage,
    Deserializer.deserializeEventUnit, Deserializer.deserializeCheckpoint,
    Deserializer.deserializeTerrainStretch, Deserializer.deserializePlatform,
    Deserializer.deserializeRamp, Deserializer.deserializeVehicleRestartPhase,
    Deserializer.deserializeFlyingObject, Deserializer.deserializeRock,
    Deserializer.deserializeWaterBlock, Deserializer.deserializeCustomShape,
    Deserializer.deserializeSupportPillar, Deserializer.deserializePillar,
    Deserializer.readStaticPin, Deserializer.readByteArray,
    Deserializer.readColor, Deserializer.readQuaternion, Deserializer.readVec3,
    Deserializer.readVec2, Deserializer.readString, Deserializer.readBytes,
    Deserializer.readBool, Deserializer.readInt8, Deserializer.readInt16,
    Deserializer.readUInt16, Deserializer.readInt32, Deserializer.readFloat,
    Deserializer.readByte, Utils.intc, Utils.intc_in.
  reads.
Qed.

Lemma Reads_slot_readInt : Reads slot_fatal SlotDeserializer.readInt.
Proof. unfold SlotDeserializer.readInt. reads. Qed.

Lemma Reads_slot_readString : Reads slot_fatal SlotDeserializer.readString.
Proof. unfold SlotDeserializer.readString, SlotDeserializer.readInt. reads. Qed.

Lemma Reads_peekEntryType : Reads slot_fatal SlotDeserializer.peekEntryType.
Proof.
  assert (Hn : forall t, Reads slot_fatal (SlotDeserializer.named t)).
  { intro t. unfold SlotDeserializer.named.
    apply Reads_bind; [apply Reads_slot_readString | intro; apply Reads_ret]. }
  assert (Hu : forall t, Reads slot_fatal (SlotDeserializer.unnamed t)).
  { intro t. apply Reads_ret. }
  assert (He : Reads slot_fatal (@exit EntryTypeReturn.t CannotPeekType)).
  { apply Reads_exit. unfold slot_fatal; cbn; auto 10. }
  unfold SlotDeserializer.peekEntryType.
  apply Reads_bind; [apply Reads_get|]. intro c.
  destruct (c =? -1); [apply Reads_ret|].
  destruct c as [|p|p]; [apply Hu | | apply Hu].
  do 6 (try (destruct p as [p|p|])); first [apply Hn | apply Hu | exact He].
Qed.

Lemma Reads_readTypeEntry : Reads slot_fatal SlotDeserializer.readTypeEntry.
Proof.
  unfold SlotDeserializer.readTypeEntry.
  apply Reads_bind; [apply Reads_get|]. intro num.
  destruct (num <? 0); [apply Reads_ret|].
  destruct (num =? 47).
  - apply Reads_bind; [apply Reads_slot_readInt|]. intro key.
    apply Reads_bind; [apply Reads_slot_readString|]. intro type_name.
    destruct (getlines type_name EmptyString) as [|a [|b [|c t]]];
      first [ apply Reads_ret
            | apply Reads_exit; unfold slot_fatal; cbn; auto 10 ].
  - destruct (num =? 48); [apply Reads_ret|].
    apply Reads_exit; unfold slot_fatal; cbn; auto 10.
Qed.

Lemma Reads_simple_bridge :
  Reads slot_fatal SimpleBridgeDeserializer.deserializeBridge.
Proof.
  unfold SimpleBridgeDeserializer.deserializeBridge,
    SimpleBridgeDeserializer.readVector3, SimpleBridgeDeserializer.readString,
    SimpleBridgeDeserializer.readFloat, SimpleBridgeDeserializer.readInt32,
    SimpleBridgeDeserializer.readUInt16, SimpleBridgeDeserializer.readBool,
    SimpleBridgeDeserializer.readBytes, SimpleBridgeDeserializer.readByte,
    Utils.intc, Utils.intc_in.
  reads.
Qed.

Ltac reads_slot_step :=
  lazymatch goal with
  | |- Reads _ SlotDeserializer.peekEntryType => apply Reads_peekEntryType
  | |- Reads _ SlotDeserializer.readTypeEntry => apply Reads_readTypeEntry
  | |- Reads _ SlotDeserializer.readString => apply Reads_slot_readString
  | |- Reads _ SlotDeserializer.readInt => apply Reads_slot_readInt
  | |- Reads _ SimpleBridgeDeserializer.deserializeBridge =>
      apply Reads_simple_bridge
  | |- _ => reads_step
  end.

Lemma Reads_deserializeSlot : Reads slot_fatal SlotDeserializer.deserializeSlot.
Proof.
  unfold SlotDeserializer.deserializeSlot, SlotDeserializer.enterNode,
    SlotDeserializer.readArray, SlotDeserializer.readLong,
    SlotDeserializer.readBool, Utils.intc, Utils.intc_in.
  repeat reads_slot_step.
Qed.

(** ** [readLong] of the save slots *)

Lemma lor_disjoint (a h m k : Z) :
  0 <= k -> 0 <= a < 2 ^ k -> h = m * 2 ^ k -> Z.lor a h = a + h.
Proof.
  intros Hk Ha ->. rewrite <- Z.shiftl_mul_pow2 by exact Hk.
  assert (Hland : Z.land a (Z.shiftl m k) = 0).
  { apply Z.bits_inj'. intros n Hn. rewrite Z.land_spec, Z.bits_0.
    destruct (Z.lt_ge_cases n k).
    - rewrite (Z.shiftl_spec_low m k n) by lia. apply andb_false_r.
    - replace a with (a mod 2 ^ k) by (apply Z.mod_small; lia).
      rewrite Z.mod_pow2_bits_high by lia. reflexivity. }
  rewrite <- Z.lxor_lor by exact Hland.
  symmetry. now apply Z.add_nocarry_lxor.
Qed.

Lemma shifted_byte (b : byte) (k : Z) :
  0 <= k <= 56 ->
  wrap 64 (Z.shiftl (wrap 64 (Z_of_byte b)) k) = Z_of_byte b * 2 ^ k.
Proof.
  intro Hk. pose proof (Z_of_byte_range b) as Hb. unfold wrap.
  rewrite (Z.mod_small (Z_of_byte b)) by lia.
  rewrite Z.shiftl_mul_pow2 by lia.
  apply Z.mod_small. split; [apply Z.mul_nonneg_nonneg; lia|].
  apply Z.lt_le_trans with (256 * 2 ^ k).
  - apply Z.mul_lt_mono_pos_r; lia.
  - change 256 with (2 ^ 8). rewrite <- Z.pow_add_r by lia.
    apply Z.pow_le_mono_r; lia.
Qed.

Lemma long_of_bytes (b0 b1 b2 b3 b4 b5 b6 b7 : byte) :
  let u c k := wrap 64 (Z.shiftl (wrap 64 c) k) in
  Z.lor (u (Z_of_byte b0) 0) (Z.lor (u (Z_of_byte b1) 8)
    (Z.lor (u (Z_of_byte b2) 16) (Z.lor (u (Z_of_byte b3) 24)
      (Z.lor (u (Z_of_byte b4) 32) (Z.lor (u (Z_of_byte b5) 40)
        (Z.lor (u (Z_of_byte b6) 48) (u (Z_of_byte b7) 56)))))))
  = le_value [b0; b1; b2; b3; b4; b5; b6; b7].
Proof.
  cbv beta zeta. rewrite !shifted_byte by lia.
  pose proof (Z_of_byte_range b0). pose proof (Z_of_byte_range b1).
  pose proof (Z_of_byte_range b2). pose proof (Z_of_byte_range b3).
  pose proof (Z_of_byte_range b4). pose proof (Z_of_byte_range b5).
  pose proof (Z_of_byte_range b6). pose proof (Z_of_byte_range b7).
  rewrite (lor_disjoint (Z_of_byte b6 * 2 ^ 48) _ (Z_of_byte b7) 56) by lia.
  rewrite (lor_disjoint (Z_of_byte b5 * 2 ^ 40) _
             (Z_of_byte b6 + 256 * Z_of_byte b7) 48) by lia.
  rewrite (lor_disjoint (Z_of_byte b4 * 2 ^ 32) _
             (Z_of_byte b5 + 256 * (Z_of_byte b6 + 256 * Z_of_byte b7)) 40) by lia.
  rewrite (lor_disjoint (Z_of_byte b3 * 2 ^ 24) _
             (Z_of_byte b4 + 256 * (Z_of_byte b5 + 256 *
                (Z_of_byte b6 + 256 * Z_of_byte b7))) 32) by lia.
  rewrite (lor_disjoint (Z_of_byte b2 * 2 ^ 16) _
             (Z_of_byte b3 + 256 * (Z_of_byte b4 + 256 * (Z_of_byte b5 + 256 *
                (Z_of_byte b6 + 256 * Z_of_byte b7)))) 24) by lia.
  rewrite (lor_disjoint (Z_of_byte b1 * 2 ^ 8) _
             (Z_of_byte b2 + 256 * (Z_of_byte b3 + 256 * (Z_of_byte b4 + 256 *
                (Z_of_byte b5 + 256 * (Z_of_byte b6 + 256 * Z_of_byte b7))))) 16)
    by lia.
  rewrite (lor_disjoint (Z_of_byte b0 * 2 ^ 0) _
             (Z_of_byte b1 + 256 * (Z_of_byte b2 + 256 * (Z_of_byte b3 + 256 *
                (Z_of_byte b4 + 256 * (Z_of_byte b5 + 256 *
                   (Z_of_byte b6 + 256 * Z_of_byte b7)))))) 8) by lia.
  cbn [le_value]. lia.
Qed.

Lemma readLong_bytes (b0 b1 b2 b3 b4 b5 b6 b7 : byte) (s : St) (rest : list byte) :
  remaining s = [b0; b1; b2; b3; b4; b5; b6; b7] ++ rest ->
  SlotDeserializer.readLong s
  = Done (int64 (le_value [b0; b1; b2; b3; b4; b5; b6; b7])) (advance 8 s).
Proof.
  intro Hr. unfold SlotDeserializer.readLong. cbn [app] in Hr.
  destruct (get_cons _ _ _ Hr) as (E0 & R0). rewrite (bind_eq _ _ _ _ _ E0).
  destruct (get_cons _ _ _ R0) as (E1 & R1). rewrite (bind_eq _ _ _ _ _ E1).
  destruct (get_cons _ _ _ R1) as (E2 & R2). rewrite (bind_eq _ _ _ _ _ E2).
  destruct (get_cons _ _ _ R2) as (E3 & R3). rewrite (bind_eq _ _ _ _ _ E3).
  destruct (get_cons _ _ _ R3) as (E4 & R4). rewrite (bind_eq _ _ _ _ _ E4).
  destruct (get_cons _ _ _ R4) as (E5 & R5). rewrite (bind_eq _ _ _ _ _ E5).
  destruct (get_cons _ _ _ R5) as (E6 & R6). rewrite (bind_eq _ _ _ _ _ E6).
  destruct (get_cons _ _ _ R6) as (E7 & R7). rewrite (bind_eq _ _ _ _ _ E7).
  unfold ret. rewrite !advance_advance. cbn [Nat.add].
  f_equal. f_equal. apply long_of_bytes.
Qed.

Lemma bridge_parses (v : Z) (w : BridgeWire) :
  2 <= v <= 100 -> wf_bridge_wire w ->
  Parses Deserializer.deserializeBridge
         (int32_image v ++ bridge_schedule v w) (bridge_decoded v w).
Proof.
  intros Hv Hw s rest Hr Hc.
  rewrite <- app_assoc in Hr.
  assert (Hi : int32_ok v) by (unfold int32_ok; lia).
  assert (Hg : versionGuards v (advance 4 s) = Done tt (advance 4 s)).
  { rewrite (versionGuards_quiet v ltac:(lia) (advance 4 s)
               (bridge_schedule v w ++ rest)).
    - now rewrite advance_0.
    - apply (remaining_advance s (int32_image v)). exact Hr.
    - exact Hc. }
  rewrite (bridge_from_2 v w s _ rest Hi ltac:(lia) Hw Hr Hg Hc).
  rewrite advance_advance, length_app.
  unfold int32_image at 1. now rewrite length_le_bytes.
Qed.

(** X5.  On every bridge payload of version 2 to 10 that follows the
    version-gated schedule, the bridge decoder of the save slots consumes
    exactly the bytes that the bridge decoder of the layouts consumes and
    returns the same version, joints, springs, pistons and anchors, but no
    edge and no hydraulics phase: it reads them and drops them. *)
Theorem slot_bridge_decoder_drops_edges_and_phases (v : Z) (w : BridgeWire) :
  2 <= v <= 10 -> wf_bridge_wire w ->
  Deserializer.deserializeBridge (fresh (int32_image v ++ bridge_schedule v w))
  = Done (bridge_decoded v w)
         (mkSt (int32_image v ++ bridge_schedule v w)
               (List.length (int32_image v ++ bridge_schedule v w)) 1) /\
  SimpleBridgeDeserializer.deserializeBridge
    (fresh (int32_image v ++ bridge_schedule v w))
  = Done (Bridge.mk (Bridge.version (bridge_decoded v w))
            (Bridge.joints (bridge_decoded v w)) []
            (Bridge.springs (bridge_decoded v w))
            (Bridge.pistons (bridge_decoded v w))
            (Bridge.anchors (bridge_decoded v w)) [])
         (mkSt (int32_image v ++ bridge_schedule v w)
               (List.length (int32_image v ++ bridge_schedule v w)) 1).
Proof.
  intros Hv Hw. split.
  - apply Parses_fresh. apply bridge_parses; [lia | exact Hw].
  - apply (Parses_fresh _ _ (simple_decoded v w)).
    apply simple_bridge_parses; [lia | lia | exact Hw].
Qed.

Lemma slot_bridge_decoder_drops_edges_and_phases_witness :
  SimpleBridgeDeserializer.deserializeBridge
    (fresh (int32_image 10 ++ bridge_schedule 10 sample_wire))
  = Done (Bridge.mk 10 (bw_joints sample_wire) [] (bw_springs sample_wire)
            (bw_pistons sample_wire) (bw_anchors sample_wire) [])
         (mkSt (int32_image 10 ++ bridge_schedule 10 sample_wire)
               (List.length (int32_image 10 ++ bridge_schedule 10 sample_wire)) 1).
Proof.
  assert (Hv : 2 <= 10 <= 10) by lia.
  assert (Hw : wf_bridge_wire sample_wire) by wf_concrete.
  exact (proj2 (slot_bridge_decoder_drops_edges_and_phases 10 sample_wire Hv Hw)).
Defined.

(** X6.  Whatever the file holds, a run of the layout decoder that
    starts with the counter of unusual numbers at 3 or less and comes to an
    end that the source determines has never lowered the counter nor let
    it pass 3, and if that end is a stop of the program it is the guard's
    abort or a byte array of non-positive length, never another one.
    Nothing is said of a run that reads past the end of the file or
    passes a text with a conversion to [printf]. *)
Theorem deserializeLayout_outcomes (s : St) :
  unusualNumbers s <= 3 ->
  match Deserializer.deserializeLayout s with
  | Done _ s' => unusualNumbers s <= unusualNumbers s' <= 3
  | Exit why s' =>
      (why = ExcessiveUnusualNumbers \/ why = BadByteArrayLength) /\
      unusualNumbers s <= unusualNumbers s' <= 3
  | Undefined _ => True
  end.
Proof.
  intro H. pose proof (Reads_deserializeLayout s H) as R.
  destruct (Deserializer.deserializeLayout s) as [l s' | why s' | s'].
  - exact (proj2 R).
  - exact (conj (proj1 R) (proj2 (proj2 R))).
  - exact I.
Qed.

Lemma deserializeLayout_outcomes_witness :
  unusualNumbers (fresh guard_stop_layout) <= 3 /\
  Deserializer.deserializeLayout (fresh guard_stop_layout)
  = Exit ExcessiveUnusualNumbers (mkSt guard_stop_layout 10 3) /\
  match Deserializer.deserializeLayout (fresh guard_stop_layout) with
  | Done _ s' => unusualNumbers (fresh guard_stop_layout) <= unusualNumbers s' <= 3
  | Exit why s' =>
      (why = ExcessiveUnusualNumbers \/ why = BadByteArrayLength) /\
      unusualNumbers (fresh guard_stop_layout) <= unusualNumbers s' <= 3
  | Undefined _ => True
  end.
Proof.
  assert (H : unusualNumbers (fresh guard_stop_layout) <= 3)
    by (unfold fresh; cbn [unusualNumbers]; lia).
  refine (conj H (conj _ (deserializeLayout_outcomes (fresh guard_stop_layout) H))).
  vm_compute. reflexivity.
Defined.

(** X7.  Whatever the file holds, a run of the save-slot decoder that
    starts with the counter at 3 or less and comes to an end that the
    source determines has kept the counter between its starting value and
    3, and if that end is a stop of the program it is the guard's abort, a
    failed assertion, an entry type that cannot be peeked, a malformed or
    unknown type entry, a negative length or a failed conversion; it is
    never a byte array length or a missing vehicle.  Nothing is said of a
    run that reads past the end of the bridge payload or passes a name
    with a conversion to [printf]. *)
Theorem deserializeSlot_outcomes (s : St) :
  unusualNumbers s <= 3 ->
  match SlotDeserializer.deserializeSlot s with
  | Done _ s' => unusualNumbers s <= unusualNumbers s' <= 3
  | Exit why s' =>
      In why [ExcessiveUnusualNumbers; AssertionFailed; CannotPeekType;
              BadTypeName; UnknownTypeFlag; BadAllocation; BadConversion] /\
      unusualNumbers s <= unusualNumbers s' <= 3
  | Undefined _ => True
  end.
Proof.
  intro H. pose proof (Reads_deserializeSlot s H) as R.
  destruct (SlotDeserializer.deserializeSlot s) as [l s' | why s' | s'].
  - exact (proj2 R).
  - exact (conj (proj1 R) (proj2 (proj2 R))).
  - exact I.
Qed.

Lemma deserializeSlot_outcomes_witness :
  unusualNumbers (fresh [x2f]) <= 3 /\
  SlotDeserializer.deserializeSlot (fresh [x2f])
  = Exit CannotPeekType (mkSt [x2f] 1 1) /\
  match SlotDeserializer.deserializeSlot (fresh [x2f]) with
  | Done _ s' => unusualNumbers (fresh [x2f]) <= unusualNumbers s' <= 3
  | Exit why s' =>
      In why [ExcessiveUnusualNumbers; AssertionFailed; CannotPeekType;
              BadTypeName; UnknownTypeFlag; BadAllocation; BadConversion] /\
      unusualNumbers (fresh [x2f]) <= unusualNumbers s' <= 3
  | Undefined _ => True
  end.
Proof.
  assert (H : unusualNumbers (fresh [x2f]) <= 3)
    by (unfold fresh; cbn [unusualNumbers]; lia).
  refine (conj H (conj _ (deserializeSlot_outcomes (fresh [x2f]) H))).
  vm_compute. reflexivity.
Defined.

(** X8.  [readByteArray] reads a 32-bit length and stops the program when
    it is zero or negative, four bytes into the field; a positive length is
    followed by that many bytes, which it returns, the cursor ending behind
    them. *)
Theorem readByteArray_lengths :
  (forall n s rest,
      int32_ok n -> n <= 0 -> remaining s = int32_image n ++ rest ->
      Deserializer.readByteArray s = Exit BadByteArrayLength (advance 4 s)) /\
  (forall payload s rest,
      0 < Z.of_nat (List.length payload) < 2 ^ 31 ->
      unusualNumbers s < 3 ->
      remaining s
      = (int32_image (Z.of_nat (List.length payload)) ++ payload) ++ rest ->
      Deserializer.readByteArray s
      = Done payload (advance (4 + List.length payload) s)).
Proof.
  split.
  - intros n s rest Hn Hle Hr. unfold Deserializer.readByteArray.
    rewrite (bind_eq _ _ _ _ _ (readInt32_at s n rest Hn Hr)).
    destruct (Z.ltb_spec 0 n); [lia | reflexivity].
  - intros payload s rest Hl Hc Hr.
    rewrite (parse_readByteArray payload Hl s rest Hr Hc).
    rewrite length_app. unfold int32_image. now rewrite length_le_bytes.
Qed.

Lemma readByteArray_lengths_witness :
  Deserializer.readByteArray (fresh (int32_image 0 ++ [x2a]))
    = Exit BadByteArrayLength (mkSt (int32_image 0 ++ [x2a]) 4 1) /\
  Deserializer.readByteArray (fresh (int32_image 2 ++ [x2a; x2b]))
    = Done [x2a; x2b] (mkSt (int32_image 2 ++ [x2a; x2b]) 6 1).
Proof.
  assert (H0 : int32_ok 0) by (unfold int32_ok; lia).
  assert (Hle : 0 <= 0) by lia.
  assert (Hl : 0 < Z.of_nat (List.length [x2a; x2b]) < 2 ^ 31) by (cbn; lia).
  assert (Hc : unusualNumbers (fresh (int32_image 2 ++ [x2a; x2b])) < 3)
    by (unfold fresh; cbn [unusualNumbers]; lia).
  split.
  - exact (proj1 readByteArray_lengths 0 (fresh (int32_image 0 ++ [x2a])) [x2a]
             H0 Hle eq_refl).
  - exact (proj2 readByteArray_lengths [x2a; x2b]
             (fresh (int32_image 2 ++ [x2a; x2b])) [] Hl Hc eq_refl).
Defined.

(** X9.  Every three bytes are a colour that is written back as the same
    three bytes: [readColor] returns the channels byte/255 with alpha 1,
    and [writeColor] of that colour, which multiplies by 255 and truncates,
    gives the bytes again. *)
Theorem color_bytes_round_trip (r g b : byte) :
  Deserializer.readColor (fresh [r; g; b])
  = Done (Color.mk (channel r) (channel g) (channel b) F32.one)
         (mkSt [r; g; b] 3 1) /\
  written (Serializer.writeColor
             (Color.mk (channel r) (channel g) (channel b) F32.one))
  = [r; g; b].
Proof.
  split.
  - apply (Parses_fresh _ [r; g; b]). apply parse_color_bytes.
  - rewrite (Emits_written _ _ (emit_color _)).
    unfold color_image; cbn [Color.r Color.g Color.b app].
    now rewrite !channel_byte_channel.
Qed.

(** X10.  [readLong] of the save slots assembles the next eight bytes, low
    byte first, into a signed 64-bit integer: it returns every such integer
    from its eight-byte little-endian representation and moves the cursor
    by eight.  At the end of the stream it returns -1 and does not move. *)
Theorem slot_readLong_little_endian :
  (forall x s rest,
      - 2 ^ 63 <= x < 2 ^ 63 -> remaining s = le_bytes 8 x ++ rest ->
      SlotDeserializer.readLong s = Done x (advance 8 s)) /\
  (forall s, remaining s = [] -> SlotDeserializer.readLong s = Done (-1) s).
Proof.
  split.
  - intros x s rest Hx Hr. cbn [le_bytes] in Hr.
    rewrite (readLong_bytes _ _ _ _ _ _ _ _ s rest Hr).
    f_equal.
    change (int64 (le_value (le_bytes 8 x)) = x).
    rewrite le_value_le_bytes. apply (signed_small 64); [lia | exact Hx].
  - intros s Hr. unfold SlotDeserializer.readLong.
    rewrite !(bind_eq _ _ _ _ _ (get_eof s Hr)). reflexivity.
Qed.

Lemma slot_readLong_little_endian_witness :
  SlotDeserializer.readLong (fresh (le_bytes 8 (-2)))
    = Done (-2) (mkSt (le_bytes 8 (-2)) 8 1) /\
  SlotDeserializer.readLong (fresh []) = Done (-1) (fresh []).
Proof.
  assert (Hx : - 2 ^ 63 <= -2 < 2 ^ 63) by lia.
  split.
  - exact (proj1 slot_readLong_little_endian (-2) (fresh (le_bytes 8 (-2))) []
             Hx eq_refl).
  - exact (proj2 slot_readLong_little_endian (fresh []) eq_refl).
Defined.

(** ** [splitString] *)

Lemma string_app_assoc (a b c : string) :
  ((a ++ b) ++ c = a ++ (b ++ c))%string.
Proof. induction a as [|x a IH]; cbn; [reflexivity | now rewrite IH]. Qed.

Lemma string_app_nil_r (a : string) : (a ++ "" = a)%string.
Proof. induction a as [|x a IH]; cbn; [reflexivity | now rewrite IH]. Qed.

Lemma substring_of_empty (n m : nat) : substring n m EmptyString = EmptyString.
Proof. destruct n, m; reflexivity. Qed.

Lemma substring_split (s : string) :
  forall n m1 m2,
    (substring n m1 s ++ substring (n + m1) m2 s)%string = substring n (m1 + m2) s.
Proof.
  induction s as [|c s IH]; intros n m1 m2.
  - now rewrite !substring_of_empty.
  - destruct n as [|n].
    + destruct m1 as [|m1].
      * reflexivity.
      * cbn. f_equal. apply (IH 0%nat m1 m2).
    + cbn. apply IH.
Qed.

Lemma length_substring_le (s : string) :
  forall n m, (String.length (substring n m s) <= String.length s - n)%nat.
Proof.
  induction s as [|c s IH]; intros n m.
  - rewrite substring_of_empty. cbn. lia.
  - destruct n as [|n].
    + destruct m as [|m]; cbn; [lia|]. specialize (IH 0%nat m). lia.
    + cbn. apply IH.
Qed.

Lemma index_ge (s1 s2 : string) :
  forall n m, index n s1 s2 = Some m -> (n <= m)%nat.
Proof.
  induction s2 as [|c s2 IH]; intros n m H.
  - destruct n; cbn in H; [|discriminate]. destruct s1; [|discriminate].
    injection H as <-. lia.
  - destruct n as [|n]; [lia|]. cbn in H.
    destruct (index n s1 s2) as [k|] eqn:E; [|discriminate].
    injection H as <-. apply IH in E. lia.
Qed.

Lemma index_fits (s1 s2 : string) (n m : nat) :
  (0 < String.length s1)%nat -> index n s1 s2 = Some m ->
  (m + String.length s1 <= String.length s2)%nat.
Proof.
  intros Hl H. apply index_correct1 in H.
  pose proof (length_substring_le s2 m (String.length s1)) as Hle.
  rewrite H in Hle. lia.
Qed.

Lemma concat_snoc (sep : string) (pieces : list string) (last : string) :
  String.concat sep (pieces ++ [last]) = (glued sep pieces ++ last)%string.
Proof.
  induction pieces as [|p ps IH]; [reflexivity|].
  cbn [app glued]. rewrite !string_app_assoc, <- IH.
  destruct ps; reflexivity.
Qed.

Lemma glued_snoc (sep : string) (pieces : list string) (piece : string) :
  glued sep (pieces ++ [piece]) = (glued sep pieces ++ piece ++ sep)%string.
Proof.
  induction pieces as [|p ps IH]; cbn [app glued].
  - now rewrite string_app_nil_r.
  - now rewrite IH, !string_app_assoc.
Qed.

Lemma splitLoop_join (str delimiter : string) (fuel : nat) :
  (0 < String.length delimiter)%nat ->
  forall start result,
    (start <= String.length str)%nat ->
    (String.length str - start < fuel)%nat ->
    glued delimiter result = substring 0 start str ->
    String.concat delimiter
      (Utils.splitLoop fuel str delimiter start (index start delimiter str) result)
    = str.
Proof.
  intro Hd. induction fuel as [|fuel IH]; intros start result Hs Hf Hg; [lia|].
  cbn [Utils.splitLoop].
  destruct (index start delimiter str) as [e|] eqn:E.
  - pose proof (index_ge _ _ _ _ E) as Hge.
    pose proof (index_fits _ _ _ _ Hd E) as Hfit.
    apply IH; [lia | lia |].
    rewrite glued_snoc, Hg.
    assert (H1 : (substring 0 start str ++ substring start (e - start) str)%string
                 = substring 0 e str).
    { pose proof (substring_split str 0 start (e - start)) as X.
      cbn [Nat.add] in X. rewrite X. f_equal. lia. }
    assert (H2 : (substring 0 e str ++ delimiter)%string
                 = substring 0 (e + String.length delimiter) str).
    { rewrite <- (index_correct1 _ _ _ _ E) at 1.
      apply (substring_split str 0 e (String.length delimiter)). }
    now rewrite <- string_app_assoc, H1, H2.
  - rewrite concat_snoc, Hg.
    pose proof (substring_split str 0 start (String.length str - start)) as X.
    cbn [Nat.add] in X. rewrite X.
    replace (start + (String.length str - start))%nat with (String.length str) by lia.
    apply substring_all.
Qed.

Lemma length_substring_le_count (s : string) :
  forall n m, (String.length (substring n m s) <= m)%nat.
Proof.
  induction s as [|c s IH]; intros n m.
  - rewrite substring_of_empty. cbn. lia.
  - destruct n as [|n].
    + destruct m as [|m]; cbn; [lia|]. specialize (IH 0%nat m). lia.
    + cbn. apply IH.
Qed.

Lemma substring_substring (s : string) :
  forall n m q k,
    (q + k <= m)%nat ->
    substring q k (substring n m s) = substring (n + q) k s.
Proof.
  induction s as [|c s IH]; intros n m q k H.
  - now rewrite !substring_of_empty.
  - destruct n as [|n].
    + destruct m as [|m].
      * assert (q = 0%nat) by lia. assert (k = 0%nat) by lia. subst. reflexivity.
      * cbn [substring Nat.add]. destruct q as [|q].
        -- destruct k as [|k]; [reflexivity|]. cbn [substring]. f_equal.
           apply (IH 0%nat m 0%nat k). lia.
        -- cbn [substring]. apply (IH 0%nat m q k). lia.
    + cbn [substring Nat.add]. apply IH. exact H.
Qed.

Lemma piece_without_delimiter (str delimiter : string) (start e : nat) :
  (0 < String.length delimiter)%nat ->
  index start delimiter str = Some e ->
  index 0 delimiter (substring start (e - start) str) = None.
Proof.
  intros Hd E.
  destruct (index 0 delimiter (substring start (e - start) str)) as [q|] eqn:Eq;
    [exfalso | reflexivity].
  pose proof (index_fits _ _ _ _ Hd Eq) as Hfit.
  pose proof (length_substring_le_count str start (e - start)) as Hlen.
  pose proof (index_ge _ _ _ _ E) as Hge.
  apply index_correct1 in Eq.
  rewrite substring_substring in Eq by lia.
  apply (index_correct2 _ _ _ _ E (start + q)%nat); [lia | lia | exact Eq].
Qed.

Lemma tail_without_delimiter (str delimiter : string) (start : nat) :
  (0 < String.length delimiter)%nat ->
  index start delimiter str = None ->
  index 0 delimiter (substring start (String.length str - start) str) = None.
Proof.
  intros Hd E.
  destruct (index 0 delimiter (substring start (String.length str - start) str))
    as [q|] eqn:Eq; [exfalso | reflexivity].
  pose proof (index_fits _ _ _ _ Hd Eq) as Hfit.
  pose proof (length_substring_le_count str start (String.length str - start)) as Hlen.
  apply index_correct1 in Eq.
  rewrite substring_substring in Eq by lia.
  apply (index_correct3 start (start + q)%nat delimiter str E);
    [ | lia | exact Eq].
  intros ->. cbn in Hd. lia.
Qed.

Lemma splitLoop_pieces (str delimiter : string) (fuel : nat) :
  (0 < String.length delimiter)%nat ->
  forall start result,
    Forall (fun piece => index 0 delimiter piece = None) result ->
    Forall (fun piece => index 0 delimiter piece = None)
      (Utils.splitLoop fuel str delimiter start (index start delimiter str) result).
Proof.
  intro Hd. induction fuel as [|fuel IH]; intros start result Hr.
  - cbn [Utils.splitLoop].
    destruct (index start delimiter str) eqn:E; [exact Hr|].
    apply Forall_app. split; [exact Hr|]. constructor; [|constructor].
    now apply tail_without_delimiter.
  - cbn [Utils.splitLoop].
    destruct (index start delimiter str) as [e|] eqn:E.
    + apply IH. apply Forall_app. split; [exact Hr|].
      constructor; [|constructor]. now apply piece_without_delimiter.
    + apply Forall_app. split; [exact Hr|]. constructor; [|constructor].
      now apply tail_without_delimiter.
Qed.

(** X11.  For a delimiter that is not empty, [splitString] cuts the string
    at every occurrence of the delimiter, taken from left to right: the
    pieces joined with the delimiter between them are the string again,
    and no piece contains the delimiter. *)
Theorem splitString_pieces (str delimiter : string) :
  delimiter <> EmptyString ->
  String.concat delimiter (Utils.splitString str delimiter) = str /\
  Forall (fun piece => index 0 delimiter piece = None)
         (Utils.splitString str delimiter).
Proof.
  intro Hne.
  assert (Hd : (0 < String.length delimiter)%nat).
  { destruct delimiter; [congruence | cbn; lia]. }
  unfold Utils.splitString. split.
  - apply splitLoop_join; [exact Hd | lia | lia | now destruct str].
  - apply splitLoop_pieces; [exact Hd | constructor].
Qed.

Lemma splitString_pieces_witness :
  String.concat modDelimiter (Utils.splitString sample_mod_string modDelimiter)
  = sample_mod_string /\
  Forall (fun piece => index 0 modDelimiter piece = None)
         (Utils.splitString sample_mod_string modDelimiter).
Proof.
  assert (H : modDelimiter <> EmptyString) by discriminate.
  exact (splitString_pieces sample_mod_string modDelimiter H).
Defined.

(** ** [add_commas] *)

Lemma without_commas_app (a b : string) :
  without_commas (a ++ b) = (without_commas a ++ without_commas b)%string.
Proof.
  induction a as [|c a IH]; cbn; [reflexivity|].
  destruct (Ascii.eqb c ","%char); cbn; now rewrite IH.
Qed.

Lemma substring_whole (s : string) :
  forall m, (String.length s <= m)%nat -> substring 0 m s = s.
Proof.
  induction s as [|c s IH]; intros m H.
  - apply substring_of_empty.
  - destruct m as [|m]; cbn in *; [lia|]. f_equal. apply IH. lia.
Qed.

Lemma insert_parts (i : nat) (s : string) :
  (substring 0 i s ++ substring i (String.length s - i) s)%string = s.
Proof.
  pose proof (substring_split s 0 i (String.length s - i)) as X.
  cbn [Nat.add] in X. rewrite X. apply substring_whole. lia.
Qed.

Lemma without_commas_insert (i : nat) (s : string) :
  without_commas (insert i "," s) = without_commas s.
Proof.
  unfold insert. rewrite !without_commas_app. cbn [without_commas].
  change (Ascii.eqb ","%char ","%char) with true. cbn [append].
  rewrite <- without_commas_app. now rewrite insert_parts.
Qed.

Lemma without_commas_loop (fuel : nat) :
  forall i s, without_commas (comma_loop fuel i s) = without_commas s.
Proof.
  induction fuel as [|fuel IH]; intros i s; cbn [comma_loop]; [reflexivity|].
  destruct (0 <? i); [|reflexivity].
  now rewrite IH, without_commas_insert.
Qed.

Lemma digits_without_commas (d : Decimal.uint) :
  without_commas (NilEmpty.string_of_uint d) = NilEmpty.string_of_uint d.
Proof. induction d; cbn; now rewrite ?IHd. Qed.

Lemma to_string_without_commas (value : Z) :
  without_commas (to_string value) = to_string value.
Proof.
  unfold to_string, NilZero.string_of_int, NilZero.string_of_uint.
  destruct (Z.to_int value) as [d|d]; destruct d; cbn;
    rewrite ?digits_without_commas; reflexivity.
Qed.

(** X12.  [add_commas] only inserts commas: without them its result is
    the decimal text of the number. *)
Theorem add_commas_keeps_digits (value : Z) :
  without_commas (add_commas value) = to_string value.
Proof.
  unfold add_commas. cbv zeta.
  now rewrite without_commas_loop, to_string_without_commas.
Qed.

Lemma length_insert (i : nat) (text s : string) :
  String.length (insert i text s)
  = (String.length text + String.length s)%nat.
Proof.
  unfold insert.
  assert (Happ : forall a b, String.length (a ++ b)
                             = (String.length a + String.length b)%nat).
  { intros a b. induction a as [|c a IH]; cbn; [reflexivity | now rewrite IH]. }
  rewrite !Happ.
  pose proof (f_equal String.length (insert_parts i s)) as X.
  rewrite Happ in X. lia.
Qed.

Lemma get_insert_low (i k : nat) (text s : string) :
  (k < i)%nat -> (i <= String.length s)%nat ->
  String.get k (insert i text s) = String.get k s.
Proof.
  revert i k. induction s as [|c s IH]; intros i k Hk Hi.
  - cbn in Hi. lia.
  - destruct i as [|i]; [lia|]. unfold insert. cbn [substring append String.length Nat.sub].
    destruct k as [|k]; [reflexivity|]. cbn [String.get].
    apply (IH i k); cbn in Hi; lia.
Qed.

Lemma get_insert_at (i : nat) (c : ascii) (s : string) :
  (i <= String.length s)%nat ->
  String.get i (insert i (String c EmptyString) s) = Some c.
Proof.
  revert i. induction s as [|x s IH]; intros i Hi.
  - cbn in Hi. assert (i = 0%nat) by lia. subst. reflexivity.
  - destruct i as [|i]; [reflexivity|]. unfold insert.
    cbn [substring append String.length Nat.sub String.get].
    apply (IH i). cbn in Hi. lia.
Qed.

Lemma comma_loop_head (fuel : nat) :
  forall i s,
    i mod 3 = 1 -> 0 < i -> i <= 3 * Z.of_nat fuel ->
    (Z.to_nat i <= String.length s)%nat ->
    String.get 0 (comma_loop fuel i s) = String.get 0 s /\
    String.get 1 (comma_loop fuel i s) = Some ","%char.
Proof.
  induction fuel as [|fuel IH]; intros i s Hm Hi Hf Hl; [lia|].
  cbn [comma_loop]. destruct (Z.ltb_spec 0 i); [|lia].
  destruct (Z.eq_dec i 1) as [->|Hne].
  - assert (Hstop : forall f s', comma_loop f (1 - 3) s' = s')
      by (intros [|f] s'; reflexivity).
    rewrite Hstop. change (Z.to_nat 1) with 1%nat in *. split.
    + apply get_insert_low; lia.
    + now apply get_insert_at.
  - assert (H4 : 4 <= i).
    { destruct (Z.eq_dec i 2) as [->|]; [discriminate Hm|].
      destruct (Z.eq_dec i 3) as [->|]; [discriminate Hm|]. lia. }
    destruct (IH (i - 3) (insert (Z.to_nat i) "," s)) as (H0 & H1).
    + rewrite <- Hm. rewrite <- (Z.mod_add (i - 3) 1 3) by lia. f_equal. lia.
    + lia.
    + lia.
    + rewrite length_insert. cbn [String.length]. lia.
    + split; [|exact H1]. rewrite H0. apply get_insert_low; lia.
Qed.

(** X13.  When the decimal text of the number, its sign included, has 4,
    7 or 10 characters, the last comma that [add_commas] inserts goes right
    behind the first character, which it keeps; for a negative number that
    character is the minus sign, so that -500 is shown as "-,500". *)
Theorem add_commas_after_first_character (value : Z) :
  (4 <= String.length (to_string value))%nat ->
  (String.length (to_string value) mod 3 = 1)%nat ->
  String.get 0 (add_commas value) = String.get 0 (to_string value) /\
  String.get 1 (add_commas value) = Some ","%char /\
  (value < 0 -> String.get 0 (add_commas value) = Some "-"%char).
Proof.
  intros H4 Hm. unfold add_commas. cbv zeta.
  destruct (comma_loop_head (String.length (to_string value))
              (Z.of_nat (String.length (to_string value)) - 3)
              (to_string value)) as (H0 & H1).
  - rewrite <- (Z.mod_add _ 1 3) by lia.
    replace (Z.of_nat (String.length (to_string value)) - 3 + 1 * 3)
      with (Z.of_nat (String.length (to_string value))) by lia.
    change 3 with (Z.of_nat 3). rewrite <- Nat2Z.inj_mod. now rewrite Hm.
  - lia.
  - lia.
  - lia.
  - split; [exact H0|]. split; [exact H1|].
    intro Hneg. rewrite H0. destruct value; try lia. reflexivity.
Qed.

Lemma add_commas_after_first_character_witness :
  add_commas (-500) = "-,500"%string /\
  String.get 0 (add_commas (-500)) = Some "-"%char /\
  String.get 1 (add_commas (-500)) = Some ","%char.
Proof.
  assert (H4 : (4 <= String.length (to_string (-500)))%nat) by (vm_compute; lia).
  assert (Hm : (String.length (to_string (-500)) mod 3 = 1)%nat) by reflexivity.
  assert (Hneg : -500 < 0) by lia.
  destruct (add_commas_after_first_character (-500) H4 Hm) as (_ & H1 & H0).
  split; [reflexivity|]. exact (conj (H0 Hneg) H1).
Defined.


(** ** The layout decoder follows the schedule *)

Lemma Parses_gate {A} (c : bool) (p : M A) (w : list byte) (a d : A) :
  Parses p w a ->
  Parses (if c then p else ret d) (if c then w else []) (if c then a else d).
Proof. intro H. destruct c; [exact H | apply Parses_ret]. Qed.

Lemma Parses_either {A} (c : bool) (p1 p2 : M A) (w1 w2 : list byte) (a1 a2 : A) :
  Parses p1 w1 a1 -> Parses p2 w2 a2 ->
  Parses (if c then p1 else p2) (if c then w1 else w2) (if c then a1 else a2).
Proof. intros H1 H2. destruct c; assumption. Qed.

Lemma Parses_same {A} (c : bool) (p1 p2 : M A) (w : list byte) (a1 a2 : A) :
  Parses p1 w a1 -> Parses p2 w a2 ->
  Parses (if c then p1 else p2) w (if c then a1 else a2).
Proof. intros H1 H2. destruct c; assumption. Qed.

Lemma Parses_mapped_guarded_last {A B C} (p : M B) (enc : A -> list byte)
    (dec : A -> B) (xs : list A) (f : list B -> M C) (b : C) :
  Forall (fun x => Parses p (enc x) (dec x)) xs ->
  count_ok xs -> Parses (f (map dec xs)) [] b ->
  Parses (count <- Deserializer.readInt32 ;; Utils.intc count ;;
          ys <- for_count count p ;; f ys)
         (counted enc xs) b.
Proof.
  intros He Hs Hf. rewrite <- (app_nil_r (counted enc xs)).
  now apply (Parses_mapped_guarded_then p enc dec xs He).
Qed.

(** A step through a section that only some versions hold. *)
Ltac gate_leaf :=
  first
    [ eapply Parses_counted_guarded; [parse_all | side]
    | eapply Parses_mapped_guarded; [parse_all | side]
    | parse_leaf ].

Ltac gate_choice :=
  first [ eapply Parses_either; [gate_leaf | gate_leaf]
        | eapply Parses_same; [gate_leaf | gate_leaf] ].

Ltac gate_step :=
  first [ eapply Parses_bind; [gate_choice | parse_simpl]
        | eapply Parses_bind_last; [gate_choice | parse_simpl] ].

Ltac schedule_steps := repeat first [ parse_step | gate_step | parse_mapped ].


Lemma parse_zaxis_at (v : Z) (z : ZAxisVehicle.t) :
  wf_zaxis z ->
  Parses (Deserializer.deserializeZAxisVehicle v) (zaxis_schedule v z)
         (zaxis_decoded v z).
Proof.
  destruct z; intro H; open_wf wf_zaxis H.
  unfold Deserializer.deserializeZAxisVehicle, zaxis_schedule, zaxis_decoded; cbn.
  schedule_steps.
Qed.

Lemma parse_theme (t : ThemeObject.t) :
  wf_theme t ->
  Parses Deserializer.deserializeThemeObject_OBSOLETE (theme_image t) t.
Proof.
  destruct t; intro H; open_wf wf_theme H.
  unfold Deserializer.deserializeThemeObject_OBSOLETE, theme_image; cbn.
  repeat parse_step.
Qed.

Lemma parse_unit_at (v : Z) (u : UnitWire) :
  wf_unit_wire u ->
  Parses (Deserializer.deserializeEventUnit v) (unit_schedule v u)
         (unit_decoded v u).
Proof.
  destruct u; intro H; open_wf wf_unit_wire H.
  unfold Deserializer.deserializeEventUnit, unit_schedule, unit_decoded; cbn.
  destruct (7 <=? v); repeat parse_step.
Qed.

#[export] Hint Resolve parse_zaxis_at parse_theme parse_unit_at : parse.

Lemma parse_stage_at (v : Z) (units : list UnitWire) :
  wf_stage_wire units ->
  Parses (Deserializer.deserializeEventStage v) (stage_schedule v units)
         (stage_decoded v units).
Proof.
  intro H; open_wf wf_stage_wire H.
  unfold Deserializer.deserializeEventStage, stage_schedule, stage_decoded.
  eapply Parses_mapped_last; [parse_all | side | apply Parses_ret].
Qed.

#[export] Hint Resolve parse_stage_at : parse.

Lemma parse_timeline_at (v : Z) (t : TimelineWire) :
  wf_timeline_wire t ->
  Parses (Deserializer.deserializeEventTimeline v) (timeline_schedule v t)
         (timeline_decoded v t).
Proof.
  destruct t; intro H; open_wf wf_timeline_wire H.
  unfold Deserializer.deserializeEventTimeline, timeline_schedule,
    timeline_decoded; cbn.
  eapply Parses_bind; [apply parse_readString; assumption|]. cbv beta.
  eapply Parses_mapped_last; [parse_all | side | apply Parses_ret].
Qed.

Lemma parse_terrain_at (v : Z) (t : TerrainIsland.t) :
  wf_terrain t ->
  Parses (Deserializer.deserializeTerrainStretch v) (terrain_schedule v t)
         (terrain_decoded v t).
Proof.
  destruct t; intro H; open_wf wf_terrain H.
  unfold Deserializer.deserializeTerrainStretch, terrain_schedule,
    terrain_decoded; cbn.
  schedule_steps.
Qed.

Lemma parse_platform_at (v : Z) (p : PlatformWire) :
  wf_platform_wire p ->
  Parses (Deserializer.deserializePlatform v) (platform_schedule v p)
         (platform_decoded v p).
Proof.
  destruct p as [[pos width height flipped solid] legacy].
  intro H; open_wf wf_platform_wire H.
  match goal with X : wf_platform _ |- _ => open_wf wf_platform X end.
  unfold Deserializer.deserializePlatform, platform_schedule, platform_decoded; cbn.
  destruct (22 <=? v); repeat parse_step.
Qed.

Lemma parse_ramp_at (v : Z) (r : RampWire) :
  wf_ramp_wire r ->
  Parses (Deserializer.deserializeRamp v) (ramp_schedule v r) (ramp_decoded v r).
Proof.
  destruct r as [[pos cps height segs spline fv fh hide legs lps] flag int].
  intro H; open_wf wf_ramp_wire H.
  match goal with X : typed_ramp _ |- _ => open_wf typed_ramp X end.
  unfold Deserializer.deserializeRamp, ramp_schedule, ramp_decoded; cbn.
  destruct (22 <=? v); schedule_steps.
Qed.

Lemma parse_water_at (v : Z) (w : WaterBlock.t) :
  wf_water w ->
  Parses (Deserializer.deserializeWaterBlock v) (water_schedule v w)
         (water_decoded v w).
Proof.
  destruct w; intro H; open_wf wf_water H.
  unfold Deserializer.deserializeWaterBlock, water_schedule, water_decoded; cbn.
  schedule_steps.
Qed.

Lemma parse_shape_at (v : Z) (s : ShapeWire) :
  wf_shape_wire s ->
  Parses (Deserializer.deserializeCustomShape v) (shape_schedule v s)
         (shape_decoded v s).
Proof.
  destruct s as [cs legacy]. destruct cs.
  intro H; open_wf wf_shape_wire H.
  match goal with X : typed_shape _ |- _ => open_wf typed_shape X end.
  unfold Deserializer.deserializeCustomShape, shape_schedule, shape_decoded; cbn.
  schedule_steps.
Qed.

Lemma parse_workshop_at (v : Z) (w : Workshop.t) :
  wf_workshop w ->
  Parses (Deserializer.deserializeWorkshop v) (workshop_schedule v w)
         (workshop_decoded v w).
Proof.
  destruct w; intro H; open_wf wf_workshop H.
  unfold Deserializer.deserializeWorkshop, workshop_schedule, workshop_decoded; cbn.
  schedule_steps.
Qed.

Lemma parse_garbage_entry (g : string * list string) :
  wf_garbage_entry g ->
  Parses (Deserializer.readString ;;
          count2 <- Deserializer.readInt32 ;;
          for_count count2 Deserializer.readString)
         (garbage_entry_image g) (snd g).
Proof.
  destruct g as [name items]. intro H; open_wf wf_garbage_entry H.
  unfold garbage_entry_image; cbn [fst snd].
  eapply Parses_bind; [apply parse_readString; assumption|]. cbv beta.
  apply Parses_counted; [|assumption].
  eapply Forall_impl; [|eassumption]. intros x Hx. now apply parse_readString.
Qed.

#[export] Hint Resolve parse_timeline_at parse_terrain_at parse_platform_at
  parse_ramp_at parse_water_at parse_shape_at parse_workshop_at
  parse_garbage_entry : parse.

Lemma parse_discardGarbage (garbage : list (string * list string)) :
  Forall wf_garbage_entry garbage -> size_ok garbage ->
  Parses Deserializer.discardGarbage (counted garbage_entry_image garbage) tt.
Proof.
  intros Hg Hs. unfold Deserializer.discardGarbage.
  eapply (Parses_mapped_last _ garbage_entry_image snd garbage).
  - eapply Forall_impl; [|exact Hg]. intros g Hw. now apply parse_garbage_entry.
  - exact Hs.
  - apply Parses_ret.
Qed.

Lemma parse_bridge_stream (bv : Z) (b : BridgeWire) :
  2 <= bv <= 100 -> wf_bridge_wire b ->
  Parses Deserializer.deserializeBridge (bridge_stream bv b) (bridge_decoded bv b).
Proof. apply bridge_parses. Qed.

Lemma parse_legacy_bridge (b : BridgeWire) :
  wf_bridge_wire b ->
  Parses (count <- Deserializer.readInt32 ;;
          Utils.intc count ;;
          joints <- for_count count Deserializer.deserializeJoint ;;
          count <- Deserializer.readInt32 ;;
          Utils.intc count ;;
          edges <- for_count count (Deserializer.deserializeEdge 0) ;;
          count <- Deserializer.readInt32 ;;
          Utils.intc count ;;
          pistons <- for_count count (Deserializer.deserializePiston 0) ;;
          ret (Bridge.mk 0 joints edges [] pistons [] []))
         (legacy_bridge_image b) (legacy_bridge_decoded b).
Proof.
  destruct b; intro H; open_wf wf_bridge_wire H.
  unfold legacy_bridge_image, legacy_bridge_decoded; cbn.
  eapply Parses_counted_guarded_then; [parse_all | side | parse_simpl].
  eapply Parses_mapped_guarded_then; [parse_all | side | parse_simpl].
  eapply Parses_mapped_guarded_last; [parse_all | side | apply Parses_ret].
Qed.

#[export] Hint Resolve parse_bridge_stream parse_legacy_bridge
  parse_discardGarbage : parse.




(** ** The save slot *)

Lemma parse_get (b : byte) : Parses get [b] (Z_of_byte b).
Proof.
  intros s rest Hr _. exact (proj1 (get_cons s b rest Hr)).
Qed.

Lemma parse_slot_readInt (v : Z) :
  int32_ok v -> Parses SlotDeserializer.readInt (int32_image v) v.
Proof. apply parse_readInt32. Qed.

Lemma parse_slot_string (str : string) :
  int32_ok (Z.of_nat (String.length str)) ->
  Parses SlotDeserializer.readString (slot_string str) str.
Proof.
  intros Hn s rest Hr _.
  rewrite <- (length_string_bytes str) in Hn.
  unfold slot_string in Hr. rewrite <- (length_string_bytes str) in Hr.
  cbn [app] in Hr. rewrite <- app_assoc in Hr.
  rewrite (slot_readString_utf8 s (string_bytes str) rest Hn Hr).
  rewrite bytes_string_bytes. f_equal.
Qed.

(** The entries of a slot: the tag selects the type, and a named tag is
    followed by the name. *)
Ltac peek_tag :=
  unfold SlotDeserializer.peekEntryType;
  eapply Parses_bind; [apply parse_get|];
  match goal with
  | |- context [Z_of_byte ?b] =>
      let v := eval vm_compute in (Z_of_byte b) in
      change (Z_of_byte b) with v
  end;
  cbv beta iota delta [Z.eqb Pos.eqb].

Ltac peek_named :=
  let H := fresh in
  intro H; unfold named_entry;
  match goal with
  | |- Parses _ (?t :: ?w) _ => change (t :: w) with ([t] ++ w)
  end;
  peek_tag; unfold SlotDeserializer.named;
  eapply Parses_bind_last; [apply parse_slot_string; exact H | apply Parses_ret].

Ltac peek_unnamed :=
  rewrite <- (app_nil_r [_]); peek_tag; apply Parses_ret.

Lemma peek_int (name : string) :
  int32_ok (Z.of_nat (String.length name)) ->
  Parses SlotDeserializer.peekEntryType (named_entry x17 name)
         (EntryTypeReturn.mk Integer name).
Proof. peek_named. Qed.

Lemma peek_long (name : string) :
  int32_ok (Z.of_nat (String.length name)) ->
  Parses SlotDeserializer.peekEntryType (named_entry x1b name)
         (EntryTypeReturn.mk Integer name).
Proof. peek_named. Qed.

Lemma peek_string (name : string) :
  int32_ok (Z.of_nat (String.length name)) ->
  Parses SlotDeserializer.peekEntryType (named_entry x27 name)
         (EntryTypeReturn.mk String_ name).
Proof. peek_named. Qed.

Lemma peek_boolean (name : string) :
  int32_ok (Z.of_nat (String.length name)) ->
  Parses SlotDeserializer.peekEntryType (named_entry x2b name)
         (EntryTypeReturn.mk Boolean name).
Proof. peek_named. Qed.

Lemma peek_null (name : string) :
  int32_ok (Z.of_nat (String.length name)) ->
  Parses SlotDeserializer.peekEntryType (named_entry x2d name)
         (EntryTypeReturn.mk Null name).
Proof. peek_named. Qed.

Lemma peek_node (name : string) :
  int32_ok (Z.of_nat (String.length name)) ->
  Parses SlotDeserializer.peekEntryType (named_entry x01 name)
         (EntryTypeReturn.mk StartOfNode name).
Proof. peek_named. Qed.

Lemma peek_unnamed_node :
  Parses SlotDeserializer.peekEntryType [x02]
         (EntryTypeReturn.mk StartOfNode EmptyString).
Proof. peek_unnamed. Qed.

Lemma peek_array :
  Parses SlotDeserializer.peekEntryType [x08]
         (EntryTypeReturn.mk PrimitiveArrayType EmptyString).
Proof. peek_unnamed. Qed.

Lemma peek_end :
  Parses SlotDeserializer.peekEntryType [x05]
         (EntryTypeReturn.mk EndOfNodeType EmptyString).
Proof. peek_unnamed. Qed.


Lemma parse_readTypeEntry (type_name : string) :
  type_name_ok type_name ->
  exists t,
    Parses SlotDeserializer.readTypeEntry
           ([x2f] ++ int32_image 0 ++ slot_string type_name) t.
Proof.
  intros (Hp & Hn).
  destruct (getlines type_name EmptyString) as [|type [|assembly [|]]] eqn:E;
    try discriminate Hp.
  eexists. unfold SlotDeserializer.readTypeEntry.
  eapply Parses_bind; [apply parse_get|].
  change (Z_of_byte x2f) with 47. cbv beta iota delta [Z.ltb Z.eqb Z.compare Pos.eqb].
  eapply Parses_bind; [apply parse_slot_readInt; unfold int32_ok; lia|].
  eapply Parses_bind_last; [apply parse_slot_string; exact Hn|].
  cbv beta. rewrite E. apply Parses_ret.
Qed.

Lemma parse_enterNode (entry : list byte) (name type_name : string) (id : Z) :
  Parses SlotDeserializer.peekEntryType entry
         (EntryTypeReturn.mk StartOfNode name) ->
  type_name_ok type_name -> int32_ok id ->
  Parses SlotDeserializer.enterNode (node_start entry type_name id) tt.
Proof.
  intros Hp Ht Hi. destruct (parse_readTypeEntry type_name Ht) as (t & Hr).
  unfold SlotDeserializer.enterNode, node_start.
  eapply Parses_bind; [exact Hp|].
  cbn [EntryTypeReturn.type EntryType_eqb].
  replace ([x2f] ++ int32_image 0 ++ slot_string type_name ++ int32_image id)
    with (([x2f] ++ int32_image 0 ++ slot_string type_name) ++ int32_image id)
    by (now rewrite <- !app_assoc).
  eapply Parses_bind; [exact Hr|].
  eapply Parses_bind_last; [apply parse_slot_readInt; exact Hi | apply Parses_ret].
Qed.

Lemma parse_readLong (x : Z) :
  - 2 ^ 63 <= x < 2 ^ 63 -> Parses SlotDeserializer.readLong (le_bytes 8 x) x.
Proof.
  intros Hx s rest Hr _. cbn [le_bytes] in Hr.
  rewrite (readLong_bytes _ _ _ _ _ _ _ _ s rest Hr).
  f_equal.
  change (int64 (le_value (le_bytes 8 x)) = x).
  rewrite le_value_le_bytes. apply (signed_small 64); [lia | exact Hx].
Qed.

Lemma parse_slot_readBool (b : bool) :
  Parses SlotDeserializer.readBool [bool_byte b] b.
Proof.
  unfold SlotDeserializer.readBool.
  eapply Parses_bind_last; [apply parse_get|].
  destruct b; apply Parses_ret.
Qed.

Lemma parse_readArray (bytes : list byte) :
  Parses (SlotDeserializer.readArray (Z.of_nat (List.length bytes))) bytes bytes.
Proof.
  unfold SlotDeserializer.readArray.
  destruct (Z.ltb_spec (Z.of_nat (List.length bytes)) 0); [lia|].
  rewrite Nat2Z.id. now apply Parses_read.
Qed.

Lemma parse_onBuffer {A} (p : M A) (buffer : list byte) (a : A) :
  Parses p buffer a -> Parses (onBuffer buffer p) [] a.
Proof.
  intros Hp s rest _ Hu. unfold onBuffer.
  rewrite (Hp (mkSt buffer 0 (unusualNumbers s)) []).
  - cbn. rewrite advance_0. now rewrite state_eta.
  - unfold remaining; cbn. now rewrite app_nil_r.
  - exact Hu.
Qed.

Lemma array_size (bytes : list byte) :
  Z.of_nat (List.length bytes) < 2 ^ 31 ->
  int32 (Z.of_nat (List.length bytes) * 1) = Z.of_nat (List.length bytes).
Proof.
  intro H. rewrite Z.mul_1_r. apply int32_small. unfold int32_ok. lia.
Qed.

Create HintDb slot.

#[export] Hint Resolve peek_int peek_long peek_string peek_boolean peek_null
  peek_node peek_unnamed_node peek_array peek_end parse_get
  parse_slot_readInt parse_slot_string parse_readLong parse_slot_readBool
  parse_enterNode parse_readArray : slot.
#[export] Hint Extern 1 (int32_ok _) =>
  solve [assumption | unfold int32_ok; cbn [String.length]; lia] : slot.

Ltac slot_simpl :=
  cbv beta zeta;
  cbn [EntryTypeReturn.type EntryTypeReturn.name EntryType_eqb String.eqb
       Ascii.eqb Bool.eqb assert andb];
  try rewrite array_size by lia.

Ltac slot_leaf := solve [eauto 4 with slot].

Ltac slot_step :=
  lazymatch goal with
  | |- Parses (ret _) _ _ => apply Parses_ret
  | |- Parses (bind (ret _) _) _ _ =>
      eapply Parses_bind_nil; [apply Parses_ret | slot_simpl]
  | |- Parses (bind (Utils.intc _) _) _ _ =>
      eapply Parses_bind_nil; [apply parse_intc; lia | slot_simpl]
  | |- Parses (bind (Utils.intc_in _ _ _ _ _) _) _ _ =>
      eapply Parses_bind_nil; [apply ensureReasonable_quiet; lia | slot_simpl]
  | |- Parses (bind (Utils.log_info_d _) _) _ _ =>
      eapply Parses_bind_nil; [apply log_info_d_quiet; solve [formats] | slot_simpl]
  | |- Parses (bind (onBuffer _ _) _) _ _ =>
      eapply Parses_bind_nil;
      [apply parse_onBuffer, simple_bridge_parses; assumption | slot_simpl]
  | |- Parses (bind _ _) (_ ++ _) _ =>
      eapply Parses_bind; [slot_leaf | slot_simpl]
  | |- Parses (bind _ _) _ _ =>
      eapply Parses_bind_last; [slot_leaf | slot_simpl]
  end.

Lemma parse_thumb_body (t : ThumbWire) :
  wf_thumb t ->
  Parses (get ;;
          SlotDeserializer.readInt ;;
          node_id <- SlotDeserializer.readInt ;;
          et <- SlotDeserializer.peekEntryType ;;
          assert (EntryType_eqb (EntryTypeReturn.type et) PrimitiveArrayType) ;;
          num <- SlotDeserializer.readInt ;;
          num2 <- SlotDeserializer.readInt ;;
          let num3 := int32 (num * num2) in
          Utils.intc_in num3 0 10000000 0 10000000 ;;
          thumbnail_data <- SlotDeserializer.readArray num3 ;;
          et <- SlotDeserializer.peekEntryType ;;
          assert (EntryType_eqb (EntryTypeReturn.type et) EndOfNodeType) ;;
          ret (Some thumbnail_data))
         (thumb_body t) (Some (th_data t)).
Proof.
  destruct t; intro H; open_wf wf_thumb H.
  unfold thumb_body, byte_array.
  cbn [th_flag th_type th_node th_data].
  repeat rewrite <- app_assoc.
  repeat slot_step.
Qed.

#[export] Hint Resolve parse_thumb_body : slot.

Lemma slot_parses (w : SlotWire) :
  wf_slot_wire w ->
  Parses SlotDeserializer.deserializeSlot (slot_image w) (slot_decoded w).
Proof.
  destruct w; intro H; open_wf wf_slot_wire H.
  unfold SlotDeserializer.deserializeSlot, slot_image, slot_decoded, byte_array.
  cbn [sl_root_type sl_root_id sl_version sl_physics_version sl_slot_id
       sl_display_name sl_filename sl_budget sl_ticks sl_bridge_type
       sl_bridge_id sl_bridge_version sl_bridge sl_thumb
       sl_unlimited_materials sl_unlimited_budget].
  destruct sl_thumb0 as [t|]; cbn [thumb_image option_map];
    repeat rewrite <- app_assoc.
  - repeat slot_step.
  - repeat slot_step.
Qed.

(** X15.  The save-slot decoder follows the schedule of the slot.  A file
    that holds the root node with a type name of two pieces, the entries
    [m_Version], [m_PhysicsVersion], [m_SlotID], [m_DisplayName],
    [m_SlotFilename], [m_Budget] and [m_LastWriteTimeTicks] with their
    values, the node [m_Bridge] with a byte array that holds a bridge stream
    of version 2 to 10, the entry [m_Thumb] as a null entry or as a node with
    a byte array, the two flags and the end of the root node, and then
    anything at all, is decoded to the slot of these values: the bridge
    without its edges and hydraulic phases, the thumbnail absent for the
    null entry and the bytes of the array otherwise, whatever the byte and
    the integer in front of the node id are.  The display name and the
    file name are texts in which every [%] is doubled: the decoder passes
    both to [printf] inside the format.  The cursor stops right after the
    end of the root node and the guard counts nothing. *)
Theorem deserializeSlot_follows_schedule (w : SlotWire) (rest : list byte) :
  wf_slot_wire w ->
  SlotDeserializer.deserializeSlot (fresh (slot_image w ++ rest))
  = Done (slot_decoded w)
         (mkSt (slot_image w ++ rest) (List.length (slot_image w)) 1).
Proof.
  intro Hw.
  rewrite (slot_parses w Hw (fresh (slot_image w ++ rest)) rest).
  - reflexivity.
  - reflexivity.
  - simpl; lia.
Qed.

Lemma deserializeSlot_follows_schedule_witness :
  wf_slot_wire sample_slot_wire /\
  SlotDeserializer.deserializeSlot (fresh (slot_image sample_slot_wire ++ [x2a]))
  = Done (slot_decoded sample_slot_wire)
         (mkSt (slot_image sample_slot_wire ++ [x2a])
               (List.length (slot_image sample_slot_wire)) 1).
Proof.
  assert (Hw : wf_slot_wire sample_slot_wire) by wf_evaluated.
  exact (conj Hw (deserializeSlot_follows_schedule sample_slot_wire [x2a] Hw)).
Defined.
